(** * ballz-game: the simulation core of script.js

    The source holds two revisions of the engine: the grid revision (rows of
    [Block]s that descend each turn) and the barrier revision (free-floating
    [BarrierBlock]s).  Both share the RNG, [clamp], [randomChoice], [Block]
    and [circleRectCollision]; each has its own [Ball], [Particle], [update],
    [finishTurn] and [handleCollisions].  The grid revision is embedded in
    [Module Grid], the barrier revision in [Module Barrier].

    Numbers.  A JavaScript number that only ever holds an integer (column,
    row, strength, score, counters, the RNG word) is a [Z]; the 32-bit
    conversions of the bit operators are written out ([to_int32],
    [to_uint32]).  Every other number (coordinates, velocities, timers, the
    RNG output) is an exact rational [Q]: rounding of IEEE doubles is not
    modelled.  Drawing, DOM, audio and HUD calls have no effect on the
    session state and are left out, but for the colour index and the aim
    guard of [draw].  The pointer handlers of [bindEvents] and the frame
    loop are embedded after the two revisions, in [GridEvents] and
    [BarrierEvents]. *)

From Stdlib Require Import ZArith QArith Qround Qminmax Lqa Lia List Bool String FinFun Sorted.
From stdpp Require Import base list gmap.

Local Open Scope Z_scope.

(** ** JavaScript numerics *)

Module JS.

Definition two32 : Z := 4294967296.

(** ToUint32 and ToInt32 of an integral number. *)
Definition to_uint32 (x : Z) : Z := x mod two32.
Definition to_int32 (x : Z) : Z := (x + 2147483648) mod two32 - 2147483648.

(** [a << k], [a >>> k] and [a ^ b]. *)
Definition shl (a k : Z) : Z := to_int32 (Z.shiftl (to_int32 a) k).
Definition ushr (a k : Z) : Z := Z.shiftr (to_uint32 a) k.
Definition xor (a b : Z) : Z := Z.lxor (to_int32 a) (to_int32 b).

(** [a < b] and [a <= b] on numbers. *)
Definition Qltb (a b : Q) : bool := negb (Qle_bool b a).
Definition Qleb (a b : Q) : bool := Qle_bool a b.

(** [Math.floor], [Math.round] (halves go up), [Math.max], [Math.min]. *)
Definition Math_floor (x : Q) : Z := Qfloor x.
Definition Math_round (x : Q) : Z := Qfloor (x + (1 # 2))%Q.
Definition Math_max (a b : Q) : Q := Qmax a b.
Definition Math_min (a b : Q) : Q := Qmin a b.

(** [const clamp = (value, min, max) => Math.max(min, Math.min(max, value))] *)
Definition clamp (value min max : Q) : Q := Math_max min (Math_min max value).

(** A field that is [undefined] until first assigned, then [null] or a
    number ([activeBallChainLanding]). *)
Inductive nullable : Type :=
| Undefined
| Null
| Num (x : Q).

(** [a ?? b] *)
Definition nullish (a : nullable) (b : Q) : Q :=
  match a with Num x => x | _ => b end.

(** [a === null] *)
Definition is_null (a : nullable) : bool :=
  match a with Null => true | _ => false end.

(** ToNumber of a field that is [null] or a number ([turnAngle]). *)
Definition to_number (a : option Q) : Q :=
  match a with Some x => x | None => 0%Q end.

End JS.

(** ** class RNG *)

Module RNG.

Record t : Type := mk { state : Z }.

(** [constructor(seed) { this.state = seed >>> 0; }] *)
Definition new (seed : Z) : t := mk (JS.ushr seed 0).

(** The xorshift32 word update of [next()]. *)
Definition step (s : Z) : Z :=
  let x := s in
  let x := JS.xor x (JS.shl x 13) in
  let x := JS.xor x (JS.ushr x 17) in
  let x := JS.xor x (JS.shl x 5) in
  JS.ushr x 0.

(** [next()]: [this.state / 0xffffffff] and the advanced generator. *)
Definition next (r : t) : Q * t :=
  let s := step (state r) in
  (inject_Z s / inject_Z 4294967295, mk s)%Q.

(** The generator after [n] calls, and the outputs of the first [n] calls. *)
Fixpoint advance (n : nat) (r : t) : t :=
  match n with
  | O => r
  | S n' => advance n' (snd (next r))
  end.

Fixpoint outputs (n : nat) (r : t) : list Q :=
  match n with
  | O => nil
  | S n' => fst (next r) :: outputs n' (snd (next r))
  end.

End RNG.

(** ** The host: canvas size, [Math] functions that are not rational, and the
    stream of [Math.random()] results. *)

Class Host : Type := {
  GAME_WIDTH : Q;
  GAME_HEIGHT : Q;
  Math_PI : Q;
  Math_cos : Q -> Q;
  Math_sin : Q -> Q;
  Math_random : nat -> Q
}.

Definition GRID_COLUMNS : Z := 7.
Definition GRID_SIZE `{Host} : Q := (GAME_WIDTH / inject_Z GRID_COLUMNS)%Q.
Definition BALL_RADIUS : Q := 7%Q.
Definition MAX_FLOATING_BLOCKS : nat := 24.

(** [function randomChoice(arr, rng)]: [None] is [undefined], the element
    read past the end of [arr]. *)
Definition randomChoice {A : Type} (arr : list A) (rng : RNG.t) : option A * RNG.t :=
  let '(v, rng) := RNG.next rng in
  (arr !! Z.to_nat (JS.Math_floor (v * inject_Z (Z.of_nat (length arr)))%Q), rng).

(** ** Rectangles and the circle test *)

Module Rect.
Record t : Type := mk { x : Q; y : Q; w : Q; h : Q }.
End Rect.

(** [circleRectCollision(ball, rect)] reads [ball.x] and [ball.y] only; both
    revisions have the same body. *)
Definition circleRectCollision_at (ball_x ball_y : Q) (rect : Rect.t) : bool :=
  let closestX := JS.clamp ball_x (Rect.x rect) (Rect.x rect + Rect.w rect)%Q in
  let closestY := JS.clamp ball_y (Rect.y rect) (Rect.y rect + Rect.h rect)%Q in
  let dx := (ball_x - closestX)%Q in
  let dy := (ball_y - closestY)%Q in
  JS.Qltb (dx * dx + dy * dy)%Q (BALL_RADIUS * BALL_RADIUS)%Q.

(** ** class Block *)

Module Block.

(** [col] is [None] when the constructor received [undefined]. *)
Record t : Type := mk {
  col : option Z;
  row : Z;
  strength : Z;
  type : string;
  destroyed : bool
}.

(** [new Block(col, row, strength, type)] *)
Definition new (col : option Z) (row strength : Z) (type : string) : t :=
  mk col row strength type false.

Definition size `{Host} : Q := (GRID_SIZE - 12)%Q.

(** [get rect()]; with an [undefined] column [x] is NaN ([None]). *)
Definition rect `{Host} (b : t) : option Rect.t :=
  match col b with
  | Some c =>
      Some (Rect.mk (inject_Z c * GRID_SIZE + 6)%Q
                    (inject_Z (row b) * GRID_SIZE + 6)%Q size size)
  | None => None
  end.

Definition updateRow (newRow : Z) (b : t) : t :=
  mk (col b) newRow (strength b) (type b) (destroyed b).

Definition set_strength (s : Z) (b : t) : t :=
  mk (col b) (row b) s (type b) (destroyed b).

Definition set_destroyed (d : bool) (b : t) : t :=
  mk (col b) (row b) (strength b) (type b) d.

Definition is_block (b : t) : bool := String.eqb (type b) "block".
Definition is_pickup (b : t) : bool := String.eqb (type b) "pickup".

End Block.

(** A comparison with a NaN operand is false: a block whose rectangle is NaN
    never collides. *)
Definition collides (ball_x ball_y : Q) (rect : option Rect.t) : bool :=
  match rect with
  | Some r => circleRectCollision_at ball_x ball_y r
  | None => false
  end.

(** ** Vocabulary of the statements about rectangles *)

(** The point [(px, py)] lies in the closed rectangle. *)
Definition in_rect (px py : Q) (r : Rect.t) : Prop :=
  (Rect.x r <= px <= Rect.x r + Rect.w r)%Q /\
  (Rect.y r <= py <= Rect.y r + Rect.h r)%Q.

(** The point lies on one of the four edges. *)
Definition on_boundary (px py : Q) (r : Rect.t) : Prop :=
  in_rect px py r /\
  (px == Rect.x r \/ px == Rect.x r + Rect.w r \/
   py == Rect.y r \/ py == Rect.y r + Rect.h r)%Q.

(** Squared Euclidean distance. *)
Definition sqdist (x y px py : Q) : Q :=
  ((x - px) * (x - px) + (y - py) * (y - py))%Q.

(** The centre clamped into the rectangle. *)
Definition closest (x y : Q) (r : Rect.t) : Q * Q :=
  (JS.clamp x (Rect.x r) (Rect.x r + Rect.w r)%Q,
   JS.clamp y (Rect.y r) (Rect.y r + Rect.h r)%Q).

(** ** The grid revision *)

Module Grid.

Definition BALL_SPEED : Q := (62 # 10)%Q.

Module Ball.

Record t : Type := mk { x : Q; y : Q; vx : Q; vy : Q; resting : bool }.

(** [new Ball(x, y, angle)] *)
Definition new `{Host} (x y angle : Q) : t :=
  mk x y (Math_cos angle * BALL_SPEED)%Q (Math_sin angle * BALL_SPEED)%Q false.

(** [update(delta)] *)
Definition update `{Host} (delta : Q) (b : t) : t :=
  if resting b then b
  else
    let x := (x b + vx b * delta)%Q in
    let y := (y b + vy b * delta)%Q in
    let vx := vx b in
    let vy := vy b in
    let '(x, vx) :=
      if JS.Qleb (x - BALL_RADIUS) 0 && JS.Qltb vx 0
      then (BALL_RADIUS, (vx * -1)%Q)
      else if JS.Qleb GAME_WIDTH (x + BALL_RADIUS) && JS.Qltb 0 vx
      then ((GAME_WIDTH - BALL_RADIUS)%Q, (vx * -1)%Q)
      else (x, vx) in
    let '(y, vy) :=
      if JS.Qleb (y - BALL_RADIUS) 0 && JS.Qltb vy 0
      then (BALL_RADIUS, (vy * -1)%Q)
      else (y, vy) in
    mk x y vx vy false.

(** [setResting(baseY)] *)
Definition setResting (baseY : Q) (b : t) : t :=
  mk (x b) (baseY - BALL_RADIUS)%Q 0%Q 0%Q true.

Definition set_vx (v : Q) (b : t) : t := mk (x b) (y b) v (vy b) (resting b).
Definition set_vy (v : Q) (b : t) : t := mk (x b) (y b) (vx b) v (resting b).

End Ball.

Module Particle.

Record t : Type := mk { x : Q; y : Q; vx : Q; vy : Q; life : Q; color : string }.

(** [new Particle(x, y, color)]; [n] counts the [Math.random()] calls made
    so far. *)
Definition new `{Host} (x y : Q) (color : string) (n : nat) : t * nat :=
  (mk x y ((Math_random n - (1 # 2)) * 120)%Q
          ((Math_random (S n) - (1 # 2)) * 120)%Q (4 # 10)%Q color,
   S (S n)).

(** [update(delta)] *)
Definition update (delta : Q) (p : t) : t :=
  mk (x p + vx p * delta)%Q (y p + vy p * delta)%Q (vx p)
     (vy p + 300 * delta)%Q (life p - delta)%Q (color p).

End Particle.

(** The fields of [Game]; [entropy] counts the [Math.random()] calls made
    so far.  [restingBalls] holds the balls as they were when they came to
    rest (a resting ball is never written again). *)
Record Game : Type := mkGame {
  rng : RNG.t;
  blocks : list Block.t;
  balls : list Ball.t;
  particles : list Particle.t;
  pendingBalls : Z;
  ballChain : Z;
  baseBallPosition : Q;
  baseY : Q;
  turnAngle : option Q;
  isAiming : bool;
  isLaunching : bool;
  turn : Z;
  score : Z;
  timeAccumulator : Q;
  isGameOver : bool;
  launchTimer : Q;
  restingBalls : list Ball.t;
  activeBallChainLanding : JS.nullable;
  entropy : nat
}.

Definition set_rng (v : RNG.t) (g : Game) : Game :=
  {| rng := v; blocks := blocks g; balls := balls g;
     particles := particles g; pendingBalls := pendingBalls g;
     ballChain := ballChain g; baseBallPosition := baseBallPosition g;
     baseY := baseY g; turnAngle := turnAngle g; isAiming := isAiming g;
     isLaunching := isLaunching g; turn := turn g; score := score g;
     timeAccumulator := timeAccumulator g; isGameOver := isGameOver g;
     launchTimer := launchTimer g; restingBalls := restingBalls g;
     activeBallChainLanding := activeBallChainLanding g;
     entropy := entropy g |}.

Definition set_blocks (v : list Block.t) (g : Game) : Game :=
  {| rng := rng g; blocks := v; balls := balls g; particles := particles g;
     pendingBalls := pendingBalls g; ballChain := ballChain g;
     baseBallPosition := baseBallPosition g; baseY := baseY g;
     turnAngle := turnAngle g; isAiming := isAiming g;
     isLaunching := isLaunching g; turn := turn g; score := score g;
     timeAccumulator := timeAccumulator g; isGameOver := isGameOver g;
     launchTimer := launchTimer g; restingBalls := restingBalls g;
     activeBallChainLanding := activeBallChainLanding g;
     entropy := entropy g |}.

Definition set_balls (v : list Ball.t) (g : Game) : Game :=
  {| rng := rng g; blocks := blocks g; balls := v; particles := particles g;
     pendingBalls := pendingBalls g; ballChain := ballChain g;
     baseBallPosition := baseBallPosition g; baseY := baseY g;
     turnAngle := turnAngle g; isAiming := isAiming g;
     isLaunching := isLaunching g; turn := turn g; score := score g;
     timeAccumulator := timeAccumulator g; isGameOver := isGameOver g;
     launchTimer := launchTimer g; restingBalls := restingBalls g;
     activeBallChainLanding := activeBallChainLanding g;
     entropy := entropy g |}.

Definition set_particles (v : list Particle.t) (g : Game) : Game :=
  {| rng := rng g; blocks := blocks g; balls := balls g; particles := v;
     pendingBalls := pendingBalls g; ballChain := ballChain g;
     baseBallPosition := baseBallPosition g; baseY := baseY g;
     turnAngle := turnAngle g; isAiming := isAiming g;
     isLaunching := isLaunching g; turn := turn g; score := score g;
     timeAccumulator := timeAccumulator g; isGameOver := isGameOver g;
     launchTimer := launchTimer g; restingBalls := restingBalls g;
     activeBallChainLanding := activeBallChainLanding g;
     entropy := entropy g |}.

Definition set_pendingBalls (v : Z) (g : Game) : Game :=
  {| rng := rng g; blocks := blocks g; balls := balls g;
     particles := particles g; pendingBalls := v; ballChain := ballChain g;
     baseBallPosition := baseBallPosition g; baseY := baseY g;
     turnAngle := turnAngle g; isAiming := isAiming g;
     isLaunching := isLaunching g; turn := turn g; score := score g;
     timeAccumulator := timeAccumulator g; isGameOver := isGameOver g;
     launchTimer := launchTimer g; restingBalls := restingBalls g;
     activeBallChainLanding := activeBallChainLanding g;
     entropy := entropy g |}.

Definition set_ballChain (v : Z) (g : Game) : Game :=
  {| rng := rng g; blocks := blocks g; balls := balls g;
     particles := particles g; pendingBalls := pendingBalls g;
     ballChain := v; baseBallPosition := baseBallPosition g;
     baseY := baseY g; turnAngle := turnAngle g; isAiming := isAiming g;
     isLaunching := isLaunching g; turn := turn g; score := score g;
     timeAccumulator := timeAccumulator g; isGameOver := isGameOver g;
     launchTimer := launchTimer g; restingBalls := restingBalls g;
     activeBallChainLanding := activeBallChainLanding g;
     entropy := entropy g |}.

Definition set_baseBallPosition (v : Q) (g : Game) : Game :=
  {| rng := rng g; blocks := blocks g; balls := balls g;
     particles := particles g; pendingBalls := pendingBalls g;
     ballChain := ballChain g; baseBallPosition := v; baseY := baseY g;
     turnAngle := turnAngle g; isAiming := isAiming g;
     isLaunching := isLaunching g; turn := turn g; score := score g;
     timeAccumulator := timeAccumulator g; isGameOver := isGameOver g;
     launchTimer := launchTimer g; restingBalls := restingBalls g;
     activeBallChainLanding := activeBallChainLanding g;
     entropy := entropy g |}.

Definition set_baseY (v : Q) (g : Game) : Game :=
  {| rng := rng g; blocks := blocks g; balls := balls g;
     particles := particles g; pendingBalls := pendingBalls g;
     ballChain := ballChain g; baseBallPosition := baseBallPosition g;
     baseY := v; turnAngle := turnAngle g; isAiming := isAiming g;
     isLaunching := isLaunching g; turn := turn g; score := score g;
     timeAccumulator := timeAccumulator g; isGameOver := isGameOver g;
     launchTimer := launchTimer g; restingBalls := restingBalls g;
     activeBallChainLanding := activeBallChainLanding g;
     entropy := entropy g |}.

Definition set_turnAngle (v : option Q) (g : Game) : Game :=
  {| rng := rng g; blocks := blocks g; balls := balls g;
     particles := particles g; pendingBalls := pendingBalls g;
     ballChain := ballChain g; baseBallPosition := baseBallPosition g;
     baseY := baseY g; turnAngle := v; isAiming := isAiming g;
     isLaunching := isLaunching g; turn := turn g; score := score g;
     timeAccumulator := timeAccumulator g; isGameOver := isGameOver g;
     launchTimer := launchTimer g; restingBalls := restingBalls g;
     activeBallChainLanding := activeBallChainLanding g;
     entropy := entropy g |}.

Definition set_isAiming (v : bool) (g : Game) : Game :=
  {| rng := rng g; blocks := blocks g; balls := balls g;
     particles := particles g; pendingBalls := pendingBalls g;
     ballChain := ballChain g; baseBallPosition := baseBallPosition g;
     baseY := baseY g; turnAngle := turnAngle g; isAiming := v;
     isLaunching := isLaunching g; turn := turn g; score := score g;
     timeAccumulator := timeAccumulator g; isGameOver := isGameOver g;
     launchTimer := launchTimer g; restingBalls := restingBalls g;
     activeBallChainLanding := activeBallChainLanding g;
     entropy := entropy g |}.

Definition set_isLaunching (v : bool) (g : Game) : Game :=
  {| rng := rng g; blocks := blocks g; balls := balls g;
     particles := particles g; pendingBalls := pendingBalls g;
     ballChain := ballChain g; baseBallPosition := baseBallPosition g;
     baseY := baseY g; turnAngle := turnAngle g; isAiming := isAiming g;
     isLaunching := v; turn := turn g; score := score g;
     timeAccumulator := timeAccumulator g; isGameOver := isGameOver g;
     launchTimer := launchTimer g; restingBalls := restingBalls g;
     activeBallChainLanding := activeBallChainLanding g;
     entropy := entropy g |}.

Definition set_turn (v : Z) (g : Game) : Game :=
  {| rng := rng g; blocks := blocks g; balls := balls g;
     particles := particles g; pendingBalls := pendingBalls g;
     ballChain := ballChain g; baseBallPosition := baseBallPosition g;
     baseY := baseY g; turnAngle := turnAngle g; isAiming := isAiming g;
     isLaunching := isLaunching g; turn := v; score := score g;
     timeAccumulator := timeAccumulator g; isGameOver := isGameOver g;
     launchTimer := launchTimer g; restingBalls := restingBalls g;
     activeBallChainLanding := activeBallChainLanding g;
     entropy := entropy g |}.

Definition set_score (v : Z) (g : Game) : Game :=
  {| rng := rng g; blocks := blocks g; balls := balls g;
     particles := particles g; pendingBalls := pendingBalls g;
     ballChain := ballChain g; baseBallPosition := baseBallPosition g;
     baseY := baseY g; turnAngle := turnAngle g; isAiming := isAiming g;
     isLaunching := isLaunching g; turn := turn g; score := v;
     timeAccumulator := timeAccumulator g; isGameOver := isGameOver g;
     launchTimer := launchTimer g; restingBalls := restingBalls g;
     activeBallChainLanding := activeBallChainLanding g;
     entropy := entropy g |}.

Definition set_timeAccumulator (v : Q) (g : Game) : Game :=
  {| rng := rng g; blocks := blocks g; balls := balls g;
     particles := particles g; pendingBalls := pendingBalls g;
     ballChain := ballChain g; baseBallPosition := baseBallPosition g;
     baseY := baseY g; turnAngle := turnAngle g; isAiming := isAiming g;
     isLaunching := isLaunching g; turn := turn g; score := score g;
     timeAccumulator := v; isGameOver := isGameOver g;
     launchTimer := launchTimer g; restingBalls := restingBalls g;
     activeBallChainLanding := activeBallChainLanding g;
     entropy := entropy g |}.

Definition set_isGameOver (v : bool) (g : Game) : Game :=
  {| rng := rng g; blocks := blocks g; balls := balls g;
     particles := particles g; pendingBalls := pendingBalls g;
     ballChain := ballChain g; baseBallPosition := baseBallPosition g;
     baseY := baseY g; turnAngle := turnAngle g; isAiming := isAiming g;
     isLaunching := isLaunching g; turn := turn g; score := score g;
     timeAccumulator := timeAccumulator g; isGameOver := v;
     launchTimer := launchTimer g; restingBalls := restingBalls g;
     activeBallChainLanding := activeBallChainLanding g;
     entropy := entropy g |}.

Definition set_launchTimer (v : Q) (g : Game) : Game :=
  {| rng := rng g; blocks := blocks g; balls := balls g;
     particles := particles g; pendingBalls := pendingBalls g;
     ballChain := ballChain g; baseBallPosition := baseBallPosition g;
     baseY := baseY g; turnAngle := turnAngle g; isAiming := isAiming g;
     isLaunching := isLaunching g; turn := turn g; score := score g;
     timeAccumulator := timeAccumulator g; isGameOver := isGameOver g;
     launchTimer := v; restingBalls := restingBalls g;
     activeBallChainLanding := activeBallChainLanding g;
     entropy := entropy g |}.

Definition set_restingBalls (v : list Ball.t) (g : Game) : Game :=
  {| rng := rng g; blocks := blocks g; balls := balls g;
     particles := particles g; pendingBalls := pendingBalls g;
     ballChain := ballChain g; baseBallPosition := baseBallPosition g;
     baseY := baseY g; turnAngle := turnAngle g; isAiming := isAiming g;
     isLaunching := isLaunching g; turn := turn g; score := score g;
     timeAccumulator := timeAccumulator g; isGameOver := isGameOver g;
     launchTimer := launchTimer g; restingBalls := v;
     activeBallChainLanding := activeBallChainLanding g;
     entropy := entropy g |}.

Definition set_activeBallChainLanding (v : JS.nullable) (g : Game) : Game :=
  {| rng := rng g; blocks := blocks g; balls := balls g;
     particles := particles g; pendingBalls := pendingBalls g;
     ballChain := ballChain g; baseBallPosition := baseBallPosition g;
     baseY := baseY g; turnAngle := turnAngle g; isAiming := isAiming g;
     isLaunching := isLaunching g; turn := turn g; score := score g;
     timeAccumulator := timeAccumulator g; isGameOver := isGameOver g;
     launchTimer := launchTimer g; restingBalls := restingBalls g;
     activeBallChainLanding := v; entropy := entropy g |}.

Definition set_entropy (v : nat) (g : Game) : Game :=
  {| rng := rng g; blocks := blocks g; balls := balls g;
     particles := particles g; pendingBalls := pendingBalls g;
     ballChain := ballChain g; baseBallPosition := baseBallPosition g;
     baseY := baseY g; turnAngle := turnAngle g; isAiming := isAiming g;
     isLaunching := isLaunching g; turn := turn g; score := score g;
     timeAccumulator := timeAccumulator g; isGameOver := isGameOver g;
     launchTimer := launchTimer g; restingBalls := restingBalls g;
     activeBallChainLanding := activeBallChainLanding g; entropy := v |}.

(** The session object when [new Game()] has created the generator and is
    about to call [reset()]; [seed] is [Date.now() & 0xffffffff].  The fields
    that [reset()] assigns, and those that stay [undefined] until
    [launchTurn] assigns them, hold a placeholder. *)
Definition fresh (seed : Z) : Game :=
  mkGame (RNG.new seed) [] [] [] 0 0 0%Q 0%Q None false false 0 0 0%Q
         false 0%Q [] JS.Undefined 0%nat.

Section Methods.
Context `{Host}.

(** [launchTurn(angle)] *)
Definition launchTurn (angle : Q) (g : Game) : Game :=
  let g := set_isLaunching true g in
  let g := set_turnAngle (Some angle) g in
  let g := set_pendingBalls (ballChain g) g in
  let g := set_launchTimer 0%Q g in
  let g := set_restingBalls [] g in
  set_activeBallChainLanding JS.Null g.

(** The body of the [while (blockCount > 0)] loop of [spawnRow]; [fuel]
    bounds the number of iterations, [None] when it runs out. *)
Fixpoint spawnRow_loop (fuel : nat) (blockCount : Z) (taken : gset Z) (g : Game)
  : option (gset Z * Game) :=
  if blockCount >? 0 then
    match fuel with
    | O => None
    | S fuel =>
        let '(v, r) := RNG.next (rng g) in
        let g := set_rng r g in
        let col := JS.Math_floor (v * inject_Z GRID_COLUMNS)%Q in
        if bool_decide (col ∈ taken) then spawnRow_loop fuel blockCount taken g
        else
          let taken := {[col]} ∪ taken in
          let blockCount := blockCount - 1 in
          let '(v, r) := RNG.next (rng g) in
          let g := set_rng r g in
          let strength :=
            Z.max 1 (JS.Math_round (inject_Z (turn g) * ((1 # 2) + v))%Q) in
          let g := set_blocks (blocks g ++ [Block.new (Some col) 0 strength "block"]) g in
          spawnRow_loop fuel blockCount taken g
    end
  else Some (taken, g).

Definition minBlocks : Z := Z.min 3 GRID_COLUMNS.
Definition maxBlocks : Z :=
  Z.max 3 (JS.Math_floor (inject_Z GRID_COLUMNS * (85 # 100))%Q).

(** [spawnRow()] *)
Definition spawnRow (fuel : nat) (g : Game) : option Game :=
  let '(v, r) := RNG.next (rng g) in
  let g := set_rng r g in
  let blockCount :=
    JS.Math_floor (v * inject_Z (maxBlocks - minBlocks + 1))%Q + minBlocks in
  match spawnRow_loop fuel blockCount ∅ g with
  | None => None
  | Some (taken, g) =>
      let '(v, r) := RNG.next (rng g) in
      let g := set_rng r g in
      if JS.Qltb (65 # 100) v then
        let freeCols :=
          List.filter (fun c => negb (bool_decide (c ∈ taken)))
                      (List.map Z.of_nat (seq 0 (Z.to_nat GRID_COLUMNS))) in
        if (0 <? Z.of_nat (length freeCols)) then
          let '(spawnCol, r) := randomChoice freeCols (rng g) in
          let g := set_rng r g in
          Some (set_blocks (blocks g ++ [Block.new spawnCol 0 1 "pickup"]) g)
        else Some g
      else Some g
  end.

(** [reset()] *)
Definition reset (fuel : nat) (g : Game) : option Game :=
  let g := set_blocks [] g in
  let g := set_balls [] g in
  let g := set_particles [] g in
  let g := set_pendingBalls 0 g in
  let g := set_ballChain 1 g in
  let g := set_baseBallPosition (GAME_WIDTH / 2)%Q g in
  let g := set_baseY (GAME_HEIGHT - 24)%Q g in
  let g := set_turnAngle None g in
  let g := set_isAiming false g in
  let g := set_isLaunching false g in
  let g := set_turn 1 g in
  let g := set_score 0 g in
  let g := set_timeAccumulator 0%Q g in
  let g := set_isGameOver false g in
  spawnRow fuel g.

(** [new Game()] up to [requestAnimationFrame]. *)
Definition new (fuel : nat) (seed : Z) : option Game := reset fuel (fresh seed).

(** [gameOver()] *)
Definition gameOver (g : Game) : Game :=
  let g := set_isLaunching false g in
  let g := set_isAiming false g in
  let g := set_turnAngle None g in
  set_isGameOver true g.

(** The [for] loop of [stepRowsDown()]: the rows after the loop and whether
    it left by [return true]. *)
Fixpoint stepRowsDown_loop (bs : list Block.t) : list Block.t * bool :=
  match bs with
  | [] => ([], false)
  | block :: rest =>
      let block := Block.updateRow (Block.row block + 1) block in
      if JS.Qleb (GAME_HEIGHT - GRID_SIZE) (inject_Z (Block.row block) * GRID_SIZE)
      then (block :: rest, true)
      else let '(rest, r) := stepRowsDown_loop rest in (block :: rest, r)
  end.

(** [stepRowsDown()] *)
Definition stepRowsDown (g : Game) : Game * bool :=
  let '(bs, reached) := stepRowsDown_loop (blocks g) in
  let g := set_blocks bs g in
  if reached then (gameOver g, true) else (g, false).

(** The assignments of [finishTurn()] before the rows step down. *)
Definition finishTurn_settle (g : Game) : Game :=
  let g := set_isLaunching false g in
  let g := set_isAiming false g in
  let g := set_turnAngle None g in
  let g := set_turn (turn g + 1) g in
  let g := set_balls [] g in
  set_baseBallPosition
    (JS.nullish (activeBallChainLanding g) (baseBallPosition g)) g.

(** [finishTurn()] *)
Definition finishTurn (fuel : nat) (g : Game) : option Game :=
  let g := finishTurn_settle g in
  let '(g, reachedBottom) := stepRowsDown g in
  if negb reachedBottom then spawnRow fuel g else Some g.

(** The loop of [spawnHitParticles]: [count] particles are pushed. *)
Fixpoint push_particles (count : nat) (x y : Q) (color : string) (g : Game) : Game :=
  match count with
  | O => g
  | S count =>
      let '(p, n) := Particle.new x y color (entropy g) in
      let g := set_entropy n g in
      let g := set_particles (particles g ++ [p]) g in
      push_particles count x y color g
  end.

(** [spawnHitParticles(x, y)] *)
Definition spawnHitParticles (x y : Q) (g : Game) : Game :=
  let count := 6 + JS.Math_floor (Math_random (entropy g) * 6)%Q in
  let g := set_entropy (S (entropy g)) g in
  push_particles (Z.to_nat count) x y "#ffffff" g.

(** The body of the [if (this.circleRectCollision(ball, rect))] branch of
    [handleCollisions] for one block with rectangle [rect]. *)
Definition hit (rect : Rect.t) (block : Block.t) (ball : Ball.t) (g : Game)
  : Block.t * Ball.t * Game :=
  let prevX := (Ball.x ball - Ball.vx ball)%Q in
  let prevY := (Ball.y ball - Ball.vy ball)%Q in
  let isHorizontal :=
    JS.Qleb (prevY + BALL_RADIUS) (Rect.y rect)
    || JS.Qleb (Rect.y rect + Rect.h rect) (prevY - BALL_RADIUS) in
  let '(block, g) :=
    if Block.is_pickup block then
      let block := Block.set_destroyed true block in
      let g := set_ballChain (ballChain g + 1) g in
      let g := set_score (score g + 10) g in
      (block, g)
    else if Block.is_block block then
      let block := Block.set_strength (Block.strength block - 1) block in
      let g := set_score (score g + 5) g in
      (block, g)
    else (block, g) in
  let g :=
    spawnHitParticles (Rect.x rect + Rect.w rect / 2) (Rect.y rect + Rect.h rect / 2) g in
  let block :=
    if (Block.is_block block && (Block.strength block <=? 0)) || Block.destroyed block
    then Block.set_destroyed true block
    else block in
  let ball :=
    if isHorizontal then Ball.set_vy (Ball.vy ball * -1)%Q ball
    else Ball.set_vx (Ball.vx ball * -1)%Q ball in
  (block, ball, g).

(** One iteration of [for (const block of this.blocks)]. *)
Definition visit (block : Block.t) (ball : Ball.t) (g : Game)
  : Block.t * Ball.t * Game :=
  if Block.destroyed block then (block, ball, g)
  else
    match Block.rect block with
    | Some rect =>
        if circleRectCollision_at (Ball.x ball) (Ball.y ball) rect
        then hit rect block ball g
        else (block, ball, g)
    | None => (block, ball, g)
    end.

(** The whole [for] loop: the blocks as the loop leaves them. *)
Fixpoint visit_all (bs : list Block.t) (ball : Ball.t) (g : Game)
  : list Block.t * Ball.t * Game :=
  match bs with
  | [] => ([], ball, g)
  | block :: rest =>
      let '(block, ball, g) := visit block ball g in
      let '(rest, ball, g) := visit_all rest ball g in
      (block :: rest, ball, g)
  end.

(** [handleCollisions(ball)] *)
Definition handleCollisions (ball : Ball.t) (g : Game) : Ball.t * Game :=
  let '(bs, ball, g) := visit_all (blocks g) ball g in
  (ball, set_blocks (List.filter (fun block => negb (Block.destroyed block)) bs) g).

(** The spawn step at the head of [update]. *)
Definition launch_step (delta : Q) (g : Game) : Game :=
  if isLaunching g then
    let g := set_launchTimer (launchTimer g - delta)%Q g in
    if (pendingBalls g >? 0) && JS.Qleb (launchTimer g) 0 then
      let g := set_launchTimer (1 # 10)%Q g in
      let g := set_pendingBalls (pendingBalls g - 1) g in
      let spawnPointX := JS.nullish (activeBallChainLanding g) (baseBallPosition g) in
      let ball :=
        Ball.new spawnPointX (baseY g - BALL_RADIUS)%Q (JS.to_number (turnAngle g)) in
      set_balls (balls g ++ [ball]) g
    else g
  else g.

(** The body of [for (const ball of this.balls)] for a ball that moves. *)
Definition move_ball (delta : Q) (ball : Ball.t) (g : Game) : Ball.t * Game :=
  let ball := Ball.update delta ball in
  let '(ball, g) := handleCollisions ball g in
  if JS.Qleb (baseY g) (Ball.y ball + BALL_RADIUS) && JS.Qltb 0 (Ball.vy ball) then
    let ball := Ball.setResting (baseY g) ball in
    let g := set_restingBalls (restingBalls g ++ [ball]) g in
    let g :=
      if JS.is_null (activeBallChainLanding g)
      then set_activeBallChainLanding (JS.Num (Ball.x ball)) g
      else g in
    (ball, g)
  else (ball, g).

Fixpoint update_balls (delta : Q) (bs : list Ball.t) (g : Game)
  : list Ball.t * Game :=
  match bs with
  | [] => ([], g)
  | ball :: rest =>
      let '(ball, g) :=
        if Ball.resting ball then (ball, g) else move_ball delta ball g in
      let '(rest, g) := update_balls delta rest g in
      (ball :: rest, g)
  end.

Definition ball_step (delta : Q) (g : Game) : Game :=
  let '(bs, g) := update_balls delta (balls g) g in
  set_balls bs g.

Definition particle_step (delta : Q) (g : Game) : Game :=
  let ps := List.filter (fun p => JS.Qltb 0 (Particle.life p)) (particles g) in
  set_particles (List.map (Particle.update delta) ps) g.

(** The guard of the call of [finishTurn] at the end of [update]. *)
Definition turn_done (g : Game) : bool :=
  isLaunching g && (pendingBalls g =? 0) && forallb Ball.resting (balls g).

(** [update(delta)] up to the last [if]. *)
Definition simulate (delta : Q) (g : Game) : Game :=
  particle_step delta (ball_step delta (launch_step delta g)).

(** [update(delta)] *)
Definition update (fuel : nat) (delta : Q) (g : Game) : option Game :=
  if isGameOver g then Some g
  else
    let g := simulate delta g in
    if turn_done g then finishTurn fuel g else Some g.

End Methods.

End Grid.

(** ** Vocabulary of the statements about collision passes (grid revision) *)

Section GridPasses.
Context `{Host}.

(** The collision passes of a sequence of balls, one [handleCollisions] call
    after the other. *)
Definition collide_all (balls : list Grid.Ball.t) (g : Grid.Game) : Grid.Game :=
  fold_left (fun g ball => snd (Grid.handleCollisions ball g)) balls g.

(** The centre of the ball lies within [BALL_RADIUS] of the block's
    rectangle. *)
Definition reaches (ball : Grid.Ball.t) (block : Block.t) : bool :=
  collides (Grid.Ball.x ball) (Grid.Ball.y ball) (Block.rect block).

(** How many balls of the sequence reach the block. *)
Definition hits (block : Block.t) (balls : list Grid.Ball.t) : Z :=
  Z.of_nat (length (List.filter (fun ball => reaches ball block) balls)).

(** What one hit writes to the block. *)
Definition struck (block : Block.t) : Block.t :=
  let block :=
    if Block.is_pickup block then Block.set_destroyed true block
    else if Block.is_block block
    then Block.set_strength (Block.strength block - 1) block
    else block in
  if (Block.is_block block && (Block.strength block <=? 0)) || Block.destroyed block
  then Block.set_destroyed true block
  else block.

(** The block as one pass of the ball leaves it in the array, before the
    array is filtered. *)
Definition after_visit (ball : Grid.Ball.t) (block : Block.t) : Block.t :=
  if negb (Block.destroyed block) && reaches ball block then struck block else block.

(** The array after one pass, and after the passes of a sequence of balls. *)
Definition survivors (ball : Grid.Ball.t) (bs : list Block.t) : list Block.t :=
  List.filter (fun block => negb (Block.destroyed block))
              (List.map (after_visit ball) bs).

Definition survivors_all (balls : list Grid.Ball.t) (bs : list Block.t)
  : list Block.t :=
  fold_left (fun bs ball => survivors ball bs) balls bs.

(** The score and chain awards of one hit. *)
Definition award (block : Block.t) : Z * Z :=
  if Block.is_pickup block then (10, 1)
  else if Block.is_block block then (5, 0) else (0, 0).

(** Everything but the particles and the count of [Math.random()] calls. *)
Definition grid_core (g : Grid.Game) :=
  (Grid.rng g, Grid.blocks g, Grid.balls g, Grid.pendingBalls g,
   Grid.ballChain g, Grid.baseBallPosition g, Grid.baseY g, Grid.turnAngle g,
   Grid.isAiming g, Grid.isLaunching g, Grid.turn g, Grid.score g,
   Grid.timeAccumulator g, Grid.isGameOver g, Grid.launchTimer g,
   Grid.restingBalls g, Grid.activeBallChainLanding g).

(** The fields that [spawnRow] never writes. *)
Definition spawn_frame (g : Grid.Game) :=
  (Grid.balls g, Grid.particles g, Grid.pendingBalls g, Grid.ballChain g,
   Grid.baseBallPosition g, Grid.baseY g, Grid.turnAngle g, Grid.isAiming g,
   Grid.isLaunching g, Grid.turn g, Grid.score g, Grid.timeAccumulator g,
   Grid.isGameOver g, Grid.launchTimer g, Grid.restingBalls g,
   Grid.activeBallChainLanding g, Grid.entropy g).


Definition list_sum_Z (l : list Z) : Z := fold_right Z.add 0 l.

(** The score and the chain count that one pass of the ball over the blocks
    [bs] awards. *)
Definition pass_score (ball : Grid.Ball.t) (bs : list Block.t) : Z :=
  list_sum_Z
    (List.map (fun block =>
                 if negb (Block.destroyed block) && reaches ball block
                 then fst (award block) else 0) bs).

Definition pass_chain (ball : Grid.Ball.t) (bs : list Block.t) : Z :=
  list_sum_Z
    (List.map (fun block =>
                 if negb (Block.destroyed block) && reaches ball block
                 then snd (award block) else 0) bs).


(** The fields of the grid session that only [launchTurn], [finishTurn] and
    [reset] write. *)
Definition grid_mode (g : Grid.Game) :=
  (Grid.rng g, Grid.baseBallPosition g, Grid.baseY g, Grid.turnAngle g,
   Grid.isAiming g, Grid.isLaunching g, Grid.turn g, Grid.timeAccumulator g,
   Grid.isGameOver g).

(** The grid session after the update ticks [ds], first tick first; [None]
    when a [spawnRow] of the run exceeds [fuel] iterations. *)
Fixpoint grid_run (fuel : nat) (ds : list Q) (g : Grid.Game) : option Grid.Game :=
  match ds with
  | [] => Some g
  | delta :: ds =>
      match Grid.update fuel delta g with
      | Some g => grid_run fuel ds g
      | None => None
      end
  end.

(** The landing position that the resting order gives: the x-coordinate of
    the first ball that came to rest, [null] when none has. *)
Definition grid_first_landing (resting : list Grid.Ball.t) : JS.nullable :=
  match resting with
  | [] => JS.Null
  | ball :: _ => JS.Num (Grid.Ball.x ball)
  end.

End GridPasses.

(** ** The barrier revision *)

Module Barrier.

Definition BALL_SPEED : Q := 620%Q.

Module Ball.

Record t : Type := mk {
  x : Q; y : Q; vx : Q; vy : Q; resting : bool; prevX : Q; prevY : Q
}.

(** [new Ball(x, y, angle)] *)
Definition new `{Host} (x y angle : Q) : t :=
  mk x y (Math_cos angle * BALL_SPEED)%Q (Math_sin angle * BALL_SPEED)%Q false x y.

(** [update(delta)] *)
Definition update `{Host} (delta : Q) (b : t) : t :=
  if resting b then b
  else
    let prevX := x b in
    let prevY := y b in
    let x := (x b + vx b * delta)%Q in
    let y := (y b + vy b * delta)%Q in
    let vx := vx b in
    let vy := vy b in
    let '(x, vx) :=
      if JS.Qleb (x - BALL_RADIUS) 0 && JS.Qltb vx 0
      then (BALL_RADIUS, (vx * -1)%Q)
      else if JS.Qleb GAME_WIDTH (x + BALL_RADIUS) && JS.Qltb 0 vx
      then ((GAME_WIDTH - BALL_RADIUS)%Q, (vx * -1)%Q)
      else (x, vx) in
    let '(y, vy) :=
      if JS.Qleb (y - BALL_RADIUS) 0 && JS.Qltb vy 0
      then (BALL_RADIUS, (vy * -1)%Q)
      else (y, vy) in
    mk x y vx vy false prevX prevY.

(** [setResting(baseY)] *)
Definition setResting (baseY : Q) (b : t) : t :=
  mk (x b) (baseY - BALL_RADIUS)%Q 0%Q 0%Q true (prevX b) (prevY b).

Definition set_vx (v : Q) (b : t) : t :=
  mk (x b) (y b) v (vy b) (resting b) (prevX b) (prevY b).
Definition set_vy (v : Q) (b : t) : t :=
  mk (x b) (y b) (vx b) v (resting b) (prevX b) (prevY b).

End Ball.

Module Particle.

(** [color] is [None] when the constructor received [undefined]. *)
Record t : Type := mk {
  x : Q; y : Q; vx : Q; vy : Q; life : Q; color : option string; initialLife : Q
}.

(** The [options] argument of the constructor. *)
Record options : Type := mkOptions { speed : option Q; opt_life : option Q }.

Definition no_options : options := mkOptions None None.

(** [new Particle(x, y, color, options)]; [n] counts the [Math.random()]
    calls made so far. *)
Definition new `{Host} (x y : Q) (color : option string) (o : options) (n : nat)
  : t * nat :=
  let speed := match speed o with Some s => s | None => 120%Q end in
  let angle := (Math_random n * Math_PI * 2)%Q in
  let magnitude := (Math_random (S n) * speed)%Q in
  let life := match opt_life o with Some l => l | None => (4 # 10)%Q end in
  (mk x y (Math_cos angle * magnitude)%Q (Math_sin angle * magnitude)%Q life color
      (JS.Math_max life (1 # 1000)),
   S (S n)).

(** [update(delta)] *)
Definition update (delta : Q) (p : t) : t :=
  mk (x p + vx p * delta)%Q (y p + vy p * delta)%Q (vx p)
     (vy p + 300 * delta)%Q (life p - delta)%Q (color p) (initialLife p).

End Particle.

Module BarrierBlock.

Record t : Type := mk { x : Q; y : Q; size : Q; strength : Z; destroyed : bool }.

(** [new BarrierBlock(x, y, size, strength)] *)
Definition new (x y size : Q) (strength : Z) : t := mk x y size strength false.

(** [get rect()] *)
Definition rect (b : t) : Rect.t :=
  Rect.mk (x b - size b / 2)%Q (y b - size b / 2)%Q (size b) (size b).

Definition set_strength (s : Z) (b : t) : t := mk (x b) (y b) (size b) s (destroyed b).
Definition set_destroyed (d : bool) (b : t) : t := mk (x b) (y b) (size b) (strength b) d.

End BarrierBlock.

(** The fields of [Game]; [entropy] counts the [Math.random()] calls made
    so far.  [restingBalls] holds the balls as they were when they came to
    rest (a resting ball is never written again). *)
Record Game : Type := mkGame {
  rng : RNG.t;
  blocks : list Block.t;
  balls : list Ball.t;
  particles : list Particle.t;
  barrierBlocks : list BarrierBlock.t;
  pendingBalls : Z;
  ballChain : Z;
  baseBallPosition : Q;
  baseY : Q;
  turnAngle : option Q;
  isAiming : bool;
  isLaunching : bool;
  turn : Z;
  score : Z;
  timeAccumulator : Q;
  isGameOver : bool;
  launchTimer : Q;
  restingBalls : list Ball.t;
  activeBallChainLanding : JS.nullable;
  entropy : nat
}.

Definition set_rng (v : RNG.t) (g : Game) : Game :=
  {| rng := v; blocks := blocks g; balls := balls g;
     particles := particles g; barrierBlocks := barrierBlocks g;
     pendingBalls := pendingBalls g; ballChain := ballChain g;
     baseBallPosition := baseBallPosition g; baseY := baseY g;
     turnAngle := turnAngle g; isAiming := isAiming g;
     isLaunching := isLaunching g; turn := turn g; score := score g;
     timeAccumulator := timeAccumulator g; isGameOver := isGameOver g;
     launchTimer := launchTimer g; restingBalls := restingBalls g;
     activeBallChainLanding := activeBallChainLanding g;
     entropy := entropy g |}.

Definition set_blocks (v : list Block.t) (g : Game) : Game :=
  {| rng := rng g; blocks := v; balls := balls g; particles := particles g;
     barrierBlocks := barrierBlocks g; pendingBalls := pendingBalls g;
     ballChain := ballChain g; baseBallPosition := baseBallPosition g;
     baseY := baseY g; turnAngle := turnAngle g; isAiming := isAiming g;
     isLaunching := isLaunching g; turn := turn g; score := score g;
     timeAccumulator := timeAccumulator g; isGameOver := isGameOver g;
     launchTimer := launchTimer g; restingBalls := restingBalls g;
     activeBallChainLanding := activeBallChainLanding g;
     entropy := entropy g |}.

Definition set_balls (v : list Ball.t) (g : Game) : Game :=
  {| rng := rng g; blocks := blocks g; balls := v; particles := particles g;
     barrierBlocks := barrierBlocks g; pendingBalls := pendingBalls g;
     ballChain := ballChain g; baseBallPosition := baseBallPosition g;
     baseY := baseY g; turnAngle := turnAngle g; isAiming := isAiming g;
     isLaunching := isLaunching g; turn := turn g; score := score g;
     timeAccumulator := timeAccumulator g; isGameOver := isGameOver g;
     launchTimer := launchTimer g; restingBalls := restingBalls g;
     activeBallChainLanding := activeBallChainLanding g;
     entropy := entropy g |}.

Definition set_particles (v : list Particle.t) (g : Game) : Game :=
  {| rng := rng g; blocks := blocks g; balls := balls g; particles := v;
     barrierBlocks := barrierBlocks g; pendingBalls := pendingBalls g;
     ballChain := ballChain g; baseBallPosition := baseBallPosition g;
     baseY := baseY g; turnAngle := turnAngle g; isAiming := isAiming g;
     isLaunching := isLaunching g; turn := turn g; score := score g;
     timeAccumulator := timeAccumulator g; isGameOver := isGameOver g;
     launchTimer := launchTimer g; restingBalls := restingBalls g;
     activeBallChainLanding := activeBallChainLanding g;
     entropy := entropy g |}.

Definition set_barrierBlocks (v : list BarrierBlock.t) (g : Game) : Game :=
  {| rng := rng g; blocks := blocks g; balls := balls g;
     particles := particles g; barrierBlocks := v;
     pendingBalls := pendingBalls g; ballChain := ballChain g;
     baseBallPosition := baseBallPosition g; baseY := baseY g;
     turnAngle := turnAngle g; isAiming := isAiming g;
     isLaunching := isLaunching g; turn := turn g; score := score g;
     timeAccumulator := timeAccumulator g; isGameOver := isGameOver g;
     launchTimer := launchTimer g; restingBalls := restingBalls g;
     activeBallChainLanding := activeBallChainLanding g;
     entropy := entropy g |}.

Definition set_pendingBalls (v : Z) (g : Game) : Game :=
  {| rng := rng g; blocks := blocks g; balls := balls g;
     particles := particles g; barrierBlocks := barrierBlocks g;
     pendingBalls := v; ballChain := ballChain g;
     baseBallPosition := baseBallPosition g; baseY := baseY g;
     turnAngle := turnAngle g; isAiming := isAiming g;
     isLaunching := isLaunching g; turn := turn g; score := score g;
     timeAccumulator := timeAccumulator g; isGameOver := isGameOver g;
     launchTimer := launchTimer g; restingBalls := restingBalls g;
     activeBallChainLanding := activeBallChainLanding g;
     entropy := entropy g |}.

Definition set_ballChain (v : Z) (g : Game) : Game :=
  {| rng := rng g; blocks := blocks g; balls := balls g;
     particles := particles g; barrierBlocks := barrierBlocks g;
     pendingBalls := pendingBalls g; ballChain := v;
     baseBallPosition := baseBallPosition g; baseY := baseY g;
     turnAngle := turnAngle g; isAiming := isAiming g;
     isLaunching := isLaunching g; turn := turn g; score := score g;
     timeAccumulator := timeAccumulator g; isGameOver := isGameOver g;
     launchTimer := launchTimer g; restingBalls := restingBalls g;
     activeBallChainLanding := activeBallChainLanding g;
     entropy := entropy g |}.

Definition set_baseBallPosition (v : Q) (g : Game) : Game :=
  {| rng := rng g; blocks := blocks g; balls := balls g;
     particles := particles g; barrierBlocks := barrierBlocks g;
     pendingBalls := pendingBalls g; ballChain := ballChain g;
     baseBallPosition := v; baseY := baseY g; turnAngle := turnAngle g;
     isAiming := isAiming g; isLaunching := isLaunching g; turn := turn g;
     score := score g; timeAccumulator := timeAccumulator g;
     isGameOver := isGameOver g; launchTimer := launchTimer g;
     restingBalls := restingBalls g;
     activeBallChainLanding := activeBallChainLanding g;
     entropy := entropy g |}.

Definition set_baseY (v : Q) (g : Game) : Game :=
  {| rng := rng g; blocks := blocks g; balls := balls g;
     particles := particles g; barrierBlocks := barrierBlocks g;
     pendingBalls := pendingBalls g; ballChain := ballChain g;
     baseBallPosition := baseBallPosition g; baseY := v;
     turnAngle := turnAngle g; isAiming := isAiming g;
     isLaunching := isLaunching g; turn := turn g; score := score g;
     timeAccumulator := timeAccumulator g; isGameOver := isGameOver g;
     launchTimer := launchTimer g; restingBalls := restingBalls g;
     activeBallChainLanding := activeBallChainLanding g;
     entropy := entropy g |}.

Definition set_turnAngle (v : option Q) (g : Game) : Game :=
  {| rng := rng g; blocks := blocks g; balls := balls g;
     particles := particles g; barrierBlocks := barrierBlocks g;
     pendingBalls := pendingBalls g; ballChain := ballChain g;
     baseBallPosition := baseBallPosition g; baseY := baseY g;
     turnAngle := v; isAiming := isAiming g; isLaunching := isLaunching g;
     turn := turn g; score := score g; timeAccumulator := timeAccumulator g;
     isGameOver := isGameOver g; launchTimer := launchTimer g;
     restingBalls := restingBalls g;
     activeBallChainLanding := activeBallChainLanding g;
     entropy := entropy g |}.

Definition set_isAiming (v : bool) (g : Game) : Game :=
  {| rng := rng g; blocks := blocks g; balls := balls g;
     particles := particles g; barrierBlocks := barrierBlocks g;
     pendingBalls := pendingBalls g; ballChain := ballChain g;
     baseBallPosition := baseBallPosition g; baseY := baseY g;
     turnAngle := turnAngle g; isAiming := v; isLaunching := isLaunching g;
     turn := turn g; score := score g; timeAccumulator := timeAccumulator g;
     isGameOver := isGameOver g; launchTimer := launchTimer g;
     restingBalls := restingBalls g;
     activeBallChainLanding := activeBallChainLanding g;
     entropy := entropy g |}.

Definition set_isLaunching (v : bool) (g : Game) : Game :=
  {| rng := rng g; blocks := blocks g; balls := balls g;
     particles := particles g; barrierBlocks := barrierBlocks g;
     pendingBalls := pendingBalls g; ballChain := ballChain g;
     baseBallPosition := baseBallPosition g; baseY := baseY g;
     turnAngle := turnAngle g; isAiming := isAiming g; isLaunching := v;
     turn := turn g; score := score g; timeAccumulator := timeAccumulator g;
     isGameOver := isGameOver g; launchTimer := launchTimer g;
     restingBalls := restingBalls g;
     activeBallChainLanding := activeBallChainLanding g;
     entropy := entropy g |}.

Definition set_turn (v : Z) (g : Game) : Game :=
  {| rng := rng g; blocks := blocks g; balls := balls g;
     particles := particles g; barrierBlocks := barrierBlocks g;
     pendingBalls := pendingBalls g; ballChain := ballChain g;
     baseBallPosition := baseBallPosition g; baseY := baseY g;
     turnAngle := turnAngle g; isAiming := isAiming g;
     isLaunching := isLaunching g; turn := v; score := score g;
     timeAccumulator := timeAccumulator g; isGameOver := isGameOver g;
     launchTimer := launchTimer g; restingBalls := restingBalls g;
     activeBallChainLanding := activeBallChainLanding g;
     entropy := entropy g |}.

Definition set_score (v : Z) (g : Game) : Game :=
  {| rng := rng g; blocks := blocks g; balls := balls g;
     particles := particles g; barrierBlocks := barrierBlocks g;
     pendingBalls := pendingBalls g; ballChain := ballChain g;
     baseBallPosition := baseBallPosition g; baseY := baseY g;
     turnAngle := turnAngle g; isAiming := isAiming g;
     isLaunching := isLaunching g; turn := turn g; score := v;
     timeAccumulator := timeAccumulator g; isGameOver := isGameOver g;
     launchTimer := launchTimer g; restingBalls := restingBalls g;
     activeBallChainLanding := activeBallChainLanding g;
     entropy := entropy g |}.

Definition set_timeAccumulator (v : Q) (g : Game) : Game :=
  {| rng := rng g; blocks := blocks g; balls := balls g;
     particles := particles g; barrierBlocks := barrierBlocks g;
     pendingBalls := pendingBalls g; ballChain := ballChain g;
     baseBallPosition := baseBallPosition g; baseY := baseY g;
     turnAngle := turnAngle g; isAiming := isAiming g;
     isLaunching := isLaunching g; turn := turn g; score := score g;
     timeAccumulator := v; isGameOver := isGameOver g;
     launchTimer := launchTimer g; restingBalls := restingBalls g;
     activeBallChainLanding := activeBallChainLanding g;
     entropy := entropy g |}.

Definition set_isGameOver (v : bool) (g : Game) : Game :=
  {| rng := rng g; blocks := blocks g; balls := balls g;
     particles := particles g; barrierBlocks := barrierBlocks g;
     pendingBalls := pendingBalls g; ballChain := ballChain g;
     baseBallPosition := baseBallPosition g; baseY := baseY g;
     turnAngle := turnAngle g; isAiming := isAiming g;
     isLaunching := isLaunching g; turn := turn g; score := score g;
     timeAccumulator := timeAccumulator g; isGameOver := v;
     launchTimer := launchTimer g; restingBalls := restingBalls g;
     activeBallChainLanding := activeBallChainLanding g;
     entropy := entropy g |}.

Definition set_launchTimer (v : Q) (g : Game) : Game :=
  {| rng := rng g; blocks := blocks g; balls := balls g;
     particles := particles g; barrierBlocks := barrierBlocks g;
     pendingBalls := pendingBalls g; ballChain := ballChain g;
     baseBallPosition := baseBallPosition g; baseY := baseY g;
     turnAngle := turnAngle g; isAiming := isAiming g;
     isLaunching := isLaunching g; turn := turn g; score := score g;
     timeAccumulator := timeAccumulator g; isGameOver := isGameOver g;
     launchTimer := v; restingBalls := restingBalls g;
     activeBallChainLanding := activeBallChainLanding g;
     entropy := entropy g |}.

Definition set_restingBalls (v : list Ball.t) (g : Game) : Game :=
  {| rng := rng g; blocks := blocks g; balls := balls g;
     particles := particles g; barrierBlocks := barrierBlocks g;
     pendingBalls := pendingBalls g; ballChain := ballChain g;
     baseBallPosition := baseBallPosition g; baseY := baseY g;
     turnAngle := turnAngle g; isAiming := isAiming g;
     isLaunching := isLaunching g; turn := turn g; score := score g;
     timeAccumulator := timeAccumulator g; isGameOver := isGameOver g;
     launchTimer := launchTimer g; restingBalls := v;
     activeBallChainLanding := activeBallChainLanding g;
     entropy := entropy g |}.

Definition set_activeBallChainLanding (v : JS.nullable) (g : Game) : Game :=
  {| rng := rng g; blocks := blocks g; balls := balls g;
     particles := particles g; barrierBlocks := barrierBlocks g;
     pendingBalls := pendingBalls g; ballChain := ballChain g;
     baseBallPosition := baseBallPosition g; baseY := baseY g;
     turnAngle := turnAngle g; isAiming := isAiming g;
     isLaunching := isLaunching g; turn := turn g; score := score g;
     timeAccumulator := timeAccumulator g; isGameOver := isGameOver g;
     launchTimer := launchTimer g; restingBalls := restingBalls g;
     activeBallChainLanding := v; entropy := entropy g |}.

Definition set_entropy (v : nat) (g : Game) : Game :=
  {| rng := rng g; blocks := blocks g; balls := balls g;
     particles := particles g; barrierBlocks := barrierBlocks g;
     pendingBalls := pendingBalls g; ballChain := ballChain g;
     baseBallPosition := baseBallPosition g; baseY := baseY g;
     turnAngle := turnAngle g; isAiming := isAiming g;
     isLaunching := isLaunching g; turn := turn g; score := score g;
     timeAccumulator := timeAccumulator g; isGameOver := isGameOver g;
     launchTimer := launchTimer g; restingBalls := restingBalls g;
     activeBallChainLanding := activeBallChainLanding g; entropy := v |}.

(** The session object when [new Game()] has created the generator and is
    about to call [reset()]; [seed] is [Date.now() & 0xffffffff].  The fields
    that [reset()] assigns, and those that stay [undefined] until
    [launchTurn] assigns them, hold a placeholder. *)
Definition fresh (seed : Z) : Game :=
  mkGame (RNG.new seed) [] [] [] [] 0 0 0%Q 0%Q None false false 0 0 0%Q
         false 0%Q [] JS.Undefined 0%nat.

Section Methods.
Context `{Host}.

(** [launchTurn(angle)] *)
Definition launchTurn (angle : Q) (g : Game) : Game :=
  let g := set_isLaunching true g in
  let g := set_turnAngle (Some angle) g in
  let g := set_pendingBalls (ballChain g) g in
  let g := set_launchTimer 0%Q g in
  let g := set_restingBalls [] g in
  set_activeBallChainLanding JS.Null g.

(** [finishTurn()] *)
Definition finishTurn (g : Game) : Game :=
  let g := set_isLaunching false g in
  let g := set_isAiming false g in
  let g := set_turnAngle None g in
  let g := set_turn (turn g + 1) g in
  let g := set_balls [] g in
  set_baseBallPosition
    (JS.nullish (activeBallChainLanding g) (baseBallPosition g)) g.

(** [isBarrierOverlapping(candidate)] *)
Definition isBarrierOverlapping (candidate : BarrierBlock.t) (g : Game) : bool :=
  let minGap := (BarrierBlock.size candidate + 24)%Q in
  let minGapSq := (minGap * minGap)%Q in
  existsb
    (fun barrier =>
       let dx := (BarrierBlock.x barrier - BarrierBlock.x candidate)%Q in
       let dy := (BarrierBlock.y barrier - BarrierBlock.y candidate)%Q in
       JS.Qltb (dx * dx + dy * dy)%Q minGapSq)
    (barrierBlocks g).

(** The constants of [spawnFloatingBlock]. *)
Definition barrier_size : Q := (GRID_SIZE * (9 # 10))%Q.
Definition padding : Q := (barrier_size / 2 + 12)%Q.
Definition maxY : Q := (GAME_HEIGHT * (6 # 10))%Q.
Definition attempts : nat := 18.

(** [createCandidate()]: three draws. *)
Definition createCandidate (g : Game) : BarrierBlock.t * Game :=
  let strengthBase := turn g + 2 in
  let '(v, r) := RNG.next (rng g) in
  let g := set_rng r g in
  let x := (padding + v * (GAME_WIDTH - padding * 2))%Q in
  let '(v, r) := RNG.next (rng g) in
  let g := set_rng r g in
  let y := (padding + v * (maxY - padding) + 32)%Q in
  let '(v, r) := RNG.next (rng g) in
  let g := set_rng r g in
  let strength :=
    Z.max 2 (JS.Math_round (inject_Z strengthBase * ((6 # 10) + v))%Q) in
  (BarrierBlock.new x y barrier_size strength, g).

(** [for (let i = 0; i < attempts; i++)] with [n] iterations left. *)
Fixpoint retry (n : nat) (candidate : BarrierBlock.t) (g : Game)
  : BarrierBlock.t * Game :=
  match n with
  | O => (candidate, g)
  | S n =>
      if negb (isBarrierOverlapping candidate g) then (candidate, g)
      else let '(candidate, g) := createCandidate g in retry n candidate g
  end.

(** [spawnFloatingBlock({ force })] *)
Definition spawnFloatingBlock (force : bool) (g : Game) : Game :=
  if isGameOver g then g
  else
    let '(candidate, g) := createCandidate g in
    let '(candidate, g) := retry attempts candidate g in
    if negb force && (MAX_FLOATING_BLOCKS <=? length (barrierBlocks g))%nat then g
    else
      let g :=
        if force && (MAX_FLOATING_BLOCKS <=? length (barrierBlocks g))%nat
        then set_barrierBlocks (tail (barrierBlocks g)) g
        else g in
      set_barrierBlocks (barrierBlocks g ++ [candidate]) g.

(** [seedFloatingBlocks()] *)
Definition seedFloatingBlocks (g : Game) : Game :=
  let seedCount := 6%nat in
  Nat.iter seedCount (spawnFloatingBlock true) g.

(** [reset()] *)
Definition reset (g : Game) : Game :=
  let g := set_blocks [] g in
  let g := set_balls [] g in
  let g := set_particles [] g in
  let g := set_barrierBlocks [] g in
  let g := set_pendingBalls 0 g in
  let g := set_ballChain 1 g in
  let g := set_baseBallPosition (GAME_WIDTH / 2)%Q g in
  let g := set_baseY (GAME_HEIGHT - 24)%Q g in
  let g := set_turnAngle None g in
  let g := set_isAiming false g in
  let g := set_isLaunching false g in
  let g := set_turn 1 g in
  let g := set_score 0 g in
  let g := set_timeAccumulator 0%Q g in
  let g := set_isGameOver false g in
  seedFloatingBlocks g.

(** [new Game()] up to [requestAnimationFrame]. *)
Definition new (seed : Z) : Game := reset (fresh seed).

(** The loop of [spawnHitParticles]: [count] particles are pushed. *)
Fixpoint push_particles (count : nat) (x y : Q) (color : string) (g : Game) : Game :=
  match count with
  | O => g
  | S count =>
      let '(p, n) := Particle.new x y (Some color) Particle.no_options (entropy g) in
      let g := set_entropy n g in
      let g := set_particles (particles g ++ [p]) g in
      push_particles count x y color g
  end.

(** [spawnHitParticles(x, y, color)] *)
Definition spawnHitParticles (x y : Q) (color : string) (g : Game) : Game :=
  let count := 6 + JS.Math_floor (Math_random (entropy g) * 6)%Q in
  let g := set_entropy (S (entropy g)) g in
  push_particles (Z.to_nat count) x y color g.

Definition explosion_colors : list string := ["#ffd93d"; "#ff6f61"; "#ffad5c"]%string.

(** The loop of [spawnExplosion]. *)
Fixpoint push_explosion (count : nat) (x y : Q) (g : Game) : Game :=
  match count with
  | O => g
  | S count =>
      let color :=
        explosion_colors
          !! Z.to_nat (JS.Math_floor
                         (Math_random (entropy g)
                          * inject_Z (Z.of_nat (length explosion_colors)))%Q) in
      let g := set_entropy (S (entropy g)) g in
      let '(p, n) :=
        Particle.new x y color
          (Particle.mkOptions (Some 1320%Q) (Some (7 # 10)%Q)) (entropy g) in
      let g := set_entropy n g in
      let g := set_particles (particles g ++ [p]) g in
      push_explosion count x y g
  end.

(** [spawnExplosion(x, y)] *)
Definition spawnExplosion (x y : Q) (g : Game) : Game := push_explosion 28 x y g.

(** The body of the [if (this.circleRectCollision(ball, rect))] branch of
    [handleCollisions] for the barrier at index [i] of [this.barrierBlocks].
    The barrier object is written in place, before [spawnFloatingBlock] can
    shift the array. *)
Definition hit (i : nat) (barrier : BarrierBlock.t) (ball : Ball.t) (g : Game)
  : Ball.t * Game :=
  let rect := BarrierBlock.rect barrier in
  let prevY := Ball.prevY ball in
  let isHorizontal :=
    JS.Qleb (prevY + BALL_RADIUS) (Rect.y rect)
    || JS.Qleb (Rect.y rect + Rect.h rect) (prevY - BALL_RADIUS) in
  let barrier := BarrierBlock.set_strength (BarrierBlock.strength barrier - 1) barrier in
  let g := set_barrierBlocks (<[i := barrier]> (barrierBlocks g)) g in
  let g := set_score (score g + 8) g in
  let g := spawnHitParticles (BarrierBlock.x barrier) (BarrierBlock.y barrier) "#f5f7fb" g in
  let g :=
    if BarrierBlock.strength barrier <=? 0 then
      let barrier := BarrierBlock.set_destroyed true barrier in
      let g := set_barrierBlocks (<[i := barrier]> (barrierBlocks g)) g in
      let g := spawnExplosion (BarrierBlock.x barrier) (BarrierBlock.y barrier) g in
      spawnFloatingBlock true g
    else g in
  let ball :=
    if isHorizontal then Ball.set_vy (Ball.vy ball * -1)%Q ball
    else Ball.set_vx (Ball.vx ball * -1)%Q ball in
  (ball, g).

(** [for (const barrier of this.barrierBlocks)]: the array iterator reads
    index [i] of the live array, which the loop body may shift and extend.
    [fuel] bounds the number of iterations, [None] when it runs out. *)
Fixpoint visit_from (fuel : nat) (i : nat) (ball : Ball.t) (g : Game)
  : option (Ball.t * Game) :=
  match fuel with
  | O => None
  | S fuel =>
      match barrierBlocks g !! i with
      | None => Some (ball, g)
      | Some barrier =>
          if BarrierBlock.destroyed barrier then visit_from fuel (S i) ball g
          else if circleRectCollision_at (Ball.x ball) (Ball.y ball)
                    (BarrierBlock.rect barrier)
          then let '(ball, g) := hit i barrier ball g in visit_from fuel (S i) ball g
          else visit_from fuel (S i) ball g
      end
  end.

(** Iterations that the loop can need on an array of [n] barriers: each
    barrier is visited once and can add one new barrier, which is visited
    once. *)
Definition visit_fuel (n : nat) : nat := S (2 * n).

(** [handleCollisions(ball)] *)
Definition handleCollisions (ball : Ball.t) (g : Game) : Ball.t * Game :=
  match visit_from (visit_fuel (length (barrierBlocks g))) 0 ball g with
  | Some (ball, g) =>
      (ball,
       set_barrierBlocks
         (List.filter (fun barrier => negb (BarrierBlock.destroyed barrier))
                      (barrierBlocks g)) g)
  | None => (ball, g)
  end.

(** The spawn step at the head of [update]. *)
Definition launch_step (delta : Q) (g : Game) : Game :=
  if isLaunching g then
    let g := set_launchTimer (launchTimer g - delta)%Q g in
    if (pendingBalls g >? 0) && JS.Qleb (launchTimer g) 0 then
      let g := set_launchTimer (1 # 10)%Q g in
      let g := set_pendingBalls (pendingBalls g - 1) g in
      let spawnPointX := JS.nullish (activeBallChainLanding g) (baseBallPosition g) in
      let ball :=
        Ball.new spawnPointX (baseY g - BALL_RADIUS)%Q (JS.to_number (turnAngle g)) in
      let g := set_balls (balls g ++ [ball]) g in
      spawnFloatingBlock false g
    else g
  else g.

(** The body of [for (const ball of this.balls)] for a ball that moves. *)
Definition move_ball (delta : Q) (ball : Ball.t) (g : Game) : Ball.t * Game :=
  let ball := Ball.update delta ball in
  let '(ball, g) := handleCollisions ball g in
  if JS.Qleb (baseY g) (Ball.y ball + BALL_RADIUS) && JS.Qltb 0 (Ball.vy ball) then
    let ball := Ball.setResting (baseY g) ball in
    let g := set_restingBalls (restingBalls g ++ [ball]) g in
    let g :=
      if JS.is_null (activeBallChainLanding g)
      then set_activeBallChainLanding (JS.Num (Ball.x ball)) g
      else g in
    (ball, g)
  else (ball, g).

Fixpoint update_balls (delta : Q) (bs : list Ball.t) (g : Game)
  : list Ball.t * Game :=
  match bs with
  | [] => ([], g)
  | ball :: rest =>
      let '(ball, g) :=
        if Ball.resting ball then (ball, g) else move_ball delta ball g in
      let '(rest, g) := update_balls delta rest g in
      (ball :: rest, g)
  end.

Definition ball_step (delta : Q) (g : Game) : Game :=
  let '(bs, g) := update_balls delta (balls g) g in
  set_balls bs g.

Definition particle_step (delta : Q) (g : Game) : Game :=
  let ps := List.filter (fun p => JS.Qltb 0 (Particle.life p)) (particles g) in
  set_particles (List.map (Particle.update delta) ps) g.

(** The guard of the call of [finishTurn] at the end of [update]. *)
Definition turn_done (g : Game) : bool :=
  isLaunching g && (pendingBalls g =? 0) && forallb Ball.resting (balls g).

(** [update(delta)] up to the last [if]. *)
Definition simulate (delta : Q) (g : Game) : Game :=
  particle_step delta (ball_step delta (launch_step delta g)).

(** [update(delta)] *)
Definition update (delta : Q) (g : Game) : Game :=
  if isGameOver g then g
  else
    let g := simulate delta g in
    if turn_done g then finishTurn g else g.

End Methods.

End Barrier.

(** ** Vocabulary of the statements about turns (barrier revision) *)

Section BarrierTurns.
Context `{Host}.

(** The fields that particles, barrier spawns and collisions never write. *)
Definition barrier_ctl (g : Barrier.Game) :=
  (Barrier.blocks g, Barrier.balls g, Barrier.pendingBalls g,
   Barrier.ballChain g, Barrier.baseBallPosition g, Barrier.baseY g,
   Barrier.turnAngle g, Barrier.isAiming g, Barrier.isLaunching g,
   Barrier.turn g, Barrier.timeAccumulator g, Barrier.isGameOver g,
   Barrier.launchTimer g, Barrier.restingBalls g,
   Barrier.activeBallChainLanding g).

(** Everything but the particles and the count of [Math.random()] calls. *)
Definition barrier_but_particles (g : Barrier.Game) :=
  (barrier_ctl g, Barrier.barrierBlocks g, Barrier.rng g, Barrier.score g).

(** Everything but the generator. *)
Definition barrier_but_rng (g : Barrier.Game) :=
  (barrier_ctl g, Barrier.barrierBlocks g, Barrier.score g,
   Barrier.particles g, Barrier.entropy g).

(** Everything but the generator and the barriers. *)
Definition barrier_but_spawn (g : Barrier.Game) :=
  (barrier_ctl g, Barrier.score g, Barrier.particles g, Barrier.entropy g).

(** The fields that the ball loop and the particle step never write. *)
Definition barrier_flow (g : Barrier.Game) :=
  (Barrier.blocks g, Barrier.pendingBalls g,
   Barrier.ballChain g, Barrier.baseBallPosition g, Barrier.baseY g,
   Barrier.turnAngle g, Barrier.isAiming g, Barrier.isLaunching g,
   Barrier.turn g, Barrier.timeAccumulator g, Barrier.isGameOver g,
   Barrier.launchTimer g).

(** A bound on the loop iterations that a barrier can still cause: its own
    visit, and the visit of the barrier that replaces it when the next hit
    destroys it. *)
Definition barrier_weight (b : Barrier.BarrierBlock.t) : nat :=
  if Barrier.BarrierBlock.destroyed b then 1%nat
  else if Barrier.BarrierBlock.strength b <=? 1 then 2%nat else 1%nat.

(** The same for the part of the array from index [i] on. *)
Definition pending_weight (i : nat) (bs : list Barrier.BarrierBlock.t) : nat :=
  list_sum (List.map barrier_weight (drop i bs)).

(** The phase flags and the launcher, which only [launchTurn],
    [finishTurn] and [reset] write. *)
Definition barrier_mode (g : Barrier.Game) :=
  (Barrier.blocks g, Barrier.ballChain g, Barrier.baseBallPosition g,
   Barrier.baseY g, Barrier.turnAngle g, Barrier.isAiming g,
   Barrier.isLaunching g, Barrier.turn g, Barrier.timeAccumulator g,
   Barrier.isGameOver g).

(** The guard of the spawn at the head of [update]. *)
Definition launch_due (delta : Q) (g : Barrier.Game) : bool :=
  Barrier.isLaunching g && (Barrier.pendingBalls g >? 0)
  && JS.Qleb (Barrier.launchTimer g - delta)%Q 0.

(** The session after the update ticks [ds], first tick first. *)
Definition run (ds : list Q) (g : Barrier.Game) : Barrier.Game :=
  fold_left (fun g delta => Barrier.update delta g) ds g.

(** The tick [delta] from [g] pushes a ball. *)
Definition spawned (delta : Q) (g : Barrier.Game) : bool :=
  negb (Barrier.isGameOver g)
  && (length (Barrier.balls g)
      <? length (Barrier.balls (Barrier.launch_step delta g)))%nat.

(** The simulated time, counted from [clock], at the end of each tick of
    [ds] that pushes a ball. *)
Fixpoint spawn_times (clock : Q) (ds : list Q) (g : Barrier.Game) : list Q :=
  match ds with
  | [] => []
  | delta :: ds =>
      let clock := (clock + delta)%Q in
      (if spawned delta g then [clock] else [])
      ++ spawn_times clock ds (Barrier.update delta g)
  end.

(** The sessions of the barrier revision: created by [new Game()], then
    driven by the restart button, by a launch while idle, and by update
    ticks. *)
Inductive barrier_reachable : Barrier.Game -> Prop :=
| reach_new (seed : Z) : barrier_reachable (Barrier.new seed)
| reach_reset (g : Barrier.Game) :
    barrier_reachable g -> barrier_reachable (Barrier.reset g)
| reach_launch (angle : Q) (g : Barrier.Game) :
    barrier_reachable g -> Barrier.isLaunching g = false ->
    barrier_reachable (Barrier.launchTurn angle g)
| reach_update (delta : Q) (g : Barrier.Game) :
    barrier_reachable g -> barrier_reachable (Barrier.update delta g).

(** Each entry of the list is at least [gap] after the one before it. *)
Fixpoint separated (gap : Q) (l : list Q) : Prop :=
  match l with
  | t1 :: rest =>
      match rest with
      | t2 :: _ => (t1 + gap <= t2)%Q /\ separated gap rest
      | [] => True
      end
  | [] => True
  end.

(** The balls that the turn has still to spawn: none when idle. *)
Definition remaining (g : Barrier.Game) : Z :=
  if Barrier.isLaunching g then Barrier.pendingBalls g else 0.

(** Ticks of at least [delta] that are enough for the launch timer to run
    down from 0.1. *)
Definition ticks_per_ball (delta : Q) : nat :=
  Z.to_nat (Qceiling ((1 # 10) / delta)).

(** The landing position that the resting order gives: the x-coordinate of
    the first ball that came to rest, [null] when none has. *)
Definition first_landing (resting : list Barrier.Ball.t) : JS.nullable :=
  match resting with
  | [] => JS.Null
  | ball :: _ => JS.Num (Barrier.Ball.x ball)
  end.

End BarrierTurns.

(** ** Vocabulary of the statements about the period of the generator *)

(** The low 32 bits of an integer. *)
Definition low32 (a : Z) : Z := a mod JS.two32.

(** The xorshift32 update on unsigned words, with no signed intermediate. *)
Definition xorshift32 (s : Z) : Z :=
  let x := Z.lxor s (low32 (Z.shiftl s 13)) in
  let x := Z.lxor x (Z.shiftr x 17) in
  Z.lxor x (low32 (Z.shiftl x 5)).

(** A map on 32-bit words that is linear over exclusive-or, given by its
    values on the words [1 << i], [1 << (i + 1)], ...: the exclusive-or of
    the values at the bits that are set in [v]. *)
Fixpoint gf2_apply_from (i : Z) (cols : list Z) (v : Z) : Z :=
  match cols with
  | [] => 0
  | c :: cols =>
      Z.lxor (if Z.testbit v i then c else 0) (gf2_apply_from (i + 1) cols v)
  end.

Definition gf2_apply (cols : list Z) (v : Z) : Z := gf2_apply_from 0 cols v.

(** The words [1 << i], ..., [1 << (i + n - 1)]. *)
Fixpoint gf2_bits (i : Z) (n : nat) : list Z :=
  match n with
  | O => []
  | S n => Z.shiftl 1 i :: gf2_bits (i + 1) n
  end.

(** Identity, composition, sum and power of such maps. *)
Definition gf2_id : list Z := gf2_bits 0 32.

Definition gf2_mul (a b : list Z) : list Z := List.map (gf2_apply a) b.

Fixpoint gf2_add (a b : list Z) : list Z :=
  match a, b with
  | x :: a, y :: b => Z.lxor x y :: gf2_add a b
  | _, _ => []
  end.

Fixpoint gf2_pow (a : list Z) (e : positive) : list Z :=
  match e with
  | xH => a
  | xO e => let b := gf2_pow a e in gf2_mul b b
  | xI e => let b := gf2_pow a e in gf2_mul a (gf2_mul b b)
  end.

(** The generator's update as such a map. *)
Definition xorshift_cols : list Z := List.map RNG.step gf2_id.

(** The number of non-zero 32-bit words and its prime factors. *)
Definition period : positive := 4294967295.
Definition period_primes : list positive := [3; 5; 17; 257; 65537]%positive.

(** The state after [k] calls of [next()]. *)
Definition orbit (k : Z) (s : Z) : Z := Z.iter k RNG.step s.

(** [p] has no divisor from [k] up to [k + fuel - 1] other than 1. *)
Fixpoint coprime_from (fuel : nat) (k p : Z) : bool :=
  match fuel with
  | O => true
  | S fuel => (Z.gcd k p =? 1) && coprime_from fuel (k + 1) p
  end.

(** The map [a + id], and its inverse when [a + id] is a non-zero element
    of a field with [period + 1] elements. *)
Definition gf2_shifted (a : list Z) : list Z := gf2_add a gf2_id.
Definition gf2_shifted_inverse (a : list Z) : list Z :=
  gf2_pow (gf2_shifted a) (Pos.pred period).

(** [period / p] for each prime factor [p] of [period]. *)
Definition period_cofactors : list positive :=
  [1431655765; 858993459; 252645135; 16711935; 65535]%positive.

(** The column that [spawnRow] computes from a draw that leaves the
    generator in state [s]. *)
Definition column_of (s : Z) : Z :=
  JS.Math_floor (inject_Z s / inject_Z 4294967295 * inject_Z GRID_COLUMNS)%Q.

(** A non-zero state from which column [c] is computed. *)
Definition state_of_column (c : Z) : Z := c * 613566757 + 1.


(** ** A sample host

    A 420 x 640 canvas; every aim is straight up (cosine 0, sine -1) and
    every [Math.random()] call returns one half. *)

Definition sample_host : Host :=
  {| GAME_WIDTH := 420%Q;
     GAME_HEIGHT := 640%Q;
     Math_PI := (355 # 113)%Q;
     Math_cos := fun _ => 0%Q;
     Math_sin := fun _ => (-1)%Q;
     Math_random := fun _ => (1 # 2)%Q |}.

(** A standard block of strength 2 and a pickup of strength 5 in column 1 of
    row 0 (the square from (66, 6) to (114, 54)), a ball of the grid revision
    6 below the lower edge, and grid sessions that hold one of the blocks. *)
Definition sample_block : Block.t := Block.new (Some 1) 0 2 "block".
Definition sample_pickup : Block.t := Block.new (Some 1) 0 5 "pickup".
Definition sample_ball : Grid.Ball.t := Grid.Ball.mk 90 60 0 (-(62 # 10)) false.
Definition sample_grid (bs : list Block.t) : Grid.Game :=
  Grid.set_blocks bs (Grid.fresh 1).

(** A session of the barrier revision at the population cap: 24 barriers of
    strength 3. *)
Definition sample_full : Barrier.Game :=
  Barrier.set_barrierBlocks
    (repeat (Barrier.BarrierBlock.new 100 100 54 3) 24) (Barrier.fresh 1).

(** A session of the barrier revision that holds one ball falling at
    x = 123, 16 above the base line, and the turn launched from it. *)
Definition sample_falling : Barrier.Game :=
  Barrier.set_balls [Barrier.Ball.mk 123 600 0 620 false 123 580]
                    (@Barrier.new sample_host 1).
Definition sample_turn : Barrier.Game := Barrier.launchTurn (-1) sample_falling.


(** ** Drawing: the fill colour of a block

    Of the [draw] methods only the choice of the fill colour of a block is
    embedded; it is the one place where drawing reads an array by a
    computed index. *)

Definition BLOCK_COLORS : list string :=
  ["#00c6ff"; "#3a7bd5"; "#f8367c"; "#fbb03b"; "#3bc6b6"; "#b621fe";
   "#fe8c00"; "#fe5f75"]%string.

(** [Math.min(BLOCK_COLORS.length - 1, Math.floor((this.strength - 1) / 3))] *)
Definition colorIndex (strength : Z) : Z :=
  Z.min (Z.of_nat (length BLOCK_COLORS) - 1)
        (JS.Math_floor (inject_Z (strength - 1) / 3)%Q).

(** [BLOCK_COLORS[colorIndex]]: [None] is [undefined], what a negative
    index reads. *)
Definition fillStyle (strength : Z) : option string :=
  let i := colorIndex strength in
  if i <? 0 then None else BLOCK_COLORS !! Z.to_nat i.

(** ** The pointer handlers of [bindEvents] and the frame loop *)

(** [Math.atan2], the one [Math] function of the handlers that is not
    rational. *)
Class HostPointer : Type := { Math_atan2 : Q -> Q -> Q }.

(** A mouse event, or a touch event with its list of touches. *)
Inductive pointer_event : Type :=
| MouseEvent (clientX clientY : Q)
| TouchEvent (touches : list (Q * Q)).

(** [canvas.getBoundingClientRect()] *)
Record DOMRect : Type := mkDOMRect {
  rect_left : Q; rect_top : Q; rect_width : Q; rect_height : Q
}.

(** [getCanvasPos(event)].  [None] when [event.touches[0]] is [undefined]
    and reading its [clientX] throws.  The canvas keeps the size it had
    when the script was loaded, so [canvas.width] is [GAME_WIDTH].  For a
    rectangle of zero width or height the JavaScript result is not a finite
    number: the statements about this function assume both are non-zero. *)
Definition getCanvasPos `{Host} (rect : DOMRect) (event : pointer_event)
  : option (Q * Q) :=
  let client :=
    match event with
    | MouseEvent clientX clientY => Some (clientX, clientY)
    | TouchEvent touches => head touches
    end in
  match client with
  | Some (clientX, clientY) =>
      Some ((clientX - rect_left rect) * (GAME_WIDTH / rect_width rect),
            (clientY - rect_top rect) * (GAME_HEIGHT / rect_height rect))%Q
  | None => None
  end.

(** The bounds of the aim: [-Math.PI + 0.35] and [-0.35]. *)
Definition aim_min `{Host} : Q := (- Math_PI + (35 # 100))%Q.
Definition aim_max : Q := (- (35 # 100))%Q.

(** [!this.previousTime]: [undefined] and 0 are falsy. *)
Definition falsy_time (previousTime : option Q) : bool :=
  match previousTime with
  | None => true
  | Some p => Qeq_bool p 0
  end.

(** [cappedDelta] of [loop(timestamp)]. *)
Definition cappedDelta (previousTime : option Q) (timestamp : Q) : Q :=
  let previousTime :=
    if falsy_time previousTime then timestamp
    else match previousTime with Some p => p | None => timestamp end in
  let delta := ((timestamp - previousTime) / 1000)%Q in
  JS.Math_min delta (33 # 1000).

Module GridEvents.

Section Handlers.
Context `{Host} `{HostPointer}.

(** [startAim(event)]; [pos] is the result of [getCanvasPos(event)], [None]
    when it throws: the handler stops there, after [isAiming] was set. *)
Definition startAim (pos : option (Q * Q)) (g : Grid.Game) : Grid.Game :=
  if Grid.isLaunching g || Grid.isGameOver g then g
  else
    let g := Grid.set_isAiming true g in
    match pos with
    | None => g
    | Some (x, y) =>
        let g :=
          Grid.set_turnAngle
            (Some (Math_atan2 (y - Grid.baseY g) (x - Grid.baseBallPosition g))%Q) g in
        Grid.set_turnAngle
          (Some (JS.clamp (JS.to_number (Grid.turnAngle g)) aim_min aim_max)) g
    end.

(** [moveAim(event)] *)
Definition moveAim (pos : option (Q * Q)) (g : Grid.Game) : Grid.Game :=
  if negb (Grid.isAiming g) || Grid.isLaunching g then g
  else
    match pos with
    | None => g
    | Some (x, y) =>
        let g :=
          Grid.set_turnAngle
            (Some (Math_atan2 (y - Grid.baseY g) (x - Grid.baseBallPosition g))%Q) g in
        Grid.set_turnAngle
          (Some (JS.clamp (JS.to_number (Grid.turnAngle g)) aim_min aim_max)) g
    end.

(** [endAim()] *)
Definition endAim (g : Grid.Game) : Grid.Game :=
  if negb (Grid.isAiming g) || Grid.isLaunching g then g
  else
    let g := Grid.set_isAiming false g in
    match Grid.turnAngle g with
    | None => g
    | Some angle => Grid.launchTurn angle g
    end.

End Handlers.

(** The session as the frame loop holds it: [this.previousTime]
    ([undefined] until the first frame) beside the fields of [Game]. *)
Record frame : Type := mkFrame { previousTime : option Q; game : Grid.Game }.

Section Loop.
Context `{Host} `{HostPointer}.

(** [loop(timestamp)] up to [requestAnimationFrame]. *)
Definition loop (fuel : nat) (timestamp : Q) (f : frame) : option frame :=
  match Grid.update fuel (cappedDelta (previousTime f) timestamp) (game f) with
  | Some g => Some (mkFrame (Some timestamp) g)
  | None => None
  end.

(** [new Game()]: the generator, [reset()], the handlers, [loop(0)]. *)
Definition start (fuel : nat) (seed : Z) : option frame :=
  match Grid.new fuel seed with
  | Some g => loop fuel 0 (mkFrame None g)
  | None => None
  end.

(** The sessions of the grid revision: created by [new Game()], then
    driven by animation frames whose timestamps never decrease, by the
    pointer handlers and by the restart button. *)
Inductive session : frame -> Prop :=
| session_start fuel seed f : start fuel seed = Some f -> session f
| session_frame fuel timestamp f f' :
    session f ->
    (match previousTime f with Some p => p <= timestamp | None => True end)%Q ->
    loop fuel timestamp f = Some f' -> session f'
| session_startAim pos f :
    session f -> session (mkFrame (previousTime f) (startAim pos (game f)))
| session_moveAim pos f :
    session f -> session (mkFrame (previousTime f) (moveAim pos (game f)))
| session_endAim f :
    session f -> session (mkFrame (previousTime f) (endAim (game f)))
| session_restart fuel f g :
    session f -> Grid.reset fuel (game f) = Some g ->
    session (mkFrame (previousTime f) g).

End Loop.

End GridEvents.

Module BarrierEvents.

Section Handlers.
Context `{Host} `{HostPointer}.

(** [startAim(event)]; [pos] is the result of [getCanvasPos(event)], [None]
    when it throws: the handler stops there, after [isAiming] was set. *)
Definition startAim (pos : option (Q * Q)) (g : Barrier.Game) : Barrier.Game :=
  if Barrier.isLaunching g || Barrier.isGameOver g then g
  else
    let g := Barrier.set_isAiming true g in
    match pos with
    | None => g
    | Some (x, y) =>
        let g :=
          Barrier.set_turnAngle
            (Some (Math_atan2 (y - Barrier.baseY g)
                              (x - Barrier.baseBallPosition g))%Q) g in
        Barrier.set_turnAngle
          (Some (JS.clamp (JS.to_number (Barrier.turnAngle g)) aim_min aim_max)) g
    end.

(** [moveAim(event)] *)
Definition moveAim (pos : option (Q * Q)) (g : Barrier.Game) : Barrier.Game :=
  if negb (Barrier.isAiming g) || Barrier.isLaunching g then g
  else
    match pos with
    | None => g
    | Some (x, y) =>
        let g :=
          Barrier.set_turnAngle
            (Some (Math_atan2 (y - Barrier.baseY g)
                              (x - Barrier.baseBallPosition g))%Q) g in
        Barrier.set_turnAngle
          (Some (JS.clamp (JS.to_number (Barrier.turnAngle g)) aim_min aim_max)) g
    end.

(** [endAim()] *)
Definition endAim (g : Barrier.Game) : Barrier.Game :=
  if negb (Barrier.isAiming g) || Barrier.isLaunching g then g
  else
    let g := Barrier.set_isAiming false g in
    match Barrier.turnAngle g with
    | None => g
    | Some angle => Barrier.launchTurn angle g
    end.

End Handlers.

(** The session as the frame loop holds it: [this.previousTime]
    ([undefined] until the first frame) beside the fields of [Game]. *)
Record frame : Type := mkFrame { previousTime : option Q; game : Barrier.Game }.

Section Loop.
Context `{Host} `{HostPointer}.

(** [loop(timestamp)] up to [requestAnimationFrame]. *)
Definition loop (timestamp : Q) (f : frame) : frame :=
  mkFrame (Some timestamp)
          (Barrier.update (cappedDelta (previousTime f) timestamp) (game f)).

(** [new Game()]: the generator, [reset()], the handlers, [loop(0)]. *)
Definition start (seed : Z) : frame := loop 0 (mkFrame None (Barrier.new seed)).

(** The sessions of the barrier revision: created by [new Game()], then
    driven by animation frames whose timestamps never decrease, by the
    pointer handlers and by the two restart buttons. *)
Inductive session : frame -> Prop :=
| session_start seed : session (start seed)
| session_frame timestamp f :
    session f ->
    (match previousTime f with Some p => p <= timestamp | None => True end)%Q ->
    session (loop timestamp f)
| session_startAim pos f :
    session f -> session (mkFrame (previousTime f) (startAim pos (game f)))
| session_moveAim pos f :
    session f -> session (mkFrame (previousTime f) (moveAim pos (game f)))
| session_endAim f :
    session f -> session (mkFrame (previousTime f) (endAim (game f)))
| session_restart f :
    session f -> session (mkFrame (previousTime f) (Barrier.reset (game f))).

End Loop.

End BarrierEvents.

(** The guard of the call of [drawAim()] in [draw]:
    [this.isAiming || (!this.isLaunching && !this.isAiming &&
    this.turnAngle !== null)]. *)
Definition aim_drawn (isAiming isLaunching : bool) (turnAngle : option Q) : bool :=
  isAiming
  || (negb isLaunching && negb isAiming
      && match turnAngle with Some _ => true | None => false end).

(** ** Vocabulary of the statements about balls in flight *)

(** The centre of a ball is at least [BALL_RADIUS] from the side walls and
    from the top. *)
Definition in_field `{Host} (x y : Q) : Prop :=
  (BALL_RADIUS <= x <= GAME_WIDTH - BALL_RADIUS)%Q /\ (BALL_RADIUS <= y)%Q.

(** [v'] is [v] or [-v]. *)
Definition same_speed (v v' : Q) : Prop := (v' == v \/ v' == - v)%Q.

(** ** Vocabulary of the statements about sessions of the barrier revision *)

Section BarrierSessions.
Context `{Host}.

(** A ball of a turn launched at [angle] over a base line at [base]: inside
    the field; at rest on the base line, or in flight with the velocity
    components of the launch up to their signs. *)
Definition barrier_ball_ok (base angle : Q) (b : Barrier.Ball.t) : Prop :=
  in_field (Barrier.Ball.x b) (Barrier.Ball.y b) /\
  if Barrier.Ball.resting b
  then Barrier.Ball.y b = (base - BALL_RADIUS)%Q /\
       Barrier.Ball.vx b = 0%Q /\ Barrier.Ball.vy b = 0%Q
  else same_speed (Math_cos angle * Barrier.BALL_SPEED) (Barrier.Ball.vx b) /\
       same_speed (Math_sin angle * Barrier.BALL_SPEED) (Barrier.Ball.vy b).

(** A position of the launcher. *)
Definition on_base_line (x : Q) : Prop :=
  (BALL_RADIUS <= x <= GAME_WIDTH - BALL_RADIUS)%Q.

(** A barrier where [createCandidate] places one. *)
Definition barrier_placed (b : Barrier.BarrierBlock.t) : Prop :=
  Barrier.BarrierBlock.size b = Barrier.barrier_size /\
  (Barrier.padding <= Barrier.BarrierBlock.x b <= GAME_WIDTH - Barrier.padding)%Q /\
  (Barrier.padding + 32 <= Barrier.BarrierBlock.y b <= Barrier.maxY + 32)%Q.

(** A barrier as [handleCollisions] leaves it in the array. *)
Definition barrier_settled (b : Barrier.BarrierBlock.t) : Prop :=
  Barrier.BarrierBlock.destroyed b = false /\ 1 <= Barrier.BarrierBlock.strength b.

(** A barrier that no hit has destroyed. *)
Definition live_barrier (b : Barrier.BarrierBlock.t) : Prop :=
  Barrier.BarrierBlock.destroyed b = false.

(** Strength at least 1 unless destroyed: what holds of every barrier of
    the array also inside a collision pass. *)
Definition sound_barrier (b : Barrier.BarrierBlock.t) : Prop :=
  Barrier.BarrierBlock.destroyed b = false -> 1 <= Barrier.BarrierBlock.strength b.

(** What one hit writes to a barrier. *)
Definition barrier_struck (b : Barrier.BarrierBlock.t) : Barrier.BarrierBlock.t :=
  let b := Barrier.BarrierBlock.set_strength (Barrier.BarrierBlock.strength b - 1) b in
  if Barrier.BarrierBlock.strength b <=? 0
  then Barrier.BarrierBlock.set_destroyed true b
  else b.

End BarrierSessions.

Section BarrierInvariants.
Context `{Host}.

(** Where the balls and the launcher of a session are. *)
Definition barrier_geometry (g : Barrier.Game) : Prop :=
  Barrier.baseY g = (GAME_HEIGHT - 24)%Q /\
  on_base_line (Barrier.baseBallPosition g) /\
  (forall x, Barrier.activeBallChainLanding g = JS.Num x -> on_base_line x) /\
  Forall (barrier_ball_ok (Barrier.baseY g) (JS.to_number (Barrier.turnAngle g)))
         (Barrier.balls g) /\
  (Barrier.isLaunching g = false -> Barrier.balls g = []) /\
  Barrier.isGameOver g = false.

(** The phase of a session: flags, counters and the aim. *)
Definition barrier_control (g : Barrier.Game) : Prop :=
  Barrier.isGameOver g = false /\
  Barrier.blocks g = [] /\
  Barrier.ballChain g = 1 /\
  1 <= Barrier.turn g /\
  (forall a, Barrier.turnAngle g = Some a ->
             exists a0, a = JS.clamp a0 aim_min aim_max) /\
  (Barrier.isLaunching g = true ->
   (exists a, Barrier.turnAngle g = Some a) /\
   0 <= Barrier.pendingBalls g /\
   Z.of_nat (length (Barrier.balls g)) + Barrier.pendingBalls g = 1) /\
  (Barrier.isLaunching g = false ->
   Barrier.balls g = [] /\ Barrier.pendingBalls g = 0) /\
  (Barrier.isAiming g = true -> Barrier.isLaunching g = false).

End BarrierInvariants.

(** ** Vocabulary of the statements about sessions of the grid revision *)

Section GridRows.
Context `{Host}.

(** The test of [stepRowsDown]: [block.row * GRID_SIZE >= GAME_HEIGHT -
    GRID_SIZE]. *)
Definition at_bottom (b : Block.t) : Prop :=
  (GAME_HEIGHT - GRID_SIZE <= inject_Z (Block.row b) * GRID_SIZE)%Q.

(** [block.updateRow(block.row + 1)] *)
Definition moved_down (b : Block.t) : Block.t :=
  Block.updateRow (Block.row b + 1) b.

(** The cell of the grid that a block occupies. *)
Definition cell (b : Block.t) : option Z * Z := (Block.col b, Block.row b).

(** A block as a session holds it between two frames: not destroyed, in a
    row from 0 on; a standard block with strength at least 1 in a column
    from 0 to [GRID_COLUMNS] (the last one is outside the canvas), or a
    pickup of strength 1 in a column from 0 to [GRID_COLUMNS - 1] or with
    an [undefined] column. *)
Definition grid_block_ok (b : Block.t) : Prop :=
  Block.destroyed b = false /\
  0 <= Block.row b /\
  ((Block.type b = "block"%string /\ 1 <= Block.strength b /\
    exists c, Block.col b = Some c /\ 0 <= c <= GRID_COLUMNS) \/
   (Block.type b = "pickup"%string /\ Block.strength b = 1 /\
    forall c, Block.col b = Some c -> 0 <= c < GRID_COLUMNS)).

(** The array of blocks of a session: every block as above, the rows never
    increase along the array, and no two blocks are in the same cell. *)
Definition grid_blocks_ok (bs : list Block.t) : Prop :=
  Forall grid_block_ok bs /\
  StronglySorted (fun a b => Block.row b <= Block.row a) bs /\
  NoDup (List.map cell bs).

(** A ball of a turn launched at [angle] over a base line at [base]. *)
Definition grid_ball_ok (base angle : Q) (b : Grid.Ball.t) : Prop :=
  in_field (Grid.Ball.x b) (Grid.Ball.y b) /\
  if Grid.Ball.resting b
  then Grid.Ball.y b = (base - BALL_RADIUS)%Q /\
       Grid.Ball.vx b = 0%Q /\ Grid.Ball.vy b = 0%Q
  else same_speed (Math_cos angle * Grid.BALL_SPEED) (Grid.Ball.vx b) /\
       same_speed (Math_sin angle * Grid.BALL_SPEED) (Grid.Ball.vy b).

(** Where the balls and the launcher of a session are. *)
Definition grid_geometry (g : Grid.Game) : Prop :=
  Grid.baseY g = (GAME_HEIGHT - 24)%Q /\
  (BALL_RADIUS <= Grid.baseBallPosition g <= GAME_WIDTH - BALL_RADIUS)%Q /\
  (forall x, Grid.activeBallChainLanding g = JS.Num x ->
             (BALL_RADIUS <= x <= GAME_WIDTH - BALL_RADIUS)%Q) /\
  Forall (grid_ball_ok (Grid.baseY g) (JS.to_number (Grid.turnAngle g)))
         (Grid.balls g).

(** The phase of a session: flags, counters and the aim. *)
Definition grid_control (g : Grid.Game) : Prop :=
  1 <= Grid.ballChain g /\
  1 <= Grid.turn g /\
  0 <= Grid.score g /\
  (forall a, Grid.turnAngle g = Some a ->
             exists a0, a = JS.clamp a0 aim_min aim_max) /\
  (Grid.isLaunching g = true ->
   (exists a, Grid.turnAngle g = Some a) /\
   0 <= Grid.pendingBalls g /\
   Z.of_nat (length (Grid.balls g)) + Grid.pendingBalls g <= Grid.ballChain g) /\
  (Grid.isLaunching g = false ->
   Grid.balls g = [] /\ Grid.pendingBalls g = 0 /\
   (Grid.isAiming g = false -> Grid.turnAngle g = None)) /\
  (Grid.isAiming g = true -> Grid.isLaunching g = false) /\
  (Grid.isGameOver g = true ->
   Grid.isLaunching g = false /\ Grid.isAiming g = false /\
   exists b, In b (Grid.blocks g) /\ at_bottom b).

End GridRows.

(** ** Sample sessions with pointer input *)

(** A pointer every position of which aims straight up. *)
Definition sample_pointer : HostPointer :=
  {| Math_atan2 := fun _ _ => (- (355 # 226))%Q |}.

(** A session of the barrier revision on the sample host: created with
    seed 1, aimed at (100, 300), released, and run for the frames at 16 ms
    and 32 ms. *)
Definition sample_barrier_aimed : BarrierEvents.frame :=
  let f := @BarrierEvents.start sample_host 1 in
  BarrierEvents.mkFrame
    (BarrierEvents.previousTime f)
    (@BarrierEvents.startAim sample_host sample_pointer (Some (100, 300)%Q)
       (BarrierEvents.game f)).

Definition sample_barrier_released : BarrierEvents.frame :=
  BarrierEvents.mkFrame
    (BarrierEvents.previousTime sample_barrier_aimed)
    (BarrierEvents.endAim (BarrierEvents.game sample_barrier_aimed)).

Definition sample_barrier_flight : BarrierEvents.frame :=
  @BarrierEvents.loop sample_host 32
    (@BarrierEvents.loop sample_host 16 sample_barrier_released).

(** A session of the grid revision on the sample host: created with seed
    1, aimed at (100, 300), released, and run for the frames at 16 ms and
    32 ms.  [run_frame] is the frame that a step of a sample run returns,
    the frame before the step when the step runs out of fuel. *)
Definition run_frame (f : GridEvents.frame) (o : option GridEvents.frame)
  : GridEvents.frame :=
  match o with Some f' => f' | None => f end.

Definition sample_grid_created : GridEvents.frame :=
  run_frame (GridEvents.mkFrame None (Grid.fresh 1))
            (@GridEvents.start sample_host 50 1).

Definition sample_grid_aimed : GridEvents.frame :=
  GridEvents.mkFrame
    (GridEvents.previousTime sample_grid_created)
    (@GridEvents.startAim sample_host sample_pointer (Some (100, 300)%Q)
       (GridEvents.game sample_grid_created)).

Definition sample_grid_released : GridEvents.frame :=
  GridEvents.mkFrame
    (GridEvents.previousTime sample_grid_aimed)
    (GridEvents.endAim (GridEvents.game sample_grid_aimed)).

Definition sample_grid_flight : GridEvents.frame :=
  let f := run_frame sample_grid_released
             (@GridEvents.loop sample_host 50 16 sample_grid_released) in
  run_frame f (@GridEvents.loop sample_host 50 32 f).

(** * Properties *)

(** ** Numerics *)

Lemma to_uint32_range x : 0 <= JS.to_uint32 x < JS.two32.
Proof. unfold JS.to_uint32, JS.two32. apply Z.mod_pos_bound. lia. Qed.

Lemma Qltb_lt a b : JS.Qltb a b = true <-> (a < b)%Q.
Proof.
  unfold JS.Qltb. rewrite negb_true_iff. split.
  - intros Hb. apply Qnot_le_lt. intros Hle.
    apply Qle_bool_iff in Hle. congruence.
  - intros Hlt. destruct (Qle_bool b a) eqn:E; [|reflexivity].
    apply Qle_bool_iff in E. exfalso. exact (Qlt_not_le _ _ Hlt E).
Qed.

Lemma Qltb_ge a b : JS.Qltb a b = false <-> (b <= a)%Q.
Proof. unfold JS.Qltb. rewrite negb_false_iff. apply Qle_bool_iff. Qed.

Lemma Qleb_le a b : JS.Qleb a b = true <-> (a <= b)%Q.
Proof. apply Qle_bool_iff. Qed.

Lemma Qleb_gt a b : JS.Qleb a b = false <-> (b < a)%Q.
Proof.
  unfold JS.Qleb. split.
  - intros Hb. apply Qnot_le_lt. intros Hle.
    apply Qle_bool_iff in Hle. congruence.
  - intros Hlt. destruct (Qle_bool a b) eqn:E; [|reflexivity].
    apply Qle_bool_iff in E. exfalso. exact (Qlt_not_le _ _ Hlt E).
Qed.

Lemma Qsquare_nonneg (a : Q) : (0 <= a * a)%Q.
Proof.
  destruct (Qlt_le_dec a 0) as [Hneg|Hpos].
  - assert (Heq : (a * a == (- a) * (- a))%Q) by ring.
    rewrite Heq. apply Qmult_le_0_compat; lra.
  - apply Qmult_le_0_compat; assumption.
Qed.

(** [clamp] returns the bound on the side where the value falls out, and the
    value itself in between. *)
Lemma clamp_cases v lo hi :
  (lo <= hi)%Q ->
  ((v < lo)%Q /\ JS.clamp v lo hi == lo) \/
  ((lo <= v <= hi)%Q /\ JS.clamp v lo hi == v) \/
  ((hi < v)%Q /\ JS.clamp v lo hi == hi).
Proof.
  intros Hle. unfold JS.clamp, JS.Math_max, JS.Math_min.
  destruct (Q.min_spec hi v) as [[Hhv Hmin]|[Hvh Hmin]].
  - right. right. split; [exact Hhv|].
    rewrite Hmin. apply Q.max_r. exact Hle.
  - destruct (Q.max_spec lo v) as [[Hlv Hmax]|[Hvl Hmax]].
    + right. left. split; [split; [apply Qlt_le_weak; exact Hlv|exact Hvh]|].
      rewrite Hmin. exact Hmax.
    + destruct (Qlt_le_dec v lo) as [Hlt|Hge].
      * left. split; [exact Hlt|]. rewrite Hmin. exact Hmax.
      * right. left. split; [split; assumption|].
        rewrite Hmin, Hmax. apply Qle_antisym; assumption.
Qed.

Lemma clamp_in_range v lo hi :
  (lo <= hi)%Q -> (lo <= JS.clamp v lo hi <= hi)%Q.
Proof.
  intros Hle.
  destruct (clamp_cases v lo hi Hle) as [[H1 E]|[[H1 E]|[H1 E]]];
    rewrite E; lra.
Qed.

(** Along one axis the clamped value is the nearest point of the interval. *)
Lemma clamp_nearest v lo hi p :
  (lo <= hi)%Q -> (lo <= p <= hi)%Q ->
  ((v - JS.clamp v lo hi) * (v - JS.clamp v lo hi) <= (v - p) * (v - p))%Q.
Proof.
  intros Hle Hp.
  destruct (clamp_cases v lo hi Hle) as [[H1 E]|[[H1 E]|[H1 E]]]; rewrite E.
  - assert (Hprod : (0 <= (p - lo) * (lo - v))%Q)
      by (apply Qmult_le_0_compat; lra).
    assert (Hsq : (0 <= (p - lo) * (p - lo))%Q)
      by (apply Qmult_le_0_compat; lra).
    assert (Heq : ((v - p) * (v - p) ==
                   (v - lo) * (v - lo) + 2 * ((p - lo) * (lo - v))
                   + (p - lo) * (p - lo))%Q) by ring.
    rewrite Heq. lra.
  - assert (Heq : ((v - v) * (v - v) == 0)%Q) by ring.
    rewrite Heq. apply Qsquare_nonneg.
  - assert (Hprod : (0 <= (hi - p) * (v - hi))%Q)
      by (apply Qmult_le_0_compat; lra).
    assert (Hsq : (0 <= (hi - p) * (hi - p))%Q)
      by (apply Qmult_le_0_compat; lra).
    assert (Heq : ((v - p) * (v - p) ==
                   (v - hi) * (v - hi) + 2 * ((hi - p) * (v - hi))
                   + (hi - p) * (hi - p))%Q) by ring.
    rewrite Heq. lra.
Qed.

(** ** RNG *)

Lemma ushr0_range x : 0 <= JS.ushr x 0 < JS.two32.
Proof. unfold JS.ushr. rewrite Z.shiftr_0_r. apply to_uint32_range. Qed.

Lemma step_range s : 0 <= RNG.step s < JS.two32.
Proof. unfold RNG.step. apply ushr0_range. Qed.

Lemma new_range seed : 0 <= RNG.state (RNG.new seed) < JS.two32.
Proof. apply ushr0_range. Qed.

(** Every output lies in the closed interval from 0 to 1. *)
Lemma next_range r : (0 <= fst (RNG.next r) <= 1)%Q.
Proof.
  unfold RNG.next. cbn [fst].
  pose proof (step_range (RNG.state r)) as [Hlo Hhi]. unfold JS.two32 in Hhi.
  set (s := RNG.step (RNG.state r)) in *.
  unfold Qdiv, Qle, Qmult, Qinv, inject_Z. simpl. lia.
Qed.

(** The output is below 1 exactly when the new word is not 0xffffffff. *)
Lemma next_lt_1 r :
  (fst (RNG.next r) < 1)%Q <-> RNG.state (snd (RNG.next r)) <> 4294967295.
Proof.
  unfold RNG.next. cbn [fst snd RNG.state].
  pose proof (step_range (RNG.state r)) as [Hlo Hhi]. unfold JS.two32 in Hhi.
  set (s := RNG.step (RNG.state r)) in *.
  unfold Qdiv, Qlt, Qmult, Qinv, inject_Z. simpl. lia.
Qed.

(** Zero is a fixed point of the word update: a generator in state 0 returns
    0 forever. *)
Lemma next_zero : RNG.next (RNG.mk 0) = ((inject_Z 0 / inject_Z 4294967295)%Q, RNG.mk 0).
Proof. reflexivity. Qed.

(** C1 (fails on the code): seeded with 0x5e6cfce7, the very first call of
    [next()] moves the word to 0xffffffff and returns 0xffffffff / 0xffffffff,
    which is 1 and not strictly below 1. *)
Theorem RNG_next_returns_one :
  let r := RNG.new 1584200935 in
  RNG.state (snd (RNG.next r)) = 4294967295 /\
  (fst (RNG.next r) == 1)%Q /\
  ~ (fst (RNG.next r) < 1)%Q.
Proof.
  cbv zeta. split; [vm_compute; reflexivity|]. split.
  - vm_compute. reflexivity.
  - intros Hlt. vm_compute in Hlt. discriminate Hlt.
Qed.

(** ** The circle test *)

Lemma closest_in_rect x y r :
  (0 <= Rect.w r)%Q -> (0 <= Rect.h r)%Q ->
  in_rect (fst (closest x y r)) (snd (closest x y r)) r.
Proof.
  intros Hw Hh. unfold in_rect, closest. cbn [fst snd].
  split; apply clamp_in_range; lra.
Qed.

Lemma closest_nearest x y r px py :
  (0 <= Rect.w r)%Q -> (0 <= Rect.h r)%Q -> in_rect px py r ->
  (sqdist x y (fst (closest x y r)) (snd (closest x y r)) <= sqdist x y px py)%Q.
Proof.
  intros Hw Hh [Hx Hy]. unfold sqdist, closest. cbn [fst snd].
  apply Qplus_le_compat; apply clamp_nearest; solve [lra | assumption].
Qed.

Lemma circleRectCollision_sqdist x y r :
  circleRectCollision_at x y r = true <->
  (sqdist x y (fst (closest x y r)) (snd (closest x y r))
   < BALL_RADIUS * BALL_RADIUS)%Q.
Proof.
  unfold circleRectCollision_at, sqdist, closest. cbn [fst snd].
  apply Qltb_lt.
Qed.



(** ** spawnRow *)

Section SpawnRow.

(** What the [while] loop of [spawnRow] yields when it ends: exactly
    [blockCount] new standard blocks at row 0, in columns that were free and
    are pairwise distinct, all recorded in [taken]. *)
Lemma spawnRow_loop_spec fuel :
  forall blockCount taken g taken' g',
    Grid.spawnRow_loop fuel blockCount taken g = Some (taken', g') ->
    0 <= blockCount ->
    exists new,
      Grid.blocks g' = Grid.blocks g ++ new /\
      Z.of_nat (length new) = blockCount /\
      Forall (fun b => Block.is_block b = true /\ Block.row b = 0 /\
                       Block.destroyed b = false /\ 1 <= Block.strength b /\
                       exists c, Block.col b = Some c /\ (c ∉ taken) /\ (c ∈ taken'))
             new /\
      NoDup (List.map Block.col new) /\
      taken ⊆ taken' /\
      spawn_frame g' = spawn_frame g.
Proof.
  induction fuel as [|fuel IH]; intros blockCount taken g taken' g' Hrun Hpos;
    cbn [Grid.spawnRow_loop] in Hrun;
    destruct (blockCount >? 0) eqn:Hgt.
  - discriminate Hrun.
  - injection Hrun as <- <-. exists []. rewrite app_nil_r.
    assert (blockCount = 0) by lia. subst blockCount.
    repeat split; try constructor; try reflexivity.
  - destruct (RNG.next (Grid.rng g)) as [v r] eqn:Hnext.
    cbn [Grid.rng Grid.set_rng] in Hrun.
    set (col := JS.Math_floor (v * inject_Z GRID_COLUMNS)%Q) in *.
    case_bool_decide as Hin.
    + apply IH in Hrun; [|exact Hpos].
      destruct Hrun as (new & Hb & Hlen & Hall & Hnd & Hsub & Hfr).
      exists new. repeat split; assumption.
    + destruct (RNG.next r) as [v2 r2] eqn:Hnext2.
      cbn [Grid.rng Grid.set_rng Grid.set_blocks Grid.blocks Grid.turn] in Hrun.
      apply IH in Hrun; [|lia].
      destruct Hrun as (new & Hb & Hlen & Hall & Hnd & Hsub & Hfr).
      simpl in Hb.
      eexists (_ :: new). split; [|split; [|split; [|split; [|split]]]].
      * rewrite Hb, <- app_assoc. reflexivity.
      * cbn [length]. lia.
      * constructor.
        -- cbn. repeat split; try lia. exists col. repeat split.
           ++ exact Hin.
           ++ apply Hsub. set_solver.
        -- eapply Forall_impl; [exact Hall|].
           intros b (Ht & Hr & Hd & Hs & c & Hc & Hnin & Hin').
           repeat split; try assumption. exists c. repeat split; try assumption.
           set_solver.
      * cbn [List.map Block.col Block.new]. constructor; [|exact Hnd].
        intros Hmem. apply list_elem_of_In, in_map_iff in Hmem.
        destruct Hmem as (b & Hcb & Hbin).
        rewrite Forall_forall in Hall. apply list_elem_of_In in Hbin.
        destruct (Hall b Hbin) as (_ & _ & _ & _ & c & Hc & Hnin & _).
        rewrite Hc in Hcb. injection Hcb as ->. set_solver.
      * set_solver.
      * exact Hfr.
  - injection Hrun as <- <-. exists []. rewrite app_nil_r.
    assert (blockCount = 0) by lia. subst blockCount.
    repeat split; try constructor; try reflexivity.
Qed.

(** [Math.floor(v * n)] for an output [v] of the generator and a positive
    integer [n]: an index from 0 to [n], and [n] itself only when [v] is 1. *)
Lemma floor_scaled_range (v : Q) (n : Z) :
  (0 <= v <= 1)%Q -> 0 < n ->
  0 <= JS.Math_floor (v * inject_Z n)%Q <= n /\
  ((v < 1)%Q -> JS.Math_floor (v * inject_Z n)%Q < n).
Proof.
  intros [Hlo Hhi] Hn. unfold JS.Math_floor.
  assert (Hn' : (0 < inject_Z n)%Q)
    by (change 0%Q with (inject_Z 0); rewrite <- Zlt_Qlt; exact Hn).
  assert (H0 : (0 <= v * inject_Z n)%Q) by (apply Qmult_le_0_compat; lra).
  assert (H1 : (v * inject_Z n <= inject_Z n)%Q).
  { rewrite <- (Qmult_1_l (inject_Z n)) at 2.
    apply Qmult_le_compat_r; lra. }
  split; [split|].
  - apply (Qfloor_resp_le 0) in H0. exact H0.
  - apply Qfloor_resp_le in H1. rewrite Qfloor_Z in H1. exact H1.
  - intros Hlt. rewrite Zlt_Qlt.
    eapply Qle_lt_trans; [apply Qfloor_le|].
    rewrite <- (Qmult_1_l (inject_Z n)) at 2.
    apply Qmult_lt_compat_r; assumption.
Qed.

Lemma minBlocks_value : Grid.minBlocks = 3.
Proof. reflexivity. Qed.

Lemma maxBlocks_value : Grid.maxBlocks = 5.
Proof. reflexivity. Qed.

(** What [spawnRow] yields when it returns: between [minBlocks] and
    [maxBlocks + 1] new standard blocks in pairwise distinct columns, at most
    [maxBlocks] of them unless the first draw moved the generator to
    0xffffffff, followed by at most one pickup. *)
Lemma spawnRow_spec fuel g g' :
  Grid.spawnRow fuel g = Some g' ->
  exists new pickup,
    Grid.blocks g' = Grid.blocks g ++ new ++ pickup /\
    Forall (fun b => Block.is_block b = true) new /\
    NoDup (List.map Block.col new) /\
    Grid.minBlocks <= Z.of_nat (length new) <= Grid.maxBlocks + 1 /\
    (RNG.state (snd (RNG.next (Grid.rng g))) <> 4294967295 ->
     Z.of_nat (length new) <= Grid.maxBlocks) /\
    Z.of_nat (length new)
    = JS.Math_floor (fst (RNG.next (Grid.rng g))
                     * inject_Z (Grid.maxBlocks - Grid.minBlocks + 1))%Q
      + Grid.minBlocks /\
    (pickup = [] \/ exists c, pickup = [Block.new c 0 1 "pickup"]) /\
    spawn_frame g' = spawn_frame g.
Proof.
  unfold Grid.spawnRow. intros Hrun.
  pose proof (next_range (Grid.rng g)) as Hv.
  pose proof (next_lt_1 (Grid.rng g)) as Hv1.
  destruct (RNG.next (Grid.rng g)) as [v r] eqn:Hnext.
  cbn [fst snd] in Hv, Hv1.
  rewrite minBlocks_value, maxBlocks_value in *.
  change (5 - 3 + 1) with 3 in *. cbn [fst].
  destruct (floor_scaled_range v 3 Hv ltac:(lia)) as [Hcnt Hcnt1].
  set (blockCount := JS.Math_floor (v * inject_Z 3)%Q + 3) in *.
  destruct (Grid.spawnRow_loop fuel blockCount ∅ (Grid.set_rng r g))
    as [[taken g1]|] eqn:Hloop; [|discriminate Hrun].
  apply spawnRow_loop_spec in Hloop; [|subst blockCount; lia].
  destruct Hloop as (new & Hb & Hlen & Hall & Hnd & _ & Hfr).
  assert (Hstd : Forall (fun b => Block.is_block b = true) new).
  { eapply Forall_impl; [exact Hall|]. intros b Hb'. apply Hb'. }
  assert (Hrange : 3 <= Z.of_nat (length new) <= 5 + 1)
    by (rewrite Hlen; subst blockCount; lia).
  assert (Hle : RNG.state r <> 4294967295 -> Z.of_nat (length new) <= 5).
  { intros Hne. apply Hv1 in Hne. apply Hcnt1 in Hne.
    rewrite Hlen. subst blockCount. lia. }
  destruct (RNG.next (Grid.rng g1)) as [v2 r2] eqn:Hnext2.
  simpl in Hb.
  destruct (JS.Qltb (65 # 100) v2).
  - match type of Hrun with
    | context [if ?c then _ else _] => destruct c
    end.
    + match type of Hrun with
      | context [randomChoice ?l ?rr] =>
          destruct (randomChoice l rr) as [spawnCol r3]
      end.
      injection Hrun as <-. exists new, [Block.new spawnCol 0 1 "pickup"].
      refine (conj _ (conj Hstd (conj Hnd (conj Hrange (conj Hle (conj Hlen (conj _ _))))))).
      * simpl. rewrite Hb, <- app_assoc. reflexivity.
      * right. exists spawnCol. reflexivity.
      * transitivity (spawn_frame g1); [reflexivity|rewrite Hfr; reflexivity].
    + injection Hrun as <-. exists new, [].
      refine (conj _ (conj Hstd (conj Hnd (conj Hrange (conj Hle (conj Hlen (conj _ _))))))).
      * simpl. rewrite Hb, app_nil_r. reflexivity.
      * left. reflexivity.
      * transitivity (spawn_frame g1); [reflexivity|rewrite Hfr; reflexivity].
  - injection Hrun as <-. exists new, [].
    refine (conj _ (conj Hstd (conj Hnd (conj Hrange (conj Hle (conj Hlen (conj _ _))))))).
    + simpl. rewrite Hb, app_nil_r. reflexivity.
    + left. reflexivity.
    + transitivity (spawn_frame g1); [reflexivity|rewrite Hfr; reflexivity].
Qed.

(** Once column 0 is taken, a generator stuck in state 0 draws column 0 on
    every iteration and the loop never leaves. *)
Lemma spawnRow_loop_stuck fuel :
  forall blockCount taken g,
    Grid.rng g = RNG.mk 0 -> 0 ∈ taken -> 0 < blockCount ->
    Grid.spawnRow_loop fuel blockCount taken g = None.
Proof.
  induction fuel as [|fuel IH]; intros blockCount taken g Hrng Hin Hpos;
    cbn [Grid.spawnRow_loop];
    destruct (blockCount >? 0) eqn:Hgt; try lia.
  - reflexivity.
  - rewrite Hrng, next_zero.
    change (JS.Math_floor (inject_Z 0 / inject_Z 4294967295 * inject_Z GRID_COLUMNS)%Q)
      with 0.
    rewrite bool_decide_eq_true_2 by exact Hin.
    apply IH; [reflexivity|exact Hin|exact Hpos].
Qed.

Lemma spawnRow_loop_zero fuel blockCount g :
  Grid.rng g = RNG.mk 0 -> 1 < blockCount ->
  Grid.spawnRow_loop fuel blockCount ∅ g = None.
Proof.
  intros Hrng Hpos. destruct fuel as [|fuel]; cbn [Grid.spawnRow_loop];
    destruct (blockCount >? 0) eqn:Hgt; try lia.
  - reflexivity.
  - rewrite Hrng, next_zero.
    change (JS.Math_floor (inject_Z 0 / inject_Z 4294967295 * inject_Z GRID_COLUMNS)%Q)
      with 0.
    rewrite bool_decide_eq_false_2 by set_solver.
    cbn [Grid.rng Grid.set_rng]. rewrite next_zero.
    apply spawnRow_loop_stuck; [reflexivity|set_solver|lia].
Qed.

End SpawnRow.

(** C2 (fails on the code): called with the generator in state 0x5e6cfce7,
    [spawnRow] returns after adding six standard blocks, in the pairwise
    distinct columns 0, 3, 4, 2, 6, 1, although [maxBlocks] is 5: the first
    draw is 1 and [Math.floor(1 * 3) + 3] is 6. *)
Theorem spawnRow_six_blocks :
  let g := Grid.fresh 1584200935 in
  exists g',
    Grid.spawnRow 30 g = Some g' /\
    List.map Block.col (List.filter Block.is_block (Grid.blocks g'))
      = [Some 0; Some 3; Some 4; Some 2; Some 6; Some 1] /\
    Grid.maxBlocks = 5.
Proof.
  cbv zeta. eexists. split; [vm_compute; reflexivity|].
  split; reflexivity.
Qed.

(** C9 (fails on the code): with the generator in state 0, the state that
    seed 0 gives, the loop of [spawnRow] takes column 0 and then draws
    column 0 forever: [spawnRow] returns for no bound on the number of
    iterations, whatever the rest of the session. *)
Theorem spawnRow_zero_state_diverges :
  forall (fuel : nat) (g : Grid.Game),
    RNG.new 0 = RNG.mk 0 /\
    Grid.spawnRow fuel (Grid.set_rng (RNG.new 0) g) = None.
Proof.
  intros fuel g. split; [reflexivity|].
  change (RNG.new 0) with (RNG.mk 0).
  unfold Grid.spawnRow. cbn [Grid.rng Grid.set_rng]. rewrite next_zero.
  rewrite spawnRow_loop_zero; [reflexivity|reflexivity|].
  vm_compute. reflexivity.
Qed.
(** ** The period of the generator *)

(** *** The update on unsigned words *)

Lemma low32_bits a n :
  0 <= n -> Z.testbit (low32 a) n = (n <? 32) && Z.testbit a n.
Proof.
  intros Hn. unfold low32, JS.two32. change 4294967296 with (2 ^ 32).
  apply Z.testbit_mod_pow2. lia.
Qed.

Lemma low32_range a : 0 <= low32 a < JS.two32.
Proof. unfold low32, JS.two32. apply Z.mod_pos_bound. lia. Qed.

Lemma low32_small a : 0 <= a < JS.two32 -> low32 a = a.
Proof. intros Ha. unfold low32. apply Z.mod_small. exact Ha. Qed.

Lemma low32_idem a : low32 (low32 a) = low32 a.
Proof. apply low32_small, low32_range. Qed.

Lemma low32_lxor a b : low32 (Z.lxor a b) = Z.lxor (low32 a) (low32 b).
Proof.
  apply Z.bits_inj'. intros n Hn.
  rewrite Z.lxor_spec, !low32_bits, Z.lxor_spec by exact Hn.
  destruct (n <? 32); reflexivity.
Qed.

Lemma low32_to_int32 x : low32 (JS.to_int32 x) = low32 x.
Proof.
  unfold low32, JS.to_int32.
  rewrite Zminus_mod_idemp_l. f_equal. lia.
Qed.

Lemma low32_shiftl a k :
  0 <= k -> low32 (Z.shiftl (low32 a) k) = low32 (Z.shiftl a k).
Proof.
  intros Hk. apply Z.bits_inj'. intros n Hn.
  rewrite !low32_bits by exact Hn.
  destruct (n <? 32) eqn:E; [|reflexivity]. cbn [andb].
  rewrite !Z.shiftl_spec by exact Hn.
  destruct (Z_lt_le_dec (n - k) 0) as [Hneg|Hpos].
  - rewrite !Z.testbit_neg_r by exact Hneg. reflexivity.
  - rewrite low32_bits by exact Hpos.
    assert (Hlt : (n - k <? 32) = true) by lia. rewrite Hlt. reflexivity.
Qed.

Lemma low32_shiftr_small a k :
  0 <= k -> 0 <= a < JS.two32 -> low32 (Z.shiftr a k) = Z.shiftr a k.
Proof.
  intros Hk Ha. apply low32_small. split.
  - apply Z.shiftr_nonneg. lia.
  - rewrite Z.shiftr_div_pow2 by exact Hk.
    apply Z.le_lt_trans with a; [|lia].
    apply Z.div_le_upper_bound; [lia|].
    assert (1 <= 2 ^ k) by (apply Z.pow_le_mono_r with (b := 0); lia). nia.
Qed.

Lemma low32_xor a b : low32 (JS.xor a b) = Z.lxor (low32 a) (low32 b).
Proof. unfold JS.xor. rewrite low32_lxor, !low32_to_int32. reflexivity. Qed.

Lemma low32_shl a k :
  0 <= k -> low32 (JS.shl a k) = low32 (Z.shiftl (low32 a) k).
Proof.
  intros Hk. unfold JS.shl. rewrite low32_to_int32.
  rewrite <- (low32_shiftl (JS.to_int32 a)) by exact Hk.
  rewrite low32_to_int32. reflexivity.
Qed.

Lemma low32_ushr a k :
  0 <= k -> low32 (JS.ushr a k) = Z.shiftr (low32 a) k.
Proof.
  intros Hk. unfold JS.ushr. change (JS.to_uint32 a) with (low32 a).
  apply low32_shiftr_small; [exact Hk|apply low32_range].
Qed.

(** [next()] computes the unsigned update of the low 32 bits of the state. *)
Lemma step_unsigned s : RNG.step s = xorshift32 (low32 s).
Proof.
  unfold RNG.step, xorshift32. cbv zeta.
  set (x1 := JS.xor s (JS.shl s 13)).
  set (x2 := JS.xor x1 (JS.ushr x1 17)).
  set (x3 := JS.xor x2 (JS.shl x2 5)).
  assert (H1 : low32 x1 = Z.lxor (low32 s) (low32 (Z.shiftl (low32 s) 13)))
    by (subst x1; rewrite low32_xor, low32_shl by lia; reflexivity).
  assert (H2 : low32 x2 = Z.lxor (low32 x1) (Z.shiftr (low32 x1) 17))
    by (subst x2; rewrite low32_xor, low32_ushr by lia; reflexivity).
  assert (H3 : low32 x3 = Z.lxor (low32 x2) (low32 (Z.shiftl (low32 x2) 5)))
    by (subst x3; rewrite low32_xor, low32_shl by lia; reflexivity).
  unfold JS.ushr. rewrite Z.shiftr_0_r.
  change (JS.to_uint32 x3) with (low32 x3).
  rewrite H3, H2, H1. reflexivity.
Qed.

Lemma lxor_interchange a b c d :
  Z.lxor (Z.lxor a b) (Z.lxor c d) = Z.lxor (Z.lxor a c) (Z.lxor b d).
Proof.
  apply Z.bits_inj'. intros n _. rewrite !Z.lxor_spec.
  destruct (Z.testbit a n), (Z.testbit b n), (Z.testbit c n), (Z.testbit d n);
    reflexivity.
Qed.

Lemma lxor_shl_linear k a b :
  Z.lxor (Z.lxor a b) (low32 (Z.shiftl (Z.lxor a b) k))
  = Z.lxor (Z.lxor a (low32 (Z.shiftl a k))) (Z.lxor b (low32 (Z.shiftl b k))).
Proof. rewrite Z.shiftl_lxor, low32_lxor. apply lxor_interchange. Qed.

Lemma lxor_shr_linear k a b :
  Z.lxor (Z.lxor a b) (Z.shiftr (Z.lxor a b) k)
  = Z.lxor (Z.lxor a (Z.shiftr a k)) (Z.lxor b (Z.shiftr b k)).
Proof. rewrite Z.shiftr_lxor. apply lxor_interchange. Qed.

(** The unsigned update is linear over exclusive-or. *)
Lemma xorshift32_lxor a b :
  xorshift32 (Z.lxor a b) = Z.lxor (xorshift32 a) (xorshift32 b).
Proof.
  unfold xorshift32. cbv zeta.
  rewrite (lxor_shl_linear 13 a b).
  rewrite (lxor_shr_linear 17).
  rewrite (lxor_shl_linear 5). reflexivity.
Qed.

Lemma step_lxor a b : RNG.step (Z.lxor a b) = Z.lxor (RNG.step a) (RNG.step b).
Proof. rewrite !step_unsigned, low32_lxor. apply xorshift32_lxor. Qed.

Lemma step_0 : RNG.step 0 = 0.
Proof. reflexivity. Qed.

(** *** Linear maps over GF(2) *)

Lemma lxor_if_xorb (p q : bool) c x y :
  Z.lxor (if xorb p q then c else 0) (Z.lxor x y)
  = Z.lxor (Z.lxor (if p then c else 0) x) (Z.lxor (if q then c else 0) y).
Proof.
  rewrite <- lxor_interchange. f_equal.
  destruct p, q; cbn [xorb];
    rewrite ?Z.lxor_nilpotent, ?Z.lxor_0_l, ?Z.lxor_0_r; reflexivity.
Qed.

Lemma gf2_apply_from_lxor cols :
  forall i u v,
    gf2_apply_from i cols (Z.lxor u v)
    = Z.lxor (gf2_apply_from i cols u) (gf2_apply_from i cols v).
Proof.
  induction cols as [|c cols IH]; intros i u v; [reflexivity|].
  cbn [gf2_apply_from]. rewrite IH, Z.lxor_spec. apply lxor_if_xorb.
Qed.

Lemma gf2_apply_from_0 cols : forall i, gf2_apply_from i cols 0 = 0.
Proof.
  induction cols as [|c cols IH]; intros i; [reflexivity|].
  cbn [gf2_apply_from]. rewrite IH, Z.testbit_0_l. reflexivity.
Qed.

(** A linear map commutes with [gf2_apply_from]. *)
Lemma linear_apply_from (f : Z -> Z) cols :
  f 0 = 0 -> (forall a b, f (Z.lxor a b) = Z.lxor (f a) (f b)) ->
  forall i v,
    f (gf2_apply_from i cols v) = gf2_apply_from i (List.map f cols) v.
Proof.
  intros H0 Hlin. induction cols as [|c cols IH]; intros i v; [exact H0|].
  cbn [gf2_apply_from List.map]. rewrite Hlin, IH.
  destruct (Z.testbit v i); [reflexivity|rewrite H0; reflexivity].
Qed.

Lemma gf2_bits_spec n :
  forall i v k,
    0 <= i -> 0 <= k ->
    Z.testbit (gf2_apply_from i (gf2_bits i n) v) k
    = Z.testbit v k && (i <=? k) && (k <? i + Z.of_nat n).
Proof.
  induction n as [|n IH]; intros i v k Hi Hk.
  - cbn [gf2_bits gf2_apply_from]. rewrite Z.testbit_0_l.
    assert (E : (i <=? k) && (k <? i + Z.of_nat 0) = false).
    { destruct (i <=? k) eqn:E1; [|reflexivity].
      apply Z.leb_le in E1. apply Z.ltb_ge. cbn [Z.of_nat]. lia. }
    rewrite <- andb_assoc, E, andb_false_r. reflexivity.
  - cbn [gf2_bits gf2_apply_from]. rewrite Z.lxor_spec.
    rewrite IH; [|lia|exact Hk].
    destruct (Z.eq_dec k i) as [->|Hne].
    + assert (E1 : (i + 1 <=? i) = false) by lia.
      assert (E2 : (i <=? i) = true) by lia.
      assert (E3 : (i <? i + Z.of_nat (S n)) = true) by (apply Z.ltb_lt; lia).
      rewrite E1, E2, E3, andb_false_r. cbn [andb].
      destruct (Z.testbit v i) eqn:Ev.
      * rewrite Z.shiftl_spec by lia. rewrite Z.sub_diag. reflexivity.
      * rewrite Z.testbit_0_l. reflexivity.
    + assert (Hbit : Z.testbit (if Z.testbit v i then Z.shiftl 1 i else 0) k = false).
      { destruct (Z.testbit v i); [|apply Z.testbit_0_l].
        rewrite Z.shiftl_spec by lia.
        destruct (Z_lt_le_dec (k - i) 0); [apply Z.testbit_neg_r; lia|].
        apply Z.bits_above_log2; [lia|]. cbn. lia. }
      rewrite Hbit. cbn [xorb].
      destruct (Z.testbit v k); cbn [andb]; [|reflexivity].
      assert (E1 : (i + 1 <=? k) = (i <=? k)).
      { destruct (i <=? k) eqn:E; [apply Z.leb_le in E; apply Z.leb_le; lia|].
        apply Z.leb_gt in E. apply Z.leb_gt. lia. }
      assert (E2 : (k <? i + 1 + Z.of_nat n) = (k <? i + Z.of_nat (S n))).
      { f_equal. lia. }
      rewrite E1, E2. reflexivity.
Qed.

Lemma gf2_apply_id v : 0 <= v < JS.two32 -> gf2_apply gf2_id v = v.
Proof.
  intros Hv. rewrite <- (low32_small v Hv) at 2.
  apply Z.bits_inj'. intros k Hk.
  unfold gf2_apply, gf2_id. rewrite gf2_bits_spec, low32_bits by lia.
  change (Z.of_nat 32) with 32. rewrite Z.add_0_l.
  assert (E : (0 <=? k) = true) by lia. rewrite E, andb_true_r.
  apply andb_comm.
Qed.

(** A linear map is the map of its values on the bits. *)
Lemma linear_as_cols (f : Z -> Z) v :
  f 0 = 0 -> (forall a b, f (Z.lxor a b) = Z.lxor (f a) (f b)) ->
  0 <= v < JS.two32 ->
  gf2_apply (List.map f gf2_id) v = f v.
Proof.
  intros H0 Hlin Hv. unfold gf2_apply.
  rewrite <- (linear_apply_from f gf2_id H0 Hlin).
  change (gf2_apply_from 0 gf2_id v) with (gf2_apply gf2_id v).
  rewrite gf2_apply_id by exact Hv. reflexivity.
Qed.

Lemma gf2_apply_mul a b v :
  gf2_apply (gf2_mul a b) v = gf2_apply a (gf2_apply b v).
Proof.
  unfold gf2_mul, gf2_apply at 1 3. symmetry.
  apply linear_apply_from.
  - apply gf2_apply_from_0.
  - intros x y. apply gf2_apply_from_lxor.
Qed.

Lemma gf2_apply_add a : forall b i v,
    length a = length b ->
    gf2_apply_from i (gf2_add a b) v
    = Z.lxor (gf2_apply_from i a v) (gf2_apply_from i b v).
Proof.
  induction a as [|x a IH]; intros [|y b] i v Hlen; try discriminate; [reflexivity|].
  cbn [gf2_add gf2_apply_from]. rewrite IH by (cbn in Hlen; lia).
  rewrite <- lxor_interchange. f_equal.
  destruct (Z.testbit v i); rewrite ?Z.lxor_0_l; reflexivity.
Qed.

Lemma xorshift_cols_spec v :
  0 <= v < JS.two32 -> gf2_apply xorshift_cols v = RNG.step v.
Proof.
  intros Hv. apply (linear_as_cols RNG.step v); [reflexivity|exact step_lxor|exact Hv].
Qed.

Lemma pos_iter_range (e : positive) v :
  0 <= v < JS.two32 -> 0 <= Pos.iter RNG.step v e < JS.two32.
Proof.
  intros Hv. apply Pos.iter_invariant; [|exact Hv].
  intros x _. apply step_range.
Qed.

(** Powers of the update, computed on its columns. *)
Lemma gf2_pow_spec e :
  forall v, 0 <= v < JS.two32 ->
            gf2_apply (gf2_pow xorshift_cols e) v = Pos.iter RNG.step v e.
Proof.
  induction e as [e IH|e IH|]; intros v Hv; cbn [gf2_pow Pos.iter].
  - rewrite !gf2_apply_mul, (IH v Hv), (IH _ (pos_iter_range e v Hv)).
    apply xorshift_cols_spec. do 2 apply pos_iter_range. exact Hv.
  - rewrite gf2_apply_mul, (IH v Hv), (IH _ (pos_iter_range e v Hv)).
    reflexivity.
  - apply xorshift_cols_spec. exact Hv.
Qed.

(** *** The period *)

(** After [period] calls every word is back where it started. *)
Lemma xorshift_full_cycle : gf2_pow xorshift_cols period = gf2_id.
Proof. vm_compute. reflexivity. Qed.

Lemma pos_iter_period v :
  0 <= v < JS.two32 -> Pos.iter RNG.step v period = v.
Proof.
  intros Hv. rewrite <- gf2_pow_spec by exact Hv.
  rewrite xorshift_full_cycle. apply gf2_apply_id. exact Hv.
Qed.

(** For each prime factor [p] of [period], [period / p] calls fix no word
    but 0: the update raised to that power, plus the identity, has an
    inverse. *)
Lemma xorshift_cofactors_invertible :
  Forall (fun q : positive =>
            gf2_mul (gf2_shifted_inverse (gf2_pow xorshift_cols q))
                    (gf2_shifted (gf2_pow xorshift_cols q)) = gf2_id)
         period_cofactors.
Proof.
  repeat (apply Forall_cons_2; [vm_compute; reflexivity|]). apply Forall_nil_2.
Qed.

Lemma gf2_pow_length a e :
  length (gf2_pow a e) = length a.
Proof.
  induction e as [e IH|e IH|]; cbn [gf2_pow]; unfold gf2_mul;
    rewrite ?length_map; try assumption; reflexivity.
Qed.

Lemma no_fixed_word (q : positive) v :
  gf2_mul (gf2_shifted_inverse (gf2_pow xorshift_cols q))
          (gf2_shifted (gf2_pow xorshift_cols q)) = gf2_id ->
  0 <= v < JS.two32 ->
  Pos.iter RNG.step v q = v -> v = 0.
Proof.
  intros Hinv Hv Hfix.
  rewrite <- gf2_pow_spec in Hfix by exact Hv.
  assert (Hzero : gf2_apply (gf2_shifted (gf2_pow xorshift_cols q)) v = 0).
  { unfold gf2_shifted, gf2_apply. rewrite gf2_apply_add.
    - change (gf2_apply_from 0 (gf2_pow xorshift_cols q) v)
        with (gf2_apply (gf2_pow xorshift_cols q) v).
      change (gf2_apply_from 0 gf2_id v) with (gf2_apply gf2_id v).
      rewrite Hfix, gf2_apply_id by exact Hv. apply Z.lxor_nilpotent.
    - rewrite gf2_pow_length. reflexivity. }
  rewrite <- (gf2_apply_id v Hv), <- Hinv, gf2_apply_mul, Hzero.
  apply gf2_apply_from_0.
Qed.

(** *** The divisors of the period *)

Lemma coprime_from_spec fuel :
  forall k p, coprime_from fuel k p = true ->
              forall n, k <= n < k + Z.of_nat fuel -> Z.gcd n p = 1.
Proof.
  induction fuel as [|fuel IH]; intros k p Hc n Hn; [lia|].
  cbn [coprime_from] in Hc. apply andb_true_iff in Hc as [Hk Hrest].
  destruct (Z.eq_dec n k) as [->|Hne].
  - apply Z.eqb_eq. exact Hk.
  - apply (IH (k + 1) p Hrest). lia.
Qed.

(** Each listed factor is prime: it shares no divisor with a smaller
    positive number. *)
Lemma period_primes_prime :
  Forall (fun p : positive =>
            coprime_from (Pos.to_nat (Pos.pred p)) 1 (Zpos p) = true)
         period_primes.
Proof.
  repeat (apply Forall_cons_2; [vm_compute; reflexivity|]). apply Forall_nil_2.
Qed.

Lemma period_factored :
  Forall2 (fun p q : positive => (p * q)%positive = period)
          period_primes period_cofactors.
Proof. repeat constructor. Qed.

Lemma prime_coprime (p : positive) m :
  coprime_from (Pos.to_nat (Pos.pred p)) 1 (Zpos p) = true ->
  ~ (Zpos p | m) -> Z.gcd m (Zpos p) = 1.
Proof.
  intros Hp Hndiv.
  pose proof (Z.gcd_nonneg m (Zpos p)) as Hnn.
  pose proof (Z.gcd_divide_l m (Zpos p)) as Hl.
  pose proof (Z.gcd_divide_r m (Zpos p)) as Hr.
  set (d := Z.gcd m (Zpos p)) in *.
  assert (Hle : d <= Zpos p) by (apply Z.divide_pos_le; [lia|exact Hr]).
  assert (Hd0 : d <> 0).
  { intros Hd. rewrite Hd in Hr. destruct Hr as [c Hc]. lia. }
  destruct (Z.eq_dec d (Zpos p)) as [Heq|Hne].
  - exfalso. apply Hndiv. rewrite <- Heq. exact Hl.
  - assert (Hg : Z.gcd d (Zpos p) = 1).
    { apply (coprime_from_spec _ 1 _ Hp). lia. }
    rewrite <- Hg. symmetry. apply Z.divide_gcd_iff; [lia|exact Hr].
Qed.

Lemma cofactor_divides (p q : positive) m d :
  (p * q)%positive = period -> Zpos period = m * d -> (Zpos p | m) ->
  (d | Zpos q).
Proof.
  intros Hpq Hm [c Hc]. exists c. subst m.
  assert (Hz : Zpos p * Zpos q = Zpos period) by (rewrite <- Hpq; reflexivity).
  rewrite <- Hz in Hm.
  apply (Z.mul_reg_l _ _ (Zpos p)); [lia|]. rewrite Hm. ring.
Qed.

Lemma divides_or_coprime (p : positive) m :
  coprime_from (Pos.to_nat (Pos.pred p)) 1 (Zpos p) = true ->
  (Zpos p | m) \/ Z.gcd m (Zpos p) = 1.
Proof.
  intros Hp. destruct (Z.eq_dec (m mod Zpos p) 0) as [H0|Hne].
  - left. apply Z.mod_divide; [lia|exact H0].
  - right. apply prime_coprime; [exact Hp|].
    intros Hd. apply Hne. apply Z.mod_divide; [lia|exact Hd].
Qed.

(** A divisor of the period other than the period itself divides one of
    the cofactors. *)
Lemma proper_divisor d :
  0 < d -> (d | Zpos period) -> d <> Zpos period ->
  Exists (fun q : positive => (d | Zpos q)) period_cofactors.
Proof.
  intros Hd [m Hm] Hne.
  pose proof period_primes_prime as Hp. pose proof period_factored as Hf.
  unfold period_primes, period_cofactors in *.
  repeat match type of Hp with
         | Forall _ (_ :: _) =>
             apply Forall_cons_1 in Hp; destruct Hp as [? Hp]
         end.
  repeat match type of Hf with
         | Forall2 _ (_ :: _) (_ :: _) =>
             apply Forall2_cons_1 in Hf; destruct Hf as [? Hf]
         end.
  destruct (divides_or_coprime 3 m) as [D3|D3]; [assumption| |].
  { apply Exists_cons_hd. eapply cofactor_divides; eassumption. }
  destruct (divides_or_coprime 5 m) as [D5|D5]; [assumption| |].
  { do 1 apply Exists_cons_tl. apply Exists_cons_hd.
    eapply cofactor_divides; eassumption. }
  destruct (divides_or_coprime 17 m) as [D17|D17]; [assumption| |].
  { do 2 apply Exists_cons_tl. apply Exists_cons_hd.
    eapply cofactor_divides; eassumption. }
  destruct (divides_or_coprime 257 m) as [D257|D257]; [assumption| |].
  { do 3 apply Exists_cons_tl. apply Exists_cons_hd.
    eapply cofactor_divides; eassumption. }
  destruct (divides_or_coprime 65537 m) as [D65537|D65537]; [assumption| |].
  { do 4 apply Exists_cons_tl. apply Exists_cons_hd.
    eapply cofactor_divides; eassumption. }
  exfalso.
  assert (Hdiv : (m | 3 * (5 * (17 * (257 * (65537 * 1)))))).
  { exists d. transitivity (Zpos period); [reflexivity|]. rewrite Hm. ring. }
  apply Z.gauss in Hdiv; [|exact D3].
  apply Z.gauss in Hdiv; [|exact D5].
  apply Z.gauss in Hdiv; [|exact D17].
  apply Z.gauss in Hdiv; [|exact D257].
  apply Z.gauss in Hdiv; [|exact D65537].
  assert (Hm1 : m = 1).
  { apply Z.divide_1_r_nonneg; [|exact Hdiv]. nia. }
  subst m. lia.
Qed.

(** *** The orbit of a non-zero word *)

(** [N] distinct values among [1, ..., N] are all of them. *)
Lemma iter_covers (f : Z -> Z) (N : nat) (s : Z) :
  (forall i, (i < N)%nat -> 1 <= Nat.iter i f s <= Z.of_nat N) ->
  (forall i j, (i < j < N)%nat -> Nat.iter i f s <> Nat.iter j f s) ->
  forall t, 1 <= t <= Z.of_nat N ->
            exists k, (k < N)%nat /\ Nat.iter k f s = t.
Proof.
  intros Hr Hinj t Ht.
  set (l := List.map (fun i => Nat.iter i f s) (seq 0 N)).
  set (l' := List.map (fun i => Z.of_nat (S i)) (seq 0 N)).
  assert (Hnd : List.NoDup l).
  { apply Injective_map_NoDup_in; [|apply seq_NoDup].
    intros x y Hx Hy Heq. apply in_seq in Hx, Hy.
    destruct (Nat.lt_trichotomy x y) as [Hlt|[Heq'|Hgt]]; [|exact Heq'|].
    - exfalso. apply (Hinj x y); [lia|exact Heq].
    - exfalso. apply (Hinj y x); [lia|symmetry; exact Heq]. }
  assert (Hincl : incl l l').
  { intros x Hx. apply in_map_iff in Hx as (i & <- & Hi).
    apply in_seq in Hi. specialize (Hr i ltac:(lia)).
    apply in_map_iff. exists (Z.to_nat (Nat.iter i f s) - 1)%nat.
    split; [lia|apply in_seq; lia]. }
  assert (Hback : incl l' l).
  { apply NoDup_length_incl; [exact Hnd| |exact Hincl].
    unfold l, l'. rewrite !length_map. lia. }
  assert (Ht' : In t l').
  { apply in_map_iff. exists (Z.to_nat t - 1)%nat.
    split; [lia|apply in_seq; lia]. }
  apply Hback, in_map_iff in Ht' as (k & Hk & Hin).
  apply in_seq in Hin. exists k. split; [lia|exact Hk].
Qed.

Lemma iter_step_range k x :
  0 <= x < JS.two32 -> 0 <= Nat.iter k RNG.step x < JS.two32.
Proof.
  intros Hx. apply Nat.iter_invariant; [|exact Hx]. intros y _. apply step_range.
Qed.

Lemma iter_step_0 k : Nat.iter k RNG.step 0 = 0.
Proof.
  apply Nat.iter_invariant; [|reflexivity]. intros y ->. apply step_0.
Qed.

(** A multiple of a number of calls that brings [x] back brings it back. *)
Lemma iter_multiple k x a :
  Nat.iter k RNG.step x = x -> Nat.iter (a * k) RNG.step x = x.
Proof.
  intros Hk. induction a as [|a IH]; [reflexivity|].
  change (S a * k)%nat with (k + a * k)%nat.
  rewrite Nat.iter_add, IH. exact Hk.
Qed.

Section Cycle.

Variable N : nat.
Hypothesis HN : N = Pos.to_nat period.

Lemma iter_period x : 0 <= x < JS.two32 -> Nat.iter N RNG.step x = x.
Proof.
  intros Hx. pose proof (pos_iter_period x Hx) as Hp.
  rewrite Pos2Nat.inj_iter in Hp. rewrite HN. exact Hp.
Qed.

Lemma iter_periods b x :
  0 <= x < JS.two32 -> Nat.iter (b * N) RNG.step x = x.
Proof. intros Hx. apply iter_multiple, iter_period, Hx. Qed.

(** Calls can be undone: [i] calls are injective. *)
Lemma iter_injective i x y :
  0 <= x < JS.two32 -> 0 <= y < JS.two32 ->
  Nat.iter i RNG.step x = Nat.iter i RNG.step y -> x = y.
Proof.
  intros Hx Hy Heq.
  assert (HN1 : (1 <= N)%nat) by (rewrite HN; lia).
  assert (Hsplit : (i * N = (i * N - i) + i)%nat) by nia.
  rewrite <- (iter_periods i x Hx), <- (iter_periods i y Hy).
  rewrite Hsplit, !Nat.iter_add, Heq. reflexivity.
Qed.

Variable s : Z.
Hypothesis Hs : 0 < s < JS.two32.

Lemma iter_nonzero k : Nat.iter k RNG.step s <> 0.
Proof.
  intros H0. rewrite <- (iter_step_0 k) in H0.
  apply iter_injective in H0; lia.
Qed.

(** The numbers of calls that bring [s] back are closed under [gcd] with
    the period. *)
Lemma iter_gcd k :
  (0 < k)%nat -> Nat.iter k RNG.step s = s ->
  Nat.iter (Nat.gcd k N) RNG.step s = s.
Proof.
  intros Hk Hfix. destruct (Nat.gcd_bezout_pos k N Hk) as (a & b & Hab).
  pose proof (iter_multiple k s a Hfix) as Ha.
  rewrite Hab, Nat.iter_add, iter_periods in Ha by lia. exact Ha.
Qed.

(** Only multiples of the period bring [s] back. *)
Lemma iter_fixed_multiple k :
  (0 < k)%nat -> Nat.iter k RNG.step s = s -> (N <= k)%nat.
Proof.
  intros Hk Hfix. pose proof (iter_gcd k Hk Hfix) as Hg.
  pose proof (Nat.gcd_divide_l k N) as Hl.
  pose proof (Nat.gcd_divide_r k N) as Hr.
  set (d := Nat.gcd k N) in *.
  destruct (Nat.eq_dec d N) as [Heq|Hne].
  - rewrite Heq in Hl. destruct Hl as [[|c] Hc]; [lia|].
    rewrite Hc. change (S c * N)%nat with (N + c * N)%nat. apply Nat.le_add_r.
  - exfalso.
    assert (Hd : (0 < d)%nat).
    { destruct Hr as [c Hc]. destruct d; [|lia]. rewrite HN in Hc. lia. }
    assert (Hex : Exists (fun q : positive => (Z.of_nat d | Zpos q))
                         period_cofactors).
    { apply proper_divisor; [lia| |].
      - destruct Hr as [c Hc]. exists (Z.of_nat c). rewrite HN in Hc. lia.
      - rewrite HN in Hne. lia. }
    apply Exists_exists in Hex as (q & Hq & [c Hc]).
    pose proof xorshift_cofactors_invertible as Hinv.
    rewrite Forall_forall in Hinv. specialize (Hinv q Hq).
    assert (Hfixq : Pos.iter RNG.step s q = s).
    { rewrite Pos2Nat.inj_iter.
      assert (Hqn : Pos.to_nat q = (Z.to_nat c * d)%nat) by nia.
      rewrite Hqn. apply (iter_multiple d s (Z.to_nat c) Hg). }
    apply (no_fixed_word q s Hinv) in Hfixq; lia.
Qed.

Lemma iter_distinct i j :
  (i < j < N)%nat -> Nat.iter i RNG.step s <> Nat.iter j RNG.step s.
Proof.
  intros Hij Heq.
  replace j with (i + (j - i))%nat in Heq by lia.
  rewrite Nat.iter_add in Heq. apply iter_injective in Heq.
  - symmetry in Heq. apply iter_fixed_multiple in Heq; lia.
  - lia.
  - apply iter_step_range. lia.
Qed.

(** Every non-zero word is reached from [s]. *)
Lemma iter_reaches t :
  0 < t < JS.two32 -> exists k, Nat.iter k RNG.step s = t.
Proof.
  intros Ht.
  assert (HNz : Z.of_nat N = JS.two32 - 1).
  { rewrite HN, positive_nat_Z. reflexivity. }
  destruct (iter_covers RNG.step N s) with (t := t) as (k & _ & Hk).
  - intros i _. pose proof (iter_step_range i s ltac:(lia)).
    pose proof (iter_nonzero i). lia.
  - apply iter_distinct.
  - lia.
  - exists k. exact Hk.
Qed.

End Cycle.

Lemma step_live s : 0 < s < JS.two32 -> 0 < RNG.step s < JS.two32.
Proof.
  intros Hs. pose proof (step_range s) as Hr.
  pose proof (iter_nonzero _ eq_refl s Hs 1) as Hnz.
  rewrite Nat.iter_succ in Hnz.
  change (Nat.iter 0 RNG.step s) with s in Hnz. lia.
Qed.

(** The generator has full period: from a non-zero word, repeated calls
    reach every non-zero word, after at least one call. *)
Lemma xorshift_reaches s t :
  0 < s < JS.two32 -> 0 < t < JS.two32 ->
  exists k, Nat.iter (S k) RNG.step s = t.
Proof.
  intros Hs Ht.
  destruct (iter_reaches _ eq_refl (RNG.step s) (step_live s Hs) t Ht) as [k Hk].
  exists k. rewrite Nat.iter_succ_r. exact Hk.
Qed.

(** ** Termination of spawnRow *)

Lemma state_of_column_spec c :
  0 <= c <= 6 ->
  0 < state_of_column c < JS.two32 /\ column_of (state_of_column c) = c.
Proof.
  intros Hc.
  assert (Hcases : c = 0 \/ c = 1 \/ c = 2 \/ c = 3 \/ c = 4 \/ c = 5 \/ c = 6)
    by lia.
  repeat (destruct Hcases as [->|Hcases]); try subst c;
    (split; [split; reflexivity|vm_compute; reflexivity]).
Qed.

(** Fewer than seven taken columns leave one of the seven free. *)
Lemma free_column (taken : gset Z) :
  (size taken <= 6)%nat -> exists c, 0 <= c <= 6 /\ c ∉ taken.
Proof.
  intros Hsize.
  destruct (decide (0 ∈ taken)) as [H0|H0]; [|exists 0; split; [lia|exact H0]].
  destruct (decide (1 ∈ taken)) as [H1|H1]; [|exists 1; split; [lia|exact H1]].
  destruct (decide (2 ∈ taken)) as [H2|H2]; [|exists 2; split; [lia|exact H2]].
  destruct (decide (3 ∈ taken)) as [H3|H3]; [|exists 3; split; [lia|exact H3]].
  destruct (decide (4 ∈ taken)) as [H4|H4]; [|exists 4; split; [lia|exact H4]].
  destruct (decide (5 ∈ taken)) as [H5|H5]; [|exists 5; split; [lia|exact H5]].
  destruct (decide (6 ∈ taken)) as [H6|H6]; [|exists 6; split; [lia|exact H6]].
  exfalso.
  assert (Hsub : list_to_set [0; 1; 2; 3; 4; 5; 6] ⊆ taken).
  { intros x Hx. apply elem_of_list_to_set in Hx.
    repeat (apply elem_of_cons in Hx as [->|Hx]; [assumption|]).
    apply elem_of_nil in Hx. contradiction. }
  apply subseteq_size in Hsub. rewrite size_list_to_set in Hsub.
  - cbn [length] in Hsub. lia.
  - repeat (apply NoDup_cons_2; [rewrite ?elem_of_cons, elem_of_nil; lia|]).
    apply NoDup_nil_2.
Qed.

Lemma state_mk x : RNG.state (RNG.mk x) = x.
Proof. reflexivity. Qed.

Lemma rng_set_rng r g : Grid.rng (Grid.set_rng r g) = r.
Proof. reflexivity. Qed.

(** One iteration of the loop of [spawnRow] with blocks left to place: a
    draw of a taken column changes the generator only; a draw of a free
    column takes it, draws once more for the strength and leaves one block
    fewer to place. *)
Lemma spawnRow_loop_step n taken g :
  let s1 := RNG.step (RNG.state (Grid.rng g)) in
  exists g',
    Grid.rng g' = RNG.mk (RNG.step s1) /\
    forall fuel,
      Grid.spawnRow_loop (S fuel) (Z.of_nat (S n)) taken g
      = if bool_decide (column_of s1 ∈ taken)
        then Grid.spawnRow_loop fuel (Z.of_nat (S n)) taken
                                (Grid.set_rng (RNG.mk s1) g)
        else Grid.spawnRow_loop fuel (Z.of_nat n) ({[column_of s1]} ∪ taken) g'.
Proof.
  cbv zeta. eexists. split; cycle 1.
  - intros fuel. cbn [Grid.spawnRow_loop].
    assert (Hgt : (Z.of_nat (S n) >? 0) = true) by (apply Z.gtb_lt; lia).
    rewrite Hgt.
    replace (Z.of_nat (S n) - 1) with (Z.of_nat n) by lia.
    cbv beta iota zeta delta [RNG.next]. unfold column_of. reflexivity.
  - reflexivity.
Qed.

(** With [S n] blocks left to place and a free column that comes up after
    [S k] draws, the loop places a block within [S k] iterations and goes
    on with [n] blocks left. *)
Lemma spawnRow_loop_draws n taken
      (Hcont : forall taken' g',
          0 < RNG.state (Grid.rng g') < JS.two32 ->
          (size taken' <= S (size taken))%nat ->
          exists fuel out,
            Grid.spawnRow_loop fuel (Z.of_nat n) taken' g' = Some out /\
            0 < RNG.state (Grid.rng (snd out)) < JS.two32) k :
  forall g,
    0 < RNG.state (Grid.rng g) < JS.two32 ->
    column_of (Nat.iter (S k) RNG.step (RNG.state (Grid.rng g))) ∉ taken ->
    exists fuel out,
      Grid.spawnRow_loop fuel (Z.of_nat (S n)) taken g = Some out /\
      0 < RNG.state (Grid.rng (snd out)) < JS.two32.
Proof.
  induction k as [|k IH]; intros g Hs Hfree;
    destruct (spawnRow_loop_step n taken g) as (g' & Hrng & Hstep);
    pose proof (step_live _ Hs) as Hs1;
    pose proof (step_live _ Hs1) as Hs2;
    set (s1 := RNG.step (RNG.state (Grid.rng g))) in *;
    destruct (decide (column_of s1 ∈ taken)) as [Hin|Hnin].
  - exfalso. apply Hfree. rewrite Nat.iter_succ. exact Hin.
  - destruct (Hcont ({[column_of s1]} ∪ taken) g') as (fuel & out & Hrun & Hout).
    + rewrite Hrng, state_mk. exact Hs2.
    + rewrite size_union_alt, size_singleton.
      pose proof (subseteq_size (taken ∖ {[column_of s1]}) taken
                    ltac:(apply subseteq_difference_l; reflexivity)).
      lia.
    + exists (S fuel), out. rewrite Hstep, bool_decide_eq_false_2 by exact Hnin.
      split; [exact Hrun|exact Hout].
  - destruct (IH (Grid.set_rng (RNG.mk s1) g)) as (fuel & out & Hrun & Hout).
    + rewrite rng_set_rng, state_mk. exact Hs1.
    + rewrite rng_set_rng, state_mk. unfold s1.
      rewrite <- Nat.iter_succ_r. exact Hfree.
    + exists (S fuel), out. rewrite Hstep, bool_decide_eq_true_2 by exact Hin.
      split; [exact Hrun|exact Hout].
  - destruct (Hcont ({[column_of s1]} ∪ taken) g') as (fuel & out & Hrun & Hout).
    + rewrite Hrng, state_mk. exact Hs2.
    + rewrite size_union_alt, size_singleton.
      pose proof (subseteq_size (taken ∖ {[column_of s1]}) taken
                    ltac:(apply subseteq_difference_l; reflexivity)).
      lia.
    + exists (S fuel), out. rewrite Hstep, bool_decide_eq_false_2 by exact Hnin.
      split; [exact Hrun|exact Hout].
Qed.

(** From a non-zero state the loop of [spawnRow] ends, whatever columns
    are taken, as long as a column is left for each block to place; the
    state it leaves is non-zero. *)
Lemma spawnRow_loop_terminates n :
  forall taken g,
    0 < RNG.state (Grid.rng g) < JS.two32 ->
    (size taken + n <= 7)%nat ->
    exists fuel out,
      Grid.spawnRow_loop fuel (Z.of_nat n) taken g = Some out /\
      0 < RNG.state (Grid.rng (snd out)) < JS.two32.
Proof.
  induction n as [|n IH]; intros taken g Hs Hsize.
  - exists O, (taken, g). split; [reflexivity|exact Hs].
  - destruct (free_column taken ltac:(lia)) as (c & Hc & Hfree).
    destruct (state_of_column_spec c Hc) as [Hw Hcol].
    destruct (xorshift_reaches _ _ Hs Hw) as [k Hk].
    apply (spawnRow_loop_draws n taken) with (k := k).
    + intros taken' g' Hs' Hsize'. apply IH; [exact Hs'|lia].
    + exact Hs.
    + rewrite Hk, Hcol. exact Hfree.
Qed.

Lemma next_snd r : snd (RNG.next r) = RNG.mk (RNG.step (RNG.state r)).
Proof. reflexivity. Qed.

Lemma randomChoice_snd {A : Type} (arr : list A) r :
  snd (randomChoice arr r) = RNG.mk (RNG.step (RNG.state r)).
Proof. reflexivity. Qed.

Lemma rng_set_blocks bs g : Grid.rng (Grid.set_blocks bs g) = Grid.rng g.
Proof. reflexivity. Qed.

Lemma step_low32 s : RNG.step s = RNG.step (low32 s).
Proof. rewrite (step_unsigned (low32 s)), low32_idem. apply step_unsigned. Qed.

(** A call moves a generator whose word is not a multiple of 2^32 to a
    non-zero 32-bit word. *)
Lemma next_live r :
  RNG.state r mod JS.two32 <> 0 ->
  0 < RNG.state (snd (RNG.next r)) < JS.two32.
Proof.
  intros Hnz. rewrite next_snd, state_mk, step_low32. apply step_live.
  pose proof (low32_range (RNG.state r)). unfold low32 in *. lia.
Qed.

Lemma live_nonzero s : 0 < s < JS.two32 -> s mod JS.two32 <> 0.
Proof. intros Hs. rewrite Z.mod_small; lia. Qed.

(** [spawnRow] returns whenever the generator's word is not zero: the
    retry loop meets a free column after finitely many draws, because the
    draws run through every non-zero word. The word it leaves is not zero. *)
Lemma spawnRow_returns (g : Grid.Game) :
  RNG.state (Grid.rng g) mod JS.two32 <> 0 ->
  exists fuel g',
    Grid.spawnRow fuel g = Some g' /\
    0 < RNG.state (Grid.rng g') < JS.two32.
Proof.
  intros Hnz. unfold Grid.spawnRow.
  pose proof (next_range (Grid.rng g)) as Hv.
  pose proof (next_live (Grid.rng g) Hnz) as Hlive.
  destruct (RNG.next (Grid.rng g)) as [v r]. cbn [fst snd] in Hv, Hlive.
  rewrite minBlocks_value, maxBlocks_value. change (5 - 3 + 1) with 3.
  destruct (floor_scaled_range v 3 Hv ltac:(lia)) as [Hcnt _].
  set (blockCount := JS.Math_floor (v * inject_Z 3)%Q + 3) in *.
  destruct (spawnRow_loop_terminates (Z.to_nat blockCount) ∅ (Grid.set_rng r g))
    as (fuel & [taken g1] & Hrun & Hout).
  - rewrite rng_set_rng. exact Hlive.
  - rewrite size_empty. lia.
  - exists fuel. rewrite Z2Nat.id in Hrun by lia. rewrite Hrun.
    cbn [snd] in Hout.
    pose proof (next_live (Grid.rng g1) (live_nonzero _ Hout)) as Hlive2.
    destruct (RNG.next (Grid.rng g1)) as [v2 r2]. cbn [snd] in Hlive2.
    destruct (JS.Qltb (65 # 100) v2).
    + match goal with
      | |- context [if ?c then _ else _] => destruct c
      end.
      * match goal with
        | |- context [randomChoice ?l ?rr] =>
            pose proof (randomChoice_snd l rr) as Hrc;
            destruct (randomChoice l rr) as [spawnCol r3]
        end.
        cbn [snd] in Hrc. rewrite rng_set_rng in Hrc.
        eexists. split; [reflexivity|].
        rewrite rng_set_blocks, rng_set_rng, Hrc, state_mk.
        apply step_live. exact Hlive2.
      * eexists. split; [reflexivity|]. rewrite rng_set_rng. exact Hlive2.
    + eexists. split; [reflexivity|]. rewrite rng_set_rng. exact Hlive2.
Qed.

(** The bound on the iterations only cuts the loop short: a larger bound
    gives the same result. *)
Lemma spawnRow_loop_mono fuel :
  forall blockCount taken g out,
    Grid.spawnRow_loop fuel blockCount taken g = Some out ->
    forall fuel', (fuel <= fuel')%nat ->
                  Grid.spawnRow_loop fuel' blockCount taken g = Some out.
Proof.
  induction fuel as [|fuel IH]; intros blockCount taken g out Hrun fuel' Hle.
  - destruct fuel'; cbn [Grid.spawnRow_loop] in *;
      destruct (blockCount >? 0); try discriminate Hrun; exact Hrun.
  - destruct fuel' as [|fuel']; [lia|]. cbn [Grid.spawnRow_loop] in *.
    destruct (blockCount >? 0); [|exact Hrun].
    destruct (RNG.next (Grid.rng g)) as [v r].
    cbn [Grid.rng Grid.set_rng] in *.
    case_bool_decide.
    + apply (IH _ _ _ _ Hrun). lia.
    + destruct (RNG.next r) as [v2 r2]. apply (IH _ _ _ _ Hrun). lia.
Qed.

Lemma spawnRow_mono fuel fuel' g g' :
  Grid.spawnRow fuel g = Some g' -> (fuel <= fuel')%nat ->
  Grid.spawnRow fuel' g = Some g'.
Proof.
  unfold Grid.spawnRow. intros Hrun Hle.
  destruct (RNG.next (Grid.rng g)) as [v r].
  match type of Hrun with
  | context [Grid.spawnRow_loop fuel ?bc ?t ?gg] =>
      destruct (Grid.spawnRow_loop fuel bc t gg) as [out|] eqn:Hloop;
      [|discriminate Hrun];
      rewrite (spawnRow_loop_mono _ _ _ _ _ Hloop fuel' Hle)
  end.
  exact Hrun.
Qed.

(** The result of [spawnRow] does not depend on the bound. *)
Lemma spawnRow_fuel_irrelevant fuel fuel' g g1 g2 :
  Grid.spawnRow fuel g = Some g1 -> Grid.spawnRow fuel' g = Some g2 -> g1 = g2.
Proof.
  intros H1 H2.
  apply (spawnRow_mono _ (Nat.max fuel fuel')) in H1; [|lia].
  apply (spawnRow_mono _ (Nat.max fuel fuel')) in H2; [|lia].
  congruence.
Qed.


(** ** Full period and the return of spawnRow *)

Lemma advance_state n : forall r,
    RNG.state (RNG.advance n r) = Nat.iter n RNG.step (RNG.state r).
Proof.
  induction n as [|n IH]; intros r; [reflexivity|].
  cbn [RNG.advance]. rewrite IH, next_snd, state_mk, Nat.iter_succ_r.
  reflexivity.
Qed.

(** X1: the generator has full period. From a non-zero 32-bit word,
    [period] calls of [next()] bring the word back, no smaller positive
    number of calls does, and every non-zero 32-bit word is the word
    after some number of calls. *)
Theorem xorshift32_full_period (r : RNG.t) :
  0 < RNG.state r < JS.two32 ->
  RNG.state (RNG.advance (Pos.to_nat period) r) = RNG.state r /\
  (forall k, (0 < k < Pos.to_nat period)%nat ->
             RNG.state (RNG.advance k r) <> RNG.state r) /\
  (forall t, 0 < t < JS.two32 ->
             exists k, RNG.state (RNG.advance k r) = t).
Proof.
  intros Hs. split; [|split].
  - rewrite advance_state. apply (iter_period _ eq_refl). lia.
  - intros k Hk Hfix. rewrite advance_state in Hfix.
    apply (iter_fixed_multiple _ eq_refl _ Hs) in Hfix; lia.
  - intros t Ht. destruct (iter_reaches _ eq_refl _ Hs t Ht) as [k Hk].
    exists k. rewrite advance_state. exact Hk.
Qed.

Lemma xorshift32_full_period_witness :
  RNG.state (RNG.advance (Pos.to_nat period) (RNG.new 1)) = 1 /\
  exists k, RNG.state (RNG.advance k (RNG.new 1)) = 4294967295.
Proof.
  assert (Hs : 0 < RNG.state (RNG.new 1) < JS.two32)
    by (split; reflexivity).
  destruct (xorshift32_full_period (RNG.new 1) Hs) as (Hback & _ & Hall).
  split; [exact Hback|]. apply Hall. split; reflexivity.
Defined.

(** X2: [spawnRow] returns from every generator word that is not a
    multiple of 2^32, for a large enough bound on the iterations of its
    retry loop, and leaves a non-zero 32-bit word; the result does not
    depend on the bound. *)
Theorem spawnRow_returns_from_nonzero_state (g : Grid.Game) :
  RNG.state (Grid.rng g) mod JS.two32 <> 0 ->
  exists fuel g',
    (forall fuel', (fuel <= fuel')%nat -> Grid.spawnRow fuel' g = Some g') /\
    0 < RNG.state (Grid.rng g') < JS.two32.
Proof.
  intros Hnz. destruct (spawnRow_returns g Hnz) as (fuel & g' & Hrun & Hs).
  exists fuel, g'. split; [|exact Hs].
  intros fuel' Hle. apply (spawnRow_mono fuel); assumption.
Qed.

Lemma spawnRow_returns_from_nonzero_state_witness :
  exists fuel g',
    (forall fuel', (fuel <= fuel')%nat ->
                   Grid.spawnRow fuel' (Grid.fresh 1) = Some g') /\
    0 < RNG.state (Grid.rng g') < JS.two32.
Proof.
  apply (spawnRow_returns_from_nonzero_state (Grid.fresh 1)).
  vm_compute. discriminate.
Defined.

Lemma step_injective x y :
  0 <= x < JS.two32 -> 0 <= y < JS.two32 -> RNG.step x = RNG.step y -> x = y.
Proof.
  intros Hx Hy Heq. apply (iter_injective _ eq_refl 1 x y Hx Hy).
  rewrite !Nat.iter_succ.
  change (Nat.iter 0 RNG.step x) with x. change (Nat.iter 0 RNG.step y) with y.
  exact Heq.
Qed.

(** The update moves exactly one word to 0xffffffff. *)
Lemma step_all_ones s :
  RNG.step s = 4294967295 <-> s mod JS.two32 = 1584200935.
Proof.
  rewrite step_low32. change (s mod JS.two32) with (low32 s).
  pose proof (low32_range s) as Hr. set (w := low32 s) in *.
  assert (Hone : RNG.step 1584200935 = 4294967295) by (vm_compute; reflexivity).
  split; intros Heq.
  - rewrite <- Hone in Heq. apply step_injective in Heq; [exact Heq|exact Hr|].
    unfold JS.two32. lia.
  - rewrite Heq. exact Hone.
Qed.

(** X4: every output of [next()] lies between 0 and 1, and it is below 1
    except in one state of the generator, 0x5e6cfce7, the state that the
    update moves to 0xffffffff. *)
Theorem RNG_next_below_one_except_one_state (r : RNG.t) :
  (0 <= fst (RNG.next r) <= 1)%Q /\
  ((fst (RNG.next r) < 1)%Q <-> RNG.state r mod JS.two32 <> 1584200935).
Proof.
  split; [apply next_range|].
  rewrite next_lt_1, next_snd, state_mk, step_all_ones. reflexivity.
Qed.

Lemma next_fst r :
  fst (RNG.next r) = (inject_Z (RNG.step (RNG.state r)) / inject_Z 4294967295)%Q.
Proof. reflexivity. Qed.

(** X5: what [spawnRow] adds when it returns: standard blocks in pairwise
    distinct columns, between [minBlocks] and [maxBlocks] of them unless
    the generator is in state 0x5e6cfce7 at the call, and then
    [maxBlocks + 1]; after them at most one pickup; no other field of the
    session but the generator changes. *)
Theorem spawnRow_blocks fuel g g' :
  Grid.spawnRow fuel g = Some g' ->
  exists new pickup,
    Grid.blocks g' = Grid.blocks g ++ new ++ pickup /\
    Forall (fun b => Block.is_block b = true) new /\
    NoDup (List.map Block.col new) /\
    (RNG.state (Grid.rng g) mod JS.two32 <> 1584200935 ->
     Grid.minBlocks <= Z.of_nat (length new) <= Grid.maxBlocks) /\
    (RNG.state (Grid.rng g) mod JS.two32 = 1584200935 ->
     Z.of_nat (length new) = Grid.maxBlocks + 1) /\
    (pickup = [] \/ exists c, pickup = [Block.new c 0 1 "pickup"]) /\
    spawn_frame g' = spawn_frame g.
Proof.
  intros Hrun.
  destruct (spawnRow_spec fuel g g' Hrun)
    as (new & pickup & Hb & Hstd & Hnd & Hrange & Hle & Hlen & Hp & Hfr).
  exists new, pickup.
  refine (conj Hb (conj Hstd (conj Hnd (conj _ (conj _ (conj Hp Hfr)))))).
  - intros Hne. split; [apply Hrange|]. apply Hle.
    rewrite next_snd, state_mk, step_all_ones. exact Hne.
  - intros Heq. apply step_all_ones in Heq.
    rewrite Hlen, next_fst, Heq. reflexivity.
Qed.

Lemma spawnRow_blocks_witness :
  exists g' new pickup,
    Grid.spawnRow 30 (Grid.fresh 1584200935) = Some g' /\
    Grid.blocks g' = new ++ pickup /\
    Z.of_nat (length new) = Grid.maxBlocks + 1 /\
    NoDup (List.map Block.col new).
Proof.
  assert (Hrun : { g' | Grid.spawnRow 30 (Grid.fresh 1584200935) = Some g' })
    by (eexists; vm_compute; reflexivity).
  destruct Hrun as [g' Hrun].
  destruct (spawnRow_blocks _ _ _ Hrun)
    as (new & pickup & Hb & _ & Hnd & _ & Hsix & _).
  exists g', new, pickup. split; [exact Hrun|]. split; [exact Hb|].
  split; [|exact Hnd]. apply Hsix. vm_compute. reflexivity.
Defined.


(** ** Collision passes of the grid revision *)

Section GridCollisions.
Context `{Host}.

Lemma push_particles_core count x y color g :
  grid_core (Grid.push_particles count x y color g) = grid_core g.
Proof.
  revert g. induction count as [|count IH]; intros g; [reflexivity|].
  cbn [Grid.push_particles Grid.Particle.new]. rewrite IH. reflexivity.
Qed.

Lemma spawnHitParticles_core x y g :
  grid_core (Grid.spawnHitParticles x y g) = grid_core g.
Proof. unfold Grid.spawnHitParticles. rewrite push_particles_core. reflexivity. Qed.

Lemma is_pickup_not_block b : Block.is_pickup b = true -> Block.is_block b = false.
Proof.
  unfold Block.is_pickup, Block.is_block. intros Hp.
  apply String.eqb_eq in Hp. rewrite Hp. reflexivity.
Qed.

Lemma is_block_not_pickup b : Block.is_block b = true -> Block.is_pickup b = false.
Proof.
  unfold Block.is_pickup, Block.is_block. intros Hp.
  apply String.eqb_eq in Hp. rewrite Hp. reflexivity.
Qed.

(** One hit: what it writes to the block, the ball and the session. *)
Lemma hit_spec rect block ball g :
  let '(block', ball', g') := Grid.hit rect block ball g in
  block' = struck block /\
  Grid.Ball.x ball' = Grid.Ball.x ball /\
  Grid.Ball.y ball' = Grid.Ball.y ball /\
  Grid.Ball.resting ball' = Grid.Ball.resting ball /\
  Grid.score g' = Grid.score g + fst (award block) /\
  Grid.ballChain g' = Grid.ballChain g + snd (award block) /\
  (Grid.rng g', Grid.blocks g', Grid.balls g', Grid.pendingBalls g',
   Grid.baseBallPosition g', Grid.baseY g', Grid.turnAngle g',
   Grid.isAiming g', Grid.isLaunching g', Grid.turn g',
   Grid.timeAccumulator g', Grid.isGameOver g', Grid.launchTimer g',
   Grid.restingBalls g', Grid.activeBallChainLanding g')
  = (Grid.rng g, Grid.blocks g, Grid.balls g, Grid.pendingBalls g,
     Grid.baseBallPosition g, Grid.baseY g, Grid.turnAngle g,
     Grid.isAiming g, Grid.isLaunching g, Grid.turn g,
     Grid.timeAccumulator g, Grid.isGameOver g, Grid.launchTimer g,
     Grid.restingBalls g, Grid.activeBallChainLanding g).
Proof.
  unfold Grid.hit, struck, award.
  destruct (Block.is_pickup block) eqn:Hp;
    [|destruct (Block.is_block block) eqn:Hb];
    match goal with
    | |- context [Grid.spawnHitParticles ?x ?y ?g0] =>
        pose proof (spawnHitParticles_core x y g0) as Hcore;
        unfold grid_core in Hcore; cbn in Hcore;
        injection Hcore as ? ? ? ? ? ? ? ? ? ? ? ? ? ? ? ? ?
    end;
    match goal with
    | |- context [if ?c then Grid.Ball.set_vy _ _ else _] => destruct c
    end;
    cbn; repeat split; try congruence; try lia.
Qed.

Lemma pass_score_cons ball block rest :
  pass_score ball (block :: rest)
  = (if negb (Block.destroyed block) && reaches ball block
     then fst (award block) else 0) + pass_score ball rest.
Proof. reflexivity. Qed.

Lemma pass_chain_cons ball block rest :
  pass_chain ball (block :: rest)
  = (if negb (Block.destroyed block) && reaches ball block
     then snd (award block) else 0) + pass_chain ball rest.
Proof. reflexivity. Qed.

(** One iteration of the loop over the blocks. *)
Lemma visit_spec block ball g :
  let '(block', ball', g') := Grid.visit block ball g in
  let touched := negb (Block.destroyed block) && reaches ball block in
  block' = after_visit ball block /\
  Grid.Ball.x ball' = Grid.Ball.x ball /\
  Grid.Ball.y ball' = Grid.Ball.y ball /\
  Grid.Ball.resting ball' = Grid.Ball.resting ball /\
  Grid.score g' = Grid.score g + (if touched then fst (award block) else 0) /\
  Grid.ballChain g' = Grid.ballChain g + (if touched then snd (award block) else 0) /\
  (Grid.rng g', Grid.blocks g', Grid.balls g', Grid.pendingBalls g',
   Grid.baseBallPosition g', Grid.baseY g', Grid.turnAngle g',
   Grid.isAiming g', Grid.isLaunching g', Grid.turn g',
   Grid.timeAccumulator g', Grid.isGameOver g', Grid.launchTimer g',
   Grid.restingBalls g', Grid.activeBallChainLanding g')
  = (Grid.rng g, Grid.blocks g, Grid.balls g, Grid.pendingBalls g,
     Grid.baseBallPosition g, Grid.baseY g, Grid.turnAngle g,
     Grid.isAiming g, Grid.isLaunching g, Grid.turn g,
     Grid.timeAccumulator g, Grid.isGameOver g, Grid.launchTimer g,
     Grid.restingBalls g, Grid.activeBallChainLanding g).
Proof.
  unfold Grid.visit, after_visit, reaches, collides.
  destruct (Block.destroyed block) eqn:Hd; cbn [negb andb].
  { repeat split; lia. }
  destruct (Block.rect block) as [rect|]; [|repeat split; lia].
  destruct (circleRectCollision_at (Grid.Ball.x ball) (Grid.Ball.y ball) rect);
    [|repeat split; lia].
  exact (hit_spec rect block ball g).
Qed.

(** The score and chain awards of one pass over the blocks [bs]. *)
Lemma visit_all_spec bs :
  forall ball g,
    let '(bs', ball', g') := Grid.visit_all bs ball g in
    bs' = List.map (after_visit ball) bs /\
    Grid.Ball.x ball' = Grid.Ball.x ball /\
    Grid.Ball.y ball' = Grid.Ball.y ball /\
    Grid.Ball.resting ball' = Grid.Ball.resting ball /\
    Grid.score g' = Grid.score g + pass_score ball bs /\
    Grid.ballChain g' = Grid.ballChain g + pass_chain ball bs /\
    (Grid.rng g', Grid.blocks g', Grid.balls g', Grid.pendingBalls g',
     Grid.baseBallPosition g', Grid.baseY g', Grid.turnAngle g',
     Grid.isAiming g', Grid.isLaunching g', Grid.turn g',
     Grid.timeAccumulator g', Grid.isGameOver g', Grid.launchTimer g',
     Grid.restingBalls g', Grid.activeBallChainLanding g')
    = (Grid.rng g, Grid.blocks g, Grid.balls g, Grid.pendingBalls g,
       Grid.baseBallPosition g, Grid.baseY g, Grid.turnAngle g,
       Grid.isAiming g, Grid.isLaunching g, Grid.turn g,
       Grid.timeAccumulator g, Grid.isGameOver g, Grid.launchTimer g,
       Grid.restingBalls g, Grid.activeBallChainLanding g).
Proof.
  induction bs as [|block rest IH]; intros ball g.
  { cbn. repeat split; lia. }
  cbn [Grid.visit_all].
  pose proof (visit_spec block ball g) as Hv.
  destruct (Grid.visit block ball g) as [[block' ball1] g1].
  specialize (IH ball1 g1).
  destruct (Grid.visit_all rest ball1 g1) as [[rest' ball2] g2].
  cbv zeta in Hv.
  destruct Hv as (Hb & Hx & Hy & Hr & Hs & Hc & Hf).
  destruct IH as (Hb' & Hx' & Hy' & Hr' & Hs' & Hc' & Hf').
  assert (Hsame : forall blk, reaches ball1 blk = reaches ball blk)
    by (intros blk; unfold reaches; rewrite Hx, Hy; reflexivity).
  assert (Hav : forall blk, after_visit ball1 blk = after_visit ball blk)
    by (intros blk; unfold after_visit; rewrite Hsame; reflexivity).
  assert (Hps : pass_score ball1 rest = pass_score ball rest).
  { unfold pass_score. f_equal. apply map_ext. intros blk.
    rewrite Hsame. reflexivity. }
  assert (Hpc : pass_chain ball1 rest = pass_chain ball rest).
  { unfold pass_chain. f_equal. apply map_ext. intros blk.
    rewrite Hsame. reflexivity. }
  split; [|split; [|split; [|split; [|split; [|split]]]]].
  - rewrite Hb, Hb'. cbn [List.map]. f_equal. apply map_ext. exact Hav.
  - congruence.
  - congruence.
  - congruence.
  - rewrite Hs', Hs, Hps, pass_score_cons. lia.
  - rewrite Hc', Hc, Hpc, pass_chain_cons. lia.
  - rewrite Hf'. exact Hf.
Qed.

(** [handleCollisions]: the surviving blocks, the awards, and the fields it
    leaves alone. *)
Lemma handleCollisions_spec ball g :
  let '(ball', g') := Grid.handleCollisions ball g in
  Grid.blocks g' = survivors ball (Grid.blocks g) /\
  Grid.Ball.x ball' = Grid.Ball.x ball /\
  Grid.Ball.y ball' = Grid.Ball.y ball /\
  Grid.Ball.resting ball' = Grid.Ball.resting ball /\
  Grid.score g' = Grid.score g + pass_score ball (Grid.blocks g) /\
  Grid.ballChain g' = Grid.ballChain g + pass_chain ball (Grid.blocks g) /\
  (Grid.rng g', Grid.balls g', Grid.pendingBalls g',
   Grid.baseBallPosition g', Grid.baseY g', Grid.turnAngle g',
   Grid.isAiming g', Grid.isLaunching g', Grid.turn g',
   Grid.timeAccumulator g', Grid.isGameOver g', Grid.launchTimer g',
   Grid.restingBalls g', Grid.activeBallChainLanding g')
  = (Grid.rng g, Grid.balls g, Grid.pendingBalls g,
     Grid.baseBallPosition g, Grid.baseY g, Grid.turnAngle g,
     Grid.isAiming g, Grid.isLaunching g, Grid.turn g,
     Grid.timeAccumulator g, Grid.isGameOver g, Grid.launchTimer g,
     Grid.restingBalls g, Grid.activeBallChainLanding g).
Proof.
  unfold Grid.handleCollisions, survivors.
  pose proof (visit_all_spec (Grid.blocks g) ball g) as Hv.
  destruct (Grid.visit_all (Grid.blocks g) ball g) as [[bs' ball'] g'].
  destruct Hv as (Hb & Hx & Hy & Hr & Hs & Hc & Hf).
  cbn. rewrite Hb.
  injection Hf as ? ? ? ? ? ? ? ? ? ? ? ? ? ? ?.
  repeat split; congruence.
Qed.

Lemma survivors_app ball l1 l2 :
  survivors ball (l1 ++ l2) = survivors ball l1 ++ survivors ball l2.
Proof. unfold survivors. rewrite List.map_app, List.filter_app. reflexivity. Qed.

Lemma survivors_all_app balls :
  forall l1 l2,
    survivors_all balls (l1 ++ l2) = survivors_all balls l1 ++ survivors_all balls l2.
Proof.
  induction balls as [|ball balls IH]; intros l1 l2; [reflexivity|].
  cbn [survivors_all fold_left]. rewrite survivors_app. apply IH.
Qed.

Lemma survivors_all_nil balls : survivors_all balls [] = [].
Proof. induction balls as [|ball balls IH]; [reflexivity|exact IH]. Qed.

Lemma survivors_all_snoc balls ball bs :
  survivors_all (balls ++ [ball]) bs = survivors ball (survivors_all balls bs).
Proof. unfold survivors_all. rewrite fold_left_app. reflexivity. Qed.

Lemma collide_all_blocks balls :
  forall g, Grid.blocks (collide_all balls g) = survivors_all balls (Grid.blocks g).
Proof.
  induction balls as [|ball balls IH]; intros g; [reflexivity|].
  cbn [collide_all survivors_all fold_left].
  pose proof (handleCollisions_spec ball g) as Hs.
  destruct (Grid.handleCollisions ball g) as [ball' g'].
  destruct Hs as (Hb & _). cbn [snd].
  change (Grid.blocks (collide_all balls g')
          = survivors_all balls (survivors ball (Grid.blocks g))).
  rewrite IH, Hb. reflexivity.
Qed.

Lemma collide_all_snoc balls ball g :
  collide_all (balls ++ [ball]) g
  = snd (Grid.handleCollisions ball (collide_all balls g)).
Proof. unfold collide_all. rewrite fold_left_app. reflexivity. Qed.

Lemma hits_cons b ball balls :
  hits b (ball :: balls) = (if reaches ball b then 1 else 0) + hits b balls.
Proof.
  unfold hits. cbn [List.filter]. destruct (reaches ball b); cbn [length]; lia.
Qed.

Lemma hits_nonneg b balls : 0 <= hits b balls.
Proof. unfold hits. lia. Qed.

Lemma reaches_set_strength ball s b :
  reaches ball (Block.set_strength s b) = reaches ball b.
Proof. reflexivity. Qed.

Lemma hits_set_strength s b balls :
  hits (Block.set_strength s b) balls = hits b balls.
Proof. reflexivity. Qed.

(** One pass over a live standard block alone. *)
Lemma survivors_standard ball b :
  Block.is_block b = true -> Block.destroyed b = false ->
  survivors ball [b]
  = if reaches ball b
    then (if 1 <? Block.strength b
          then [Block.set_strength (Block.strength b - 1) b] else [])
    else [b].
Proof.
  intros Hb Hd. pose proof (is_block_not_pickup b Hb) as Hp.
  unfold survivors, after_visit, struck. cbn [List.map]. rewrite Hd. cbn [negb andb].
  destruct (reaches ball b); [|cbn; rewrite Hd; reflexivity].
  rewrite Hp, Hb.
  assert (Hb' : Block.is_block (Block.set_strength (Block.strength b - 1) b) = true)
    by exact Hb.
  rewrite Hb'. cbn [Block.strength Block.set_strength Block.destroyed andb].
  rewrite Hd, orb_false_r.
  destruct (1 <? Block.strength b) eqn:Hs.
  - assert (Hle : (Block.strength b - 1 <=? 0) = false) by lia.
    rewrite Hle. cbn. rewrite Hd. reflexivity.
  - assert (Hle : (Block.strength b - 1 <=? 0) = true) by lia.
    rewrite Hle. cbn. reflexivity.
Qed.

(** A live standard block alone through the passes of a sequence of balls:
    it stays, one weaker for every ball that reaches it, until as many balls
    as it had strength have reached it. *)
Lemma survivors_all_standard balls :
  forall b,
    Block.is_block b = true -> Block.destroyed b = false ->
    1 <= Block.strength b ->
    survivors_all balls [b]
    = if hits b balls <? Block.strength b
      then [Block.set_strength (Block.strength b - hits b balls) b]
      else [].
Proof.
  induction balls as [|ball balls IH]; intros b Hb Hd Hs.
  - cbn [survivors_all fold_left]. change (hits b []) with 0.
    assert (Hlt : (0 <? Block.strength b) = true) by lia. rewrite Hlt.
    rewrite Z.sub_0_r. destruct b; reflexivity.
  - cbn [survivors_all fold_left]. rewrite survivors_standard by assumption.
    rewrite hits_cons. pose proof (hits_nonneg b balls) as Hn.
    destruct (reaches ball b).
    + destruct (1 <? Block.strength b) eqn:H1.
      * change (fold_left (fun bs ball0 => survivors ball0 bs) balls
                  [Block.set_strength (Block.strength b - 1) b])
          with (survivors_all balls [Block.set_strength (Block.strength b - 1) b]).
        rewrite IH; [|exact Hb|exact Hd|cbn; lia].
        rewrite hits_set_strength. cbn [Block.strength Block.set_strength].
        destruct (hits b balls <? Block.strength b - 1) eqn:H2.
        -- assert (H3 : (1 + hits b balls <? Block.strength b) = true) by lia.
           rewrite H3. f_equal. unfold Block.set_strength. cbn. f_equal. lia.
        -- assert (H3 : (1 + hits b balls <? Block.strength b) = false) by lia.
           rewrite H3. reflexivity.
      * change (fold_left (fun bs ball0 => survivors ball0 bs) balls [])
          with (survivors_all balls []).
        rewrite survivors_all_nil.
        assert (H3 : (1 + hits b balls <? Block.strength b) = false) by lia.
        rewrite H3. reflexivity.
    + change (fold_left (fun bs ball0 => survivors ball0 bs) balls [b])
        with (survivors_all balls [b]).
      rewrite IH by assumption. rewrite Z.add_0_l. reflexivity.
Qed.

(** The hit that takes a live standard block from strength 1 to 0. *)
Lemma after_visit_last_hit ball b :
  Block.is_block b = true -> Block.destroyed b = false ->
  reaches ball b = true ->
  after_visit ball (Block.set_strength 1 b)
  = Block.set_destroyed true (Block.set_strength 0 b).
Proof.
  intros Hb Hd Hreach. pose proof (is_block_not_pickup b Hb) as Hp.
  unfold after_visit. rewrite reaches_set_strength, Hreach.
  destruct b as [c r s t d]. cbn in Hd. subst d.
  unfold Block.is_block, Block.is_pickup in *. cbn in Hb, Hp.
  unfold struck, Block.is_block, Block.is_pickup. cbn. rewrite Hp, Hb. cbn.
  rewrite Hb. reflexivity.
Qed.

(** The array through the passes of a sequence of balls, around one live
    standard block. *)
Lemma collide_all_around_standard b pre post g balls :
  Block.is_block b = true -> Block.destroyed b = false ->
  1 <= Block.strength b ->
  Grid.blocks g = pre ++ b :: post ->
  Grid.blocks (collide_all balls g)
  = survivors_all balls pre
    ++ (if hits b balls <? Block.strength b
        then [Block.set_strength (Block.strength b - hits b balls) b]
        else [])
    ++ survivors_all balls post.
Proof.
  intros Hb Hd Hs Hg.
  rewrite collide_all_blocks, Hg.
  change (pre ++ b :: post) with (pre ++ [b] ++ post).
  rewrite !survivors_all_app, survivors_all_standard by assumption.
  reflexivity.
Qed.

End GridCollisions.

(** C3: a live standard block of strength [s >= 1] in the array, through the
    collision passes of any sequence of balls.  While fewer than [s] of the
    balls have reached it, it is in the array, not destroyed, with the
    strength that is left.  In the pass of the ball that lands the [s]-th hit
    it is still in the array when the loop over the blocks ends, now at
    strength 0 and marked destroyed, and the filter that closes the pass
    removes it.  From then on the array is the one the other blocks give. *)
Theorem standard_block_destroyed_on_last_hit :
  forall (host : Host) (b : Block.t) (pre post : list Block.t) (g : Grid.Game),
    Block.is_block b = true -> Block.destroyed b = false ->
    1 <= Block.strength b ->
    Grid.blocks g = pre ++ b :: post ->
    (forall balls,
        hits b balls < Block.strength b ->
        Block.destroyed (Block.set_strength (Block.strength b - hits b balls) b)
          = false /\
        Grid.blocks (collide_all balls g)
        = survivors_all balls pre
          ++ Block.set_strength (Block.strength b - hits b balls) b
          :: survivors_all balls post) /\
    (forall balls ball,
        hits b balls = Block.strength b - 1 -> reaches ball b = true ->
        let g1 := collide_all balls g in
        fst (fst (Grid.visit_all (Grid.blocks g1) ball g1))
        = List.map (after_visit ball) (survivors_all balls pre)
          ++ Block.set_destroyed true (Block.set_strength 0 b)
          :: List.map (after_visit ball) (survivors_all balls post) /\
        Grid.blocks (snd (Grid.handleCollisions ball g1))
        = survivors_all (balls ++ [ball]) pre
          ++ survivors_all (balls ++ [ball]) post) /\
    (forall balls,
        Block.strength b <= hits b balls ->
        Grid.blocks (collide_all balls g)
        = survivors_all balls pre ++ survivors_all balls post).
Proof.
  intros host b pre post g Hb Hd Hs Hg.
  pose proof (is_block_not_pickup b Hb) as Hp.
  split; [|split].
  - intros balls Hlt. split; [exact Hd|].
    rewrite (collide_all_around_standard b pre post g balls Hb Hd Hs Hg).
    assert (Hc : (hits b balls <? Block.strength b) = true) by lia.
    rewrite Hc. reflexivity.
  - intros balls ball Hk Hreach g1.
    assert (Hg1 : Grid.blocks g1
                  = survivors_all balls pre
                    ++ Block.set_strength 1 b :: survivors_all balls post).
    { subst g1.
      rewrite (collide_all_around_standard b pre post g balls Hb Hd Hs Hg).
      assert (Hc : (hits b balls <? Block.strength b) = true) by lia.
      rewrite Hc, Hk. cbn [app]. do 3 f_equal. lia. }
    split.
    + pose proof (visit_all_spec (Grid.blocks g1) ball g1) as Hv.
      destruct (Grid.visit_all (Grid.blocks g1) ball g1) as [[bs' ball'] g'].
      destruct Hv as (Hbs & _). cbn [fst]. rewrite Hbs, Hg1.
      rewrite List.map_app. cbn [List.map]. do 2 f_equal.
      apply after_visit_last_hit; assumption.
    + pose proof (handleCollisions_spec ball g1) as Hh.
      destruct (Grid.handleCollisions ball g1) as [ball' g'].
      destruct Hh as (Hbs & _). cbn [snd]. rewrite Hbs, Hg1.
      change (survivors_all balls pre ++ Block.set_strength 1 b
              :: survivors_all balls post)
        with (survivors_all balls pre ++ [Block.set_strength 1 b]
              ++ survivors_all balls post).
      rewrite !survivors_app, !survivors_all_snoc.
      rewrite survivors_standard; [|exact Hb|exact Hd].
      rewrite reaches_set_strength, Hreach. reflexivity.
  - intros balls Hge.
    rewrite (collide_all_around_standard b pre post g balls Hb Hd Hs Hg).
    assert (Hc : (hits b balls <? Block.strength b) = false) by lia.
    rewrite Hc. reflexivity.
Qed.

(** After two passes of the sample ball the sample block of strength 2 is
    gone. *)
Lemma standard_block_destroyed_on_last_hit_witness :
  Grid.blocks (@collide_all sample_host [sample_ball; sample_ball]
                 (sample_grid [sample_block])) = [].
Proof.
  destruct (standard_block_destroyed_on_last_hit sample_host sample_block [] []
              (sample_grid [sample_block]) eq_refl eq_refl
              ltac:(vm_compute; discriminate) eq_refl) as (_ & _ & Hgone).
  exact (Hgone [sample_ball; sample_ball] ltac:(vm_compute; discriminate)).
Defined.

Section GridPickup.
Context `{Host}.

Lemma pass_score_app ball l1 l2 :
  pass_score ball (l1 ++ l2) = pass_score ball l1 + pass_score ball l2.
Proof.
  induction l1 as [|b l1 IH];
    [cbn [app]; change (pass_score ball []) with 0; lia|].
  cbn [app]. rewrite !pass_score_cons, IH. lia.
Qed.

Lemma pass_chain_app ball l1 l2 :
  pass_chain ball (l1 ++ l2) = pass_chain ball l1 + pass_chain ball l2.
Proof.
  induction l1 as [|b l1 IH];
    [cbn [app]; change (pass_chain ball []) with 0; lia|].
  cbn [app]. rewrite !pass_chain_cons, IH. lia.
Qed.

(** A hit marks a pickup destroyed, whatever its strength. *)
Lemma struck_pickup p :
  Block.is_pickup p = true -> Block.destroyed (struck p) = true.
Proof.
  intros Hp. unfold struck. rewrite Hp.
  cbn [Block.destroyed Block.set_destroyed]. rewrite orb_true_r. reflexivity.
Qed.

(** One pass over a live pickup that the ball reaches: nothing survives. *)
Lemma survivors_pickup ball p :
  Block.is_pickup p = true -> Block.destroyed p = false ->
  reaches ball p = true ->
  survivors ball [p] = [].
Proof.
  intros Hp Hd Hreach.
  unfold survivors, after_visit. cbn [List.map].
  rewrite Hd, Hreach. cbn [negb andb List.filter].
  rewrite (struck_pickup p Hp). reflexivity.
Qed.

End GridPickup.

(** C5: a ball that reaches a live pickup block, whatever the strength of the
    pickup.  The loop iteration for the pickup marks it destroyed, adds 1 to
    the chain count and 10 to the score.  Over the whole pass, next to the
    pass over the other blocks alone, the chain count is 1 higher, the score
    10 higher, and the array is the same: the pickup is gone after this one
    hit. *)
Theorem pickup_collected_on_contact :
  forall (host : Host) (p : Block.t) (pre post : list Block.t)
         (ball : Grid.Ball.t) (g : Grid.Game),
    Block.is_pickup p = true -> Block.destroyed p = false ->
    reaches ball p = true ->
    Grid.blocks g = pre ++ p :: post ->
    let one := Grid.visit p ball g in
    let with_pickup := snd (Grid.handleCollisions ball g) in
    let without := snd (Grid.handleCollisions ball (Grid.set_blocks (pre ++ post) g)) in
    Block.destroyed (fst (fst one)) = true /\
    Grid.ballChain (snd one) = Grid.ballChain g + 1 /\
    Grid.score (snd one) = Grid.score g + 10 /\
    Grid.ballChain with_pickup = Grid.ballChain without + 1 /\
    Grid.score with_pickup = Grid.score without + 10 /\
    Grid.blocks with_pickup = Grid.blocks without.
Proof.
  intros host p pre post ball g Hp Hd Hreach Hg one with_pickup without.
  subst one with_pickup without.
  pose proof (visit_spec p ball g) as Hv.
  destruct (Grid.visit p ball g) as [[p' ball1] g1].
  cbv zeta in Hv. rewrite Hd, Hreach in Hv. cbn [negb andb] in Hv.
  unfold award in Hv. rewrite Hp in Hv. cbn [fst snd] in Hv.
  destruct Hv as (Hp' & _ & _ & _ & Hs1 & Hc1 & _).
  pose proof (handleCollisions_spec ball g) as Hw.
  destruct (Grid.handleCollisions ball g) as [ballw gw].
  destruct Hw as (Hbw & _ & _ & _ & Hsw & Hcw & _).
  pose proof (handleCollisions_spec ball (Grid.set_blocks (pre ++ post) g)) as Ho.
  destruct (Grid.handleCollisions ball (Grid.set_blocks (pre ++ post) g))
    as [ballo go].
  destruct Ho as (Hbo & _ & _ & _ & Hso & Hco & _).
  cbn [fst snd].
  cbn [Grid.blocks Grid.set_blocks Grid.score Grid.ballChain] in Hbo, Hso, Hco.
  rewrite Hg in Hbw, Hsw, Hcw.
  change (pre ++ p :: post) with (pre ++ [p] ++ post) in Hbw, Hsw, Hcw.
  rewrite !pass_score_app in Hsw. rewrite !pass_chain_app in Hcw.
  rewrite pass_score_app in Hso. rewrite pass_chain_app in Hco.
  rewrite !survivors_app, survivors_pickup in Hbw by assumption.
  rewrite survivors_app in Hbo.
  assert (Hps : pass_score ball [p] = 10).
  { unfold pass_score. cbn [List.map]. rewrite Hd, Hreach. cbn [negb andb].
    unfold award. rewrite Hp. reflexivity. }
  assert (Hpc : pass_chain ball [p] = 1).
  { unfold pass_chain. cbn [List.map]. rewrite Hd, Hreach. cbn [negb andb].
    unfold award. rewrite Hp. reflexivity. }
  repeat split.
  - rewrite Hp'. unfold after_visit. rewrite Hd, Hreach. cbn [negb andb].
    apply struck_pickup. exact Hp.
  - exact Hc1.
  - exact Hs1.
  - lia.
  - lia.
  - rewrite Hbw, Hbo. reflexivity.
Qed.

(** The sample ball collects the sample pickup of strength 5: the chain
    count goes from 0 to 1 and the score from 0 to 10. *)
Lemma pickup_collected_on_contact_witness :
  let g' := snd (@Grid.handleCollisions sample_host sample_ball
                   (sample_grid [sample_pickup])) in
  Grid.ballChain g' = 1 /\ Grid.score g' = 10 /\ Grid.blocks g' = [].
Proof.
  destruct (pickup_collected_on_contact sample_host sample_pickup [] []
              sample_ball (sample_grid [sample_pickup]) eq_refl eq_refl
              ltac:(vm_compute; reflexivity) eq_refl)
    as (_ & _ & _ & Hc & Hs & Hb).
  exact (conj Hc (conj Hs Hb)).
Defined.

(** ** The barrier revision: what each method leaves alone *)

Section BarrierFrames.
Context `{Host}.

Ltac barrier_frames :=
  unfold barrier_but_spawn, barrier_but_rng, barrier_but_particles,
    barrier_flow, barrier_ctl in *;
  cbn in *; congruence.

Lemma but_particles_fields g g' :
  barrier_but_particles g' = barrier_but_particles g ->
  barrier_ctl g' = barrier_ctl g /\
  Barrier.barrierBlocks g' = Barrier.barrierBlocks g /\
  Barrier.rng g' = Barrier.rng g /\
  Barrier.score g' = Barrier.score g.
Proof.
  unfold barrier_but_particles, barrier_ctl. intros Hf. inversion Hf.
  repeat split; congruence.
Qed.

Lemma but_rng_fields g g' :
  barrier_but_rng g' = barrier_but_rng g ->
  barrier_ctl g' = barrier_ctl g /\
  Barrier.barrierBlocks g' = Barrier.barrierBlocks g /\
  Barrier.score g' = Barrier.score g.
Proof.
  unfold barrier_but_rng, barrier_ctl. intros Hf. inversion Hf.
  repeat split; congruence.
Qed.

Lemma but_spawn_fields g g' :
  barrier_but_spawn g' = barrier_but_spawn g ->
  barrier_ctl g' = barrier_ctl g /\
  Barrier.score g' = Barrier.score g.
Proof.
  unfold barrier_but_spawn, barrier_ctl. intros Hf. inversion Hf.
  repeat split; congruence.
Qed.

Lemma barrier_push_particles_frame count x y color g :
  barrier_but_particles (Barrier.push_particles count x y color g)
  = barrier_but_particles g.
Proof.
  revert g. induction count as [|count IH]; intros g; [reflexivity|].
  cbn [Barrier.push_particles Barrier.Particle.new]. rewrite IH. reflexivity.
Qed.

Lemma barrier_spawnHitParticles_frame x y color g :
  barrier_but_particles (Barrier.spawnHitParticles x y color g)
  = barrier_but_particles g.
Proof.
  unfold Barrier.spawnHitParticles. rewrite barrier_push_particles_frame.
  reflexivity.
Qed.

Lemma barrier_push_explosion_frame count x y g :
  barrier_but_particles (Barrier.push_explosion count x y g)
  = barrier_but_particles g.
Proof.
  revert g. induction count as [|count IH]; intros g; [reflexivity|].
  cbn [Barrier.push_explosion Barrier.Particle.new]. rewrite IH. reflexivity.
Qed.

Lemma barrier_spawnExplosion_frame x y g :
  barrier_but_particles (Barrier.spawnExplosion x y g) = barrier_but_particles g.
Proof. apply barrier_push_explosion_frame. Qed.

(** [createCandidate]: a live barrier of strength at least 2; only the
    generator moves. *)
Lemma createCandidate_spec g :
  let '(candidate, g') := Barrier.createCandidate g in
  barrier_but_rng g' = barrier_but_rng g /\
  Barrier.BarrierBlock.destroyed candidate = false /\
  2 <= Barrier.BarrierBlock.strength candidate.
Proof.
  unfold Barrier.createCandidate.
  destruct (RNG.next (Barrier.rng g)) as [v1 r1].
  cbn [Barrier.rng Barrier.set_rng].
  destruct (RNG.next r1) as [v2 r2].
  destruct (RNG.next r2) as [v3 r3].
  split; [reflexivity|]. split; [reflexivity|].
  cbn [Barrier.BarrierBlock.strength Barrier.BarrierBlock.new]. lia.
Qed.

Lemma retry_spec n :
  forall candidate g,
    Barrier.BarrierBlock.destroyed candidate = false ->
    2 <= Barrier.BarrierBlock.strength candidate ->
    let '(candidate', g') := Barrier.retry n candidate g in
    barrier_but_rng g' = barrier_but_rng g /\
    Barrier.BarrierBlock.destroyed candidate' = false /\
    2 <= Barrier.BarrierBlock.strength candidate'.
Proof.
  induction n as [|n IH]; intros candidate g Hd Hs; cbn [Barrier.retry].
  - repeat split; assumption.
  - destruct (negb (Barrier.isBarrierOverlapping candidate g)).
    + repeat split; assumption.
    + pose proof (createCandidate_spec g) as Hc.
      destruct (Barrier.createCandidate g) as [c1 g1].
      destruct Hc as (Hf1 & Hd1 & Hs1).
      specialize (IH c1 g1 Hd1 Hs1).
      destruct (Barrier.retry n c1 g1) as [c2 g2].
      destruct IH as (Hf2 & Hd2 & Hs2).
      repeat split; try assumption. congruence.
Qed.

(** [spawnFloatingBlock]: the array it leaves, by case. *)
Lemma spawnFloatingBlock_spec force g :
  let g' := Barrier.spawnFloatingBlock force g in
  barrier_but_spawn g' = barrier_but_spawn g /\
  ((Barrier.isGameOver g = true /\ g' = g) \/
   (Barrier.isGameOver g = false /\
    exists candidate,
      Barrier.BarrierBlock.destroyed candidate = false /\
      2 <= Barrier.BarrierBlock.strength candidate /\
      Barrier.barrierBlocks g'
      = if (MAX_FLOATING_BLOCKS <=? length (Barrier.barrierBlocks g))%nat
        then (if force then tail (Barrier.barrierBlocks g) ++ [candidate]
              else Barrier.barrierBlocks g)
        else Barrier.barrierBlocks g ++ [candidate])).
Proof.
  unfold Barrier.spawnFloatingBlock.
  destruct (Barrier.isGameOver g) eqn:Hover.
  { split; [reflexivity|]. left. split; reflexivity. }
  pose proof (createCandidate_spec g) as Hc.
  destruct (Barrier.createCandidate g) as [c1 g1].
  destruct Hc as (Hf1 & Hd1 & Hs1).
  pose proof (retry_spec Barrier.attempts c1 g1 Hd1 Hs1) as Hr.
  destruct (Barrier.retry Barrier.attempts c1 g1) as [c2 g2].
  destruct Hr as (Hf2 & Hd2 & Hs2).
  assert (Hf : barrier_but_rng g2 = barrier_but_rng g) by congruence.
  assert (Hbb : Barrier.barrierBlocks g2 = Barrier.barrierBlocks g)
    by (unfold barrier_but_rng in Hf; congruence).
  rewrite Hbb.
  destruct (MAX_FLOATING_BLOCKS <=? length (Barrier.barrierBlocks g))%nat eqn:Hcap;
    destruct force; cbn [negb andb];
    (split; [barrier_frames|]);
    right; (split; [reflexivity|]); exists c2;
    cbn [Barrier.barrierBlocks Barrier.set_barrierBlocks]; rewrite ?Hbb;
    repeat split; assumption.
Qed.

(** The population cap is kept by every call. *)
Lemma spawnFloatingBlock_cap force g :
  (length (Barrier.barrierBlocks g) <= MAX_FLOATING_BLOCKS)%nat ->
  (length (Barrier.barrierBlocks (Barrier.spawnFloatingBlock force g))
   <= MAX_FLOATING_BLOCKS)%nat.
Proof.
  intros Hle.
  destruct (spawnFloatingBlock_spec force g) as (_ & [[_ ->]|[_ (c & _ & _ & ->)]]);
    [exact Hle|].
  destruct (MAX_FLOATING_BLOCKS <=? length (Barrier.barrierBlocks g))%nat eqn:Hcap.
  - destruct force; [|exact Hle].
    rewrite length_app. cbn [length]. apply Nat.leb_le in Hcap.
    unfold MAX_FLOATING_BLOCKS in *.
    destruct (Barrier.barrierBlocks g) as [|b bs]; cbn [tail length] in *; lia.
  - rewrite length_app. cbn [length].
    apply Nat.leb_gt in Hcap. lia.
Qed.

Lemma pending_weight_app_le i bs c :
  Barrier.BarrierBlock.destroyed c = false ->
  2 <= Barrier.BarrierBlock.strength c ->
  (pending_weight i (bs ++ [c]) <= pending_weight i bs + 1)%nat.
Proof.
  intros Hd Hs. unfold pending_weight.
  rewrite drop_app, List.map_app, list_sum_app.
  apply Nat.add_le_mono_l.
  destruct (i - length bs)%nat as [|k];
    [simpl|change (drop (S k) [c]) with (drop k (@nil Barrier.BarrierBlock.t));
            rewrite drop_nil; simpl; lia].
  unfold barrier_weight. rewrite Hd.
  destruct (Barrier.BarrierBlock.strength c <=? 1) eqn:E; lia.
Qed.

Lemma pending_weight_S i bs :
  (pending_weight (S i) bs <= pending_weight i bs)%nat.
Proof.
  unfold pending_weight.
  destruct (bs !! i) as [b|] eqn:Hi.
  - rewrite (drop_S bs b i Hi). simpl. lia.
  - apply lookup_ge_None in Hi. rewrite !drop_ge by lia. reflexivity.
Qed.

Lemma pending_weight_tail i bs :
  pending_weight i (tail bs) = pending_weight (S i) bs.
Proof.
  unfold pending_weight. destruct bs; [|reflexivity].
  cbn [tail]. rewrite !drop_nil. reflexivity.
Qed.

Lemma pending_weight_insert i j b bs :
  (j < i)%nat -> pending_weight i (<[j := b]> bs) = pending_weight i bs.
Proof. intros Hlt. unfold pending_weight. rewrite drop_insert_lt by lia. reflexivity. Qed.

(** One hit of the barrier at index [i]. *)
Lemma barrier_hit_spec i barrier ball g :
  let '(ball', g') := Barrier.hit i barrier ball g in
  barrier_ctl g' = barrier_ctl g /\
  (Barrier.Ball.x ball', Barrier.Ball.y ball', Barrier.Ball.resting ball',
   Barrier.Ball.prevX ball', Barrier.Ball.prevY ball')
  = (Barrier.Ball.x ball, Barrier.Ball.y ball, Barrier.Ball.resting ball,
     Barrier.Ball.prevX ball, Barrier.Ball.prevY ball) /\
  Barrier.score g' = Barrier.score g + 8 /\
  ((length (Barrier.barrierBlocks g) <= MAX_FLOATING_BLOCKS)%nat ->
   (length (Barrier.barrierBlocks g') <= MAX_FLOATING_BLOCKS)%nat) /\
  (pending_weight (S i) (Barrier.barrierBlocks g')
   <= pending_weight (S i) (Barrier.barrierBlocks g)
      + (if (Barrier.BarrierBlock.strength barrier <=? 1)%Z then 1 else 0))%nat.
Proof.
  unfold Barrier.hit.
  set (b1 := Barrier.BarrierBlock.set_strength
               (Barrier.BarrierBlock.strength barrier - 1) barrier).
  set (g1 := Barrier.set_score _ _).
  pose proof (barrier_spawnHitParticles_frame
                (Barrier.BarrierBlock.x b1) (Barrier.BarrierBlock.y b1)
                "#f5f7fb" g1) as Hp.
  remember (Barrier.spawnHitParticles (Barrier.BarrierBlock.x b1)
              (Barrier.BarrierBlock.y b1) "#f5f7fb" g1) as g2 eqn:Hg2. clear Hg2.
  assert (Hball : forall c : bool,
    let ball' := if c then Barrier.Ball.set_vy (Barrier.Ball.vy ball * -1)%Q ball
                 else Barrier.Ball.set_vx (Barrier.Ball.vx ball * -1)%Q ball in
    (Barrier.Ball.x ball', Barrier.Ball.y ball', Barrier.Ball.resting ball',
     Barrier.Ball.prevX ball', Barrier.Ball.prevY ball')
    = (Barrier.Ball.x ball, Barrier.Ball.y ball, Barrier.Ball.resting ball,
       Barrier.Ball.prevX ball, Barrier.Ball.prevY ball))
    by (intros []; reflexivity).
  destruct (but_particles_fields _ _ Hp) as (Hc2 & Hbb2 & _ & Hs2).
  subst g1.
  cbn [Barrier.barrierBlocks Barrier.score Barrier.set_score
       Barrier.set_barrierBlocks] in Hbb2, Hs2.
  assert (Hc2' : barrier_ctl g2 = barrier_ctl g) by (rewrite Hc2; reflexivity).
  clear Hc2.
  change (Barrier.BarrierBlock.strength b1)
    with (Barrier.BarrierBlock.strength barrier - 1).
  destruct (Barrier.BarrierBlock.strength barrier - 1 <=? 0) eqn:Hdead.
  - assert (Hle1 : (Barrier.BarrierBlock.strength barrier <=? 1) = true) by lia.
    rewrite Hle1.
    set (b2 := Barrier.BarrierBlock.set_destroyed true b1).
    set (g3 := Barrier.set_barrierBlocks _ g2).
    pose proof (barrier_spawnExplosion_frame
                  (Barrier.BarrierBlock.x b2) (Barrier.BarrierBlock.y b2) g3) as He.
    remember (Barrier.spawnExplosion (Barrier.BarrierBlock.x b2)
                (Barrier.BarrierBlock.y b2) g3) as g4 eqn:Hg4. clear Hg4.
    destruct (but_particles_fields _ _ He) as (Hc4 & Hbb4 & _ & Hs4).
    subst g3.
    cbn [Barrier.barrierBlocks Barrier.score Barrier.set_barrierBlocks]
      in Hbb4, Hs4.
    rewrite Hbb2 in Hbb4. rewrite Hs2 in Hs4.
    assert (Hc4' : barrier_ctl g4 = barrier_ctl g)
      by (rewrite Hc4; exact Hc2').
    clear Hc4.
    pose proof (spawnFloatingBlock_spec true g4) as Hsp.
    pose proof (spawnFloatingBlock_cap true g4) as Hcap.
    cbv zeta in Hsp.
    remember (Barrier.spawnFloatingBlock true g4) as g5 eqn:Hg5. clear Hg5.
    destruct Hsp as (Hf5 & Hcase).
    destruct (but_spawn_fields _ _ Hf5) as (Hc5 & Hs5).
    split; [|split; [|split; [|split]]].
    + congruence.
    + apply Hball.
    + congruence.
    + intros Hle. apply Hcap. rewrite Hbb4, !length_insert. exact Hle.
    + destruct Hcase as [[_ Heq]|[_ (c & Hcd & Hcs & Heq)]].
      * rewrite Heq, Hbb4, !pending_weight_insert by lia. lia.
      * destruct (MAX_FLOATING_BLOCKS <=? length (Barrier.barrierBlocks g4))%nat;
          rewrite Heq, Hbb4.
        -- etransitivity; [apply pending_weight_app_le; assumption|].
           rewrite pending_weight_tail.
           etransitivity;
             [apply Nat.add_le_mono_r; apply pending_weight_S|].
           rewrite !pending_weight_insert by lia. lia.
        -- etransitivity; [apply pending_weight_app_le; assumption|].
           rewrite !pending_weight_insert by lia. lia.
  - split; [|split; [|split; [|split]]].
    + exact Hc2'.
    + apply Hball.
    + exact Hs2.
    + intros Hle. rewrite Hbb2, length_insert. exact Hle.
    + rewrite Hbb2, pending_weight_insert by lia. lia.
Qed.

(** The loop over the live array ends within the bound of [pending_weight]. *)
Lemma visit_from_terminates fuel :
  forall i ball g,
    (pending_weight i (Barrier.barrierBlocks g) < fuel)%nat ->
    exists r, Barrier.visit_from fuel i ball g = Some r.
Proof.
  induction fuel as [|fuel IH]; intros i ball g Hw; [lia|].
  cbn [Barrier.visit_from].
  destruct (Barrier.barrierBlocks g !! i) as [barrier|] eqn:Hi; [|eauto].
  assert (Hsplit : pending_weight i (Barrier.barrierBlocks g)
                   = (barrier_weight barrier
                      + pending_weight (S i) (Barrier.barrierBlocks g))%nat).
  { unfold pending_weight. rewrite (drop_S _ _ _ Hi). reflexivity. }
  assert (Hpos : (1 <= barrier_weight barrier)%nat).
  { unfold barrier_weight. repeat case_match; lia. }
  destruct (Barrier.BarrierBlock.destroyed barrier) eqn:Hd; [apply IH; lia|].
  destruct (circleRectCollision_at _ _ _); [|apply IH; lia].
  pose proof (barrier_hit_spec i barrier ball g) as Hh.
  destruct (Barrier.hit i barrier ball g) as [ball' g'].
  destruct Hh as (_ & _ & _ & _ & Hpw).
  apply IH.
  assert (Hw2 : barrier_weight barrier
                = if Barrier.BarrierBlock.strength barrier <=? 1
                  then 2%nat else 1%nat)
    by (unfold barrier_weight; rewrite Hd; reflexivity).
  destruct (Barrier.BarrierBlock.strength barrier <=? 1); lia.
Qed.

(** What the loop leaves alone. *)
Lemma visit_from_spec fuel :
  forall i ball g ball' g',
    Barrier.visit_from fuel i ball g = Some (ball', g') ->
    barrier_ctl g' = barrier_ctl g /\
    (Barrier.Ball.x ball', Barrier.Ball.y ball', Barrier.Ball.resting ball',
     Barrier.Ball.prevX ball', Barrier.Ball.prevY ball')
    = (Barrier.Ball.x ball, Barrier.Ball.y ball, Barrier.Ball.resting ball,
       Barrier.Ball.prevX ball, Barrier.Ball.prevY ball) /\
    Barrier.score g <= Barrier.score g' /\
    ((length (Barrier.barrierBlocks g) <= MAX_FLOATING_BLOCKS)%nat ->
     (length (Barrier.barrierBlocks g') <= MAX_FLOATING_BLOCKS)%nat).
Proof.
  induction fuel as [|fuel IH]; intros i ball g ball' g' Hrun; [discriminate|].
  cbn [Barrier.visit_from] in Hrun.
  destruct (Barrier.barrierBlocks g !! i) as [barrier|] eqn:Hi.
  2:{ injection Hrun as <- <-. repeat split; try lia; try tauto. }
  destruct (Barrier.BarrierBlock.destroyed barrier); [exact (IH _ _ _ _ _ Hrun)|].
  destruct (circleRectCollision_at _ _ _); [|exact (IH _ _ _ _ _ Hrun)].
  pose proof (barrier_hit_spec i barrier ball g) as Hh.
  destruct (Barrier.hit i barrier ball g) as [ball1 g1].
  destruct Hh as (Hc1 & Hb1 & Hs1 & Hcap1 & _).
  destruct (IH _ _ _ _ _ Hrun) as (Hc2 & Hb2 & Hs2 & Hcap2).
  repeat split; try congruence; try lia; try tauto.
Qed.

(** [handleCollisions] never runs out of loop iterations, and what it leaves
    alone. *)
Lemma barrier_handleCollisions_spec ball g :
  let '(ball', g') := Barrier.handleCollisions ball g in
  (exists r, Barrier.visit_from (Barrier.visit_fuel (length (Barrier.barrierBlocks g)))
                                0 ball g = Some r) /\
  barrier_ctl g' = barrier_ctl g /\
  (Barrier.Ball.x ball', Barrier.Ball.y ball', Barrier.Ball.resting ball',
   Barrier.Ball.prevX ball', Barrier.Ball.prevY ball')
  = (Barrier.Ball.x ball, Barrier.Ball.y ball, Barrier.Ball.resting ball,
     Barrier.Ball.prevX ball, Barrier.Ball.prevY ball) /\
  Barrier.score g <= Barrier.score g' /\
  Forall (fun b => Barrier.BarrierBlock.destroyed b = false)
         (Barrier.barrierBlocks g') /\
  ((length (Barrier.barrierBlocks g) <= MAX_FLOATING_BLOCKS)%nat ->
   (length (Barrier.barrierBlocks g') <= MAX_FLOATING_BLOCKS)%nat).
Proof.
  unfold Barrier.handleCollisions.
  destruct (visit_from_terminates
              (Barrier.visit_fuel (length (Barrier.barrierBlocks g))) 0 ball g)
    as [[ball1 g1] Hrun].
  { unfold Barrier.visit_fuel, pending_weight. rewrite drop_0.
    assert (Hb : forall l, (list_sum (List.map barrier_weight l) <= 2 * length l)%nat).
    { induction l as [|b l IHl]; [simpl; lia|].
      cbn [List.map list_sum length fold_right].
      assert (barrier_weight b <= 2)%nat
        by (unfold barrier_weight; repeat case_match; lia).
      change (fold_right Nat.add 0%nat (List.map barrier_weight l))
        with (list_sum (List.map barrier_weight l)). lia. }
    specialize (Hb (Barrier.barrierBlocks g)). lia. }
  rewrite Hrun.
  destruct (visit_from_spec _ _ _ _ _ _ Hrun) as (Hc & Hb & Hs & Hcap).
  split; [eauto|]. split; [rewrite <- Hc; reflexivity|].
  split; [exact Hb|]. split; [exact Hs|]. split.
  - cbn [Barrier.barrierBlocks Barrier.set_barrierBlocks].
    apply Forall_forall. intros b Hin. apply list_elem_of_In in Hin.
    apply filter_In in Hin. destruct Hin as [_ Hd].
    apply negb_true_iff in Hd. exact Hd.
  - intros Hle. cbn [Barrier.barrierBlocks Barrier.set_barrierBlocks].
    specialize (Hcap Hle).
    pose proof (List.filter_length_le
                  (fun barrier => negb (Barrier.BarrierBlock.destroyed barrier))
                  (Barrier.barrierBlocks g1)). lia.
Qed.

End BarrierFrames.

(** ** The barrier revision: one update tick *)

Section BarrierTick.
Context `{Host}.

Lemma ctl_fields g g' :
  barrier_ctl g' = barrier_ctl g ->
  barrier_mode g' = barrier_mode g /\
  Barrier.balls g' = Barrier.balls g /\
  Barrier.pendingBalls g' = Barrier.pendingBalls g /\
  Barrier.launchTimer g' = Barrier.launchTimer g /\
  Barrier.restingBalls g' = Barrier.restingBalls g /\
  Barrier.activeBallChainLanding g' = Barrier.activeBallChainLanding g.
Proof.
  unfold barrier_ctl, barrier_mode. intros Hf. inversion Hf.
  repeat split; congruence.
Qed.

Lemma mode_fields g g' :
  barrier_mode g' = barrier_mode g ->
  Barrier.isLaunching g' = Barrier.isLaunching g /\
  Barrier.isGameOver g' = Barrier.isGameOver g /\
  Barrier.turn g' = Barrier.turn g /\
  Barrier.baseBallPosition g' = Barrier.baseBallPosition g /\
  Barrier.ballChain g' = Barrier.ballChain g.
Proof.
  unfold barrier_mode. intros Hf. inversion Hf. repeat split; congruence.
Qed.

Lemma first_landing_app l1 l2 :
  first_landing (l1 ++ l2)
  = if JS.is_null (first_landing l1) then first_landing l2 else first_landing l1.
Proof. destruct l1; reflexivity. Qed.

(** The spawn step: when the guard holds one ball is pushed, the pending
    count drops by one and the timer is set to 0.1; otherwise the timer
    alone runs down, and only while launching. *)
Lemma launch_step_spec delta g :
  let g' := Barrier.launch_step delta g in
  barrier_mode g' = barrier_mode g /\
  Barrier.restingBalls g' = Barrier.restingBalls g /\
  Barrier.activeBallChainLanding g' = Barrier.activeBallChainLanding g /\
  ((length (Barrier.barrierBlocks g) <= MAX_FLOATING_BLOCKS)%nat ->
   (length (Barrier.barrierBlocks g') <= MAX_FLOATING_BLOCKS)%nat) /\
  (if launch_due delta g
   then Barrier.pendingBalls g' = Barrier.pendingBalls g - 1 /\
        Barrier.launchTimer g' = (1 # 10)%Q /\
        exists ball, Barrier.balls g' = Barrier.balls g ++ [ball] /\
                     Barrier.Ball.resting ball = false
   else Barrier.pendingBalls g' = Barrier.pendingBalls g /\
        Barrier.balls g' = Barrier.balls g /\
        Barrier.launchTimer g'
        = if Barrier.isLaunching g then (Barrier.launchTimer g - delta)%Q
          else Barrier.launchTimer g).
Proof.
  unfold Barrier.launch_step, launch_due.
  destruct (Barrier.isLaunching g) eqn:Hl; cbn [andb];
    [|repeat split; tauto].
  cbn [Barrier.pendingBalls Barrier.launchTimer Barrier.set_launchTimer].
  destruct ((Barrier.pendingBalls g >? 0)
            && JS.Qleb (Barrier.launchTimer g - delta) 0) eqn:Hdue.
  2:{ cbv zeta. repeat split; try tauto; try reflexivity. }
  match goal with
  | |- context [Barrier.spawnFloatingBlock false ?g0] =>
      pose proof (spawnFloatingBlock_spec false g0) as Hsp;
      pose proof (spawnFloatingBlock_cap false g0) as Hcap;
      remember g0 as g1 eqn:Hg1
  end.
  cbv zeta in Hsp |- *.
  remember (Barrier.spawnFloatingBlock false g1) as g2 eqn:Hg2. clear Hg2.
  destruct Hsp as (Hf & _).
  destruct (but_spawn_fields _ _ Hf) as (Hc & _).
  destruct (ctl_fields _ _ Hc) as (Hm & Hb & Hp & Ht & Hr & Ha).
  subst g1. cbn in Hb, Hp, Ht, Hr, Ha, Hcap.
  split; [rewrite Hm; reflexivity|].
  split; [exact Hr|]. split; [exact Ha|]. split; [exact Hcap|].
  split; [exact Hp|]. split; [exact Ht|].
  eexists. split; [exact Hb|]. reflexivity.
Qed.

(** [Ball.update] keeps a resting ball and leaves a moving ball moving. *)
Lemma ball_update_resting delta ball :
  Barrier.Ball.resting (Barrier.Ball.update delta ball) = Barrier.Ball.resting ball.
Proof.
  unfold Barrier.Ball.update.
  destruct (Barrier.Ball.resting ball) eqn:Hr; [exact Hr|].
  repeat match goal with
         | |- context [if ?c then _ else _] => destruct c
         end; reflexivity.
Qed.

(** The loop body for a moving ball: either the ball comes to rest, is
    appended to [restingBalls] and sets a landing position that was [null],
    or nothing of the turn state changes. *)
Lemma move_ball_spec delta ball g :
  Barrier.Ball.resting ball = false ->
  let '(ball', g') := Barrier.move_ball delta ball g in
  barrier_flow g' = barrier_flow g /\
  Barrier.balls g' = Barrier.balls g /\
  ((length (Barrier.barrierBlocks g) <= MAX_FLOATING_BLOCKS)%nat ->
   (length (Barrier.barrierBlocks g') <= MAX_FLOATING_BLOCKS)%nat) /\
  ((Barrier.Ball.resting ball' = true /\
    Barrier.restingBalls g' = Barrier.restingBalls g ++ [ball'] /\
    Barrier.activeBallChainLanding g'
    = if JS.is_null (Barrier.activeBallChainLanding g)
      then JS.Num (Barrier.Ball.x ball')
      else Barrier.activeBallChainLanding g) \/
   (Barrier.Ball.resting ball' = false /\
    Barrier.restingBalls g' = Barrier.restingBalls g /\
    Barrier.activeBallChainLanding g' = Barrier.activeBallChainLanding g)).
Proof.
  intros Hrest. unfold Barrier.move_ball.
  pose proof (barrier_handleCollisions_spec (Barrier.Ball.update delta ball) g) as Hh.
  destruct (Barrier.handleCollisions (Barrier.Ball.update delta ball) g)
    as [ball1 g1].
  destruct Hh as (_ & Hc & Hb & _ & _ & Hcap).
  destruct (ctl_fields _ _ Hc) as (Hm & Hbl & Hp & Ht & Hr & Ha).
  assert (Hflow : barrier_flow g1 = barrier_flow g).
  { unfold barrier_flow. unfold barrier_mode in Hm. inversion Hm. congruence. }
  assert (Hr1 : Barrier.Ball.resting ball1 = false).
  { inversion Hb. rewrite ball_update_resting in *. congruence. }
  destruct (JS.Qleb (Barrier.baseY g1) (Barrier.Ball.y ball1 + BALL_RADIUS)
            && JS.Qltb 0 (Barrier.Ball.vy ball1)).
  - cbn [Barrier.activeBallChainLanding Barrier.set_restingBalls].
    rewrite Ha.
    destruct (JS.is_null (Barrier.activeBallChainLanding g)) eqn:Hn;
      (split; [rewrite <- Hflow; reflexivity|]);
      (split; [rewrite <- Hbl; reflexivity|]);
      (split; [exact Hcap|]);
      left; cbn; rewrite ?Hr, ?Ha; repeat split; reflexivity.
  - split; [exact Hflow|]. split; [exact Hbl|]. split; [exact Hcap|].
    right. repeat split; assumption.
Qed.

(** The loop over the balls. *)
Lemma update_balls_spec delta bs :
  forall g,
    let '(bs', g') := Barrier.update_balls delta bs g in
    barrier_flow g' = barrier_flow g /\
    Barrier.balls g' = Barrier.balls g /\
    length bs' = length bs /\
    ((length (Barrier.barrierBlocks g) <= MAX_FLOATING_BLOCKS)%nat ->
     (length (Barrier.barrierBlocks g') <= MAX_FLOATING_BLOCKS)%nat) /\
    exists more,
      Barrier.restingBalls g' = Barrier.restingBalls g ++ more /\
      Forall (fun b => Barrier.Ball.resting b = true /\ In b bs') more /\
      Barrier.activeBallChainLanding g'
      = if JS.is_null (Barrier.activeBallChainLanding g)
        then first_landing more
        else Barrier.activeBallChainLanding g.
Proof.
  induction bs as [|ball rest IH]; intros g; cbn [Barrier.update_balls].
  { repeat split; try tauto. exists []. rewrite app_nil_r.
    repeat split; [constructor|]. cbn. destruct (JS.is_null _) eqn:E; [|reflexivity].
    destruct (Barrier.activeBallChainLanding g); try discriminate. reflexivity. }
  destruct (Barrier.Ball.resting ball) eqn:Hrest.
  - specialize (IH g).
    destruct (Barrier.update_balls delta rest g) as [rest' g'].
    destruct IH as (Hf & Hb & Hl & Hcap & more & Hr & Hall & Ha).
    repeat split; try assumption; try (cbn [length]; congruence).
    exists more. repeat split; try assumption.
    eapply Forall_impl; [exact Hall|]. intros b [Hb1 Hb2].
    split; [exact Hb1|]. right. exact Hb2.
  - pose proof (move_ball_spec delta ball g Hrest) as Hm.
    destruct (Barrier.move_ball delta ball g) as [ball1 g1].
    destruct Hm as (Hf1 & Hb1 & Hcap1 & Hcase).
    specialize (IH g1).
    destruct (Barrier.update_balls delta rest g1) as [rest' g'].
    destruct IH as (Hf & Hb & Hl & Hcap & more & Hr & Hall & Ha).
    split; [congruence|]. split; [congruence|].
    split; [cbn [length]; congruence|]. split; [tauto|].
    assert (Hall' : Forall (fun b => Barrier.Ball.resting b = true
                                     /\ In b (ball1 :: rest')) more).
    { eapply Forall_impl; [exact Hall|]. intros b [Hx Hy].
      split; [exact Hx|]. right. exact Hy. }
    destruct Hcase as [(Hr1 & Hrb & Hla)|(Hr1 & Hrb & Hla)].
    + exists (ball1 :: more). split; [|split].
      * rewrite Hr, Hrb, <- app_assoc. reflexivity.
      * constructor; [|exact Hall']. split; [exact Hr1|]. left. reflexivity.
      * rewrite Ha, Hla.
        destruct (JS.is_null (Barrier.activeBallChainLanding g)) eqn:Hn;
          [reflexivity|].
        rewrite Hn. reflexivity.
    + exists more. split; [|split].
      * rewrite Hr, Hrb. reflexivity.
      * exact Hall'.
      * rewrite Ha, Hla. reflexivity.
Qed.

(** [update] up to the call of [finishTurn]. *)
Lemma simulate_spec delta g :
  let g' := Barrier.simulate delta g in
  barrier_mode g' = barrier_mode g /\
  ((length (Barrier.barrierBlocks g) <= MAX_FLOATING_BLOCKS)%nat ->
   (length (Barrier.barrierBlocks g') <= MAX_FLOATING_BLOCKS)%nat) /\
  Barrier.pendingBalls g'
  = Barrier.pendingBalls g - (if launch_due delta g then 1 else 0) /\
  Barrier.launchTimer g'
  = (if launch_due delta g then (1 # 10)%Q
     else if Barrier.isLaunching g then (Barrier.launchTimer g - delta)%Q
          else Barrier.launchTimer g) /\
  length (Barrier.balls g')
  = (length (Barrier.balls g) + (if launch_due delta g then 1 else 0))%nat /\
  exists more,
    Barrier.restingBalls g' = Barrier.restingBalls g ++ more /\
    Forall (fun b => Barrier.Ball.resting b = true /\ In b (Barrier.balls g')) more /\
    Barrier.activeBallChainLanding g'
    = if JS.is_null (Barrier.activeBallChainLanding g)
      then first_landing more
      else Barrier.activeBallChainLanding g.
Proof.
  unfold Barrier.simulate, Barrier.particle_step, Barrier.ball_step.
  pose proof (launch_step_spec delta g) as Hl. cbv zeta in Hl.
  remember (Barrier.launch_step delta g) as g1 eqn:Hg1. clear Hg1.
  destruct Hl as (Hm1 & Hr1 & Ha1 & Hcap1 & Hdue).
  pose proof (update_balls_spec delta (Barrier.balls g1) g1) as Hu.
  destruct (Barrier.update_balls delta (Barrier.balls g1) g1) as [bs g2].
  destruct Hu as (Hf2 & Hb2 & Hlen2 & Hcap2 & more & Hr2 & Hall2 & Ha2).
  cbv zeta.
  cbn [Barrier.barrierBlocks Barrier.pendingBalls Barrier.launchTimer
       Barrier.balls Barrier.restingBalls Barrier.activeBallChainLanding
       Barrier.set_particles Barrier.set_balls Barrier.particles].
  assert (Hflow : Barrier.pendingBalls g2 = Barrier.pendingBalls g1 /\
                  Barrier.launchTimer g2 = Barrier.launchTimer g1 /\
                  barrier_mode g2 = barrier_mode g1).
  { unfold barrier_flow in Hf2. unfold barrier_mode. inversion Hf2.
    repeat split; congruence. }
  destruct Hflow as (Hp2 & Ht2 & Hm2).
  split; [|split; [|split; [|split; [|split]]]].
  - unfold barrier_mode in *. cbn. congruence.
  - tauto.
  - rewrite Hp2. destruct (launch_due delta g); [|rewrite Z.sub_0_r]; tauto.
  - rewrite Ht2. destruct (launch_due delta g); tauto.
  - rewrite Hlen2.
    destruct (launch_due delta g).
    + destruct Hdue as (_ & _ & ball & -> & _). rewrite length_app. reflexivity.
    + destruct Hdue as (_ & -> & _). lia.
  - exists more. rewrite Hr2, Ha2, Hr1, Ha1. repeat split. exact Hall2.
Qed.

Lemma finishTurn_spec g :
  Barrier.isLaunching (Barrier.finishTurn g) = false /\
  Barrier.turn (Barrier.finishTurn g) = Barrier.turn g + 1 /\
  Barrier.balls (Barrier.finishTurn g) = [] /\
  Barrier.baseBallPosition (Barrier.finishTurn g)
  = JS.nullish (Barrier.activeBallChainLanding g) (Barrier.baseBallPosition g) /\
  (Barrier.isGameOver (Barrier.finishTurn g), Barrier.pendingBalls (Barrier.finishTurn g),
   Barrier.launchTimer (Barrier.finishTurn g), Barrier.restingBalls (Barrier.finishTurn g),
   Barrier.activeBallChainLanding (Barrier.finishTurn g),
   Barrier.barrierBlocks (Barrier.finishTurn g), Barrier.ballChain (Barrier.finishTurn g))
  = (Barrier.isGameOver g, Barrier.pendingBalls g, Barrier.launchTimer g,
     Barrier.restingBalls g, Barrier.activeBallChainLanding g,
     Barrier.barrierBlocks g, Barrier.ballChain g).
Proof. repeat split. Qed.

(** One update tick of a session that is not over. *)
Lemma update_spec delta g :
  Barrier.isGameOver g = false ->
  let s := Barrier.simulate delta g in
  let g' := Barrier.update delta g in
  g' = (if Barrier.turn_done s then Barrier.finishTurn s else s) /\
  Barrier.isGameOver g' = false /\
  ((length (Barrier.barrierBlocks g) <= MAX_FLOATING_BLOCKS)%nat ->
   (length (Barrier.barrierBlocks g') <= MAX_FLOATING_BLOCKS)%nat) /\
  Barrier.pendingBalls g'
  = Barrier.pendingBalls g - (if launch_due delta g then 1 else 0) /\
  Barrier.launchTimer g'
  = (if launch_due delta g then (1 # 10)%Q
     else if Barrier.isLaunching g then (Barrier.launchTimer g - delta)%Q
          else Barrier.launchTimer g) /\
  Barrier.isLaunching g' = Barrier.isLaunching g && negb (Barrier.turn_done s) /\
  Barrier.turn g' = Barrier.turn g + (if Barrier.turn_done s then 1 else 0) /\
  Barrier.ballChain g' = Barrier.ballChain g /\
  (Barrier.turn_done s = true ->
   Barrier.isLaunching g = true /\ Barrier.pendingBalls g' = 0) /\
  spawned delta g = launch_due delta g /\
  exists more,
    Barrier.restingBalls g' = Barrier.restingBalls g ++ more /\
    Barrier.activeBallChainLanding g'
    = if JS.is_null (Barrier.activeBallChainLanding g)
      then first_landing more
      else Barrier.activeBallChainLanding g.
Proof.
  intros Hover s g'. subst g'. unfold Barrier.update. rewrite Hover.
  fold s.
  pose proof (simulate_spec delta g) as Hs. cbv zeta in Hs. fold s in Hs.
  destruct Hs as (Hm & Hcap & Hp & Ht & Hlen & more & Hr & _ & Ha).
  destruct (mode_fields _ _ Hm) as (Hl & Hgo & Htu & Hbase & Hch).
  assert (Hsp : spawned delta g = launch_due delta g).
  { unfold spawned. rewrite Hover. cbn [negb andb].
    pose proof (launch_step_spec delta g) as Hls. cbv zeta in Hls.
    destruct Hls as (_ & _ & _ & _ & Hdue).
    destruct (launch_due delta g).
    - destruct Hdue as (_ & _ & ball & -> & _). rewrite length_app.
      cbn [length]. apply Nat.ltb_lt. lia.
    - destruct Hdue as (_ & -> & _). apply Nat.ltb_irrefl. }
  destruct (finishTurn_spec s) as (Hfl & Hft & _ & _ & _).
  assert (Hf1 : Barrier.isGameOver (Barrier.finishTurn s) = Barrier.isGameOver s)
    by reflexivity.
  assert (Hf2 : Barrier.pendingBalls (Barrier.finishTurn s) = Barrier.pendingBalls s)
    by reflexivity.
  assert (Hf3 : Barrier.launchTimer (Barrier.finishTurn s) = Barrier.launchTimer s)
    by reflexivity.
  assert (Hf4 : Barrier.restingBalls (Barrier.finishTurn s) = Barrier.restingBalls s)
    by reflexivity.
  assert (Hf5 : Barrier.activeBallChainLanding (Barrier.finishTurn s)
                = Barrier.activeBallChainLanding s) by reflexivity.
  assert (Hf6 : Barrier.barrierBlocks (Barrier.finishTurn s) = Barrier.barrierBlocks s)
    by reflexivity.
  assert (Hf7 : Barrier.ballChain (Barrier.finishTurn s) = Barrier.ballChain s)
    by reflexivity.
  destruct (Barrier.turn_done s) eqn:Hdone.
  - unfold Barrier.turn_done in Hdone.
    apply andb_true_iff in Hdone. destruct Hdone as [Hdone _].
    apply andb_true_iff in Hdone. destruct Hdone as [Hls Hp0].
    apply Z.eqb_eq in Hp0.
    split; [reflexivity|]. split; [congruence|].
    split; [rewrite Hf6; exact Hcap|]. split; [congruence|].
    split; [congruence|].
    split; [rewrite Hfl, andb_false_r; reflexivity|].
    split; [rewrite Hft; congruence|]. split; [congruence|].
    split; [intros _; split; congruence|]. split; [exact Hsp|].
    exists more. split; congruence.
  - split; [reflexivity|]. split; [congruence|]. split; [exact Hcap|].
    split; [exact Hp|]. split; [exact Ht|].
    split; [rewrite andb_true_r; exact Hl|].
    split; [rewrite Z.add_0_r; exact Htu|]. split; [exact Hch|].
    split; [discriminate|]. split; [exact Hsp|].
    exists more. split; assumption.
Qed.

End BarrierTick.

(** ** The population cap of the floating barriers *)

Section BarrierCap.
Context `{Host}.

Lemma spawnFloatingBlock_not_over force g :
  Barrier.isGameOver (Barrier.spawnFloatingBlock force g) = Barrier.isGameOver g.
Proof.
  destruct (spawnFloatingBlock_spec force g) as (Hf & _).
  destruct (but_spawn_fields _ _ Hf) as (Hc & _).
  destruct (ctl_fields _ _ Hc) as (Hm & _).
  destruct (mode_fields _ _ Hm) as (_ & Hgo & _). exact Hgo.
Qed.

(** A forced spawn below the cap, in a session that is not over, adds one
    barrier. *)
Lemma spawnFloatingBlock_grows g :
  Barrier.isGameOver g = false ->
  (length (Barrier.barrierBlocks g) < MAX_FLOATING_BLOCKS)%nat ->
  length (Barrier.barrierBlocks (Barrier.spawnFloatingBlock true g))
  = S (length (Barrier.barrierBlocks g)).
Proof.
  intros Hgo Hlt.
  destruct (spawnFloatingBlock_spec true g)
    as (_ & [[Hover _]|[_ (c & _ & _ & Heq)]]); [congruence|].
  rewrite Heq.
  assert (Hcap : (MAX_FLOATING_BLOCKS <=? length (Barrier.barrierBlocks g))%nat = false)
    by (apply Nat.leb_gt; exact Hlt).
  rewrite Hcap, length_app. cbn [length]. lia.
Qed.

Lemma seed_iter_length n g :
  Barrier.isGameOver g = false ->
  (length (Barrier.barrierBlocks g) + n <= MAX_FLOATING_BLOCKS)%nat ->
  Barrier.isGameOver (Nat.iter n (Barrier.spawnFloatingBlock true) g) = false /\
  length (Barrier.barrierBlocks (Nat.iter n (Barrier.spawnFloatingBlock true) g))
  = (length (Barrier.barrierBlocks g) + n)%nat.
Proof.
  intros Hgo. induction n as [|n IH]; intros Hle.
  - split; [exact Hgo|cbn [Nat.iter nat_rect]; lia].
  - rewrite Nat.iter_succ. destruct IH as [Hgo' Hlen]; [lia|].
    split; [rewrite spawnFloatingBlock_not_over; exact Hgo'|].
    rewrite spawnFloatingBlock_grows; [lia|exact Hgo'|lia].
Qed.

(** [reset] leaves a session that is not over, with the six seeded
    barriers. *)
Lemma reset_spec g :
  Barrier.isGameOver (Barrier.reset g) = false /\
  length (Barrier.barrierBlocks (Barrier.reset g)) = 6%nat.
Proof.
  unfold Barrier.reset, Barrier.seedFloatingBlocks.
  match goal with
  | |- context [Nat.iter 6 _ ?g0] =>
      destruct (seed_iter_length 6 g0) as [Hgo Hlen];
      [reflexivity|unfold MAX_FLOATING_BLOCKS; simpl; lia|]
  end.
  split; [exact Hgo|exact Hlen].
Qed.

(** No session of the barrier revision is over, and none holds more than
    [MAX_FLOATING_BLOCKS] barriers. *)
Lemma barrier_reachable_inv g :
  barrier_reachable g ->
  Barrier.isGameOver g = false /\
  (length (Barrier.barrierBlocks g) <= MAX_FLOATING_BLOCKS)%nat.
Proof.
  induction 1 as [seed|g Hr IH|angle g Hr IH Hl|delta g Hr IH].
  - destruct (reset_spec (Barrier.fresh seed)) as [Hgo Hlen].
    unfold Barrier.new. split; [exact Hgo|].
    rewrite Hlen. unfold MAX_FLOATING_BLOCKS. lia.
  - destruct (reset_spec g) as [Hgo Hlen]. split; [exact Hgo|].
    rewrite Hlen. unfold MAX_FLOATING_BLOCKS. lia.
  - exact IH.
  - destruct IH as [Hgo Hcap].
    destruct (update_spec delta g Hgo) as (_ & Hgo' & Hcap' & _).
    split; [exact Hgo'|exact (Hcap' Hcap)].
Qed.

End BarrierCap.

(** C8: [spawnFloatingBlock] keeps the collection within
    [MAX_FLOATING_BLOCKS] = 24 from any state within it, forced or not.  At
    the cap an unforced call leaves the collection as it is, and a forced
    call in a session that is not over (no session of this revision ever is)
    drops the barrier at the front and appends the new candidate.  A new
    session holds the six seeded barriers, and every session reached by
    restarts, launches and update ticks stays within the cap. *)
Theorem floating_barriers_within_cap :
  forall (host : Host),
    MAX_FLOATING_BLOCKS = 24%nat /\
    (forall force g,
        (length (Barrier.barrierBlocks g) <= MAX_FLOATING_BLOCKS)%nat ->
        (length (Barrier.barrierBlocks (Barrier.spawnFloatingBlock force g))
         <= MAX_FLOATING_BLOCKS)%nat) /\
    (forall g,
        (MAX_FLOATING_BLOCKS <= length (Barrier.barrierBlocks g))%nat ->
        Barrier.barrierBlocks (Barrier.spawnFloatingBlock false g)
        = Barrier.barrierBlocks g) /\
    (forall g,
        Barrier.isGameOver g = false ->
        (MAX_FLOATING_BLOCKS <= length (Barrier.barrierBlocks g))%nat ->
        exists candidate,
          Barrier.barrierBlocks (Barrier.spawnFloatingBlock true g)
          = tail (Barrier.barrierBlocks g) ++ [candidate]) /\
    (forall seed, length (Barrier.barrierBlocks (Barrier.new seed)) = 6%nat) /\
    (forall g,
        barrier_reachable g ->
        Barrier.isGameOver g = false /\
        (length (Barrier.barrierBlocks g) <= MAX_FLOATING_BLOCKS)%nat).
Proof.
  intros host. split; [reflexivity|].
  split; [exact spawnFloatingBlock_cap|]. split; [|split; [|split]].
  - intros g Hcap.
    destruct (spawnFloatingBlock_spec false g)
      as (_ & [[_ ->]|[_ (c & _ & _ & ->)]]); [reflexivity|].
    apply Nat.leb_le in Hcap. rewrite Hcap. reflexivity.
  - intros g Hgo Hcap.
    destruct (spawnFloatingBlock_spec true g)
      as (_ & [[Hover _]|[_ (c & _ & _ & ->)]]); [congruence|].
    apply Nat.leb_le in Hcap. rewrite Hcap. exists c. reflexivity.
  - intros seed. apply reset_spec.
  - exact barrier_reachable_inv.
Qed.

(** ** The barrier revision: runs of update ticks *)

Section BarrierRuns.
Context `{Host}.

Lemma run_cons delta ds g : run (delta :: ds) g = run ds (Barrier.update delta g).
Proof. reflexivity. Qed.

Lemma run_snoc ds delta g : run (ds ++ [delta]) g = Barrier.update delta (run ds g).
Proof. unfold run. rewrite fold_left_app. reflexivity. Qed.

Lemma run_app ds1 ds2 g : run (ds1 ++ ds2) g = run ds2 (run ds1 g).
Proof. unfold run. apply fold_left_app. Qed.

Lemma update_over delta g : Barrier.isGameOver g = true -> Barrier.update delta g = g.
Proof. intros Hover. unfold Barrier.update. rewrite Hover. reflexivity. Qed.

Lemma run_not_over ds :
  forall g, Barrier.isGameOver g = false -> Barrier.isGameOver (run ds g) = false.
Proof.
  induction ds as [|d ds IH]; intros g Hgo; [exact Hgo|].
  rewrite run_cons. apply IH.
  destruct (update_spec d g Hgo) as (_ & Hgo' & _). exact Hgo'.
Qed.

(** The resting order and the landing position through one tick. *)
Lemma update_landing delta g :
  exists more,
    Barrier.restingBalls (Barrier.update delta g) = Barrier.restingBalls g ++ more /\
    Barrier.activeBallChainLanding (Barrier.update delta g)
    = if JS.is_null (Barrier.activeBallChainLanding g)
      then first_landing more
      else Barrier.activeBallChainLanding g.
Proof.
  destruct (Barrier.isGameOver g) eqn:Hgo.
  - rewrite update_over by exact Hgo. exists []. rewrite app_nil_r.
    split; [reflexivity|].
    destruct (Barrier.activeBallChainLanding g); reflexivity.
  - destruct (update_spec delta g Hgo) as (_ & _ & _ & _ & _ & _ & _ & _ & _ & _ & Hex).
    exact Hex.
Qed.

(** The landing position is the one the resting order gives, in every tick
    of a turn. *)
Lemma update_first_landing delta g :
  Barrier.activeBallChainLanding g = first_landing (Barrier.restingBalls g) ->
  Barrier.activeBallChainLanding (Barrier.update delta g)
  = first_landing (Barrier.restingBalls (Barrier.update delta g)).
Proof.
  intros Hj. destruct (update_landing delta g) as (more & Hr & Ha).
  rewrite Ha, Hr, first_landing_app, Hj.
  destruct (JS.is_null (first_landing (Barrier.restingBalls g))); reflexivity.
Qed.

Lemma run_first_landing ds :
  forall g,
    Barrier.activeBallChainLanding g = first_landing (Barrier.restingBalls g) ->
    Barrier.activeBallChainLanding (run ds g)
    = first_landing (Barrier.restingBalls (run ds g)).
Proof.
  induction ds as [|d ds IH]; intros g Hj; [exact Hj|].
  rewrite run_cons. apply IH, update_first_landing, Hj.
Qed.

(** A landing position that is set is not written again by an update tick. *)
Lemma update_keeps_landing delta g x :
  Barrier.activeBallChainLanding g = JS.Num x ->
  Barrier.activeBallChainLanding (Barrier.update delta g) = JS.Num x.
Proof.
  intros Hx. destruct (update_landing delta g) as (more & _ & Ha).
  rewrite Ha, Hx. reflexivity.
Qed.

Lemma nullish_first_landing resting base :
  JS.nullish (first_landing resting) base
  = match resting with [] => base | ball :: _ => Barrier.Ball.x ball end.
Proof. destruct resting; reflexivity. Qed.

(** The landing position through a launching turn of the barrier revision. *)
Lemma barrier_landing_position angle g0 ds :
  let g := run ds (Barrier.launchTurn angle g0) in
  Barrier.restingBalls (Barrier.launchTurn angle g0) = [] /\
  Barrier.activeBallChainLanding (Barrier.launchTurn angle g0) = JS.Null /\
  Barrier.activeBallChainLanding g = first_landing (Barrier.restingBalls g) /\
  (forall delta, exists more,
      Barrier.restingBalls (Barrier.update delta g)
      = Barrier.restingBalls g ++ more) /\
  (forall delta x,
      Barrier.activeBallChainLanding g = JS.Num x ->
      Barrier.activeBallChainLanding (Barrier.update delta g) = JS.Num x) /\
  Barrier.baseBallPosition (Barrier.finishTurn g)
  = match Barrier.restingBalls g with
    | [] => Barrier.baseBallPosition g
    | ball :: _ => Barrier.Ball.x ball
    end.
Proof.
  intros g. split; [reflexivity|]. split; [reflexivity|].
  assert (Hj : Barrier.activeBallChainLanding g
               = first_landing (Barrier.restingBalls g))
    by (apply run_first_landing; reflexivity).
  split; [exact Hj|]. split; [|split].
  - intros delta. destruct (update_landing delta g) as (more & Hr & _).
    exists more. exact Hr.
  - intros delta x. apply update_keeps_landing.
  - change (Barrier.baseBallPosition (Barrier.finishTurn g))
      with (JS.nullish (Barrier.activeBallChainLanding g) (Barrier.baseBallPosition g)).
    rewrite Hj. apply nullish_first_landing.
Qed.

(** An update tick of an idle session does not call [finishTurn]: the turn
    number stays, and with no ball and no particle the whole session
    stays. *)
Lemma barrier_idle_update delta g :
  Barrier.isLaunching g = false ->
  Barrier.turn (Barrier.update delta g) = Barrier.turn g /\
  Barrier.isLaunching (Barrier.update delta g) = false /\
  Barrier.update delta g
  = (if Barrier.isGameOver g then g else Barrier.simulate delta g) /\
  (Barrier.balls g = [] -> Barrier.particles g = [] ->
   Barrier.update delta g = g).
Proof.
  intros Hidle.
  destruct (Barrier.isGameOver g) eqn:Hgo.
  { rewrite update_over by exact Hgo. repeat split; tauto. }
  destruct (update_spec delta g Hgo)
    as (Heq & _ & _ & _ & _ & Hl & Ht & _ & Hdone & _).
  destruct (Barrier.turn_done (Barrier.simulate delta g)) eqn:Hd.
  { destruct (Hdone eq_refl) as [Hl' _]. congruence. }
  split; [rewrite Ht; lia|]. split; [rewrite Hl, Hidle; reflexivity|].
  split; [exact Heq|].
  intros Hb Hp. rewrite Heq.
  unfold Barrier.simulate, Barrier.launch_step. rewrite Hidle.
  unfold Barrier.ball_step. rewrite Hb. cbn [Barrier.update_balls].
  unfold Barrier.particle_step.
  cbn [Barrier.particles Barrier.set_balls]. rewrite Hp. cbn [List.filter List.map].
  destruct g; cbn in *; subst; reflexivity.
Qed.

End BarrierRuns.

(** ** The barrier revision: the launch sequencer *)

Section BarrierLaunch.
Context `{Host}.

(** One tick takes one ball off the count that remains exactly when it
    spawns one. *)
Lemma update_remaining delta g :
  Barrier.isGameOver g = false -> 0 <= Barrier.pendingBalls g ->
  remaining (Barrier.update delta g)
  = remaining g - (if spawned delta g then 1 else 0) /\
  0 <= Barrier.pendingBalls (Barrier.update delta g) /\
  0 <= remaining (Barrier.update delta g).
Proof.
  intros Hgo Hp.
  destruct (update_spec delta g Hgo)
    as (_ & _ & _ & Hp' & _ & Hl & _ & _ & Hdone & Hsp & _).
  rewrite Hsp. unfold remaining. rewrite Hl.
  assert (Hdue : launch_due delta g = true ->
                 Barrier.isLaunching g = true /\ 0 < Barrier.pendingBalls g).
  { unfold launch_due. intros Hd.
    apply andb_true_iff in Hd. destruct Hd as [Hd _].
    apply andb_true_iff in Hd. destruct Hd as [Hd1 Hd2]. split; [exact Hd1|lia]. }
  destruct (Barrier.isLaunching g) eqn:Hlg; cbn [andb].
  - destruct (Barrier.turn_done (Barrier.simulate delta g)) eqn:Hd; cbn [negb].
    + destruct (Hdone eq_refl) as [_ Hz].
      destruct (launch_due delta g); lia.
    + destruct (launch_due delta g) eqn:Hdu; [destruct (Hdue eq_refl)|]; lia.
  - destruct (launch_due delta g) eqn:Hdu;
      [destruct (Hdue eq_refl); discriminate|]. lia.
Qed.

(** The count of spawn ticks of a run is the drop of the count that
    remains. *)
Lemma spawn_count ds :
  forall clock g,
    Barrier.isGameOver g = false -> 0 <= Barrier.pendingBalls g ->
    Z.of_nat (length (spawn_times clock ds g)) = remaining g - remaining (run ds g) /\
    0 <= Barrier.pendingBalls (run ds g) /\
    0 <= remaining (run ds g).
Proof.
  induction ds as [|d ds IH]; intros clock g Hgo Hp.
  - cbn [spawn_times length run fold_left]. unfold remaining.
    destruct (Barrier.isLaunching g); lia.
  - cbn [spawn_times]. rewrite run_cons, length_app.
    destruct (update_remaining d g Hgo Hp) as (Hrem & Hp' & _).
    destruct (update_spec d g Hgo) as (_ & Hgo' & _).
    destruct (IH (clock + d)%Q _ Hgo' Hp') as (Hcnt & Hp2 & Hr2).
    split; [|split; assumption].
    rewrite Nat2Z.inj_add, Hcnt, Hrem.
    destruct (spawned d g); cbn [length]; lia.
Qed.

(** An idle session spawns nothing. *)
Lemma spawn_times_idle ds :
  forall clock g,
    Barrier.isLaunching g = false -> spawn_times clock ds g = [].
Proof.
  induction ds as [|d ds IH]; intros clock g Hidle; [reflexivity|].
  cbn [spawn_times].
  destruct (barrier_idle_update d g Hidle) as (_ & Hidle' & _).
  rewrite (IH _ _ Hidle'), app_nil_r.
  destruct (Barrier.isGameOver g) eqn:Hgo.
  - unfold spawned. rewrite Hgo. reflexivity.
  - destruct (update_spec d g Hgo) as (_ & _ & _ & _ & _ & _ & _ & _ & _ & Hsp & _).
    rewrite Hsp. unfold launch_due. rewrite Hidle. reflexivity.
Qed.

Lemma separated_cons gap t l :
  separated gap (t :: l)
  <-> match l with [] => True | t2 :: _ => (t + gap <= t2)%Q /\ separated gap l end.
Proof. destruct l; reflexivity. Qed.

(** After a spawn at time [t0], with the timer not below what is left of the
    0.1 interval, the later spawns are 0.1 apart, the first of them from
    [t0]. *)
Lemma spawn_times_separated_from ds :
  forall clock g t0,
    Barrier.isGameOver g = false ->
    (t0 + (1 # 10) <= clock + Barrier.launchTimer g)%Q ->
    separated (1 # 10) (t0 :: spawn_times clock ds g).
Proof.
  induction ds as [|d ds IH]; intros clock g t0 Hgo Ht; [exact I|].
  cbn [spawn_times].
  destruct (Barrier.isLaunching g) eqn:Hl.
  2:{ destruct (barrier_idle_update d g Hl) as (_ & Hidle' & _).
      rewrite (spawn_times_idle ds _ _ Hidle'), app_nil_r.
      destruct (update_spec d g Hgo) as (_ & _ & _ & _ & _ & _ & _ & _ & _ & Hsp & _).
      rewrite Hsp. unfold launch_due. rewrite Hl. exact I. }
  destruct (update_spec d g Hgo)
    as (_ & Hgo' & _ & _ & Htimer & _ & _ & _ & _ & Hsp & _).
  rewrite Hsp. rewrite Hl in Htimer.
  destruct (launch_due d g) eqn:Hdue.
  - cbn [app]. apply separated_cons. split.
    + unfold launch_due in Hdue. apply andb_true_iff in Hdue.
      destruct Hdue as [_ Hq]. apply Qleb_le in Hq. lra.
    + apply IH; [exact Hgo'|]. rewrite Htimer. lra.
  - cbn [app]. apply IH; [exact Hgo'|]. rewrite Htimer. lra.
Qed.

(** The spawns of any run are 0.1 apart. *)
Lemma spawn_times_separated ds :
  forall clock g,
    Barrier.isGameOver g = false -> separated (1 # 10) (spawn_times clock ds g).
Proof.
  induction ds as [|d ds IH]; intros clock g Hgo; [exact I|].
  cbn [spawn_times].
  destruct (update_spec d g Hgo)
    as (_ & Hgo' & _ & _ & Htimer & _ & _ & _ & _ & Hsp & _).
  rewrite Hsp.
  destruct (launch_due d g) eqn:Hdue.
  - cbn [app]. apply spawn_times_separated_from; [exact Hgo'|].
    rewrite Htimer. lra.
  - cbn [app]. apply IH. exact Hgo'.
Qed.

Lemma remaining_nonincreasing ds g :
  Barrier.isGameOver g = false -> 0 <= Barrier.pendingBalls g ->
  0 <= remaining (run ds g) <= remaining g.
Proof.
  intros Hgo Hp. destruct (spawn_count ds 0%Q g Hgo Hp) as (Hc & _ & Hr). lia.
Qed.

Lemma inject_nat_succ n :
  (inject_Z (Z.of_nat (S n)) == inject_Z (Z.of_nat n) + 1)%Q.
Proof. rewrite Nat2Z.inj_succ, <- Z.add_1_r, inject_Z_plus. reflexivity. Qed.

(** While balls are pending and every tick lasts at least [d], the timer
    runs out and a ball is spawned within as many ticks as cover the
    timer. *)
Lemma spawn_within ds :
  forall g d,
    Barrier.isGameOver g = false -> Barrier.isLaunching g = true ->
    0 < Barrier.pendingBalls g -> (0 <= d)%Q ->
    Forall (fun x => (d <= x)%Q) ds ->
    (Barrier.launchTimer g <= inject_Z (Z.of_nat (length ds)) * d)%Q ->
    ds <> [] ->
    remaining (run ds g) < remaining g.
Proof.
  induction ds as [|x ds IH]; intros g d Hgo Hl Hp Hd Hall Ht Hne;
    [congruence|].
  rewrite run_cons.
  apply Forall_cons in Hall. destruct Hall as [Hx Hall].
  destruct (update_remaining x g Hgo ltac:(lia)) as (Hrem & Hp' & _).
  destruct (update_spec x g Hgo)
    as (_ & Hgo' & _ & Hpend & Htimer & Hl' & _ & _ & Hdone & Hsp & _).
  rewrite Hsp in Hrem.
  destruct (launch_due x g) eqn:Hdue.
  - destruct (remaining_nonincreasing ds _ Hgo' Hp') as [_ Hle]. lia.
  - assert (Hq : (0 < Barrier.launchTimer g - x)%Q).
    { unfold launch_due in Hdue. rewrite Hl in Hdue.
      assert (Hpb : (Barrier.pendingBalls g >? 0) = true) by lia.
      rewrite Hpb in Hdue. cbn [andb] in Hdue. apply Qleb_gt in Hdue. exact Hdue. }
    rewrite Hl in Htimer.
    assert (Hl2 : Barrier.isLaunching (Barrier.update x g) = true).
    { rewrite Hl'. rewrite Hl. cbn [andb].
      destruct (Barrier.turn_done (Barrier.simulate x g)) eqn:Hd'; [|reflexivity].
      destruct (Hdone eq_refl) as [_ Hz]. lia. }
    cbn [length] in Ht. rewrite inject_nat_succ in Ht.
    assert (Ht' : (Barrier.launchTimer (Barrier.update x g)
                   <= inject_Z (Z.of_nat (length ds)) * d)%Q).
    { rewrite Htimer.
      assert (Hring : ((inject_Z (Z.of_nat (length ds)) + 1) * d
                       == inject_Z (Z.of_nat (length ds)) * d + d)%Q) by ring.
      rewrite Hring in Ht. lra. }
    assert (Hne' : ds <> []).
    { intros ->. cbn [length] in Ht'. rewrite Htimer in Ht'.
      assert (Hz : (inject_Z (Z.of_nat 0) * d == 0)%Q) by (cbn; ring).
      rewrite Hz in Ht'. lra. }
    specialize (IH (Barrier.update x g) d Hgo' Hl2 ltac:(lia) Hd Hall Ht' Hne').
    lia.
Qed.

(** With ticks that do not run backwards the timer stays below any bound
    that is at least 0.1. *)
Lemma run_timer_bound ds :
  forall g bound,
    Barrier.isGameOver g = false -> ((1 # 10) <= bound)%Q ->
    Forall (fun x => (0 <= x)%Q) ds ->
    (Barrier.launchTimer g <= bound)%Q ->
    (Barrier.launchTimer (run ds g) <= bound)%Q.
Proof.
  induction ds as [|x ds IH]; intros g bound Hgo Hb Hall Ht; [exact Ht|].
  rewrite run_cons. apply Forall_cons in Hall. destruct Hall as [Hx Hall].
  destruct (update_spec x g Hgo) as (_ & Hgo' & _ & _ & Htimer & _).
  apply IH; try assumption. rewrite Htimer.
  destruct (launch_due x g); [exact Hb|].
  destruct (Barrier.isLaunching g); lra.
Qed.

(** All pending balls are spawned within [p * k] ticks when each tick lasts
    at least [d] and [k] ticks cover the 0.1 interval. *)
Lemma all_spawned p :
  forall ds g d k,
    (0 < d)%Q -> (1 <= k)%nat ->
    ((1 # 10) <= inject_Z (Z.of_nat k) * d)%Q ->
    Forall (fun x => (d <= x)%Q) ds ->
    Barrier.isGameOver g = false -> 0 <= Barrier.pendingBalls g ->
    remaining g <= Z.of_nat p ->
    (Barrier.launchTimer g <= inject_Z (Z.of_nat k) * d)%Q ->
    (p * k <= length ds)%nat ->
    remaining (run ds g) = 0.
Proof.
  induction p as [|p IH]; intros ds g d k Hd Hk Hkd Hall Hgo Hp Hrem Ht Hlen.
  { destruct (remaining_nonincreasing ds g Hgo Hp). lia. }
  destruct (Z.eq_dec (remaining g) 0) as [Hz|Hnz].
  { destruct (remaining_nonincreasing ds g Hgo Hp). lia. }
  assert (Hl : Barrier.isLaunching g = true).
  { unfold remaining in Hnz. destruct (Barrier.isLaunching g); [reflexivity|lia]. }
  assert (Hpos : 0 < Barrier.pendingBalls g).
  { unfold remaining in Hnz. rewrite Hl in Hnz. lia. }
  rewrite <- (take_drop k ds), run_app.
  assert (Hlen1 : length (take k ds) = k) by (rewrite length_take; lia).
  assert (Hall1 : Forall (fun x => (d <= x)%Q) (take k ds)) by (apply Forall_take; exact Hall).
  assert (Hall2 : Forall (fun x => (d <= x)%Q) (drop k ds)) by (apply Forall_drop; exact Hall).
  assert (Hnn : Forall (fun x => (0 <= x)%Q) (take k ds)).
  { eapply Forall_impl; [exact Hall1|]. intros x Hx. cbn in Hx. lra. }
  assert (Hne : take k ds <> []).
  { intros Hnil. rewrite Hnil in Hlen1. cbn in Hlen1. lia. }
  pose proof (spawn_within (take k ds) g d Hgo Hl Hpos ltac:(lra) Hall1
                ltac:(rewrite Hlen1; exact Ht) Hne) as Hdrop.
  pose proof (run_not_over (take k ds) g Hgo) as Hgo1.
  destruct (spawn_count (take k ds) 0%Q g Hgo Hp) as (_ & Hp1 & _).
  pose proof (run_timer_bound (take k ds) g _ Hgo Hkd Hnn Ht) as Ht1.
  apply (IH (drop k ds) (run (take k ds) g) d k); try assumption; try lia.
  rewrite length_drop. lia.
Qed.

(** [ticks_per_ball d] ticks of at least [d] cover the 0.1 interval. *)
Lemma ticks_per_ball_covers d :
  (0 < d)%Q ->
  (1 <= ticks_per_ball d)%nat /\
  ((1 # 10) <= inject_Z (Z.of_nat (ticks_per_ball d)) * d)%Q.
Proof.
  intros Hd. unfold ticks_per_ball.
  pose proof (Qle_ceiling ((1 # 10) / d)) as Hc.
  assert (Hpos : (0 < (1 # 10) / d)%Q).
  { apply Qlt_shift_div_l; [exact Hd|]. lra. }
  assert (Hz : 0 < Qceiling ((1 # 10) / d)).
  { rewrite Zlt_Qlt. eapply Qlt_le_trans; [exact Hpos|exact Hc]. }
  split; [lia|].
  rewrite Z2Nat.id by lia.
  apply Qle_trans with (((1 # 10) / d) * d)%Q.
  - assert (Heq : ((1 # 10) / d * d == 1 # 10)%Q) by (field; lra).
    rewrite Heq. apply Qle_refl.
  - apply Qmult_le_compat_r; [exact Hc|lra].
Qed.

(** While a turn launches, the balls in the collection and the balls still
    pending add up to what they added up to when the turn was launched. *)
Lemma run_ball_count ds :
  forall g,
    Barrier.isGameOver g = false ->
    Barrier.isLaunching (run ds g) = true ->
    Z.of_nat (length (Barrier.balls (run ds g))) + Barrier.pendingBalls (run ds g)
    = Z.of_nat (length (Barrier.balls g)) + Barrier.pendingBalls g.
Proof.
  induction ds as [|d ds IH] using rev_ind; intros g Hgo Hl; [reflexivity|].
  rewrite run_snoc in *.
  pose proof (run_not_over ds g Hgo) as Hgo1.
  destruct (update_spec d (run ds g) Hgo1)
    as (Heq & _ & _ & Hp & _ & Hl' & _ & _ & _ & _ & _).
  rewrite Hl' in Hl. apply andb_true_iff in Hl. destruct Hl as [Hl1 Hnd].
  apply negb_true_iff in Hnd. rewrite Hnd in Heq.
  rewrite <- (IH g Hgo Hl1), Heq.
  destruct (simulate_spec d (run ds g)) as (_ & _ & Hps & _ & Hlen & _).
  rewrite Hps, Hlen. destruct (launch_due d (run ds g)); lia.
Qed.

(** [update] calls [finishTurn] only with no ball pending and every ball of
    the collection at rest. *)
Lemma finishTurn_only_when_settled delta g :
  Barrier.turn (Barrier.update delta g) <> Barrier.turn g ->
  let s := Barrier.simulate delta g in
  Barrier.isGameOver g = false /\
  Barrier.isLaunching g = true /\
  Barrier.update delta g = Barrier.finishTurn s /\
  Barrier.pendingBalls s = 0 /\
  Forall (fun ball => Barrier.Ball.resting ball = true) (Barrier.balls s).
Proof.
  intros Hturn s.
  destruct (Barrier.isGameOver g) eqn:Hgo.
  { rewrite update_over in Hturn by exact Hgo. congruence. }
  destruct (update_spec delta g Hgo)
    as (Heq & _ & _ & _ & _ & _ & Ht & _ & Hdone & _).
  fold s in Heq, Ht, Hdone.
  destruct (Barrier.turn_done s) eqn:Hd; [|lia].
  destruct (Hdone eq_refl) as [Hl _].
  unfold Barrier.turn_done in Hd.
  apply andb_true_iff in Hd. destruct Hd as [Hd Hrest].
  apply andb_true_iff in Hd. destruct Hd as [_ Hp]. apply Z.eqb_eq in Hp.
  repeat split; try assumption.
  apply Forall_forall. intros ball Hin. apply list_elem_of_In in Hin.
  rewrite forallb_forall in Hrest. apply Hrest. exact Hin.
Qed.

End BarrierLaunch.


(** ** The grid revision: one update tick *)

Section GridTick.
Context `{Host}.

Lemma grid_first_landing_app l1 l2 :
  grid_first_landing (l1 ++ l2)
  = if JS.is_null (grid_first_landing l1) then grid_first_landing l2
    else grid_first_landing l1.
Proof. destruct l1; reflexivity. Qed.

Lemma grid_ball_update_resting delta ball :
  Grid.Ball.resting (Grid.Ball.update delta ball) = Grid.Ball.resting ball.
Proof.
  unfold Grid.Ball.update.
  destruct (Grid.Ball.resting ball) eqn:Hr; [exact Hr|].
  repeat match goal with
         | |- context [if ?c then _ else _] => destruct c
         end; reflexivity.
Qed.

(** The loop body for a moving ball of the grid revision. *)
Lemma grid_move_ball_spec delta ball g :
  Grid.Ball.resting ball = false ->
  let '(ball', g') := Grid.move_ball delta ball g in
  grid_mode g' = grid_mode g /\
  Grid.balls g' = Grid.balls g /\
  Grid.pendingBalls g' = Grid.pendingBalls g /\
  Grid.launchTimer g' = Grid.launchTimer g /\
  ((Grid.Ball.resting ball' = true /\
    Grid.restingBalls g' = Grid.restingBalls g ++ [ball'] /\
    Grid.activeBallChainLanding g'
    = if JS.is_null (Grid.activeBallChainLanding g)
      then JS.Num (Grid.Ball.x ball')
      else Grid.activeBallChainLanding g) \/
   (Grid.Ball.resting ball' = false /\
    Grid.restingBalls g' = Grid.restingBalls g /\
    Grid.activeBallChainLanding g' = Grid.activeBallChainLanding g)).
Proof.
  intros Hrest. unfold Grid.move_ball.
  pose proof (handleCollisions_spec (Grid.Ball.update delta ball) g) as Hh.
  destruct (Grid.handleCollisions (Grid.Ball.update delta ball) g) as [ball1 g1].
  destruct Hh as (_ & _ & _ & Hb & _ & _ & Hf).
  rewrite grid_ball_update_resting, Hrest in Hb.
  assert (Hm : grid_mode g1 = grid_mode g) by (unfold grid_mode; congruence).
  assert (Hbl : Grid.balls g1 = Grid.balls g) by congruence.
  assert (Hp : Grid.pendingBalls g1 = Grid.pendingBalls g) by congruence.
  assert (Htm : Grid.launchTimer g1 = Grid.launchTimer g) by congruence.
  assert (Hr : Grid.restingBalls g1 = Grid.restingBalls g) by congruence.
  assert (Ha : Grid.activeBallChainLanding g1 = Grid.activeBallChainLanding g)
    by congruence.
  destruct (JS.Qleb (Grid.baseY g1) (Grid.Ball.y ball1 + BALL_RADIUS)
            && JS.Qltb 0 (Grid.Ball.vy ball1)).
  - cbn [Grid.activeBallChainLanding Grid.set_restingBalls].
    rewrite Ha.
    destruct (JS.is_null (Grid.activeBallChainLanding g)) eqn:Hn;
      (split; [rewrite <- Hm; reflexivity|]);
      (split; [rewrite <- Hbl; reflexivity|]);
      (split; [rewrite <- Hp; reflexivity|]);
      (split; [rewrite <- Htm; reflexivity|]);
      left; cbn; rewrite ?Hr, ?Ha; repeat split; reflexivity.
  - split; [exact Hm|]. split; [exact Hbl|]. split; [exact Hp|].
    split; [exact Htm|]. right. repeat split; assumption.
Qed.

(** The loop over the balls of the grid revision. *)
Lemma grid_update_balls_spec delta bs :
  forall g,
    let '(bs', g') := Grid.update_balls delta bs g in
    grid_mode g' = grid_mode g /\
    Grid.pendingBalls g' = Grid.pendingBalls g /\
    Grid.launchTimer g' = Grid.launchTimer g /\
    exists more,
      Grid.restingBalls g' = Grid.restingBalls g ++ more /\
      Grid.activeBallChainLanding g'
      = if JS.is_null (Grid.activeBallChainLanding g)
        then grid_first_landing more
        else Grid.activeBallChainLanding g.
Proof.
  induction bs as [|ball rest IH]; intros g; cbn [Grid.update_balls].
  { repeat split. exists []. rewrite app_nil_r. split; [reflexivity|].
    destruct (Grid.activeBallChainLanding g); reflexivity. }
  destruct (Grid.Ball.resting ball) eqn:Hrest.
  - specialize (IH g).
    destruct (Grid.update_balls delta rest g) as [rest' g'].
    exact IH.
  - pose proof (grid_move_ball_spec delta ball g Hrest) as Hm.
    destruct (Grid.move_ball delta ball g) as [ball1 g1].
    destruct Hm as (Hm1 & _ & Hp1 & Ht1 & Hcase).
    specialize (IH g1).
    destruct (Grid.update_balls delta rest g1) as [rest' g'].
    destruct IH as (Hm2 & Hp2 & Ht2 & more & Hr & Ha).
    split; [congruence|]. split; [congruence|]. split; [congruence|].
    destruct Hcase as [(Hr1 & Hrb & Hla)|(Hr1 & Hrb & Hla)].
    + exists (ball1 :: more). split.
      * rewrite Hr, Hrb, <- app_assoc. reflexivity.
      * rewrite Ha, Hla.
        destruct (JS.is_null (Grid.activeBallChainLanding g)) eqn:Hn;
          [reflexivity|]. rewrite Hn. reflexivity.
    + exists more. split; [rewrite Hr, Hrb; reflexivity|].
      rewrite Ha, Hla. reflexivity.
Qed.

Lemma grid_launch_step_spec delta g :
  grid_mode (Grid.launch_step delta g) = grid_mode g /\
  Grid.restingBalls (Grid.launch_step delta g) = Grid.restingBalls g /\
  Grid.activeBallChainLanding (Grid.launch_step delta g)
  = Grid.activeBallChainLanding g /\
  (Grid.isLaunching g = false -> Grid.launch_step delta g = g).
Proof.
  unfold Grid.launch_step.
  destruct (Grid.isLaunching g); [|repeat split].
  cbn [Grid.pendingBalls Grid.launchTimer Grid.set_launchTimer].
  destruct ((Grid.pendingBalls g >? 0) && JS.Qleb (Grid.launchTimer g - delta) 0);
    repeat split; discriminate.
Qed.

(** [update] of the grid revision up to the call of [finishTurn]. *)
Lemma grid_simulate_spec delta g :
  grid_mode (Grid.simulate delta g) = grid_mode g /\
  exists more,
    Grid.restingBalls (Grid.simulate delta g) = Grid.restingBalls g ++ more /\
    Grid.activeBallChainLanding (Grid.simulate delta g)
    = if JS.is_null (Grid.activeBallChainLanding g)
      then grid_first_landing more
      else Grid.activeBallChainLanding g.
Proof.
  unfold Grid.simulate, Grid.particle_step, Grid.ball_step.
  destruct (grid_launch_step_spec delta g) as (Hm1 & Hr1 & Ha1 & _).
  remember (Grid.launch_step delta g) as g1 eqn:Hg1. clear Hg1.
  pose proof (grid_update_balls_spec delta (Grid.balls g1) g1) as Hu.
  destruct (Grid.update_balls delta (Grid.balls g1) g1) as [bs g2].
  destruct Hu as (Hm2 & _ & _ & more & Hr2 & Ha2).
  split.
  - rewrite <- Hm1, <- Hm2. reflexivity.
  - exists more.
    cbn [Grid.restingBalls Grid.activeBallChainLanding Grid.set_particles
         Grid.set_balls].
    rewrite Hr2, Ha2, Hr1, Ha1. split; reflexivity.
Qed.

Lemma grid_mode_fields g g' :
  grid_mode g' = grid_mode g ->
  Grid.isLaunching g' = Grid.isLaunching g /\
  Grid.isGameOver g' = Grid.isGameOver g /\
  Grid.turn g' = Grid.turn g /\
  Grid.baseBallPosition g' = Grid.baseBallPosition g.
Proof. unfold grid_mode. intros Hf. inversion Hf. repeat split; congruence. Qed.

(** [finishTurn] of the grid revision, when its [spawnRow] returns: the turn
    number goes up by one and the launcher moves to the landing position. *)
Lemma grid_finishTurn_spec fuel g g' :
  Grid.finishTurn fuel g = Some g' ->
  Grid.isLaunching g' = false /\
  Grid.turn g' = Grid.turn g + 1 /\
  Grid.baseBallPosition g'
  = JS.nullish (Grid.activeBallChainLanding g) (Grid.baseBallPosition g) /\
  Grid.restingBalls g' = Grid.restingBalls g /\
  Grid.activeBallChainLanding g' = Grid.activeBallChainLanding g.
Proof.
  unfold Grid.finishTurn, Grid.stepRowsDown.
  remember (Grid.finishTurn_settle g) as g1 eqn:Hg1.
  assert (Hs : Grid.isLaunching g1 = false /\
               Grid.turn g1 = Grid.turn g + 1 /\
               Grid.baseBallPosition g1
               = JS.nullish (Grid.activeBallChainLanding g) (Grid.baseBallPosition g) /\
               Grid.restingBalls g1 = Grid.restingBalls g /\
               Grid.activeBallChainLanding g1 = Grid.activeBallChainLanding g)
    by (subst g1; repeat split).
  clear Hg1. destruct Hs as (Hl & Ht & Hb & Hr & Ha).
  destruct (Grid.stepRowsDown_loop (Grid.blocks g1)) as [bs reached].
  destruct reached; cbn [negb].
  - intros Hsome. injection Hsome as <-. cbn. repeat split; assumption.
  - intros Hsome. apply spawnRow_spec in Hsome.
    destruct Hsome as (new & pickup & _ & _ & _ & _ & _ & _ & _ & Hfr).
    unfold spawn_frame in Hfr. cbn in Hfr. inversion Hfr.
    repeat split; congruence.
Qed.

(** One update tick of the grid revision, when it returns. *)
Lemma grid_update_spec fuel delta g g' :
  Grid.update fuel delta g = Some g' ->
  (Grid.isLaunching g = false -> Grid.turn g' = Grid.turn g) /\
  exists more,
    Grid.restingBalls g' = Grid.restingBalls g ++ more /\
    Grid.activeBallChainLanding g'
    = if JS.is_null (Grid.activeBallChainLanding g)
      then grid_first_landing more
      else Grid.activeBallChainLanding g.
Proof.
  unfold Grid.update. destruct (Grid.isGameOver g).
  { intros Hsome. injection Hsome as <-. split; [reflexivity|].
    exists []. rewrite app_nil_r. split; [reflexivity|].
    destruct (Grid.activeBallChainLanding g); reflexivity. }
  destruct (grid_simulate_spec delta g) as (Hm & more & Hr & Ha).
  destruct (grid_mode_fields _ _ Hm) as (Hl & _ & Ht & _).
  destruct (Grid.turn_done (Grid.simulate delta g)) eqn:Hd.
  - intros Hsome. apply grid_finishTurn_spec in Hsome.
    destruct Hsome as (_ & _ & _ & Hr' & Ha').
    split.
    + intros Hidle. unfold Grid.turn_done in Hd. rewrite Hl, Hidle in Hd.
      discriminate Hd.
    + exists more. split; congruence.
  - intros Hsome. injection Hsome as <-.
    split; [intros _; exact Ht|]. exists more. split; assumption.
Qed.

(** An update tick of an idle grid session returns without calling
    [finishTurn]. *)
Lemma grid_idle_update fuel delta g :
  Grid.isLaunching g = false ->
  Grid.update fuel delta g
  = Some (if Grid.isGameOver g then g else Grid.simulate delta g) /\
  (Grid.balls g = [] -> Grid.particles g = [] ->
   Grid.update fuel delta g = Some g).
Proof.
  intros Hidle. unfold Grid.update.
  destruct (Grid.isGameOver g) eqn:Hgo; [split; reflexivity|].
  destruct (grid_simulate_spec delta g) as (Hm & _).
  destruct (grid_mode_fields _ _ Hm) as (Hl & _).
  assert (Hd : Grid.turn_done (Grid.simulate delta g) = false)
    by (unfold Grid.turn_done; rewrite Hl, Hidle; reflexivity).
  rewrite Hd. split; [reflexivity|].
  intros Hb Hp. f_equal.
  unfold Grid.simulate.
  destruct (grid_launch_step_spec delta g) as (_ & _ & _ & Hsame).
  rewrite (Hsame Hidle).
  unfold Grid.ball_step. rewrite Hb. cbn [Grid.update_balls].
  unfold Grid.particle_step. cbn [Grid.particles Grid.set_balls].
  rewrite Hp. cbn [List.filter List.map].
  destruct g; cbn in *; subst; reflexivity.
Qed.

Lemma grid_run_first_landing fuel ds :
  forall g g',
    grid_run fuel ds g = Some g' ->
    Grid.activeBallChainLanding g = grid_first_landing (Grid.restingBalls g) ->
    Grid.activeBallChainLanding g' = grid_first_landing (Grid.restingBalls g').
Proof.
  induction ds as [|d ds IH]; intros g g' Hrun Hj; cbn [grid_run] in Hrun.
  { injection Hrun as <-. exact Hj. }
  destruct (Grid.update fuel d g) as [g1|] eqn:Hu; [|discriminate].
  apply (IH g1 g' Hrun).
  destruct (grid_update_spec _ _ _ _ Hu) as (_ & more & Hr & Ha).
  rewrite Ha, Hr, grid_first_landing_app, Hj.
  destruct (JS.is_null (grid_first_landing (Grid.restingBalls g))); reflexivity.
Qed.

End GridTick.

(** ** The claims about turns *)

(** Within the cap, a forced spawn at the cap leaves 24 barriers. *)
Lemma floating_barriers_within_cap_witness :
  (length (Barrier.barrierBlocks (@Barrier.spawnFloatingBlock sample_host true sample_full))
   <= MAX_FLOATING_BLOCKS)%nat.
Proof.
  apply (proj1 (proj2 (floating_barriers_within_cap sample_host))).
  vm_compute. lia.
Defined.


(** C4 (fails on the code): [finishTurn] has no check of its own.  Called on
    the idle session that [new Game()] leaves (turn 1, not launching), it
    changes the session and moves the turn number to 2; so does the grid
    revision up to its row step. *)
Lemma finishTurn_idle_advances_turn :
  let g := @Barrier.new sample_host 1 in
  Barrier.isLaunching g = false /\ Barrier.turn g = 1 /\
  Barrier.turn (Barrier.finishTurn g) = 2 /\
  Barrier.finishTurn g <> g /\
  Grid.turn (Grid.finishTurn_settle (Grid.fresh 1)) = Grid.turn (Grid.fresh 1) + 1.
Proof.
  cbv zeta. split; [vm_compute; reflexivity|]. split; [vm_compute; reflexivity|].
  split; [vm_compute; reflexivity|]. split; [|reflexivity].
  intros Heq. apply (f_equal Barrier.turn) in Heq. vm_compute in Heq.
  discriminate Heq.
Qed.

(** C4 as amended: [finishTurn] always adds one to the turn number, and the
    idle case is excluded by its only caller.  An update tick of a session
    that is not launching does not call [finishTurn]: it returns, the turn
    number is unchanged, the session stays idle, and with no ball and no
    particle left the whole session is unchanged.  Both revisions. *)
Theorem idle_update_keeps_turn :
  forall (host : Host),
    (forall g, Barrier.turn (Barrier.finishTurn g) = Barrier.turn g + 1) /\
    (forall g, Grid.turn (Grid.finishTurn_settle g) = Grid.turn g + 1) /\
    (forall delta g,
        Barrier.isLaunching g = false ->
        Barrier.turn (Barrier.update delta g) = Barrier.turn g /\
        Barrier.isLaunching (Barrier.update delta g) = false /\
        (Barrier.balls g = [] -> Barrier.particles g = [] ->
         Barrier.update delta g = g)) /\
    (forall fuel delta g,
        Grid.isLaunching g = false ->
        exists g',
          Grid.update fuel delta g = Some g' /\
          Grid.turn g' = Grid.turn g /\
          Grid.isLaunching g' = false /\
          (Grid.balls g = [] -> Grid.particles g = [] -> g' = g)).
Proof.
  intros host. split; [reflexivity|]. split; [reflexivity|]. split.
  - intros delta g Hidle.
    destruct (barrier_idle_update delta g Hidle) as (Ht & Hl & _ & Hsame).
    split; [exact Ht|]. split; [exact Hl|exact Hsame].
  - intros fuel delta g Hidle.
    destruct (grid_idle_update fuel delta g Hidle) as (Heq & Hsame).
    eexists. split; [exact Heq|].
    destruct (grid_simulate_spec delta g) as (Hm & _).
    destruct (grid_mode_fields _ _ Hm) as (Hl & _ & Ht & _).
    split; [destruct (Grid.isGameOver g); [reflexivity|exact Ht]|].
    split; [destruct (Grid.isGameOver g); [exact Hidle|congruence]|].
    intros Hb Hp. specialize (Hsame Hb Hp). rewrite Heq in Hsame.
    injection Hsame as Hsame. exact Hsame.
Qed.

(** An update tick of the idle session that [new Game()] leaves changes
    nothing. *)
Lemma idle_update_keeps_turn_witness :
  @Barrier.update sample_host (33 # 1000) (@Barrier.new sample_host 1)
  = @Barrier.new sample_host 1.
Proof.
  apply (proj2 (proj2 (proj1 (proj2 (proj2 (idle_update_keeps_turn sample_host)))
                         (33 # 1000)%Q (@Barrier.new sample_host 1)
                         ltac:(vm_compute; reflexivity))));
    vm_compute; reflexivity.
Defined.

(** ** Grid sessions seeded away from zero *)

Section GridSessions.
Context `{Host}.

Lemma grid_mode_rng g g' : grid_mode g' = grid_mode g -> Grid.rng g' = Grid.rng g.
Proof. unfold grid_mode. intros Hf. inversion Hf. congruence. Qed.

Lemma grid_finishTurn_returns g :
  0 < RNG.state (Grid.rng g) < JS.two32 ->
  exists fuel g',
    Grid.finishTurn fuel g = Some g' /\
    0 < RNG.state (Grid.rng g') < JS.two32.
Proof.
  intros Hs. unfold Grid.finishTurn, Grid.stepRowsDown.
  assert (Hs1 : Grid.rng (Grid.finishTurn_settle g) = Grid.rng g) by reflexivity.
  remember (Grid.finishTurn_settle g) as g1 eqn:Hg1. clear Hg1.
  destruct (Grid.stepRowsDown_loop (Grid.blocks g1)) as [bs reached].
  destruct reached; cbn [negb].
  - exists O. eexists. split; [reflexivity|].
    change (Grid.rng (Grid.gameOver (Grid.set_blocks bs g1))) with (Grid.rng g1).
    rewrite Hs1. exact Hs.
  - apply spawnRow_returns.
    rewrite rng_set_blocks, Hs1. apply live_nonzero, Hs.
Qed.

(** An update tick of a grid session whose generator holds a non-zero word
    returns and leaves a non-zero word. *)
Lemma grid_update_returns delta g :
  0 < RNG.state (Grid.rng g) < JS.two32 ->
  exists fuel g',
    Grid.update fuel delta g = Some g' /\
    0 < RNG.state (Grid.rng g') < JS.two32.
Proof.
  intros Hs. unfold Grid.update. destruct (Grid.isGameOver g).
  { exists O, g. split; [reflexivity|exact Hs]. }
  destruct (grid_simulate_spec delta g) as (Hm & _).
  apply grid_mode_rng in Hm.
  destruct (Grid.turn_done (Grid.simulate delta g)).
  - apply grid_finishTurn_returns. rewrite Hm. exact Hs.
  - exists O. eexists. split; [reflexivity|]. rewrite Hm. exact Hs.
Qed.

(** The constructor of a grid session returns for every seed that is not a
    multiple of 2^32, with a non-zero word in the generator. *)
Lemma grid_new_returns seed :
  seed mod JS.two32 <> 0 ->
  exists fuel g,
    Grid.new fuel seed = Some g /\
    0 < RNG.state (Grid.rng g) < JS.two32.
Proof.
  intros Hseed. unfold Grid.new, Grid.reset.
  apply spawnRow_returns.
  change (RNG.state (RNG.new seed) mod JS.two32 <> 0).
  pose proof (new_range seed) as Hr.
  assert (Hst : RNG.state (RNG.new seed) = seed mod JS.two32).
  { unfold RNG.new. rewrite state_mk. unfold JS.ushr, JS.to_uint32.
    rewrite Z.shiftr_0_r. reflexivity. }
  rewrite Hst, Z.mod_mod by (unfold JS.two32; lia). exact Hseed.
Qed.

Lemma grid_finishTurn_mono fuel fuel' g g' :
  Grid.finishTurn fuel g = Some g' -> (fuel <= fuel')%nat ->
  Grid.finishTurn fuel' g = Some g'.
Proof.
  unfold Grid.finishTurn. intros Hrun Hle.
  destruct (Grid.stepRowsDown (Grid.finishTurn_settle g)) as [g1 reached].
  destruct (negb reached); [|exact Hrun].
  apply (spawnRow_mono fuel); assumption.
Qed.

Lemma grid_update_mono fuel fuel' delta g g' :
  Grid.update fuel delta g = Some g' -> (fuel <= fuel')%nat ->
  Grid.update fuel' delta g = Some g'.
Proof.
  unfold Grid.update. intros Hrun Hle.
  destruct (Grid.isGameOver g); [exact Hrun|].
  destruct (Grid.turn_done (Grid.simulate delta g)); [|exact Hrun].
  apply (grid_finishTurn_mono fuel); assumption.
Qed.

Lemma grid_run_mono fuel fuel' ds :
  forall g g',
    grid_run fuel ds g = Some g' -> (fuel <= fuel')%nat ->
    grid_run fuel' ds g = Some g'.
Proof.
  induction ds as [|delta ds IH]; intros g g' Hrun Hle; [exact Hrun|].
  cbn [grid_run] in *.
  destruct (Grid.update fuel delta g) as [g1|] eqn:Hu; [|discriminate Hrun].
  rewrite (grid_update_mono _ _ _ _ _ Hu Hle). apply IH; assumption.
Qed.

(** Every sequence of update ticks of a grid session whose generator holds
    a non-zero word returns, for a large enough bound on the retry loops. *)
Lemma grid_run_returns ds :
  forall g,
    0 < RNG.state (Grid.rng g) < JS.two32 ->
    exists fuel g',
      grid_run fuel ds g = Some g' /\
      0 < RNG.state (Grid.rng g') < JS.two32.
Proof.
  induction ds as [|delta ds IH]; intros g Hs.
  - exists O, g. split; [reflexivity|exact Hs].
  - destruct (grid_update_returns delta g Hs) as (fuel1 & g1 & Hu & Hs1).
    destruct (IH g1 Hs1) as (fuel2 & g' & Hrun & Hs').
    exists (Nat.max fuel1 fuel2), g'. split; [|exact Hs'].
    cbn [grid_run].
    rewrite (grid_update_mono _ (Nat.max fuel1 fuel2) _ _ _ Hu) by lia.
    apply (grid_run_mono fuel2); [exact Hrun|lia].
Qed.

End GridSessions.



(** X3: in the grid revision the constructor returns for every seed that
    is not a multiple of 2^32, and from a session whose generator holds a
    non-zero 32-bit word every update tick returns and leaves a non-zero
    word; so no tick of a session seeded away from zero hangs. *)
Theorem grid_session_returns (host : Host) :
  (forall seed,
      seed mod JS.two32 <> 0 ->
      exists fuel g,
        Grid.new fuel seed = Some g /\
        0 < RNG.state (Grid.rng g) < JS.two32) /\
  (forall delta g,
      0 < RNG.state (Grid.rng g) < JS.two32 ->
      exists fuel g',
        Grid.update fuel delta g = Some g' /\
        0 < RNG.state (Grid.rng g') < JS.two32).
Proof.
  split.
  - intros seed. apply grid_new_returns.
  - intros delta g. apply grid_update_returns.
Qed.

Lemma grid_session_returns_witness :
  exists fuel g,
    @Grid.new sample_host fuel 1 = Some g /\
    0 < RNG.state (Grid.rng g) < JS.two32.
Proof.
  apply (proj1 (grid_session_returns sample_host) 1).
  vm_compute. discriminate.
Defined.

(** X6: the collision pass of the barrier revision ends although its loop
    iterates over the array that its body extends: on [n] barriers it
    reads at most [2 * n + 1] entries. *)
Theorem barrier_collision_pass_terminates (host : Host) ball g :
  exists r,
    Barrier.visit_from (Barrier.visit_fuel (length (Barrier.barrierBlocks g)))
                       0 ball g = Some r /\
    Barrier.handleCollisions ball g
    = (fst r,
       Barrier.set_barrierBlocks
         (List.filter (fun barrier => negb (Barrier.BarrierBlock.destroyed barrier))
                      (Barrier.barrierBlocks (snd r))) (snd r)).
Proof.
  pose proof (barrier_handleCollisions_spec ball g) as Hs.
  unfold Barrier.handleCollisions in *.
  destruct (Barrier.visit_from _ 0 ball g) as [[ball1 g1]|] eqn:Hrun.
  - exists (ball1, g1). split; reflexivity.
  - destruct Hs as ((r & Hr) & _). discriminate Hr.
Qed.

(** ** clamp and randomChoice *)

Lemma clamp_inverted v lo hi : (hi < lo)%Q -> (JS.clamp v lo hi == lo)%Q.
Proof.
  intros Hlt. unfold JS.clamp, JS.Math_max, JS.Math_min.
  apply Q.max_l. eapply Qle_trans; [apply Q.le_min_l|]. apply Qlt_le_weak, Hlt.
Qed.

(** X7: [clamp(value, min, max)] with ordered bounds returns the point of
    the interval nearest to [value] (the value itself when it is inside,
    else the bound on its side) and is idempotent; with inverted bounds it
    returns [min], whatever the value. *)
Theorem clamp_behaviour (v lo hi : Q) :
  ((lo <= hi)%Q ->
   (lo <= JS.clamp v lo hi <= hi)%Q /\
   ((lo <= v <= hi)%Q -> JS.clamp v lo hi == v) /\
   ((v <= lo)%Q -> JS.clamp v lo hi == lo) /\
   ((hi <= v)%Q -> JS.clamp v lo hi == hi) /\
   JS.clamp (JS.clamp v lo hi) lo hi == JS.clamp v lo hi) /\
  ((hi < lo)%Q -> JS.clamp v lo hi == lo).
Proof.
  split; [|apply clamp_inverted].
  intros Hle. pose proof (clamp_in_range v lo hi Hle) as Hr.
  assert (Hin : forall w, (lo <= w <= hi)%Q -> JS.clamp w lo hi == w).
  { intros w [Hl Hh]. unfold JS.clamp, JS.Math_max, JS.Math_min.
    rewrite (Q.min_r hi w Hh). apply Q.max_r. exact Hl. }
  split; [exact Hr|]. split; [apply Hin|]. split; [|split].
  - intros Hv. unfold JS.clamp, JS.Math_max, JS.Math_min.
    apply Q.max_l. eapply Qle_trans; [apply Q.le_min_r|exact Hv].
  - intros Hv. unfold JS.clamp, JS.Math_max, JS.Math_min.
    rewrite (Q.min_l hi v Hv). apply Q.max_r. exact Hle.
  - apply Hin. exact Hr.
Qed.

Lemma clamp_behaviour_witness :
  (0 <= JS.clamp 5 0 3 <= 3)%Q /\ JS.clamp 5 0 3 == 3.
Proof.
  destruct (proj1 (clamp_behaviour 5 0 3) ltac:(vm_compute; discriminate))
    as (Hr & _ & _ & Hhi & _).
  split; [exact Hr|]. apply Hhi. vm_compute. discriminate.
Defined.

(** X8: [randomChoice(arr, rng)] makes one call of [next()]; it returns an
    element of [arr] when [arr] is not empty and the generator is not in
    state 0x5e6cfce7, and [undefined] when [arr] is empty or the generator
    is in that state (the draw is 1 and the index is [arr.length]). *)
Theorem randomChoice_element {A : Type} (arr : list A) (r : RNG.t) :
  snd (randomChoice arr r) = snd (RNG.next r) /\
  (arr = [] -> fst (randomChoice arr r) = None) /\
  (arr <> [] -> RNG.state r mod JS.two32 <> 1584200935 ->
   exists a, fst (randomChoice arr r) = Some a /\ In a arr) /\
  (RNG.state r mod JS.two32 = 1584200935 -> fst (randomChoice arr r) = None).
Proof.
  unfold randomChoice.
  pose proof (next_range r) as Hv. pose proof (next_lt_1 r) as Hlt.
  pose proof (next_snd r) as Hs. pose proof (next_fst r) as Hf.
  destruct (RNG.next r) as [v r']. cbn [fst snd] in *.
  split; [reflexivity|]. split; [|split].
  - intros ->. reflexivity.
  - intros Hne Hst.
    assert (Hlen : 0 < Z.of_nat (length arr))
      by (destruct arr; [congruence|cbn [length]; lia]).
    destruct (floor_scaled_range v _ Hv Hlen) as [Hr Hr1].
    assert (Hv1 : (v < 1)%Q).
    { apply Hlt. rewrite Hs, state_mk, step_all_ones. exact Hst. }
    specialize (Hr1 Hv1).
    destruct (arr !! Z.to_nat (JS.Math_floor (v * inject_Z (Z.of_nat (length arr)))))
      as [a|] eqn:Ha.
    + exists a. split; [reflexivity|].
      apply list_elem_of_In, list_elem_of_lookup. eauto.
    + apply lookup_ge_None in Ha. lia.
  - intros Hst. apply step_all_ones in Hst.
    apply lookup_ge_None. rewrite Hf, Hst.
    assert (Hone : (inject_Z 4294967295 / inject_Z 4294967295
                    * inject_Z (Z.of_nat (length arr))
                    == inject_Z (Z.of_nat (length arr)))%Q) by (field; discriminate).
    unfold JS.Math_floor. rewrite Hone, Qfloor_Z. lia.
Qed.

Lemma randomChoice_element_witness :
  exists a, fst (randomChoice [10; 20; 30] (RNG.new 1)) = Some a /\ In a [10; 20; 30].
Proof.
  apply (proj1 (proj2 (proj2 (randomChoice_element [10; 20; 30] (RNG.new 1))))).
  - discriminate.
  - vm_compute. discriminate.
Defined.

(** ** The fill colour of a block *)

Lemma colorIndex_range strength :
  1 <= strength -> 0 <= colorIndex strength <= 7.
Proof.
  intros Hs. unfold colorIndex, JS.Math_floor. change (Z.of_nat (length BLOCK_COLORS) - 1) with 7.
  assert (H0 : (0 <= inject_Z (strength - 1) / 3)%Q).
  { apply Qle_shift_div_l; [reflexivity|]. rewrite Qmult_0_l.
    change 0%Q with (inject_Z 0). rewrite <- Zle_Qle. lia. }
  apply (Qfloor_resp_le 0) in H0. change (Qfloor 0) with 0 in H0. lia.
Qed.

Lemma colorIndex_value strength :
  colorIndex strength = Z.min 7 ((strength - 1) / 3).
Proof.
  unfold colorIndex, JS.Math_floor. change (Z.of_nat (length BLOCK_COLORS) - 1) with 7.
  f_equal. unfold Qfloor, Qdiv, Qmult, Qinv, inject_Z. cbn.
  rewrite Z.mul_1_r. reflexivity.
Qed.

(** ** Balls in flight *)

Lemma same_speed_refl v : same_speed v v.
Proof. left. reflexivity. Qed.

Lemma same_speed_flip v : same_speed v (v * -1).
Proof. right. ring. Qed.

Lemma same_speed_trans a b c : same_speed a b -> same_speed b c -> same_speed a c.
Proof.
  unfold same_speed. intros [H1|H1] [H2|H2]; rewrite H2, H1;
    [left|right|right|left]; ring.
Qed.

Lemma Qmult_sign_pos v d : (0 <= d)%Q -> (0 <= v)%Q -> (0 <= v * d)%Q.
Proof. intros Hd Hv. apply Qmult_le_0_compat; assumption. Qed.

Lemma Qmult_sign_neg v d : (0 <= d)%Q -> (v <= 0)%Q -> (v * d <= 0)%Q.
Proof.
  intros Hd Hv. assert (0 <= (- v) * d)%Q by (apply Qmult_le_0_compat; lra).
  assert ((- v) * d == - (v * d))%Q by ring. lra.
Qed.

(** The side walls of [Ball.update]. *)
Lemma wall_side (W x v d : Q) :
  (0 <= d)%Q -> (2 * BALL_RADIUS <= W)%Q ->
  (BALL_RADIUS <= x <= W - BALL_RADIUS)%Q ->
  let x1 := (x + v * d)%Q in
  let r :=
    if JS.Qleb (x1 - BALL_RADIUS) 0 && JS.Qltb v 0
    then (BALL_RADIUS, (v * -1)%Q)
    else if JS.Qleb W (x1 + BALL_RADIUS) && JS.Qltb 0 v
         then ((W - BALL_RADIUS)%Q, (v * -1)%Q)
         else (x1, v) in
  (BALL_RADIUS <= fst r <= W - BALL_RADIUS)%Q /\ same_speed v (snd r).
Proof.
  intros Hd Hw Hx. cbv zeta.
  pose proof (Qmult_sign_pos v d Hd) as Hpos.
  pose proof (Qmult_sign_neg v d Hd) as Hneg.
  unfold BALL_RADIUS in *.
  destruct (JS.Qleb (x + v * d - 7) 0) eqn:E1;
    destruct (JS.Qltb v 0) eqn:E2;
    destruct (JS.Qleb W (x + v * d + 7)) eqn:E3;
    destruct (JS.Qltb 0 v) eqn:E4;
    cbn [andb fst snd];
    rewrite ?Qleb_le, ?Qleb_gt, ?Qltb_lt, ?Qltb_ge in *;
    (split; [|first [apply same_speed_refl|apply same_speed_flip]]);
    try lra;
    try (specialize (Hpos ltac:(lra)); lra);
    try (specialize (Hneg ltac:(lra)); lra).
Qed.

(** The top wall of [Ball.update]. *)
Lemma wall_top (y v d : Q) :
  (0 <= d)%Q -> (BALL_RADIUS <= y)%Q ->
  let y1 := (y + v * d)%Q in
  let r :=
    if JS.Qleb (y1 - BALL_RADIUS) 0 && JS.Qltb v 0
    then (BALL_RADIUS, (v * -1)%Q)
    else (y1, v) in
  (BALL_RADIUS <= fst r)%Q /\ same_speed v (snd r).
Proof.
  intros Hd Hy. cbv zeta.
  pose proof (Qmult_sign_pos v d Hd) as Hpos.
  unfold BALL_RADIUS in *.
  destruct (JS.Qleb (y + v * d - 7) 0) eqn:E1;
    destruct (JS.Qltb v 0) eqn:E2;
    cbn [andb fst snd];
    rewrite ?Qleb_le, ?Qleb_gt, ?Qltb_lt, ?Qltb_ge in *;
    (split; [|first [apply same_speed_refl|apply same_speed_flip]]);
    try lra;
    try (specialize (Hpos ltac:(lra)); lra).
Qed.

Section Flight.
Context `{Host}.

Lemma barrier_ball_update_field delta b :
  (0 <= delta)%Q -> (2 * BALL_RADIUS <= GAME_WIDTH)%Q ->
  Barrier.Ball.resting b = false ->
  in_field (Barrier.Ball.x b) (Barrier.Ball.y b) ->
  let b' := Barrier.Ball.update delta b in
  in_field (Barrier.Ball.x b') (Barrier.Ball.y b') /\
  same_speed (Barrier.Ball.vx b) (Barrier.Ball.vx b') /\
  same_speed (Barrier.Ball.vy b) (Barrier.Ball.vy b') /\
  Barrier.Ball.resting b' = false /\
  Barrier.Ball.prevX b' = Barrier.Ball.x b /\
  Barrier.Ball.prevY b' = Barrier.Ball.y b.
Proof.
  intros Hd Hw Hr [Hx Hy]. unfold Barrier.Ball.update. rewrite Hr.
  pose proof (wall_side GAME_WIDTH _ (Barrier.Ball.vx b) delta Hd Hw Hx) as Hside.
  pose proof (wall_top _ (Barrier.Ball.vy b) delta Hd Hy) as Htop.
  cbv zeta in Hside, Htop |- *.
  destruct (if JS.Qleb (Barrier.Ball.x b + Barrier.Ball.vx b * delta - BALL_RADIUS) 0
               && JS.Qltb (Barrier.Ball.vx b) 0
            then _ else _) as [x' vx'].
  destruct (if JS.Qleb (Barrier.Ball.y b + Barrier.Ball.vy b * delta - BALL_RADIUS) 0
               && JS.Qltb (Barrier.Ball.vy b) 0
            then _ else _) as [y' vy'].
  cbn [fst snd Barrier.Ball.x Barrier.Ball.y Barrier.Ball.vx Barrier.Ball.vy
       Barrier.Ball.resting Barrier.Ball.prevX Barrier.Ball.prevY] in *.
  destruct Hside as [Hx' Hvx]. destruct Htop as [Hy' Hvy].
  repeat split; try assumption; apply Hx'.
Qed.

Lemma grid_ball_update_field delta b :
  (0 <= delta)%Q -> (2 * BALL_RADIUS <= GAME_WIDTH)%Q ->
  Grid.Ball.resting b = false ->
  in_field (Grid.Ball.x b) (Grid.Ball.y b) ->
  let b' := Grid.Ball.update delta b in
  in_field (Grid.Ball.x b') (Grid.Ball.y b') /\
  same_speed (Grid.Ball.vx b) (Grid.Ball.vx b') /\
  same_speed (Grid.Ball.vy b) (Grid.Ball.vy b') /\
  Grid.Ball.resting b' = false.
Proof.
  intros Hd Hw Hr [Hx Hy]. unfold Grid.Ball.update. rewrite Hr.
  pose proof (wall_side GAME_WIDTH _ (Grid.Ball.vx b) delta Hd Hw Hx) as Hside.
  pose proof (wall_top _ (Grid.Ball.vy b) delta Hd Hy) as Htop.
  cbv zeta in Hside, Htop |- *.
  destruct (if JS.Qleb (Grid.Ball.x b + Grid.Ball.vx b * delta - BALL_RADIUS) 0
               && JS.Qltb (Grid.Ball.vx b) 0
            then _ else _) as [x' vx'].
  destruct (if JS.Qleb (Grid.Ball.y b + Grid.Ball.vy b * delta - BALL_RADIUS) 0
               && JS.Qltb (Grid.Ball.vy b) 0
            then _ else _) as [y' vy'].
  cbn [fst snd Grid.Ball.x Grid.Ball.y Grid.Ball.vx Grid.Ball.vy
       Grid.Ball.resting] in *.
  destruct Hside as [Hx' Hvx]. destruct Htop as [Hy' Hvy].
  repeat split; try assumption; apply Hx'.
Qed.

End Flight.

(** ** Collision passes and velocities (barrier revision) *)

Section BarrierFlight.
Context `{Host}.

Lemma barrier_hit_speed i barrier ball g :
  same_speed (Barrier.Ball.vx ball) (Barrier.Ball.vx (fst (Barrier.hit i barrier ball g))) /\
  same_speed (Barrier.Ball.vy ball) (Barrier.Ball.vy (fst (Barrier.hit i barrier ball g))).
Proof.
  unfold Barrier.hit. cbv zeta. cbn [fst].
  match goal with
  | |- context [if ?c then Barrier.Ball.set_vy _ _ else _] => destruct c
  end; cbn [Barrier.Ball.vx Barrier.Ball.vy Barrier.Ball.set_vx Barrier.Ball.set_vy];
    split; first [apply same_speed_refl|apply same_speed_flip].
Qed.

Lemma visit_from_speed fuel :
  forall i ball g ball' g',
    Barrier.visit_from fuel i ball g = Some (ball', g') ->
    same_speed (Barrier.Ball.vx ball) (Barrier.Ball.vx ball') /\
    same_speed (Barrier.Ball.vy ball) (Barrier.Ball.vy ball').
Proof.
  induction fuel as [|fuel IH]; intros i ball g ball' g' Hrun; [discriminate Hrun|].
  cbn [Barrier.visit_from] in Hrun.
  destruct (Barrier.barrierBlocks g !! i) as [barrier|].
  - destruct (Barrier.BarrierBlock.destroyed barrier); [eapply IH; exact Hrun|].
    destruct (circleRectCollision_at _ _ _); [|eapply IH; exact Hrun].
    pose proof (barrier_hit_speed i barrier ball g) as [Hx Hy].
    destruct (Barrier.hit i barrier ball g) as [ball1 g1]. cbn [fst] in Hx, Hy.
    destruct (IH _ _ _ _ _ Hrun) as [Hx' Hy'].
    split; eapply same_speed_trans; eassumption.
  - injection Hrun as <- <-. split; apply same_speed_refl.
Qed.

Lemma barrier_handleCollisions_speed ball g :
  same_speed (Barrier.Ball.vx ball)
             (Barrier.Ball.vx (fst (Barrier.handleCollisions ball g))) /\
  same_speed (Barrier.Ball.vy ball)
             (Barrier.Ball.vy (fst (Barrier.handleCollisions ball g))).
Proof.
  unfold Barrier.handleCollisions.
  destruct (Barrier.visit_from _ 0 ball g) as [[ball1 g1]|] eqn:Hrun; cbn [fst].
  - eapply visit_from_speed. exact Hrun.
  - split; apply same_speed_refl.
Qed.

(** A ball that moves in a tick: still in the field, at rest on the base
    line or in flight with the same speed. *)
Lemma barrier_move_ball_ok delta ball g angle :
  (0 <= delta)%Q -> (2 * BALL_RADIUS <= GAME_WIDTH)%Q ->
  (2 * BALL_RADIUS <= Barrier.baseY g)%Q ->
  Barrier.Ball.resting ball = false ->
  barrier_ball_ok (Barrier.baseY g) angle ball ->
  barrier_ball_ok (Barrier.baseY g) angle (fst (Barrier.move_ball delta ball g)).
Proof.
  intros Hd Hw Hb Hr [Hf Hv]. rewrite Hr in Hv. destruct Hv as [Hvx Hvy].
  unfold Barrier.move_ball.
  destruct (barrier_ball_update_field delta ball Hd Hw Hr Hf)
    as (Hf1 & Hvx1 & Hvy1 & Hr1 & _).
  remember (Barrier.Ball.update delta ball) as ball1 eqn:Hb1. clear Hb1.
  pose proof (barrier_handleCollisions_spec ball1 g) as Hc.
  pose proof (barrier_handleCollisions_speed ball1 g) as [Hvx2 Hvy2].
  destruct (Barrier.handleCollisions ball1 g) as [ball2 g2]. cbn [fst] in Hvx2, Hvy2.
  destruct Hc as (_ & Hctl & Hsame & _).
  assert (Hbase : Barrier.baseY g2 = Barrier.baseY g)
    by (unfold barrier_ctl in Hctl; congruence).
  assert (Hx2 : Barrier.Ball.x ball2 = Barrier.Ball.x ball1) by congruence.
  assert (Hy2 : Barrier.Ball.y ball2 = Barrier.Ball.y ball1) by congruence.
  assert (Hr2 : Barrier.Ball.resting ball2 = false) by congruence.
  destruct (JS.Qleb (Barrier.baseY g2) (Barrier.Ball.y ball2 + BALL_RADIUS)
            && JS.Qltb 0 (Barrier.Ball.vy ball2)); cbn [fst].
  - unfold barrier_ball_ok, Barrier.Ball.setResting.
    cbn [Barrier.Ball.x Barrier.Ball.y Barrier.Ball.resting Barrier.Ball.vx
         Barrier.Ball.vy].
    rewrite Hx2, Hbase. split; [|repeat split].
    destruct Hf1 as [Hfx _]. split; [exact Hfx|]. unfold BALL_RADIUS in *. lra.
  - unfold barrier_ball_ok. rewrite Hx2, Hy2, Hr2. split; [exact Hf1|].
    split; eapply same_speed_trans; try eassumption;
      eapply same_speed_trans; eassumption.
Qed.

End BarrierFlight.

(** ** Where the balls of a session are (barrier revision) *)

Lemma cappedDelta_range previousTime timestamp :
  (cappedDelta previousTime timestamp <= 33 # 1000)%Q /\
  (falsy_time previousTime = true -> cappedDelta previousTime timestamp == 0) /\
  ((match previousTime with Some p => p <= timestamp | None => True end)%Q ->
   (0 <= cappedDelta previousTime timestamp)%Q).
Proof.
  unfold cappedDelta, JS.Math_min. split; [apply Q.le_min_r|]. split.
  - intros ->. rewrite Q.min_l; [field|].
    assert ((timestamp - timestamp) / 1000 == 0)%Q by field. lra.
  - intros Hmono. apply Q.min_glb; [|discriminate].
    destruct (falsy_time previousTime).
    + assert ((timestamp - timestamp) / 1000 == 0)%Q by field. lra.
    + destruct previousTime as [p|].
      * apply Qle_shift_div_l; [reflexivity|]. lra.
      * assert ((timestamp - timestamp) / 1000 == 0)%Q by field. lra.
Qed.

Section BarrierGeometry.
Context `{Host}.

Hypothesis Hwide : (2 * BALL_RADIUS <= GAME_WIDTH)%Q.
Hypothesis Hhigh : (38 <= GAME_HEIGHT)%Q.

Lemma barrier_update_balls_ok delta angle bs :
  forall g,
    (0 <= delta)%Q -> (2 * BALL_RADIUS <= Barrier.baseY g)%Q ->
    Forall (barrier_ball_ok (Barrier.baseY g) angle) bs ->
    Forall (barrier_ball_ok (Barrier.baseY g) angle)
           (fst (Barrier.update_balls delta bs g)).
Proof.
  induction bs as [|ball rest IH]; intros g Hd Hb Hall; [constructor|].
  apply Forall_cons_1 in Hall as [Hball Hrest].
  cbn [Barrier.update_balls].
  destruct (Barrier.Ball.resting ball) eqn:Hr.
  - specialize (IH g Hd Hb Hrest).
    destruct (Barrier.update_balls delta rest g) as [rest' g']. cbn [fst] in *.
    constructor; assumption.
  - pose proof (barrier_move_ball_ok delta ball g angle Hd Hwide Hb Hr Hball) as Hok.
    pose proof (move_ball_spec delta ball g Hr) as Hspec.
    destruct (Barrier.move_ball delta ball g) as [ball1 g1]. cbn [fst] in Hok.
    destruct Hspec as (Hflow & _).
    assert (Hbase : Barrier.baseY g1 = Barrier.baseY g)
      by (unfold barrier_flow in Hflow; congruence).
    specialize (IH g1 Hd). rewrite Hbase in IH. specialize (IH Hb Hrest).
    destruct (Barrier.update_balls delta rest g1) as [rest' g']. cbn [fst] in *.
    constructor; assumption.
Qed.

Lemma spawnFloatingBlock_ctl force g :
  barrier_ctl (Barrier.spawnFloatingBlock force g) = barrier_ctl g.
Proof.
  destruct (spawnFloatingBlock_spec force g) as [Hf _].
  apply but_spawn_fields in Hf. apply Hf.
Qed.

Lemma seedFloatingBlocks_ctl g :
  barrier_ctl (Barrier.seedFloatingBlocks g) = barrier_ctl g.
Proof.
  unfold Barrier.seedFloatingBlocks.
  generalize 6%nat. intros n. induction n as [|n IH]; [reflexivity|].
  rewrite Nat.iter_succ, spawnFloatingBlock_ctl. exact IH.
Qed.

(** The balls after the spawn step at the head of [update]. *)
Lemma launch_step_balls delta g :
  Barrier.balls (Barrier.launch_step delta g)
  = if launch_due delta g
    then Barrier.balls g
         ++ [Barrier.Ball.new
               (JS.nullish (Barrier.activeBallChainLanding g)
                           (Barrier.baseBallPosition g))
               (Barrier.baseY g - BALL_RADIUS)%Q
               (JS.to_number (Barrier.turnAngle g))]
    else Barrier.balls g.
Proof.
  unfold Barrier.launch_step, launch_due.
  destruct (Barrier.isLaunching g); [|reflexivity].
  cbn [andb Barrier.pendingBalls Barrier.launchTimer Barrier.set_launchTimer].
  destruct ((Barrier.pendingBalls g >? 0)
            && JS.Qleb (Barrier.launchTimer g - delta) 0); [|reflexivity].
  match goal with
  | |- Barrier.balls (Barrier.spawnFloatingBlock false ?g1) = _ =>
      pose proof (spawnFloatingBlock_ctl false g1) as Hc
  end.
  apply ctl_fields in Hc. destruct Hc as (_ & Hb & _). rewrite Hb. reflexivity.
Qed.

Lemma simulate_balls delta g :
  Barrier.balls (Barrier.simulate delta g)
  = fst (Barrier.update_balls delta (Barrier.balls (Barrier.launch_step delta g))
                              (Barrier.launch_step delta g)).
Proof.
  unfold Barrier.simulate, Barrier.particle_step, Barrier.ball_step.
  destruct (Barrier.update_balls delta _ _) as [bs g2]. reflexivity.
Qed.

Lemma nullish_on_base_line landing base :
  (forall x, landing = JS.Num x -> on_base_line x) -> on_base_line base ->
  on_base_line (JS.nullish landing base).
Proof. intros Hl Hb. destruct landing as [| |x]; cbn; auto. Qed.

(** One update tick keeps the geometry. *)
Lemma barrier_update_geometry delta g :
  (0 <= delta)%Q -> barrier_geometry g -> barrier_geometry (Barrier.update delta g).
Proof.
  intros Hd (Hbase & Hpos & Hland & Hballs & Hidle & Hover).
  destruct (update_spec delta g Hover)
    as (Hupd & Hover' & _ & _ & _ & Hlaunch' & _ & _ & Hdone & _ & _).
  destruct (simulate_spec delta g) as (Hmode & _ & _ & _ & _ & more & Hrest & Hmore & Hl).
  cbv zeta in Hupd, Hlaunch', Hdone, Hmode, Hrest, Hmore, Hl.
  set (s := Barrier.simulate delta g) in *.
  assert (Hmode' := Hmode). unfold barrier_mode in Hmode'.
  assert (Hbase_s : Barrier.baseY s = Barrier.baseY g) by congruence.
  assert (Hpos_s : Barrier.baseBallPosition s = Barrier.baseBallPosition g) by congruence.
  assert (Hang_s : Barrier.turnAngle s = Barrier.turnAngle g) by congruence.
  assert (Hlaunch_s : Barrier.isLaunching s = Barrier.isLaunching g) by congruence.
  assert (Hb2 : (2 * BALL_RADIUS <= Barrier.baseY g)%Q)
    by (rewrite Hbase; unfold BALL_RADIUS; lra).
  assert (Hballs_s : Forall (barrier_ball_ok (Barrier.baseY g)
                               (JS.to_number (Barrier.turnAngle g)))
                            (Barrier.balls s)).
  { subst s. rewrite simulate_balls.
    assert (Hb1 : Barrier.baseY (Barrier.launch_step delta g) = Barrier.baseY g).
    { destruct (launch_step_spec delta g) as (Hm & _). unfold barrier_mode in Hm.
      congruence. }
    rewrite <- Hb1. apply barrier_update_balls_ok; [exact Hd|rewrite Hb1; exact Hb2|].
    rewrite Hb1, launch_step_balls.
    destruct (launch_due delta g); [|exact Hballs].
    apply Forall_app. split; [exact Hballs|]. constructor; [|constructor].
    unfold barrier_ball_ok, Barrier.Ball.new.
    cbn [Barrier.Ball.x Barrier.Ball.y Barrier.Ball.resting Barrier.Ball.vx
         Barrier.Ball.vy].
    split; [|split; apply same_speed_refl].
    split; [apply nullish_on_base_line; assumption|].
    unfold BALL_RADIUS in *. lra. }
  assert (Hland_s : forall x, Barrier.activeBallChainLanding s = JS.Num x ->
                              on_base_line x).
  { intros x Hx. rewrite Hl in Hx.
    destruct (JS.is_null (Barrier.activeBallChainLanding g)); [|apply Hland; exact Hx].
    destruct more as [|b more']; [discriminate Hx|].
    cbn [first_landing] in Hx. injection Hx as <-.
    apply Forall_cons_1 in Hmore as [[_ Hin] _].
    rewrite Forall_forall in Hballs_s.
    apply list_elem_of_In in Hin. apply Hballs_s in Hin. apply Hin. }
  rewrite Hupd. destruct (Barrier.turn_done s) eqn:Hdn.
  - unfold barrier_geometry, Barrier.finishTurn.
    cbn [Barrier.baseY Barrier.baseBallPosition Barrier.activeBallChainLanding
         Barrier.balls Barrier.isLaunching Barrier.isGameOver Barrier.turnAngle
         Barrier.set_isLaunching Barrier.set_isAiming Barrier.set_turnAngle
         Barrier.set_turn Barrier.set_balls Barrier.set_baseBallPosition].
    rewrite Hbase_s, Hpos_s.
    refine (conj Hbase (conj _ (conj Hland_s (conj _ (conj _ _))))).
    + apply nullish_on_base_line; assumption.
    + constructor.
    + reflexivity.
    + rewrite Hupd in Hover'. exact Hover'.
  - unfold barrier_geometry. rewrite Hbase_s, Hpos_s, Hang_s, Hlaunch_s.
    refine (conj Hbase (conj Hpos (conj Hland_s (conj Hballs_s (conj _ _))))).
    + intros Hnl. specialize (Hidle Hnl).
      subst s. rewrite simulate_balls, launch_step_balls.
      assert (Hdue : launch_due delta g = false)
        by (unfold launch_due; rewrite Hnl; reflexivity).
      rewrite Hdue, Hidle. reflexivity.
    + rewrite Hupd in Hover'. exact Hover'.
Qed.

End BarrierGeometry.

(** ** Sessions of the barrier revision *)

Section BarrierSessionFrames.
Context `{Host}.

Lemma ctl_all_fields g g' :
  barrier_ctl g' = barrier_ctl g ->
  Barrier.blocks g' = Barrier.blocks g /\
  Barrier.balls g' = Barrier.balls g /\
  Barrier.pendingBalls g' = Barrier.pendingBalls g /\
  Barrier.ballChain g' = Barrier.ballChain g /\
  Barrier.baseBallPosition g' = Barrier.baseBallPosition g /\
  Barrier.baseY g' = Barrier.baseY g /\
  Barrier.turnAngle g' = Barrier.turnAngle g /\
  Barrier.isAiming g' = Barrier.isAiming g /\
  Barrier.isLaunching g' = Barrier.isLaunching g /\
  Barrier.turn g' = Barrier.turn g /\
  Barrier.isGameOver g' = Barrier.isGameOver g /\
  Barrier.launchTimer g' = Barrier.launchTimer g /\
  Barrier.restingBalls g' = Barrier.restingBalls g /\
  Barrier.activeBallChainLanding g' = Barrier.activeBallChainLanding g.
Proof.
  unfold barrier_ctl. intros Hf. inversion Hf. repeat split; congruence.
Qed.

End BarrierSessionFrames.

Section BarrierControl.
Context `{Host} `{HostPointer}.

Lemma barrier_reset_ctl g :
  let g' := Barrier.reset g in
  Barrier.blocks g' = [] /\
  Barrier.balls g' = [] /\
  Barrier.pendingBalls g' = 0 /\
  Barrier.ballChain g' = 1 /\
  Barrier.baseBallPosition g' = (GAME_WIDTH / 2)%Q /\
  Barrier.baseY g' = (GAME_HEIGHT - 24)%Q /\
  Barrier.turnAngle g' = None /\
  Barrier.isAiming g' = false /\
  Barrier.isLaunching g' = false /\
  Barrier.turn g' = 1 /\
  Barrier.isGameOver g' = false /\
  Barrier.activeBallChainLanding g' = Barrier.activeBallChainLanding g.
Proof.
  cbv zeta. unfold Barrier.reset.
  match goal with
  | |- context [Barrier.seedFloatingBlocks ?g0] =>
      pose proof (seedFloatingBlocks_ctl g0) as Hc
  end.
  apply ctl_all_fields in Hc.
  destruct Hc as (H1 & H2 & H3 & H4 & H5 & H6 & H7 & H8 & H9 & H10 & H11 & _ & _ & H14).
  rewrite H1, H2, H3, H4, H5, H6, H7, H8, H9, H10, H11, H14.
  repeat split.
Qed.

Lemma barrier_reset_control g : barrier_control (Barrier.reset g).
Proof.
  destruct (barrier_reset_ctl g)
    as (H1 & H2 & H3 & H4 & H5 & H6 & H7 & H8 & H9 & H10 & H11 & H12).
  unfold barrier_control. rewrite H1, H2, H3, H4, H7, H8, H9, H10, H11.
  repeat split; try reflexivity; try discriminate; try lia.
Qed.

Lemma barrier_update_control delta g :
  barrier_control g -> barrier_control (Barrier.update delta g).
Proof.
  intros (Hover & Hblocks & Hchain & Hturn & Hangle & Hlaunch & Hidle & Haim).
  destruct (update_spec delta g Hover)
    as (Hupd & Hover' & _ & Hpend' & _ & Hlaunch' & Hturn' & Hchain' & Hdone & _ & _).
  destruct (simulate_spec delta g) as (Hmode & _ & Hpend_s & _ & Hlen_s & _).
  cbv zeta in *.
  set (s := Barrier.simulate delta g) in *.
  assert (Hmode' := Hmode). unfold barrier_mode in Hmode'.
  assert (Hblocks_s : Barrier.blocks s = Barrier.blocks g) by congruence.
  assert (Hang_s : Barrier.turnAngle s = Barrier.turnAngle g) by congruence.
  assert (Haim_s : Barrier.isAiming s = Barrier.isAiming g) by congruence.
  assert (Hfields :
            Barrier.blocks (Barrier.update delta g) = Barrier.blocks g /\
            Barrier.turnAngle (Barrier.update delta g)
            = (if Barrier.turn_done s then None else Barrier.turnAngle g) /\
            Barrier.isAiming (Barrier.update delta g)
            = (if Barrier.turn_done s then false else Barrier.isAiming g) /\
            Barrier.balls (Barrier.update delta g)
            = (if Barrier.turn_done s then [] else Barrier.balls s)).
  { rewrite Hupd. destruct (Barrier.turn_done s);
      [cbn; repeat split; assumption|repeat split; assumption]. }
  destruct Hfields as (Hb' & Ha' & Hm' & Hbs').
  unfold barrier_control.
  rewrite Hb', Ha', Hm', Hbs', Hlaunch', Hturn', Hchain', Hpend'.
  refine (conj Hover' (conj Hblocks (conj Hchain (conj _ (conj _ (conj _ (conj _ _))))))).
  - destruct (Barrier.turn_done s); lia.
  - destruct (Barrier.turn_done s); [intros a Ha; discriminate Ha|exact Hangle].
  - intros Hl. apply andb_true_iff in Hl as [Hl Hnd].
    apply negb_true_iff in Hnd. rewrite Hnd.
    destruct (Hlaunch Hl) as (Ha & Hp & Hsum).
    split; [exact Ha|].
    assert (Hdue : launch_due delta g = true -> 0 < Barrier.pendingBalls g).
    { unfold launch_due. intros Hd. apply andb_true_iff in Hd as [Hd _].
      apply andb_true_iff in Hd as [_ Hd]. lia. }
    rewrite Hlen_s. destruct (launch_due delta g); [specialize (Hdue eq_refl)|]; lia.
  - intros Hl. destruct (Barrier.turn_done s) eqn:Hdn.
    + split; [reflexivity|]. destruct (Hdone eq_refl) as [_ Hp].
      rewrite Hpend' in Hp. exact Hp.
    + rewrite andb_true_r in Hl. destruct (Hidle Hl) as [Hbs Hp].
      assert (Hdue : launch_due delta g = false)
        by (unfold launch_due; rewrite Hl; reflexivity).
      rewrite Hdue in *. rewrite Hbs in Hlen_s.
      split; [|lia]. apply nil_length_inv. exact Hlen_s.
  - destruct (Barrier.turn_done s); [intros Ha; discriminate Ha|].
    intros Ha. rewrite (Haim Ha). reflexivity.
Qed.

Lemma barrier_startAim_control pos g :
  barrier_control g -> barrier_control (BarrierEvents.startAim pos g).
Proof.
  intros Hc. unfold BarrierEvents.startAim.
  destruct (Barrier.isLaunching g) eqn:Hl; [exact Hc|].
  destruct (Barrier.isGameOver g) eqn:Ho; [exact Hc|]. cbn [orb].
  destruct Hc as (Hover & Hblocks & Hchain & Hturn & Hangle & Hlaunch & Hidle & Haim).
  destruct pos as [[x y]|]; unfold barrier_control; cbn;
    rewrite ?Hl, ?Ho;
    (refine (conj eq_refl (conj Hblocks (conj Hchain (conj Hturn
              (conj _ (conj _ (conj _ _)))))));
     [|discriminate|intros _; apply Hidle; exact Hl|reflexivity]).
  - intros a Ha. injection Ha as <-. eexists. reflexivity.
  - exact Hangle.
Qed.

Lemma barrier_moveAim_control pos g :
  barrier_control g -> barrier_control (BarrierEvents.moveAim pos g).
Proof.
  intros Hc. unfold BarrierEvents.moveAim.
  destruct (Barrier.isAiming g) eqn:Ha; [|exact Hc].
  destruct (Barrier.isLaunching g) eqn:Hl; [exact Hc|]. cbn [negb orb].
  destruct pos as [[x y]|]; [|exact Hc].
  destruct Hc as (Hover & Hblocks & Hchain & Hturn & Hangle & Hlaunch & Hidle & Haim).
  unfold barrier_control; cbn; rewrite ?Hl, ?Ha.
  refine (conj Hover (conj Hblocks (conj Hchain (conj Hturn
            (conj _ (conj _ (conj _ _))))))).
  - intros a Heq. injection Heq as <-. eexists. reflexivity.
  - discriminate.
  - intros _. apply Hidle. exact Hl.
  - reflexivity.
Qed.

Lemma barrier_endAim_control g :
  barrier_control g -> barrier_control (BarrierEvents.endAim g).
Proof.
  intros Hc. unfold BarrierEvents.endAim.
  destruct (Barrier.isAiming g) eqn:Ha; [|exact Hc].
  destruct (Barrier.isLaunching g) eqn:Hl; [exact Hc|]. cbn [negb orb].
  destruct Hc as (Hover & Hblocks & Hchain & Hturn & Hangle & Hlaunch & Hidle & Haim).
  destruct (Hidle Hl) as [Hbs Hp].
  cbn [Barrier.turnAngle Barrier.set_isAiming].
  destruct (Barrier.turnAngle g) as [angle|] eqn:Hang.
  - unfold barrier_control, Barrier.launchTurn; cbn. rewrite Hbs, Hchain.
    refine (conj Hover (conj Hblocks (conj eq_refl (conj Hturn
              (conj _ (conj _ (conj _ _))))))).
    + intros a Heq. injection Heq as <-. apply Hangle. reflexivity.
    + intros _. split; [eauto|]. split; [lia|reflexivity].
    + discriminate.
    + discriminate.
  - unfold barrier_control; cbn. rewrite Hl, Hang.
    refine (conj Hover (conj Hblocks (conj Hchain (conj Hturn
              (conj _ (conj _ (conj _ _))))))).
    + discriminate.
    + discriminate.
    + intros _. split; assumption.
    + discriminate.
Qed.

(** Every session keeps the phase invariant. *)
Lemma barrier_session_control f :
  BarrierEvents.session f -> barrier_control (BarrierEvents.game f).
Proof.
  induction 1 as [seed|timestamp f Hs IH Hmono|pos f Hs IH|pos f Hs IH|f Hs IH|f Hs IH];
    cbn [BarrierEvents.game BarrierEvents.loop BarrierEvents.start].
  - apply barrier_update_control, barrier_reset_control.
  - apply barrier_update_control, IH.
  - apply barrier_startAim_control, IH.
  - apply barrier_moveAim_control, IH.
  - apply barrier_endAim_control, IH.
  - apply barrier_reset_control.
Qed.

End BarrierControl.

Section BarrierSessionGeometry.
Context `{Host} `{HostPointer}.

Hypothesis Hwide : (2 * BALL_RADIUS <= GAME_WIDTH)%Q.
Hypothesis Hhigh : (38 <= GAME_HEIGHT)%Q.

Lemma half_on_base_line : on_base_line (GAME_WIDTH / 2).
Proof.
  unfold on_base_line, BALL_RADIUS in *.
  assert (GAME_WIDTH / 2 == GAME_WIDTH * (1 # 2))%Q by (field; discriminate).
  lra.
Qed.

Lemma barrier_reset_geometry g :
  (forall x, Barrier.activeBallChainLanding g = JS.Num x -> on_base_line x) ->
  barrier_geometry (Barrier.reset g).
Proof.
  intros Hland.
  destruct (barrier_reset_ctl g)
    as (H1 & H2 & H3 & H4 & H5 & H6 & H7 & H8 & H9 & H10 & H11 & H12).
  unfold barrier_geometry. rewrite H2, H5, H6, H9, H11, H12.
  refine (conj eq_refl (conj half_on_base_line (conj Hland (conj _ (conj _ eq_refl))))).
  - constructor.
  - reflexivity.
Qed.

Lemma barrier_startAim_geometry pos g :
  barrier_geometry g -> barrier_geometry (BarrierEvents.startAim pos g).
Proof.
  intros Hg. unfold BarrierEvents.startAim.
  destruct (Barrier.isLaunching g) eqn:Hl; [exact Hg|].
  destruct (Barrier.isGameOver g) eqn:Ho; [exact Hg|]. cbn [orb].
  destruct Hg as (Hbase & Hpos & Hland & Hballs & Hidle & Hover).
  specialize (Hidle Hl).
  destruct pos as [[x y]|]; unfold barrier_geometry; cbn; rewrite Hidle;
    refine (conj Hbase (conj Hpos (conj Hland (conj _ (conj _ Ho)))));
    first [constructor|reflexivity].
Qed.

Lemma barrier_moveAim_geometry pos g :
  barrier_geometry g -> barrier_geometry (BarrierEvents.moveAim pos g).
Proof.
  intros Hg. unfold BarrierEvents.moveAim.
  destruct (Barrier.isAiming g) eqn:Ha; [|exact Hg].
  destruct (Barrier.isLaunching g) eqn:Hl; [exact Hg|]. cbn [negb orb].
  destruct pos as [[x y]|]; [|exact Hg].
  destruct Hg as (Hbase & Hpos & Hland & Hballs & Hidle & Hover).
  specialize (Hidle Hl).
  unfold barrier_geometry; cbn; rewrite Hidle.
  refine (conj Hbase (conj Hpos (conj Hland (conj _ (conj _ Hover)))));
    first [constructor|reflexivity].
Qed.

Lemma barrier_endAim_geometry g :
  barrier_geometry g -> barrier_geometry (BarrierEvents.endAim g).
Proof.
  intros Hg. unfold BarrierEvents.endAim.
  destruct (Barrier.isAiming g) eqn:Ha; [|exact Hg].
  destruct (Barrier.isLaunching g) eqn:Hl; [exact Hg|]. cbn [negb orb].
  destruct Hg as (Hbase & Hpos & Hland & Hballs & Hidle & Hover).
  specialize (Hidle Hl).
  cbn [Barrier.turnAngle Barrier.set_isAiming].
  destruct (Barrier.turnAngle g) as [angle|] eqn:Hang;
    unfold barrier_geometry, Barrier.launchTurn; cbn; rewrite Hidle.
  - refine (conj Hbase (conj Hpos (conj _ (conj _ (conj _ Hover))))).
    + intros x Hx. discriminate Hx.
    + constructor.
    + reflexivity.
  - refine (conj Hbase (conj Hpos (conj Hland (conj _ (conj _ Hover))))).
    + constructor.
    + reflexivity.
Qed.

(** Every session keeps the geometry. *)
Lemma barrier_session_geometry f :
  BarrierEvents.session f -> barrier_geometry (BarrierEvents.game f).
Proof.
  induction 1 as [seed|timestamp f Hs IH Hmono|pos f Hs IH|pos f Hs IH|f Hs IH|f Hs IH];
    cbn [BarrierEvents.game BarrierEvents.loop BarrierEvents.start].
  - apply (barrier_update_geometry Hwide Hhigh).
    + apply cappedDelta_range. exact I.
    + apply barrier_reset_geometry. intros x Hx. discriminate Hx.
  - apply (barrier_update_geometry Hwide Hhigh); [|exact IH].
    apply cappedDelta_range. exact Hmono.
  - apply barrier_startAim_geometry, IH.
  - apply barrier_moveAim_geometry, IH.
  - apply barrier_endAim_geometry, IH.
  - apply barrier_reset_geometry. apply IH.
Qed.

End BarrierSessionGeometry.

(** ** The barriers of a session *)

Lemma Forall_list_filter {A : Type} (P : A -> Prop) (f : A -> bool) (l : list A) :
  Forall P l -> Forall P (List.filter f l).
Proof.
  rewrite !Forall_forall. intros Hall x Hx.
  apply list_elem_of_In, filter_In in Hx as [Hx _].
  apply Hall, list_elem_of_In, Hx.
Qed.

Lemma Forall_list_filter_true {A : Type} (f : A -> bool) (l : list A) :
  Forall (fun x => f x = true) (List.filter f l).
Proof.
  rewrite Forall_forall. intros x Hx.
  apply list_elem_of_In, filter_In in Hx as [_ Hx]. exact Hx.
Qed.

Section BarrierArrays.
Context `{Host}.

(** What a hit leaves in the array: the struck barrier in place, and after
    a destroying hit the forced spawn. *)
Lemma barrier_hit_blocks i barrier ball g :
  exists g4,
    barrier_ctl g4 = barrier_ctl g /\
    Barrier.barrierBlocks g4
    = <[i := barrier_struck barrier]> (Barrier.barrierBlocks g) /\
    Barrier.barrierBlocks (snd (Barrier.hit i barrier ball g))
    = if Barrier.BarrierBlock.strength barrier <=? 1
      then Barrier.barrierBlocks (Barrier.spawnFloatingBlock true g4)
      else Barrier.barrierBlocks g4.
Proof.
  unfold Barrier.hit, barrier_struck. cbv zeta.
  set (b1 := Barrier.BarrierBlock.set_strength
               (Barrier.BarrierBlock.strength barrier - 1) barrier).
  set (g1 := Barrier.set_score _ _).
  pose proof (barrier_spawnHitParticles_frame
                (Barrier.BarrierBlock.x b1) (Barrier.BarrierBlock.y b1)
                "#f5f7fb" g1) as Hp.
  remember (Barrier.spawnHitParticles (Barrier.BarrierBlock.x b1)
              (Barrier.BarrierBlock.y b1) "#f5f7fb" g1) as g2 eqn:Hg2. clear Hg2.
  destruct (but_particles_fields _ _ Hp) as (Hc2 & Hbb2 & _ & _).
  subst g1.
  cbn [Barrier.barrierBlocks Barrier.set_score Barrier.set_barrierBlocks] in Hbb2.
  assert (Hc2' : barrier_ctl g2 = barrier_ctl g) by (rewrite Hc2; reflexivity).
  clear Hc2.
  change (Barrier.BarrierBlock.strength b1)
    with (Barrier.BarrierBlock.strength barrier - 1).
  destruct (Barrier.BarrierBlock.strength barrier - 1 <=? 0) eqn:Hdead.
  - assert (Hle1 : (Barrier.BarrierBlock.strength barrier <=? 1) = true) by lia.
    rewrite Hle1.
    set (b2 := Barrier.BarrierBlock.set_destroyed true b1).
    set (g3 := Barrier.set_barrierBlocks _ g2).
    pose proof (barrier_spawnExplosion_frame
                  (Barrier.BarrierBlock.x b2) (Barrier.BarrierBlock.y b2) g3) as He.
    remember (Barrier.spawnExplosion (Barrier.BarrierBlock.x b2)
                (Barrier.BarrierBlock.y b2) g3) as g4 eqn:Hg4. clear Hg4.
    destruct (but_particles_fields _ _ He) as (Hc4 & Hbb4 & _ & _).
    subst g3.
    cbn [Barrier.barrierBlocks Barrier.set_barrierBlocks] in Hbb4.
    rewrite Hbb2, list_insert_insert_eq in Hbb4.
    exists g4. split; [rewrite Hc4; exact Hc2'|]. split; [exact Hbb4|].
    match goal with
    | |- context [if ?c then Barrier.Ball.set_vy _ _ else _] => destruct c
    end; reflexivity.
  - assert (Hle1 : (Barrier.BarrierBlock.strength barrier <=? 1) = false) by lia.
    rewrite Hle1.
    exists g2. split; [exact Hc2'|]. split; [exact Hbb2|].
    match goal with
    | |- context [if ?c then Barrier.Ball.set_vy _ _ else _] => destruct c
    end; reflexivity.
Qed.

Lemma createCandidate_blocks g :
  Barrier.barrierBlocks (snd (Barrier.createCandidate g)) = Barrier.barrierBlocks g /\
  Barrier.turn (snd (Barrier.createCandidate g)) = Barrier.turn g.
Proof.
  pose proof (createCandidate_spec g) as Hc.
  destruct (Barrier.createCandidate g) as [c g1]. destruct Hc as (Hf & _).
  cbn [snd]. apply but_rng_fields in Hf as (Hctl & Hbb & _).
  apply ctl_all_fields in Hctl. split; [exact Hbb|apply Hctl].
Qed.

(** A property of barriers that every new candidate has and that a hit on a
    live barrier keeps holds for every barrier of the array, whatever the
    session does. *)
Section Kept.

Variable P : Barrier.BarrierBlock.t -> Prop.
Hypothesis Hcand : forall g, P (fst (Barrier.createCandidate g)).
Hypothesis Hstruck :
  forall b, P b -> Barrier.BarrierBlock.destroyed b = false -> P (barrier_struck b).

Lemma retry_kept n :
  forall c g, P c -> P (fst (Barrier.retry n c g)).
Proof.
  induction n as [|n IH]; intros c g Hc; [exact Hc|].
  cbn [Barrier.retry].
  destruct (negb (Barrier.isBarrierOverlapping c g)); [exact Hc|].
  pose proof (Hcand g) as Hc1.
  destruct (Barrier.createCandidate g) as [c1 g1]. apply IH. exact Hc1.
Qed.

Lemma spawnFloatingBlock_kept force g :
  Forall P (Barrier.barrierBlocks g) ->
  Forall P (Barrier.barrierBlocks (Barrier.spawnFloatingBlock force g)).
Proof.
  intros Hall. unfold Barrier.spawnFloatingBlock.
  destruct (Barrier.isGameOver g); [exact Hall|].
  pose proof (createCandidate_spec g) as Hc. pose proof (Hcand g) as Hp1.
  destruct (Barrier.createCandidate g) as [c1 g1].
  destruct Hc as (Hf1 & Hd1 & Hs1). cbn [fst] in Hp1.
  pose proof (retry_spec Barrier.attempts c1 g1 Hd1 Hs1) as Hr.
  pose proof (retry_kept Barrier.attempts c1 g1 Hp1) as Hp2.
  destruct (Barrier.retry Barrier.attempts c1 g1) as [c2 g2].
  destruct Hr as (Hf2 & _). cbn [fst] in Hp2.
  assert (Hbb : Barrier.barrierBlocks g2 = Barrier.barrierBlocks g).
  { apply but_rng_fields in Hf1 as (_ & Hb1 & _).
    apply but_rng_fields in Hf2 as (_ & Hb2 & _). congruence. }
  rewrite Hbb.
  destruct (MAX_FLOATING_BLOCKS <=? length (Barrier.barrierBlocks g))%nat;
    destruct force; cbn [negb andb Barrier.barrierBlocks Barrier.set_barrierBlocks];
    rewrite ?Hbb; try exact Hall;
    apply Forall_app; (split; [|constructor; [exact Hp2|constructor]]);
    try apply Forall_tail; exact Hall.
Qed.

Lemma barrier_hit_kept i barrier ball g :
  Barrier.barrierBlocks g !! i = Some barrier ->
  Barrier.BarrierBlock.destroyed barrier = false ->
  Forall P (Barrier.barrierBlocks g) ->
  Forall P (Barrier.barrierBlocks (snd (Barrier.hit i barrier ball g))).
Proof.
  intros Hi Hd Hall.
  destruct (barrier_hit_blocks i barrier ball g) as (g4 & _ & Hbb4 & ->).
  assert (Hall4 : Forall P (Barrier.barrierBlocks g4)).
  { rewrite Hbb4. apply Forall_insert; [exact Hall|].
    apply Hstruck; [|exact Hd].
    rewrite Forall_forall in Hall. apply Hall.
    apply list_elem_of_lookup. eauto. }
  destruct (Barrier.BarrierBlock.strength barrier <=? 1); [|exact Hall4].
  apply spawnFloatingBlock_kept. exact Hall4.
Qed.

Lemma visit_from_kept fuel :
  forall i ball g ball' g',
    Barrier.visit_from fuel i ball g = Some (ball', g') ->
    Forall P (Barrier.barrierBlocks g) -> Forall P (Barrier.barrierBlocks g').
Proof.
  induction fuel as [|fuel IH]; intros i ball g ball' g' Hrun Hall;
    [discriminate Hrun|].
  cbn [Barrier.visit_from] in Hrun.
  destruct (Barrier.barrierBlocks g !! i) as [barrier|] eqn:Hi.
  2:{ injection Hrun as <- <-. exact Hall. }
  destruct (Barrier.BarrierBlock.destroyed barrier) eqn:Hd;
    [exact (IH _ _ _ _ _ Hrun Hall)|].
  destruct (circleRectCollision_at _ _ _); [|exact (IH _ _ _ _ _ Hrun Hall)].
  pose proof (barrier_hit_kept i barrier ball g Hi Hd Hall) as Hk.
  destruct (Barrier.hit i barrier ball g) as [ball1 g1]. cbn [snd] in Hk.
  exact (IH _ _ _ _ _ Hrun Hk).
Qed.

Lemma handleCollisions_kept ball g :
  Forall P (Barrier.barrierBlocks g) ->
  Forall P (Barrier.barrierBlocks (snd (Barrier.handleCollisions ball g))).
Proof.
  intros Hall. unfold Barrier.handleCollisions.
  destruct (Barrier.visit_from _ 0 ball g) as [[ball1 g1]|] eqn:Hrun;
    cbn [snd Barrier.barrierBlocks Barrier.set_barrierBlocks]; [|exact Hall].
  apply Forall_list_filter. eapply visit_from_kept; eassumption.
Qed.

Lemma move_ball_kept delta ball g :
  Forall P (Barrier.barrierBlocks g) ->
  Forall P (Barrier.barrierBlocks (snd (Barrier.move_ball delta ball g))).
Proof.
  intros Hall. unfold Barrier.move_ball.
  pose proof (handleCollisions_kept (Barrier.Ball.update delta ball) g Hall) as Hk.
  destruct (Barrier.handleCollisions (Barrier.Ball.update delta ball) g)
    as [ball1 g1]. cbn [snd] in Hk.
  destruct (JS.Qleb _ _ && JS.Qltb _ _); [|exact Hk].
  destruct (JS.is_null (Barrier.activeBallChainLanding
                          (Barrier.set_restingBalls _ g1))); exact Hk.
Qed.

Lemma update_balls_kept delta bs :
  forall g,
    Forall P (Barrier.barrierBlocks g) ->
    Forall P (Barrier.barrierBlocks (snd (Barrier.update_balls delta bs g))).
Proof.
  induction bs as [|ball rest IH]; intros g Hall; [exact Hall|].
  cbn [Barrier.update_balls].
  destruct (Barrier.Ball.resting ball).
  - specialize (IH g Hall).
    destruct (Barrier.update_balls delta rest g) as [rest' g']. exact IH.
  - pose proof (move_ball_kept delta ball g Hall) as Hk.
    destruct (Barrier.move_ball delta ball g) as [ball1 g1]. cbn [snd] in Hk.
    specialize (IH g1 Hk).
    destruct (Barrier.update_balls delta rest g1) as [rest' g']. exact IH.
Qed.

Lemma launch_step_kept delta g :
  Forall P (Barrier.barrierBlocks g) ->
  Forall P (Barrier.barrierBlocks (Barrier.launch_step delta g)).
Proof.
  intros Hall. unfold Barrier.launch_step.
  destruct (Barrier.isLaunching g); [|exact Hall].
  destruct ((Barrier.pendingBalls _ >? 0) && JS.Qleb _ 0); [|exact Hall].
  apply spawnFloatingBlock_kept. exact Hall.
Qed.

Lemma update_kept delta g :
  Forall P (Barrier.barrierBlocks g) ->
  Forall P (Barrier.barrierBlocks (Barrier.update delta g)).
Proof.
  intros Hall. unfold Barrier.update.
  destruct (Barrier.isGameOver g); [exact Hall|].
  assert (Hs : Forall P (Barrier.barrierBlocks (Barrier.simulate delta g))).
  { unfold Barrier.simulate, Barrier.particle_step, Barrier.ball_step.
    pose proof (update_balls_kept delta
                  (Barrier.balls (Barrier.launch_step delta g))
                  (Barrier.launch_step delta g) (launch_step_kept delta g Hall)) as Hk.
    destruct (Barrier.update_balls delta _ _) as [bs g2]. exact Hk. }
  destruct (Barrier.turn_done (Barrier.simulate delta g)); exact Hs.
Qed.

Lemma reset_kept g : Forall P (Barrier.barrierBlocks (Barrier.reset g)).
Proof.
  unfold Barrier.reset, Barrier.seedFloatingBlocks.
  match goal with
  | |- context [Nat.iter ?n _ ?g0] =>
      assert (Hall : Forall P (Barrier.barrierBlocks g0)) by constructor;
      generalize dependent g0; generalize n
  end.
  intros n. induction n as [|n IH]; intros g0 Hall; [exact Hall|].
  rewrite Nat.iter_succ. apply spawnFloatingBlock_kept, IH, Hall.
Qed.

End Kept.

End BarrierArrays.

(** ** Barriers between the frames of a session *)

Section BarrierSettled.
Context `{Host}.

Lemma createCandidate_live g : live_barrier (fst (Barrier.createCandidate g)).
Proof.
  pose proof (createCandidate_spec g) as Hc.
  destruct (Barrier.createCandidate g) as [c g1]. apply Hc.
Qed.

Lemma createCandidate_sound g : sound_barrier (fst (Barrier.createCandidate g)).
Proof.
  pose proof (createCandidate_spec g) as Hc.
  destruct (Barrier.createCandidate g) as [c g1].
  destruct Hc as (_ & _ & Hs). intros _. cbn [fst]. lia.
Qed.

Lemma struck_sound b :
  sound_barrier b -> Barrier.BarrierBlock.destroyed b = false ->
  sound_barrier (barrier_struck b).
Proof.
  intros Hs Hd. specialize (Hs Hd). unfold barrier_struck, sound_barrier.
  cbn [Barrier.BarrierBlock.strength Barrier.BarrierBlock.set_strength].
  destruct (Barrier.BarrierBlock.strength b - 1 <=? 0) eqn:Hz;
    cbn [Barrier.BarrierBlock.strength Barrier.BarrierBlock.destroyed
         Barrier.BarrierBlock.set_strength Barrier.BarrierBlock.set_destroyed].
  - discriminate.
  - intros _. lia.
Qed.

Lemma createCandidate_placed g :
  (Barrier.padding * 2 <= GAME_WIDTH)%Q -> (Barrier.padding <= Barrier.maxY)%Q ->
  barrier_placed (fst (Barrier.createCandidate g)).
Proof.
  intros Hw Hh. unfold Barrier.createCandidate. cbv zeta.
  pose proof (next_range (Barrier.rng g)) as Hv1.
  destruct (RNG.next (Barrier.rng g)) as [v1 r1]. cbn [fst] in Hv1.
  cbn [Barrier.rng Barrier.set_rng].
  pose proof (next_range r1) as Hv2.
  destruct (RNG.next r1) as [v2 r2]. cbn [fst] in Hv2.
  destruct (RNG.next r2) as [v3 r3].
  cbn [fst]. unfold barrier_placed, Barrier.BarrierBlock.new.
  cbn [Barrier.BarrierBlock.size Barrier.BarrierBlock.x Barrier.BarrierBlock.y].
  split; [reflexivity|].
  set (p := Barrier.padding) in *. set (m := Barrier.maxY) in *.
  set (W := GAME_WIDTH) in *.
  split; split; nra.
Qed.

Lemma struck_placed b : barrier_placed b -> barrier_placed (barrier_struck b).
Proof.
  unfold barrier_struck, barrier_placed.
  cbn [Barrier.BarrierBlock.strength Barrier.BarrierBlock.set_strength].
  destruct (Barrier.BarrierBlock.strength b - 1 <=? 0); intros Hp; exact Hp.
Qed.

(** *** Barriers are live between passes *)

Lemma spawnFloatingBlock_live force g :
  Forall live_barrier (Barrier.barrierBlocks g) ->
  Forall live_barrier (Barrier.barrierBlocks (Barrier.spawnFloatingBlock force g)).
Proof. apply spawnFloatingBlock_kept. exact createCandidate_live. Qed.

Lemma move_ball_live delta ball g :
  Forall live_barrier (Barrier.barrierBlocks (snd (Barrier.move_ball delta ball g))).
Proof.
  unfold Barrier.move_ball.
  pose proof (barrier_handleCollisions_spec (Barrier.Ball.update delta ball) g) as Hk.
  destruct (Barrier.handleCollisions (Barrier.Ball.update delta ball) g)
    as [ball1 g1]. destruct Hk as (_ & _ & _ & _ & Hk & _).
  destruct (JS.Qleb _ _ && JS.Qltb _ _); [|exact Hk].
  destruct (JS.is_null (Barrier.activeBallChainLanding
                          (Barrier.set_restingBalls _ g1))); exact Hk.
Qed.

Lemma update_balls_live delta bs :
  forall g,
    Forall live_barrier (Barrier.barrierBlocks g) ->
    Forall live_barrier (Barrier.barrierBlocks (snd (Barrier.update_balls delta bs g))).
Proof.
  induction bs as [|ball rest IH]; intros g Hall; [exact Hall|].
  cbn [Barrier.update_balls].
  destruct (Barrier.Ball.resting ball).
  - specialize (IH g Hall).
    destruct (Barrier.update_balls delta rest g) as [rest' g']. exact IH.
  - pose proof (move_ball_live delta ball g) as Hk.
    destruct (Barrier.move_ball delta ball g) as [ball1 g1]. cbn [snd] in Hk.
    specialize (IH g1 Hk).
    destruct (Barrier.update_balls delta rest g1) as [rest' g']. exact IH.
Qed.

Lemma update_live delta g :
  Forall live_barrier (Barrier.barrierBlocks g) ->
  Forall live_barrier (Barrier.barrierBlocks (Barrier.update delta g)).
Proof.
  intros Hall. unfold Barrier.update.
  destruct (Barrier.isGameOver g); [exact Hall|].
  assert (Hs : Forall live_barrier (Barrier.barrierBlocks (Barrier.simulate delta g))).
  { unfold Barrier.simulate, Barrier.particle_step, Barrier.ball_step.
    assert (Hl : Forall live_barrier
                   (Barrier.barrierBlocks (Barrier.launch_step delta g))).
    { unfold Barrier.launch_step.
      destruct (Barrier.isLaunching g); [|exact Hall].
      destruct ((Barrier.pendingBalls _ >? 0) && JS.Qleb _ 0); [|exact Hall].
      apply spawnFloatingBlock_live. exact Hall. }
    pose proof (update_balls_live delta
                  (Barrier.balls (Barrier.launch_step delta g))
                  (Barrier.launch_step delta g) Hl) as Hk.
    destruct (Barrier.update_balls delta _ _) as [bs g2]. exact Hk. }
  destruct (Barrier.turn_done (Barrier.simulate delta g)); exact Hs.
Qed.

End BarrierSettled.

Section BarrierSessionBarriers.
Context `{Host} `{HostPointer}.

Lemma barrier_startAim_blocks pos g :
  Barrier.barrierBlocks (BarrierEvents.startAim pos g) = Barrier.barrierBlocks g.
Proof.
  unfold BarrierEvents.startAim.
  destruct (Barrier.isLaunching g || Barrier.isGameOver g); [reflexivity|].
  destruct pos as [[x y]|]; reflexivity.
Qed.

Lemma barrier_moveAim_blocks pos g :
  Barrier.barrierBlocks (BarrierEvents.moveAim pos g) = Barrier.barrierBlocks g.
Proof.
  unfold BarrierEvents.moveAim.
  destruct (negb (Barrier.isAiming g) || Barrier.isLaunching g); [reflexivity|].
  destruct pos as [[x y]|]; reflexivity.
Qed.

Lemma barrier_endAim_blocks g :
  Barrier.barrierBlocks (BarrierEvents.endAim g) = Barrier.barrierBlocks g.
Proof.
  unfold BarrierEvents.endAim.
  destruct (negb (Barrier.isAiming g) || Barrier.isLaunching g); [reflexivity|].
  cbv zeta. destruct (Barrier.turnAngle (Barrier.set_isAiming false g)); reflexivity.
Qed.

(** A property that candidates have and hits keep holds of all barriers of
    a session. *)
Lemma barrier_session_kept (P : Barrier.BarrierBlock.t -> Prop) f :
  (forall g, P (fst (Barrier.createCandidate g))) ->
  (forall b, P b -> Barrier.BarrierBlock.destroyed b = false -> P (barrier_struck b)) ->
  BarrierEvents.session f ->
  Forall P (Barrier.barrierBlocks (BarrierEvents.game f)).
Proof.
  intros Hcand Hstruck.
  induction 1 as [seed|timestamp f Hs IH Hmono|pos f Hs IH|pos f Hs IH|f Hs IH|f Hs IH];
    cbn [BarrierEvents.game BarrierEvents.loop BarrierEvents.start].
  - apply (update_kept P Hcand Hstruck). apply (reset_kept P Hcand).
  - apply (update_kept P Hcand Hstruck). exact IH.
  - rewrite barrier_startAim_blocks. exact IH.
  - rewrite barrier_moveAim_blocks. exact IH.
  - rewrite barrier_endAim_blocks. exact IH.
  - apply (reset_kept P Hcand).
Qed.

Lemma barrier_session_live f :
  BarrierEvents.session f ->
  Forall live_barrier (Barrier.barrierBlocks (BarrierEvents.game f)).
Proof.
  induction 1 as [seed|timestamp f Hs IH Hmono|pos f Hs IH|pos f Hs IH|f Hs IH|f Hs IH];
    cbn [BarrierEvents.game BarrierEvents.loop BarrierEvents.start].
  - apply update_live. apply (reset_kept live_barrier createCandidate_live).
  - apply update_live. exact IH.
  - rewrite barrier_startAim_blocks. exact IH.
  - rewrite barrier_moveAim_blocks. exact IH.
  - rewrite barrier_endAim_blocks. exact IH.
  - apply (reset_kept live_barrier createCandidate_live).
Qed.

End BarrierSessionBarriers.

(** ** Sessions of the barrier revision *)

Lemma sample_barrier_flight_session :
  @BarrierEvents.session sample_host sample_pointer sample_barrier_flight.
Proof.
  unfold sample_barrier_flight.
  apply BarrierEvents.session_frame.
  - apply BarrierEvents.session_frame.
    + unfold sample_barrier_released.
      apply BarrierEvents.session_endAim.
      unfold sample_barrier_aimed. cbv zeta.
      apply BarrierEvents.session_startAim.
      apply BarrierEvents.session_start.
    + cbn. unfold Qle. cbn. lia.
  - cbn. unfold Qle. cbn. lia.
Qed.

Lemma fillStyle_defined strength :
  1 <= strength ->
  exists c, fillStyle strength = Some c /\ In c BLOCK_COLORS.
Proof.
  intros Hs. pose proof (colorIndex_range strength Hs) as Hr.
  unfold fillStyle. cbv zeta.
  destruct (colorIndex strength <? 0) eqn:Hneg; [lia|].
  destruct (BLOCK_COLORS !! Z.to_nat (colorIndex strength)) as [c|] eqn:Hc.
  - exists c. split; [reflexivity|].
    apply list_elem_of_In, list_elem_of_lookup. eauto.
  - apply lookup_ge_None in Hc. cbn [length BLOCK_COLORS] in Hc. lia.
Qed.

Lemma createCandidate_size `{Host} g :
  Barrier.BarrierBlock.size (fst (Barrier.createCandidate g)) = Barrier.barrier_size.
Proof.
  unfold Barrier.createCandidate. cbv zeta.
  destruct (RNG.next (Barrier.rng g)) as [v1 r1].
  cbn [Barrier.rng Barrier.set_rng].
  destruct (RNG.next r1) as [v2 r2].
  destruct (RNG.next r2) as [v3 r3]. reflexivity.
Qed.

Lemma struck_size b :
  Barrier.BarrierBlock.size (barrier_struck b) = Barrier.BarrierBlock.size b.
Proof.
  unfold barrier_struck.
  cbn [Barrier.BarrierBlock.strength Barrier.BarrierBlock.set_strength].
  destruct (Barrier.BarrierBlock.strength b - 1 <=? 0); reflexivity.
Qed.

(** X9: the barrier revision has no way to lose.  In every state of a
    session (created by [new Game()], then driven by frames, the pointer
    handlers and the restart buttons) [isGameOver] is false, the grid
    [blocks] stay empty and [ballChain] stays 1; a turn has its single ball
    either pending or in [balls], nothing is in [balls] between turns, and
    while a turn is launching the aim is off and [turnAngle] is a number. *)
Theorem barrier_session_never_over
  (host : Host) (pointer : HostPointer) (f : BarrierEvents.frame) :
  BarrierEvents.session f ->
  Barrier.isGameOver (BarrierEvents.game f) = false /\
  Barrier.blocks (BarrierEvents.game f) = [] /\
  Barrier.ballChain (BarrierEvents.game f) = 1 /\
  1 <= Barrier.turn (BarrierEvents.game f) /\
  0 <= Barrier.pendingBalls (BarrierEvents.game f) /\
  Z.of_nat (length (Barrier.balls (BarrierEvents.game f)))
  + Barrier.pendingBalls (BarrierEvents.game f)
  = (if Barrier.isLaunching (BarrierEvents.game f) then 1 else 0) /\
  (Barrier.isLaunching (BarrierEvents.game f) = true ->
   Barrier.isAiming (BarrierEvents.game f) = false /\
   exists a, Barrier.turnAngle (BarrierEvents.game f) = Some a).
Proof.
  intros Hs. apply barrier_session_control in Hs.
  destruct Hs as (Hover & Hblocks & Hchain & Hturn & _ & Hlaunch & Hidle & Haim).
  split; [exact Hover|]. split; [exact Hblocks|]. split; [exact Hchain|].
  split; [exact Hturn|].
  destruct (Barrier.isLaunching (BarrierEvents.game f)) eqn:Hl.
  - destruct (Hlaunch eq_refl) as (Ha & Hp & Hsum).
    split; [exact Hp|]. split; [exact Hsum|]. intros _. split; [|exact Ha].
    destruct (Barrier.isAiming (BarrierEvents.game f)); [|reflexivity].
    discriminate (Haim eq_refl).
  - destruct (Hidle eq_refl) as (Hb & Hp). rewrite Hb, Hp.
    split; [lia|]. split; [reflexivity|]. intros Hx. discriminate Hx.
Qed.

Lemma barrier_session_never_over_witness :
  Barrier.isGameOver (BarrierEvents.game sample_barrier_flight) = false /\
  Barrier.isLaunching (BarrierEvents.game sample_barrier_flight) = true /\
  length (Barrier.balls (BarrierEvents.game sample_barrier_flight)) = 1%nat.
Proof.
  pose proof (barrier_session_never_over sample_host sample_pointer
                sample_barrier_flight sample_barrier_flight_session) as Hw.
  refine (conj (proj1 Hw) (conj _ _)); vm_compute; reflexivity.
Defined.

(** X10: where the balls of the barrier revision are.  On a canvas at
    least 14 wide and 38 high, in every state of a session every ball of
    [balls] has its centre at least [BALL_RADIUS] from both side walls and
    from the top; a resting ball lies on the base line with zero velocity,
    a flying ball has the velocity components of its launch up to their
    signs (walls and barriers only flip signs); the launcher position and
    the recorded landing are within the side walls as well. *)
Theorem barrier_session_balls_in_field
  (host : Host) (pointer : HostPointer) (f : BarrierEvents.frame) :
  (2 * BALL_RADIUS <= GAME_WIDTH)%Q -> (38 <= GAME_HEIGHT)%Q ->
  BarrierEvents.session f ->
  Barrier.baseY (BarrierEvents.game f) = (GAME_HEIGHT - 24)%Q /\
  on_base_line (Barrier.baseBallPosition (BarrierEvents.game f)) /\
  (forall x, Barrier.activeBallChainLanding (BarrierEvents.game f) = JS.Num x ->
             on_base_line x) /\
  forall b, In b (Barrier.balls (BarrierEvents.game f)) ->
    in_field (Barrier.Ball.x b) (Barrier.Ball.y b) /\
    if Barrier.Ball.resting b
    then Barrier.Ball.y b = (GAME_HEIGHT - 24 - BALL_RADIUS)%Q /\
         Barrier.Ball.vx b = 0%Q /\ Barrier.Ball.vy b = 0%Q
    else same_speed
           (Math_cos (JS.to_number (Barrier.turnAngle (BarrierEvents.game f)))
            * Barrier.BALL_SPEED) (Barrier.Ball.vx b) /\
         same_speed
           (Math_sin (JS.to_number (Barrier.turnAngle (BarrierEvents.game f)))
            * Barrier.BALL_SPEED) (Barrier.Ball.vy b).
Proof.
  intros Hwide Hhigh Hs.
  destruct (barrier_session_geometry Hwide Hhigh f Hs)
    as (Hbase & Hpos & Hland & Hballs & _ & _).
  split; [exact Hbase|]. split; [exact Hpos|]. split; [exact Hland|].
  intros b Hb. rewrite Forall_forall in Hballs.
  specialize (Hballs b (proj2 (list_elem_of_In _ _) Hb)).
  destruct Hballs as (Hin & Hrest). split; [exact Hin|].
  rewrite Hbase in Hrest. exact Hrest.
Qed.

Lemma barrier_session_balls_in_field_witness :
  exists b,
    In b (Barrier.balls (BarrierEvents.game sample_barrier_flight)) /\
    @in_field sample_host (Barrier.Ball.x b) (Barrier.Ball.y b).
Proof.
  assert (Hb : { b | Barrier.balls (BarrierEvents.game sample_barrier_flight) = [b] })
    by (eexists; vm_compute; reflexivity).
  destruct Hb as [b Hb]. exists b.
  assert (Hin : In b (Barrier.balls (BarrierEvents.game sample_barrier_flight)))
    by (rewrite Hb; left; reflexivity).
  split; [exact Hin|].
  apply (barrier_session_balls_in_field sample_host sample_pointer
           sample_barrier_flight); [vm_compute; discriminate | vm_compute; discriminate
                                    | exact sample_barrier_flight_session | exact Hin].
Defined.



(** ** Rows stepping down *)

Section GridStep.
Context `{Host}.

Lemma stepRowsDown_loop_spec bs :
  let '(out, reached) := Grid.stepRowsDown_loop bs in
  if reached
  then exists pre b post,
         bs = pre ++ b :: post /\
         out = List.map moved_down pre ++ moved_down b :: post /\
         Forall (fun b => ~ at_bottom (moved_down b)) pre /\
         at_bottom (moved_down b)
  else out = List.map moved_down bs /\
       Forall (fun b => ~ at_bottom (moved_down b)) bs.
Proof.
  induction bs as [|block rest IH]; cbn [Grid.stepRowsDown_loop].
  - split; [reflexivity|constructor].
  - fold (moved_down block).
    destruct (JS.Qleb _ _) eqn:Hb.
    + apply Qleb_le in Hb.
      exists [], block, rest. repeat split; [constructor|exact Hb].
    + apply Qleb_gt in Hb.
      assert (Hn : ~ at_bottom (moved_down block)).
      { unfold at_bottom. intros Hle. apply (Qlt_not_le _ _ Hb Hle). }
      destruct (Grid.stepRowsDown_loop rest) as [out [|]].
      * destruct IH as (pre & b & post & -> & -> & Hpre & Hat).
        exists (block :: pre), b, post. repeat split; [constructor; assumption|exact Hat].
      * destruct IH as (-> & Hall). split; [reflexivity|constructor; assumption].
Qed.

End GridStep.


(** ** The blocks of a session of the grid revision *)

Lemma StronglySorted_app_iff {A : Type} (R : A -> A -> Prop) (l1 l2 : list A) :
  StronglySorted R (l1 ++ l2) <->
  StronglySorted R l1 /\ StronglySorted R l2 /\
  (forall a b, a ∈ l1 -> b ∈ l2 -> R a b).
Proof.
  induction l1 as [|x l1 IH]; cbn [app].
  - split.
    + intros Hs. split; [constructor|]. split; [exact Hs|].
      intros a b Ha. apply elem_of_nil in Ha. destruct Ha.
    + intros (_ & Hs & _). exact Hs.
  - split.
    + intros Hs. apply StronglySorted_inv in Hs as [Hs Hx].
      apply IH in Hs as (H1 & H2 & Hc).
      apply Forall_app in Hx as [Hx1 Hx2].
      split; [constructor; assumption|]. split; [exact H2|].
      intros a b Ha Hb. apply elem_of_cons in Ha as [->|Ha].
      * rewrite Forall_forall in Hx2. apply Hx2, Hb.
      * apply Hc; assumption.
    + intros (H1 & H2 & Hc). apply StronglySorted_inv in H1 as [H1 Hx].
      constructor.
      * apply IH. split; [exact H1|]. split; [exact H2|].
        intros a b Ha Hb. apply Hc; [apply elem_of_cons; right; exact Ha|exact Hb].
      * apply Forall_app. split; [exact Hx|].
        rewrite Forall_forall. intros b Hb. apply Hc; [apply elem_of_cons; left; reflexivity|exact Hb].
Qed.

Lemma elem_of_List_map {A B : Type} (f : A -> B) (l : list A) (y : B) :
  y ∈ List.map f l <-> exists x, y = f x /\ x ∈ l.
Proof.
  rewrite list_elem_of_In, in_map_iff. split.
  - intros (x & <- & Hx). exists x. split; [reflexivity|apply list_elem_of_In, Hx].
  - intros (x & -> & Hx). exists x. split; [reflexivity|apply list_elem_of_In, Hx].
Qed.

Lemma elem_of_List_filter {A : Type} (f : A -> bool) (l : list A) (x : A) :
  x ∈ List.filter f l <-> x ∈ l /\ f x = true.
Proof. rewrite !list_elem_of_In. apply filter_In. Qed.

Section GridBlocks.
Context `{Host}.

(** *** Collision passes *)

Lemma struck_cell b : cell (struck b) = cell b /\ Block.type (struck b) = Block.type b.
Proof.
  unfold struck, cell.
  destruct (Block.is_pickup b); [|destruct (Block.is_block b)];
    match goal with
    | |- context [if ?c then _ else _] => destruct c
    end; split; reflexivity.
Qed.

Lemma after_visit_cell ball b :
  cell (after_visit ball b) = cell b /\
  Block.type (after_visit ball b) = Block.type b.
Proof.
  unfold after_visit.
  destruct (negb (Block.destroyed b) && reaches ball b);
    [apply struck_cell|split; reflexivity].
Qed.

Lemma struck_ok b :
  grid_block_ok b -> Block.destroyed (struck b) = false -> grid_block_ok (struck b).
Proof.
  intros (Hd & Hrow & Hkind) Hlive. unfold struck in *.
  destruct Hkind as [(Ht & Hs & c & Hc & Hrange)|(Ht & Hs & Hc)].
  - assert (Hp : Block.is_pickup b = false)
      by (unfold Block.is_pickup; rewrite Ht; reflexivity).
    assert (Hb : Block.is_block b = true)
      by (unfold Block.is_block; rewrite Ht; reflexivity).
    rewrite Hp, Hb in *.
    assert (Hb' : Block.is_block (Block.set_strength (Block.strength b - 1) b) = true)
      by exact Hb.
    cbn [Block.set_strength Block.strength Block.destroyed] in Hlive |- *.
    rewrite Hb', Hd in Hlive |- *. cbn [andb] in Hlive |- *.
    rewrite orb_false_r in Hlive |- *.
    destruct (Block.strength b - 1 <=? 0) eqn:Hz.
    + discriminate Hlive.
    + split; [exact Hd|]. split; [exact Hrow|]. left.
      cbn [Block.type Block.strength Block.col Block.set_strength].
      split; [exact Ht|]. split; [lia|]. exists c. split; assumption.
  - assert (Hp : Block.is_pickup b = true)
      by (unfold Block.is_pickup; rewrite Ht; reflexivity).
    rewrite Hp in *.
    cbn [Block.destroyed Block.set_destroyed] in Hlive.
    rewrite orb_true_r in Hlive. discriminate Hlive.
Qed.

Lemma after_visit_ok ball b :
  grid_block_ok b -> Block.destroyed (after_visit ball b) = false ->
  grid_block_ok (after_visit ball b).
Proof.
  unfold after_visit.
  destruct (negb (Block.destroyed b) && reaches ball b);
    [apply struck_ok|intros Hok _; exact Hok].
Qed.

Lemma survivors_elem ball bs b' :
  b' ∈ survivors ball bs ->
  exists b, b ∈ bs /\ b' = after_visit ball b /\ Block.destroyed b' = false.
Proof.
  unfold survivors. rewrite elem_of_List_filter, elem_of_List_map.
  intros ((b & -> & Hb) & Hlive). exists b. split; [exact Hb|].
  split; [reflexivity|]. apply negb_true_iff, Hlive.
Qed.

Lemma survivors_cons ball b bs :
  survivors ball (b :: bs)
  = if Block.destroyed (after_visit ball b) then survivors ball bs
    else after_visit ball b :: survivors ball bs.
Proof.
  unfold survivors. cbn [List.map List.filter].
  destruct (Block.destroyed (after_visit ball b)); reflexivity.
Qed.

Lemma survivors_ok ball bs : grid_blocks_ok bs -> grid_blocks_ok (survivors ball bs).
Proof.
  intros (Hall & Hsort & Hnd).
  induction bs as [|b bs IH].
  - repeat split; constructor.
  - apply Forall_cons_1 in Hall as [Hb Hall].
    apply StronglySorted_inv in Hsort as [Hsort Hle].
    cbn [List.map] in Hnd. apply NoDup_cons in Hnd as [Hnin Hnd].
    destruct (IH Hall Hsort Hnd) as (IH1 & IH2 & IH3).
    rewrite survivors_cons.
    destruct (Block.destroyed (after_visit ball b)) eqn:Hd.
    + repeat split; assumption.
    + destruct (after_visit_cell ball b) as [Hcell _].
      split; [|split].
      * constructor; [apply after_visit_ok; assumption|exact IH1].
      * constructor; [exact IH2|].
        rewrite Forall_forall. intros b' Hb'.
        apply survivors_elem in Hb' as (b0 & Hb0 & -> & _).
        destruct (after_visit_cell ball b0) as [Hcell0 _].
        rewrite Forall_forall in Hle. specialize (Hle b0 Hb0).
        unfold cell in Hcell, Hcell0.
        injection Hcell as _ ->. injection Hcell0 as _ ->. exact Hle.
      * cbn [List.map]. apply NoDup_cons. split; [|exact IH3].
        rewrite Hcell. intros Hin. apply Hnin.
        apply elem_of_List_map in Hin as (b' & Hc & Hb').
        apply survivors_elem in Hb' as (b0 & Hb0 & -> & _).
        destruct (after_visit_cell ball b0) as [Hcell0 _].
        apply elem_of_List_map. exists b0. split; [congruence|exact Hb0].
Qed.

(** *** Rows stepping down *)

Lemma moved_down_ok b : grid_block_ok b -> grid_block_ok (moved_down b).
Proof.
  intros (Hd & Hrow & Hkind). split; [exact Hd|].
  split; [cbn [moved_down Block.updateRow Block.row]; lia|exact Hkind].
Qed.

Lemma step_prefix_ok l1 l2 :
  grid_blocks_ok (l1 ++ l2) -> grid_blocks_ok (List.map moved_down l1 ++ l2).
Proof.
  intros (Hall & Hsort & Hnd).
  apply Forall_app in Hall as [Hall1 Hall2].
  apply StronglySorted_app_iff in Hsort as (Hs1 & Hs2 & Hcross).
  rewrite map_app in Hnd. apply NoDup_app in Hnd as (Hn1 & Hn12 & Hn2).
  split; [|split].
  - apply Forall_app. split; [|exact Hall2].
    rewrite Forall_forall in *. intros b' Hb'.
    apply elem_of_List_map in Hb' as (b & -> & Hb). apply moved_down_ok, Hall1, Hb.
  - apply StronglySorted_app_iff. split; [|split; [exact Hs2|]].
    + clear -Hs1. induction l1 as [|b l1 IH]; [constructor|].
      apply StronglySorted_inv in Hs1 as [Hs1 Hle]. cbn [List.map].
      constructor; [apply IH, Hs1|].
      rewrite Forall_forall in *. intros b' Hb'.
      apply elem_of_List_map in Hb' as (b0 & -> & Hb0). specialize (Hle b0 Hb0).
      cbn [moved_down Block.updateRow Block.row]. lia.
    + intros a b Ha Hb. apply elem_of_List_map in Ha as (a0 & -> & Ha0).
      specialize (Hcross a0 b Ha0 Hb).
      cbn [moved_down Block.updateRow Block.row]. lia.
  - rewrite map_app. apply NoDup_app. split; [|split; [|exact Hn2]].
    + clear -Hn1. induction l1 as [|b l1 IH]; [constructor|].
      cbn [List.map] in *. apply NoDup_cons in Hn1 as [Hnin Hn1].
      apply NoDup_cons. split; [|apply IH, Hn1].
      intros Hin. apply Hnin.
      apply elem_of_List_map in Hin as (b1 & Hc & Hb1).
      apply elem_of_List_map in Hb1 as (b0 & -> & Hb0).
      apply elem_of_List_map. exists b0. split; [|exact Hb0].
      unfold cell, moved_down in *. cbn [Block.updateRow Block.col Block.row] in Hc.
      injection Hc as Hcol Hrow. f_equal; [exact Hcol|lia].
    + intros c Hc1 Hc2.
      apply elem_of_List_map in Hc1 as (b1 & -> & Hb1).
      apply elem_of_List_map in Hb1 as (a0 & -> & Ha0).
      apply elem_of_List_map in Hc2 as (b & Hc & Hb).
      specialize (Hcross a0 b Ha0 Hb).
      unfold cell, moved_down in Hc. cbn [Block.updateRow Block.col Block.row] in Hc.
      injection Hc as _ Hrow. lia.
Qed.

Lemma stepRowsDown_loop_ok bs :
  grid_blocks_ok bs ->
  grid_blocks_ok (fst (Grid.stepRowsDown_loop bs)) /\
  (snd (Grid.stepRowsDown_loop bs) = false ->
   Forall (fun b => 1 <= Block.row b /\ ~ at_bottom b)
          (fst (Grid.stepRowsDown_loop bs))) /\
  (snd (Grid.stepRowsDown_loop bs) = true ->
   exists b, b ∈ fst (Grid.stepRowsDown_loop bs) /\ at_bottom b).
Proof.
  intros Hok. pose proof (stepRowsDown_loop_spec bs) as Hs.
  destruct (Grid.stepRowsDown_loop bs) as [out [|]]; cbn [fst snd].
  - destruct Hs as (pre & b & post & -> & -> & Hpre & Hat).
    split; [|split; [intros Hx; discriminate Hx|]].
    + change (moved_down b :: post) with ([moved_down b] ++ post).
      rewrite app_assoc.
      change [moved_down b] with (List.map moved_down [b]). rewrite <- map_app.
      apply step_prefix_ok. rewrite <- app_assoc. exact Hok.
    + intros _. exists (moved_down b). split; [|exact Hat].
      apply elem_of_app. right. apply elem_of_cons. left. reflexivity.
  - destruct Hs as (-> & Hall).
    split; [|split; [|intros Hx; discriminate Hx]].
    + rewrite <- (app_nil_r (List.map moved_down bs)).
      apply step_prefix_ok. rewrite app_nil_r. exact Hok.
    + intros _. destruct Hok as (Hok & _).
      rewrite Forall_forall in *. intros b' Hb'.
      apply elem_of_List_map in Hb' as (b & -> & Hb).
      destruct (Hok b Hb) as (_ & Hrow & _).
      split; [cbn [moved_down Block.updateRow Block.row]; lia|apply Hall, Hb].
Qed.

End GridBlocks.

(** ** New rows *)

Section GridSpawn.
Context `{Host}.

Lemma spawnRow_loop_range fuel :
  forall blockCount taken g taken' g',
    Grid.spawnRow_loop fuel blockCount taken g = Some (taken', g') ->
    exists new,
      Grid.blocks g' = Grid.blocks g ++ new /\
      Forall (fun b => exists c, Block.col b = Some c /\ 0 <= c <= GRID_COLUMNS) new.
Proof.
  induction fuel as [|fuel IH]; intros blockCount taken g taken' g' Hrun;
    cbn [Grid.spawnRow_loop] in Hrun;
    destruct (blockCount >? 0) eqn:Hgt.
  - discriminate Hrun.
  - injection Hrun as <- <-. exists []. rewrite app_nil_r. split; [reflexivity|constructor].
  - pose proof (next_range (Grid.rng g)) as Hv.
    destruct (RNG.next (Grid.rng g)) as [v r] eqn:Hnext. cbn [fst] in Hv.
    cbn [Grid.rng Grid.set_rng] in Hrun.
    destruct (floor_scaled_range v GRID_COLUMNS Hv ltac:(reflexivity)) as [Hcol _].
    set (col := JS.Math_floor (v * inject_Z GRID_COLUMNS)%Q) in *.
    case_bool_decide as Hin.
    + apply IH in Hrun. exact Hrun.
    + destruct (RNG.next r) as [v2 r2] eqn:Hnext2.
      cbn [Grid.rng Grid.set_rng Grid.set_blocks Grid.blocks Grid.turn] in Hrun.
      apply IH in Hrun. destruct Hrun as (new & Hb & Hall).
      cbn [Grid.blocks Grid.set_blocks Grid.set_rng] in Hb.
      eexists (_ :: new). split.
      * rewrite Hb, <- app_assoc. reflexivity.
      * constructor; [|exact Hall]. exists col. split; [reflexivity|exact Hcol].
  - injection Hrun as <- <-. exists []. rewrite app_nil_r. split; [reflexivity|constructor].
Qed.

Lemma randomChoice_free (taken : gset Z) r c :
  fst (randomChoice
         (List.filter (fun c => negb (bool_decide (c ∈ taken)))
                      (List.map Z.of_nat (seq 0 (Z.to_nat GRID_COLUMNS)))) r) = Some c ->
  0 <= c < GRID_COLUMNS /\ c ∉ taken.
Proof.
  unfold randomChoice. destruct (RNG.next r) as [v r']. cbn [fst].
  intros Hl. apply list_elem_of_lookup_2 in Hl.
  apply elem_of_List_filter in Hl as [Hl Hfree].
  apply elem_of_List_map in Hl as (n & -> & Hn).
  apply list_elem_of_In, in_seq in Hn.
  apply negb_true_iff, bool_decide_eq_false in Hfree.
  split; [|exact Hfree]. change GRID_COLUMNS with 7 in *. cbn in Hn. lia.
Qed.

(** The blocks that [spawnRow] appends. *)
Lemma spawnRow_cells fuel g g' :
  Grid.spawnRow fuel g = Some g' ->
  spawn_frame g' = spawn_frame g /\
  exists new,
    Grid.blocks g' = Grid.blocks g ++ new /\
    Forall (fun b => grid_block_ok b /\ Block.row b = 0) new /\
    NoDup (List.map Block.col new).
Proof.
  intros Hrun.
  destruct (spawnRow_spec _ _ _ Hrun) as (_ & _ & _ & _ & _ & _ & _ & _ & _ & Hfr).
  split; [exact Hfr|]. clear Hfr.
  unfold Grid.spawnRow in Hrun.
  pose proof (next_range (Grid.rng g)) as Hv.
  destruct (RNG.next (Grid.rng g)) as [v r] eqn:Hnext. cbn [fst] in Hv.
  rewrite minBlocks_value, maxBlocks_value in Hrun.
  change (5 - 3 + 1) with 3 in Hrun.
  destruct (floor_scaled_range v 3 Hv ltac:(lia)) as [Hcnt _].
  set (blockCount := JS.Math_floor (v * inject_Z 3)%Q + 3) in *.
  destruct (Grid.spawnRow_loop fuel blockCount ∅ (Grid.set_rng r g))
    as [[taken g1]|] eqn:Hloop; [|discriminate Hrun].
  pose proof (spawnRow_loop_range _ _ _ _ _ _ Hloop) as (new' & Hb' & Hrange).
  apply spawnRow_loop_spec in Hloop; [|subst blockCount; lia].
  destruct Hloop as (new & Hb & _ & Hall & Hnd & _ & _).
  rewrite Hb in Hb'. apply app_inv_head in Hb'. subst new'.
  cbn [Grid.blocks Grid.set_rng] in Hb.
  assert (Hok : Forall (fun b => grid_block_ok b /\ Block.row b = 0) new).
  { rewrite Forall_forall in *. intros b Hin.
    destruct (Hall b Hin) as (Ht & Hr & Hd & Hs & _).
    destruct (Hrange b Hin) as (c & Hc & Hcr).
    split; [|exact Hr]. split; [exact Hd|]. split; [lia|]. left.
    split; [apply String.eqb_eq, Ht|]. split; [exact Hs|].
    exists c. split; assumption. }
  destruct (RNG.next (Grid.rng g1)) as [v2 r2] eqn:Hnext2.
  destruct (JS.Qltb (65 # 100) v2).
  - match type of Hrun with
    | context [if ?c then _ else _] => destruct c
    end.
    + match type of Hrun with
      | context [randomChoice ?l ?rr] =>
          pose proof (randomChoice_free taken rr) as Hfree;
          destruct (randomChoice l rr) as [spawnCol r3]
      end.
      cbn [fst] in Hfree.
      injection Hrun as <-. exists (new ++ [Block.new spawnCol 0 1 "pickup"]).
      cbn [Grid.blocks Grid.set_blocks Grid.set_rng].
      split; [rewrite Hb, <- app_assoc; reflexivity|]. split.
      * apply Forall_app. split; [exact Hok|]. constructor; [|constructor].
        split; [|reflexivity]. split; [reflexivity|]. split; [cbn; lia|]. right.
        split; [reflexivity|]. split; [reflexivity|].
        intros c Hc. cbn [Block.col Block.new] in Hc. subst spawnCol.
        apply (Hfree c eq_refl).
      * rewrite map_app. apply NoDup_app. split; [exact Hnd|]. split.
        -- intros oc Hin1 Hin2. cbn [List.map Block.col Block.new] in Hin2.
           apply list_elem_of_singleton in Hin2. subst oc.
           apply elem_of_List_map in Hin1 as (b & Hcb & Hbin).
           rewrite Forall_forall in Hall.
           destruct (Hall b Hbin) as (_ & _ & _ & _ & c & Hc & _ & Hin').
           rewrite Hc in Hcb. destruct (Hfree c Hcb) as [_ Hnin]. contradiction.
        -- cbn [List.map]. apply NoDup_singleton.
    + injection Hrun as <-. exists new.
      cbn [Grid.blocks Grid.set_rng]. repeat split; assumption.
  - injection Hrun as <-. exists new.
    cbn [Grid.blocks Grid.set_rng]. repeat split; assumption.
Qed.

Lemma spawnRow_ok fuel g g' :
  Grid.spawnRow fuel g = Some g' ->
  grid_blocks_ok (Grid.blocks g) ->
  Forall (fun b => 1 <= Block.row b) (Grid.blocks g) ->
  grid_blocks_ok (Grid.blocks g').
Proof.
  intros Hrun (Hall & Hsort & Hnd) Hrows.
  destruct (spawnRow_cells _ _ _ Hrun) as (_ & new & -> & Hnew & Hcols).
  split; [|split].
  - apply Forall_app. split; [exact Hall|].
    eapply Forall_impl; [exact Hnew|]. intros b Hb. apply Hb.
  - apply StronglySorted_app_iff. split; [exact Hsort|]. split.
    + clear Hcols. induction new as [|b new IH]; [constructor|].
      apply Forall_cons_1 in Hnew as [Hb Hnew]. constructor; [apply IH, Hnew|].
      eapply Forall_impl; [exact Hnew|]. intros b' Hb'. cbv beta in Hb'. lia.
    + intros a b Ha Hb. rewrite Forall_forall in Hrows, Hnew.
      specialize (Hrows a Ha). destruct (Hnew b Hb) as [_ Hr]. lia.
  - rewrite map_app. apply NoDup_app. split; [exact Hnd|]. split.
    + intros c Hc1 Hc2.
      apply elem_of_List_map in Hc1 as (a & -> & Ha).
      apply elem_of_List_map in Hc2 as (b & Hc & Hb).
      rewrite Forall_forall in Hrows, Hnew.
      specialize (Hrows a Ha). destruct (Hnew b Hb) as [_ Hr].
      unfold cell in Hc. injection Hc as _ Hrow. lia.
    + clear Hall Hsort Hnd Hrows.
      induction new as [|b new IH]; [constructor|].
      apply Forall_cons_1 in Hnew as [Hb Hnew].
      cbn [List.map] in *. apply NoDup_cons in Hcols as [Hnin Hcols].
      apply NoDup_cons. split; [|apply IH; assumption].
      intros Hin. apply Hnin.
      apply elem_of_List_map in Hin as (b' & Hc & Hb').
      apply elem_of_List_map. exists b'. split; [|exact Hb'].
      unfold cell in Hc. congruence.
Qed.

End GridSpawn.

(** ** One tick of the grid revision *)

Section GridFrames.
Context `{Host}.

Lemma pass_nonneg ball bs : 0 <= pass_score ball bs /\ 0 <= pass_chain ball bs.
Proof.
  unfold pass_score, pass_chain.
  induction bs as [|b bs [IH1 IH2]]; cbn [List.map list_sum_Z fold_right]; [lia|].
  fold (list_sum_Z
          (List.map (fun block =>
                       if negb (Block.destroyed block) && reaches ball block
                       then fst (award block) else 0) bs)) in *.
  fold (list_sum_Z
          (List.map (fun block =>
                       if negb (Block.destroyed block) && reaches ball block
                       then snd (award block) else 0) bs)) in *.
  assert (Ha : 0 <= fst (award b) /\ 0 <= snd (award b)).
  { unfold award. destruct (Block.is_pickup b); [cbn; lia|].
    destruct (Block.is_block b); cbn; lia. }
  destruct (negb (Block.destroyed b) && reaches ball b); lia.
Qed.

Lemma grid_move_ball_blocks delta ball g :
  Grid.blocks (snd (Grid.move_ball delta ball g))
  = survivors (Grid.Ball.update delta ball) (Grid.blocks g) /\
  Grid.ballChain g <= Grid.ballChain (snd (Grid.move_ball delta ball g)) /\
  Grid.score g <= Grid.score (snd (Grid.move_ball delta ball g)) /\
  Grid.balls (snd (Grid.move_ball delta ball g)) = Grid.balls g /\
  Grid.pendingBalls (snd (Grid.move_ball delta ball g)) = Grid.pendingBalls g.
Proof.
  unfold Grid.move_ball.
  pose proof (handleCollisions_spec (Grid.Ball.update delta ball) g) as Hh.
  pose proof (pass_nonneg (Grid.Ball.update delta ball) (Grid.blocks g)) as [Hs Hc].
  destruct (Grid.handleCollisions (Grid.Ball.update delta ball) g) as [ball1 g1].
  destruct Hh as (Hb & _ & _ & _ & Hsc & Hch & Hf).
  assert (Hbl : Grid.balls g1 = Grid.balls g) by congruence.
  assert (Hp : Grid.pendingBalls g1 = Grid.pendingBalls g) by congruence.
  assert (Hgoal : Grid.blocks g1 = survivors (Grid.Ball.update delta ball) (Grid.blocks g) /\
                  Grid.ballChain g <= Grid.ballChain g1 /\
                  Grid.score g <= Grid.score g1 /\
                  Grid.balls g1 = Grid.balls g /\
                  Grid.pendingBalls g1 = Grid.pendingBalls g)
    by (repeat split; try assumption; lia).
  destruct (JS.Qleb _ _ && JS.Qltb _ _); [|exact Hgoal].
  destruct (JS.is_null (Grid.activeBallChainLanding
                          (Grid.set_restingBalls _ g1))); exact Hgoal.
Qed.

Lemma grid_update_balls_blocks delta bs :
  forall g,
    (exists bl, Grid.blocks (snd (Grid.update_balls delta bs g))
                = survivors_all bl (Grid.blocks g)) /\
    Grid.ballChain g <= Grid.ballChain (snd (Grid.update_balls delta bs g)) /\
    Grid.score g <= Grid.score (snd (Grid.update_balls delta bs g)) /\
    Grid.balls (snd (Grid.update_balls delta bs g)) = Grid.balls g /\
    Grid.pendingBalls (snd (Grid.update_balls delta bs g)) = Grid.pendingBalls g /\
    length (fst (Grid.update_balls delta bs g)) = length bs.
Proof.
  induction bs as [|ball rest IH]; intros g; cbn [Grid.update_balls].
  { cbn [fst snd]. split; [exists []; reflexivity|]. repeat split; lia. }
  destruct (Grid.Ball.resting ball).
  - specialize (IH g).
    destruct (Grid.update_balls delta rest g) as [rest' g'].
    cbn [fst snd length] in *.
    destruct IH as (Hb & Hc & Hs & Hbl & Hp & Hl).
    split; [exact Hb|]. repeat split; try assumption. lia.
  - pose proof (grid_move_ball_blocks delta ball g) as Hm.
    destruct (Grid.move_ball delta ball g) as [ball1 g1]. cbn [snd] in Hm.
    destruct Hm as (Hb1 & Hc1 & Hs1 & Hbl1 & Hp1).
    specialize (IH g1).
    destruct (Grid.update_balls delta rest g1) as [rest' g'].
    cbn [fst snd length] in *.
    destruct IH as ((bl & Hb) & Hc & Hs & Hbl & Hp & Hl).
    split; [|repeat split; try congruence; lia].
    exists (Grid.Ball.update delta ball :: bl).
    rewrite Hb, Hb1. reflexivity.
Qed.

Lemma grid_launch_step_count delta g :
  Grid.blocks (Grid.launch_step delta g) = Grid.blocks g /\
  Grid.ballChain (Grid.launch_step delta g) = Grid.ballChain g /\
  Grid.score (Grid.launch_step delta g) = Grid.score g /\
  Z.of_nat (length (Grid.balls (Grid.launch_step delta g)))
  + Grid.pendingBalls (Grid.launch_step delta g)
  = Z.of_nat (length (Grid.balls g)) + Grid.pendingBalls g /\
  (0 <= Grid.pendingBalls g -> 0 <= Grid.pendingBalls (Grid.launch_step delta g)).
Proof.
  unfold Grid.launch_step.
  destruct (Grid.isLaunching g); [|repeat split; intros Hx; exact Hx].
  cbn [Grid.pendingBalls Grid.launchTimer Grid.set_launchTimer].
  destruct (Grid.pendingBalls g >? 0) eqn:Hp; cbn [andb];
    [|repeat split; intros Hx; exact Hx].
  destruct (JS.Qleb (Grid.launchTimer g - delta) 0);
    [|repeat split; intros Hx; exact Hx].
  cbn. rewrite length_app. cbn [length]. repeat split; lia.
Qed.

Lemma grid_simulate_step delta g :
  grid_mode (Grid.simulate delta g) = grid_mode g /\
  (exists bl, Grid.blocks (Grid.simulate delta g)
              = survivors_all bl (Grid.blocks g)) /\
  Grid.ballChain g <= Grid.ballChain (Grid.simulate delta g) /\
  Grid.score g <= Grid.score (Grid.simulate delta g) /\
  Z.of_nat (length (Grid.balls (Grid.simulate delta g)))
  + Grid.pendingBalls (Grid.simulate delta g)
  = Z.of_nat (length (Grid.balls g)) + Grid.pendingBalls g /\
  (0 <= Grid.pendingBalls g -> 0 <= Grid.pendingBalls (Grid.simulate delta g)) /\
  (Grid.isLaunching g = false ->
   Grid.pendingBalls (Grid.simulate delta g) = Grid.pendingBalls g).
Proof.
  split; [apply grid_simulate_spec|].
  pose proof (grid_launch_step_spec delta g) as (_ & _ & _ & Hidle).
  unfold Grid.simulate, Grid.particle_step, Grid.ball_step.
  destruct (grid_launch_step_count delta g) as (Hb1 & Hc1 & Hs1 & Hn1 & Hp1).
  remember (Grid.launch_step delta g) as g1 eqn:Hg1.
  pose proof (grid_update_balls_blocks delta (Grid.balls g1) g1)
    as ((bl & Hb) & Hc & Hs & Hbl & Hp & Hl).
  destruct (Grid.update_balls delta (Grid.balls g1) g1) as [bs g2].
  cbn [fst snd] in *.
  cbn [Grid.blocks Grid.ballChain Grid.score Grid.balls Grid.pendingBalls
       Grid.set_particles Grid.set_balls].
  split; [exists bl; rewrite Hb, Hb1; reflexivity|].
  split; [lia|]. split; [lia|]. split; [rewrite Hl, Hp; exact Hn1|].
  split; [intros Hx; rewrite Hp; apply Hp1, Hx|].
  intros Hx. rewrite Hp, (Hidle Hx). reflexivity.
Qed.

Lemma survivors_all_ok bl :
  forall bs, grid_blocks_ok bs -> grid_blocks_ok (survivors_all bl bs).
Proof.
  induction bl as [|ball bl IH]; intros bs Hok; [exact Hok|].
  cbn [survivors_all fold_left].
  change (grid_blocks_ok (survivors_all bl (survivors ball bs))).
  apply IH, survivors_ok, Hok.
Qed.

Lemma survivors_all_cell bl :
  forall bs b', b' ∈ survivors_all bl bs -> exists b, b ∈ bs /\ cell b' = cell b.
Proof.
  induction bl as [|ball bl IH]; intros bs b' Hb'.
  - exists b'. split; [exact Hb'|reflexivity].
  - cbn [survivors_all fold_left] in Hb'.
    change (b' ∈ survivors_all bl (survivors ball bs)) in Hb'.
    apply IH in Hb' as (b1 & Hb1 & Hc1).
    apply survivors_elem in Hb1 as (b & Hb & -> & _).
    exists b. split; [exact Hb|].
    rewrite Hc1. apply after_visit_cell.
Qed.

Lemma at_bottom_cell b b' : cell b' = cell b -> at_bottom b' -> at_bottom b.
Proof.
  unfold cell, at_bottom. intros Hc. injection Hc as _ ->. intros Hx; exact Hx.
Qed.

(** [finishTurn()] *)
Lemma grid_finishTurn_step fuel s g' :
  Grid.finishTurn fuel s = Some g' ->
  (Grid.isLaunching g' = false /\ Grid.isAiming g' = false /\
   Grid.turnAngle g' = None /\ Grid.turn g' = Grid.turn s + 1 /\
   Grid.balls g' = [] /\ Grid.pendingBalls g' = Grid.pendingBalls s /\
   Grid.ballChain g' = Grid.ballChain s /\ Grid.score g' = Grid.score s /\
   Grid.baseY g' = Grid.baseY s /\
   Grid.baseBallPosition g'
   = JS.nullish (Grid.activeBallChainLanding s) (Grid.baseBallPosition s) /\
   Grid.activeBallChainLanding g' = Grid.activeBallChainLanding s) /\
  (grid_blocks_ok (Grid.blocks s) -> grid_blocks_ok (Grid.blocks g')) /\
  (Grid.isGameOver s = false ->
   (Grid.isGameOver g' = true -> exists b, b ∈ Grid.blocks g' /\ at_bottom b) /\
   (Grid.isGameOver g' = false -> (GRID_SIZE < GAME_HEIGHT)%Q ->
    Forall (fun b => ~ at_bottom b) (Grid.blocks g'))).
Proof.
  unfold Grid.finishTurn, Grid.stepRowsDown.
  remember (Grid.finishTurn_settle s) as g1 eqn:Hg1.
  assert (Hs : (Grid.isLaunching g1 = false /\ Grid.isAiming g1 = false /\
                Grid.turnAngle g1 = None /\ Grid.turn g1 = Grid.turn s + 1 /\
                Grid.balls g1 = [] /\ Grid.pendingBalls g1 = Grid.pendingBalls s /\
                Grid.ballChain g1 = Grid.ballChain s /\ Grid.score g1 = Grid.score s /\
                Grid.baseY g1 = Grid.baseY s /\
                Grid.baseBallPosition g1
                = JS.nullish (Grid.activeBallChainLanding s) (Grid.baseBallPosition s) /\
                Grid.activeBallChainLanding g1 = Grid.activeBallChainLanding s) /\
               Grid.blocks g1 = Grid.blocks s /\
               Grid.isGameOver g1 = Grid.isGameOver s)
    by (subst g1; repeat split).
  clear Hg1. destruct Hs as (Hflags & Hbs & Hover).
  pose proof (stepRowsDown_loop_ok (Grid.blocks g1)) as Hstep.
  pose proof (stepRowsDown_loop_spec (Grid.blocks g1)) as Hspec.
  destruct (Grid.stepRowsDown_loop (Grid.blocks g1)) as [bs reached].
  cbn [fst snd] in Hstep.
  destruct reached; cbn [negb].
  - intros Hsome. injection Hsome as <-.
    destruct Hflags as (_ & _ & _ & F4 & F5 & F6 & F7 & F8 & F9 & F10 & F11).
    split; [cbn; repeat split; assumption|]. split.
    + intros Hok. rewrite <- Hbs in Hok. apply Hstep, Hok.
    + intros _. split; [|intros Hx; discriminate Hx].
      intros _. destruct Hspec as (pre & b & post & _ & -> & _ & Hat).
      exists (moved_down b). split; [|exact Hat].
      cbn [Grid.blocks Grid.gameOver Grid.set_blocks Grid.set_isLaunching
           Grid.set_isAiming Grid.set_turnAngle Grid.set_isGameOver].
      apply elem_of_app. right. apply elem_of_cons. left. reflexivity.
  - intros Hsome. destruct Hspec as (-> & Hnot).
    destruct (spawnRow_cells _ _ _ Hsome) as (Hfr & new & Hnew_eq & Hnew & _).
    unfold spawn_frame in Hfr. cbn in Hfr.
    injection Hfr as E1 E2 E3 E4 E5 E6 E7 E8 E9 E10 E11 E12 E13 E14 E15 E16 E17.
    destruct Hflags as (F1 & F2 & F3 & F4 & F5 & F6 & F7 & F8 & F9 & F10 & F11).
    split; [repeat split; congruence|]. split.
    + intros Hok. rewrite <- Hbs in Hok.
      destruct (Hstep Hok) as (Hok1 & Hrows & _).
      eapply spawnRow_ok; [exact Hsome|exact Hok1|].
      cbn [Grid.blocks Grid.set_blocks].
      eapply Forall_impl; [apply (Hrows eq_refl)|]. intros b Hb. apply Hb.
    + intros Hlive. split.
      { intros Hx. rewrite E13, Hover, Hlive in Hx. discriminate Hx. }
      intros _ Hroom. rewrite Hnew_eq. cbn [Grid.blocks Grid.set_blocks].
      apply Forall_app. split.
      * rewrite Forall_forall in *. intros b' Hb'.
        apply elem_of_List_map in Hb' as (b & -> & Hb). apply Hnot, Hb.
      * eapply Forall_impl; [exact Hnew|]. intros b (_ & Hr).
        unfold at_bottom. rewrite Hr. intros Hle.
        change (inject_Z 0) with 0%Q in Hle.
        set (gs := GRID_SIZE) in *. set (gh := GAME_HEIGHT) in *. lra.
Qed.

End GridFrames.

(** ** Sessions of the grid revision: phase and blocks *)

Section GridControl.
Context `{Host} `{HostPointer}.

Lemma grid_mode_all g g' :
  grid_mode g' = grid_mode g ->
  Grid.baseBallPosition g' = Grid.baseBallPosition g /\
  Grid.baseY g' = Grid.baseY g /\
  Grid.turnAngle g' = Grid.turnAngle g /\
  Grid.isAiming g' = Grid.isAiming g /\
  Grid.isLaunching g' = Grid.isLaunching g /\
  Grid.turn g' = Grid.turn g /\
  Grid.isGameOver g' = Grid.isGameOver g.
Proof. unfold grid_mode. intros Hf. inversion Hf. repeat split; congruence. Qed.

Lemma grid_update_cases fuel delta g g' :
  Grid.update fuel delta g = Some g' ->
  (Grid.isGameOver g = true /\ g' = g) \/
  (Grid.isGameOver g = false /\
   Grid.turn_done (Grid.simulate delta g) = false /\ g' = Grid.simulate delta g) \/
  (Grid.isGameOver g = false /\
   Grid.turn_done (Grid.simulate delta g) = true /\
   Grid.finishTurn fuel (Grid.simulate delta g) = Some g').
Proof.
  unfold Grid.update. destruct (Grid.isGameOver g).
  - intros Hx. injection Hx as <-. left. split; reflexivity.
  - cbv zeta. destruct (Grid.turn_done (Grid.simulate delta g)).
    + intros Hx. right. right. repeat split. exact Hx.
    + intros Hx. injection Hx as <-. right. left. repeat split.
Qed.

Lemma grid_update_control fuel delta g g' :
  Grid.update fuel delta g = Some g' -> grid_control g -> grid_control g'.
Proof.
  intros Hupd Hc.
  destruct (grid_update_cases _ _ _ _ Hupd)
    as [(Hover & ->)|[(Hover & Hdone & ->)|(Hover & Hdone & Hfin)]]; [exact Hc| |].
  - destruct Hc as (Hchain & Hturn & Hscore & Hangle & Hlaunch & Hidle & Haim & Hend).
    destruct (grid_simulate_step delta g)
      as (Hmode & _ & Hch & Hsc & Hsum & Hpos & Hpend).
    apply grid_mode_all in Hmode as (_ & _ & Ma & Mi & Ml & Mt & Mo).
    set (s := Grid.simulate delta g) in *.
    unfold grid_control. rewrite Ma, Mi, Ml, Mt, Mo.
    split; [lia|]. split; [exact Hturn|]. split; [lia|]. split; [exact Hangle|].
    split; [|split; [|split; [exact Haim|]]].
    + intros Hl. destruct (Hlaunch Hl) as (Ha & Hp & Hle).
      split; [exact Ha|]. split; [apply Hpos, Hp|lia].
    + intros Hl. destruct (Hidle Hl) as (Hbs & Hp & Hnone).
      rewrite Hbs, Hp in Hsum. specialize (Hpend Hl). rewrite Hp in Hpend.
      split; [|split; [exact Hpend|exact Hnone]].
      apply nil_length_inv. cbn [length] in Hsum. lia.
    + intros Ho. rewrite Hover in Ho. discriminate Ho.
  - destruct Hc as (Hchain & Hturn & Hscore & Hangle & Hlaunch & Hidle & Haim & Hend).
    destruct (grid_simulate_step delta g)
      as (Hmode & _ & Hch & Hsc & Hsum & Hpos & Hpend).
    apply grid_mode_all in Hmode as (_ & _ & Ma & Mi & Ml & Mt & Mo).
    set (s := Grid.simulate delta g) in *.
    destruct (grid_finishTurn_step _ _ _ Hfin) as (Hflags & _ & Hbot).
    destruct Hflags as (F1 & F2 & F3 & F4 & F5 & F6 & F7 & F8 & _).
    unfold Grid.turn_done in Hdone.
    apply andb_true_iff in Hdone as [Hdone _].
    apply andb_true_iff in Hdone as [_ Hzero]. apply Z.eqb_eq in Hzero.
    unfold grid_control. rewrite F1, F2, F3, F4, F5, F6, F7, F8.
    split; [lia|]. split; [lia|]. split; [lia|].
    split; [intros a Ha; discriminate Ha|].
    split; [intros Hx; discriminate Hx|].
    split; [intros _; repeat split; exact Hzero|].
    split; [intros Hx; discriminate Hx|].
    intros Ho. split; [reflexivity|]. split; [reflexivity|].
    rewrite <- Mo in Hover. destruct (Hbot Hover) as [Hbot1 _].
    destruct (Hbot1 Ho) as (b & Hb & Hat). exists b.
    split; [apply list_elem_of_In, Hb|exact Hat].
Qed.

Lemma grid_reset_fields fuel g g' :
  Grid.reset fuel g = Some g' ->
  (Grid.balls g' = [] /\ Grid.pendingBalls g' = 0 /\ Grid.ballChain g' = 1 /\
   Grid.baseBallPosition g' = (GAME_WIDTH / 2)%Q /\
   Grid.baseY g' = (GAME_HEIGHT - 24)%Q /\ Grid.turnAngle g' = None /\
   Grid.isAiming g' = false /\ Grid.isLaunching g' = false /\
   Grid.turn g' = 1 /\ Grid.score g' = 0 /\ Grid.isGameOver g' = false /\
   Grid.activeBallChainLanding g' = Grid.activeBallChainLanding g) /\
  grid_blocks_ok (Grid.blocks g') /\
  ((GRID_SIZE < GAME_HEIGHT)%Q -> Forall (fun b => ~ at_bottom b) (Grid.blocks g')).
Proof.
  unfold Grid.reset. cbv zeta. intros Hrun.
  pose proof (spawnRow_ok _ _ _ Hrun) as Hok.
  destruct (spawnRow_cells _ _ _ Hrun) as (Hfr & new & Hnew_eq & Hnew & _).
  unfold spawn_frame in Hfr. cbn in Hfr.
  injection Hfr as E1 E2 E3 E4 E5 E6 E7 E8 E9 E10 E11 E12 E13 E14 E15 E16 E17.
  split; [repeat split; assumption|]. split.
  - apply Hok; [|constructor]. repeat split; constructor.
  - intros Hroom. rewrite Hnew_eq. cbn [Grid.blocks Grid.set_blocks app].
    cbn. eapply Forall_impl; [exact Hnew|]. intros b (_ & Hr).
    unfold at_bottom. rewrite Hr. intros Hle.
    change (inject_Z 0) with 0%Q in Hle.
    set (gs := GRID_SIZE) in *. set (gh := GAME_HEIGHT) in *. lra.
Qed.

Lemma grid_reset_control fuel g g' :
  Grid.reset fuel g = Some g' -> grid_control g'.
Proof.
  intros Hrun.
  destruct (grid_reset_fields _ _ _ Hrun) as (Hf & _).
  destruct Hf as (F1 & F2 & F3 & F4 & F5 & F6 & F7 & F8 & F9 & F10 & F11 & F12).
  unfold grid_control. rewrite F1, F2, F3, F6, F7, F8, F9, F10, F11.
  split; [lia|]. split; [lia|]. split; [lia|].
  split; [intros a Ha; discriminate Ha|].
  split; [intros Hx; discriminate Hx|].
  split; [intros _; repeat split|].
  split; intros Hx; discriminate Hx.
Qed.

Lemma grid_startAim_control pos g :
  grid_control g -> grid_control (GridEvents.startAim pos g).
Proof.
  intros Hc. unfold GridEvents.startAim.
  destruct (Grid.isLaunching g) eqn:Hl; [exact Hc|].
  destruct (Grid.isGameOver g) eqn:Ho; [exact Hc|]. cbn [orb].
  destruct Hc as (Hchain & Hturn & Hscore & Hangle & Hlaunch & Hidle & Haim & Hend).
  destruct (Hidle Hl) as (Hbs & Hp & _).
  destruct pos as [[x y]|]; unfold grid_control; cbn;
    rewrite ?Hl, ?Ho;
    (refine (conj Hchain (conj Hturn (conj Hscore
              (conj _ (conj _ (conj _ (conj _ _)))))));
     [|discriminate|intros _; repeat split; try assumption; discriminate
      |reflexivity|discriminate]).
  - intros a Ha. injection Ha as <-. eexists. reflexivity.
  - exact Hangle.
Qed.

Lemma grid_moveAim_control pos g :
  grid_control g -> grid_control (GridEvents.moveAim pos g).
Proof.
  intros Hc. unfold GridEvents.moveAim.
  destruct (Grid.isAiming g) eqn:Ha; [|exact Hc].
  destruct (Grid.isLaunching g) eqn:Hl; [exact Hc|]. cbn [negb orb].
  destruct pos as [[x y]|]; [|exact Hc].
  destruct Hc as (Hchain & Hturn & Hscore & Hangle & Hlaunch & Hidle & Haim & Hend).
  destruct (Hidle Hl) as (Hbs & Hp & _).
  unfold grid_control; cbn. rewrite ?Hl, ?Ha.
  refine (conj Hchain (conj Hturn (conj Hscore
            (conj _ (conj _ (conj _ (conj _ _))))))).
  - intros a Heq. injection Heq as <-. eexists. reflexivity.
  - discriminate.
  - intros _. repeat split; try assumption. discriminate.
  - reflexivity.
  - intros Ho. destruct (Hend Ho) as (_ & Hx & _). rewrite Ha in Hx. discriminate Hx.
Qed.

Lemma grid_endAim_control g :
  grid_control g -> grid_control (GridEvents.endAim g).
Proof.
  intros Hc. unfold GridEvents.endAim.
  destruct (Grid.isAiming g) eqn:Ha; [|exact Hc].
  destruct (Grid.isLaunching g) eqn:Hl; [exact Hc|]. cbn [negb orb].
  destruct Hc as (Hchain & Hturn & Hscore & Hangle & Hlaunch & Hidle & Haim & Hend).
  destruct (Hidle Hl) as (Hbs & Hp & _).
  assert (Ho : Grid.isGameOver g = false).
  { destruct (Grid.isGameOver g); [|reflexivity].
    destruct (Hend eq_refl) as (_ & Hx & _). congruence. }
  cbn [Grid.turnAngle Grid.set_isAiming].
  destruct (Grid.turnAngle g) as [angle|] eqn:Hang.
  - unfold grid_control, Grid.launchTurn; cbn. rewrite Hbs, Ho.
    refine (conj Hchain (conj Hturn (conj Hscore
              (conj _ (conj _ (conj _ (conj _ _))))))).
    + intros a Heq. injection Heq as <-. apply Hangle. reflexivity.
    + intros _. split; [eauto|]. split; [lia|]. cbn [length]. lia.
    + discriminate.
    + discriminate.
    + discriminate.
  - unfold grid_control; cbn. rewrite Hl, Hang, Ho.
    refine (conj Hchain (conj Hturn (conj Hscore
              (conj _ (conj _ (conj _ (conj _ _))))))).
    + discriminate.
    + discriminate.
    + intros _. repeat split; assumption.
    + discriminate.
    + discriminate.
Qed.

Lemma grid_session_control f :
  GridEvents.session f -> grid_control (GridEvents.game f).
Proof.
  induction 1 as [fuel seed f Hstart|fuel timestamp f f' Hs IH Hmono Hloop
                  |pos f Hs IH|pos f Hs IH|f Hs IH|fuel f g Hs IH Hreset];
    cbn [GridEvents.game].
  - unfold GridEvents.start, Grid.new in Hstart.
    destruct (Grid.reset fuel (Grid.fresh seed)) as [g|] eqn:Hreset;
      [|discriminate Hstart].
    unfold GridEvents.loop in Hstart. cbn [GridEvents.game GridEvents.previousTime] in Hstart.
    destruct (Grid.update fuel _ g) as [g'|] eqn:Hupd; [|discriminate Hstart].
    injection Hstart as <-. cbn [GridEvents.game].
    eapply grid_update_control; [exact Hupd|].
    eapply grid_reset_control. exact Hreset.
  - unfold GridEvents.loop in Hloop.
    destruct (Grid.update fuel _ (GridEvents.game f)) as [g'|] eqn:Hupd;
      [|discriminate Hloop].
    injection Hloop as <-. cbn [GridEvents.game].
    eapply grid_update_control; [exact Hupd|exact IH].
  - apply grid_startAim_control, IH.
  - apply grid_moveAim_control, IH.
  - apply grid_endAim_control, IH.
  - eapply grid_reset_control. exact Hreset.
Qed.

End GridControl.

Section GridSessionBlocks.
Context `{Host} `{HostPointer}.

Lemma grid_update_blocks fuel delta g g' :
  Grid.update fuel delta g = Some g' ->
  grid_blocks_ok (Grid.blocks g) -> grid_blocks_ok (Grid.blocks g').
Proof.
  intros Hupd Hok.
  destruct (grid_update_cases _ _ _ _ Hupd)
    as [(Hover & ->)|[(Hover & Hdone & ->)|(Hover & Hdone & Hfin)]]; [exact Hok| |];
    destruct (grid_simulate_step delta g) as (_ & (bl & Hb) & _).
  - rewrite Hb. apply survivors_all_ok, Hok.
  - destruct (grid_finishTurn_step _ _ _ Hfin) as (_ & Hstep & _).
    apply Hstep. rewrite Hb. apply survivors_all_ok, Hok.
Qed.

Lemma grid_update_above fuel delta g g' :
  (GRID_SIZE < GAME_HEIGHT)%Q ->
  Grid.update fuel delta g = Some g' ->
  (Grid.isGameOver g = false -> Forall (fun b => ~ at_bottom b) (Grid.blocks g)) ->
  Grid.isGameOver g' = false -> Forall (fun b => ~ at_bottom b) (Grid.blocks g').
Proof.
  intros Hroom Hupd Hinv Hlive.
  destruct (grid_update_cases _ _ _ _ Hupd)
    as [(Hover & ->)|[(Hover & Hdone & ->)|(Hover & Hdone & Hfin)]];
    [apply Hinv, Hlive| |];
    destruct (grid_simulate_step delta g) as (Hmode & (bl & Hb) & _);
    apply grid_mode_all in Hmode as (_ & _ & _ & _ & _ & _ & Mo).
  - rewrite Hb. specialize (Hinv Hover). rewrite Forall_forall in *.
    intros b' Hb' Hat. apply survivors_all_cell in Hb' as (b & Hin & Hc).
    apply (Hinv b Hin). eapply at_bottom_cell; [exact Hc|exact Hat].
  - destruct (grid_finishTurn_step _ _ _ Hfin) as (_ & _ & Hbot).
    rewrite <- Mo in Hover. destruct (Hbot Hover) as [_ Hbot2].
    apply Hbot2; assumption.
Qed.

Lemma grid_startAim_blocks pos g :
  Grid.blocks (GridEvents.startAim pos g) = Grid.blocks g /\
  Grid.isGameOver (GridEvents.startAim pos g) = Grid.isGameOver g.
Proof.
  unfold GridEvents.startAim.
  destruct (Grid.isLaunching g || Grid.isGameOver g); [split; reflexivity|].
  destruct pos as [[x y]|]; split; reflexivity.
Qed.

Lemma grid_moveAim_blocks pos g :
  Grid.blocks (GridEvents.moveAim pos g) = Grid.blocks g /\
  Grid.isGameOver (GridEvents.moveAim pos g) = Grid.isGameOver g.
Proof.
  unfold GridEvents.moveAim.
  destruct (negb (Grid.isAiming g) || Grid.isLaunching g); [split; reflexivity|].
  destruct pos as [[x y]|]; split; reflexivity.
Qed.

Lemma grid_endAim_blocks g :
  Grid.blocks (GridEvents.endAim g) = Grid.blocks g /\
  Grid.isGameOver (GridEvents.endAim g) = Grid.isGameOver g.
Proof.
  unfold GridEvents.endAim.
  destruct (negb (Grid.isAiming g) || Grid.isLaunching g); [split; reflexivity|].
  cbv zeta. destruct (Grid.turnAngle (Grid.set_isAiming false g)); split; reflexivity.
Qed.

Lemma grid_session_blocks f :
  GridEvents.session f ->
  grid_blocks_ok (Grid.blocks (GridEvents.game f)) /\
  ((GRID_SIZE < GAME_HEIGHT)%Q ->
   Grid.isGameOver (GridEvents.game f) = false ->
   Forall (fun b => ~ at_bottom b) (Grid.blocks (GridEvents.game f))).
Proof.
  induction 1 as [fuel seed f Hstart|fuel timestamp f f' Hs IH Hmono Hloop
                  |pos f Hs IH|pos f Hs IH|f Hs IH|fuel f g Hs IH Hreset];
    cbn [GridEvents.game].
  - unfold GridEvents.start, Grid.new in Hstart.
    destruct (Grid.reset fuel (Grid.fresh seed)) as [g|] eqn:Hreset;
      [|discriminate Hstart].
    unfold GridEvents.loop in Hstart. cbn [GridEvents.game GridEvents.previousTime] in Hstart.
    destruct (Grid.update fuel _ g) as [g'|] eqn:Hupd; [|discriminate Hstart].
    injection Hstart as <-. cbn [GridEvents.game].
    destruct (grid_reset_fields _ _ _ Hreset) as (_ & Hok & Habove).
    split; [eapply grid_update_blocks; eassumption|].
    intros Hroom. eapply grid_update_above; [exact Hroom|exact Hupd|].
    intros _. apply Habove, Hroom.
  - unfold GridEvents.loop in Hloop.
    destruct (Grid.update fuel _ (GridEvents.game f)) as [g'|] eqn:Hupd;
      [|discriminate Hloop].
    injection Hloop as <-. cbn [GridEvents.game]. destruct IH as [IH1 IH2].
    split; [eapply grid_update_blocks; eassumption|].
    intros Hroom. eapply grid_update_above; [exact Hroom|exact Hupd|].
    apply IH2, Hroom.
  - destruct (grid_startAim_blocks pos (GridEvents.game f)) as [-> ->]. exact IH.
  - destruct (grid_moveAim_blocks pos (GridEvents.game f)) as [-> ->]. exact IH.
  - destruct (grid_endAim_blocks (GridEvents.game f)) as [-> ->]. exact IH.
  - destruct (grid_reset_fields _ _ _ Hreset) as (_ & Hok & Habove).
    split; [exact Hok|]. intros Hroom _. apply Habove, Hroom.
Qed.

(** Once the game is over only the restart button changes the session. *)
Lemma grid_over_frozen g :
  grid_control g -> Grid.isGameOver g = true ->
  (forall fuel delta, Grid.update fuel delta g = Some g) /\
  (forall pos, GridEvents.startAim pos g = g) /\
  (forall pos, GridEvents.moveAim pos g = g) /\
  GridEvents.endAim g = g.
Proof.
  intros (_ & _ & _ & _ & _ & _ & _ & Hend) Hover.
  destruct (Hend Hover) as (Hl & Ha & _).
  unfold Grid.update, GridEvents.startAim, GridEvents.moveAim, GridEvents.endAim.
  rewrite Hover, Hl, Ha. repeat split.
Qed.

End GridSessionBlocks.

(** ** Where the balls of a session are (grid revision) *)

Section GridFlight.
Context `{Host}.

Lemma grid_hit_speed rect block ball g :
  same_speed (Grid.Ball.vx ball)
             (Grid.Ball.vx (snd (fst (Grid.hit rect block ball g)))) /\
  same_speed (Grid.Ball.vy ball)
             (Grid.Ball.vy (snd (fst (Grid.hit rect block ball g)))).
Proof.
  unfold Grid.hit. cbv zeta.
  destruct (if Block.is_pickup block then _ else _) as [block1 g1].
  cbn [fst snd].
  match goal with
  | |- context [if ?c then Grid.Ball.set_vy _ _ else _] => destruct c
  end; cbn [Grid.Ball.vx Grid.Ball.vy Grid.Ball.set_vx Grid.Ball.set_vy];
    split; first [apply same_speed_refl|apply same_speed_flip].
Qed.

Lemma grid_visit_speed block ball g :
  same_speed (Grid.Ball.vx ball)
             (Grid.Ball.vx (snd (fst (Grid.visit block ball g)))) /\
  same_speed (Grid.Ball.vy ball)
             (Grid.Ball.vy (snd (fst (Grid.visit block ball g)))).
Proof.
  unfold Grid.visit.
  destruct (Block.destroyed block); [split; apply same_speed_refl|].
  destruct (Block.rect block) as [rect|]; [|split; apply same_speed_refl].
  destruct (circleRectCollision_at _ _ rect); [|split; apply same_speed_refl].
  apply grid_hit_speed.
Qed.

Lemma grid_visit_all_speed bs :
  forall ball g,
    same_speed (Grid.Ball.vx ball)
               (Grid.Ball.vx (snd (fst (Grid.visit_all bs ball g)))) /\
    same_speed (Grid.Ball.vy ball)
               (Grid.Ball.vy (snd (fst (Grid.visit_all bs ball g)))).
Proof.
  induction bs as [|block rest IH]; intros ball g; cbn [Grid.visit_all].
  - split; apply same_speed_refl.
  - pose proof (grid_visit_speed block ball g) as [Hx Hy].
    destruct (Grid.visit block ball g) as [[block1 ball1] g1]. cbn [fst snd] in Hx, Hy.
    specialize (IH ball1 g1).
    destruct (Grid.visit_all rest ball1 g1) as [[rest1 ball2] g2].
    cbn [fst snd] in *. destruct IH as [Hx' Hy'].
    split; eapply same_speed_trans; eassumption.
Qed.

Lemma grid_handleCollisions_speed ball g :
  same_speed (Grid.Ball.vx ball)
             (Grid.Ball.vx (fst (Grid.handleCollisions ball g))) /\
  same_speed (Grid.Ball.vy ball)
             (Grid.Ball.vy (fst (Grid.handleCollisions ball g))).
Proof.
  unfold Grid.handleCollisions.
  pose proof (grid_visit_all_speed (Grid.blocks g) ball g) as Hs.
  destruct (Grid.visit_all (Grid.blocks g) ball g) as [[bs ball1] g1].
  exact Hs.
Qed.

Lemma grid_move_ball_ok delta ball g angle :
  (0 <= delta)%Q -> (2 * BALL_RADIUS <= GAME_WIDTH)%Q ->
  (2 * BALL_RADIUS <= Grid.baseY g)%Q ->
  Grid.Ball.resting ball = false ->
  grid_ball_ok (Grid.baseY g) angle ball ->
  grid_ball_ok (Grid.baseY g) angle (fst (Grid.move_ball delta ball g)) /\
  (Grid.activeBallChainLanding (snd (Grid.move_ball delta ball g))
   = Grid.activeBallChainLanding g \/
   Grid.activeBallChainLanding (snd (Grid.move_ball delta ball g))
   = JS.Num (Grid.Ball.x (fst (Grid.move_ball delta ball g)))) /\
  Grid.baseY (snd (Grid.move_ball delta ball g)) = Grid.baseY g.
Proof.
  intros Hd Hw Hb Hr [Hf Hv]. rewrite Hr in Hv. destruct Hv as [Hvx Hvy].
  unfold Grid.move_ball.
  destruct (grid_ball_update_field delta ball Hd Hw Hr Hf)
    as (Hf1 & Hvx1 & Hvy1 & Hr1).
  remember (Grid.Ball.update delta ball) as ball1 eqn:Hb1. clear Hb1.
  pose proof (handleCollisions_spec ball1 g) as Hc.
  pose proof (grid_handleCollisions_speed ball1 g) as [Hvx2 Hvy2].
  destruct (Grid.handleCollisions ball1 g) as [ball2 g2]. cbn [fst] in Hvx2, Hvy2.
  destruct Hc as (_ & Hx2 & Hy2 & Hr2 & _ & _ & Hfr).
  assert (Hbase : Grid.baseY g2 = Grid.baseY g) by congruence.
  assert (Hland : Grid.activeBallChainLanding g2 = Grid.activeBallChainLanding g)
    by congruence.
  rewrite Hr1 in Hr2.
  destruct (JS.Qleb (Grid.baseY g2) (Grid.Ball.y ball2 + BALL_RADIUS)
            && JS.Qltb 0 (Grid.Ball.vy ball2)); cbn [fst snd].
  - split; [|split].
    + unfold grid_ball_ok, Grid.Ball.setResting.
      cbn [Grid.Ball.x Grid.Ball.y Grid.Ball.resting Grid.Ball.vx Grid.Ball.vy].
      rewrite Hx2, Hbase. split; [|repeat split].
      destruct Hf1 as [Hfx _]. split; [exact Hfx|]. unfold BALL_RADIUS in *. lra.
    + cbn [Grid.activeBallChainLanding Grid.set_restingBalls].
      destruct (JS.is_null (Grid.activeBallChainLanding g2));
        [right; reflexivity|left; exact Hland].
    + destruct (JS.is_null (Grid.activeBallChainLanding
                              (Grid.set_restingBalls _ g2))); exact Hbase.
  - split; [|split; [left; exact Hland|exact Hbase]].
    unfold grid_ball_ok. rewrite Hx2, Hy2, Hr2. split; [exact Hf1|].
    split; eapply same_speed_trans; try eassumption;
      eapply same_speed_trans; eassumption.
Qed.

Lemma grid_update_balls_ok delta angle bs :
  forall g,
    (0 <= delta)%Q -> (2 * BALL_RADIUS <= GAME_WIDTH)%Q ->
    (2 * BALL_RADIUS <= Grid.baseY g)%Q ->
    Forall (grid_ball_ok (Grid.baseY g) angle) bs ->
    (forall x, Grid.activeBallChainLanding g = JS.Num x ->
               (BALL_RADIUS <= x <= GAME_WIDTH - BALL_RADIUS)%Q) ->
    Forall (grid_ball_ok (Grid.baseY g) angle) (fst (Grid.update_balls delta bs g)) /\
    (forall x, Grid.activeBallChainLanding (snd (Grid.update_balls delta bs g))
               = JS.Num x ->
               (BALL_RADIUS <= x <= GAME_WIDTH - BALL_RADIUS)%Q).
Proof.
  induction bs as [|ball rest IH]; intros g Hd Hw Hb Hall Hland; [split; [constructor|exact Hland]|].
  apply Forall_cons_1 in Hall as [Hball Hrest].
  cbn [Grid.update_balls].
  destruct (Grid.Ball.resting ball) eqn:Hr.
  - specialize (IH g Hd Hw Hb Hrest Hland).
    destruct (Grid.update_balls delta rest g) as [rest' g']. cbn [fst snd] in *.
    destruct IH as [IH1 IH2]. split; [constructor; assumption|exact IH2].
  - pose proof (grid_move_ball_ok delta ball g angle Hd Hw Hb Hr Hball)
      as (Hok & Hl1 & Hbase).
    destruct (Grid.move_ball delta ball g) as [ball1 g1]. cbn [fst snd] in Hok, Hl1, Hbase.
    specialize (IH g1 Hd Hw). rewrite Hbase in IH. specialize (IH Hb Hrest).
    assert (Hland1 : forall x, Grid.activeBallChainLanding g1 = JS.Num x ->
                               (BALL_RADIUS <= x <= GAME_WIDTH - BALL_RADIUS)%Q).
    { intros x Hx. destruct Hl1 as [Hl1|Hl1]; rewrite Hl1 in Hx.
      - apply Hland, Hx.
      - injection Hx as <-. destruct Hok as [[Hfx _] _]. exact Hfx. }
    specialize (IH Hland1).
    destruct (Grid.update_balls delta rest g1) as [rest' g']. cbn [fst snd] in *.
    destruct IH as [IH1 IH2]. split; [constructor; assumption|exact IH2].
Qed.

Lemma grid_launch_step_balls delta g :
  Grid.balls (Grid.launch_step delta g) = Grid.balls g \/
  Grid.balls (Grid.launch_step delta g)
  = Grid.balls g
    ++ [Grid.Ball.new (JS.nullish (Grid.activeBallChainLanding g)
                                  (Grid.baseBallPosition g))
                      (Grid.baseY g - BALL_RADIUS)%Q
                      (JS.to_number (Grid.turnAngle g))].
Proof.
  unfold Grid.launch_step.
  destruct (Grid.isLaunching g); [|left; reflexivity].
  cbn [Grid.pendingBalls Grid.launchTimer Grid.set_launchTimer].
  destruct ((Grid.pendingBalls g >? 0) && JS.Qleb (Grid.launchTimer g - delta) 0);
    [right|left]; reflexivity.
Qed.

Lemma grid_simulate_geometry delta g :
  (0 <= delta)%Q -> (2 * BALL_RADIUS <= GAME_WIDTH)%Q -> (38 <= GAME_HEIGHT)%Q ->
  grid_geometry g -> grid_geometry (Grid.simulate delta g).
Proof.
  intros Hd Hw Hh (Hbase & Hpos & Hland & Hballs).
  destruct (grid_simulate_step delta g) as (Hmode & _).
  apply grid_mode_all in Hmode as (Mp & Mb & Ma & _).
  unfold grid_geometry. rewrite Mp, Mb, Ma.
  split; [exact Hbase|]. split; [exact Hpos|].
  unfold Grid.simulate, Grid.particle_step, Grid.ball_step.
  destruct (grid_launch_step_spec delta g) as (Hm1 & _ & Hl1 & _).
  apply grid_mode_all in Hm1 as (_ & Mb1 & _).
  pose proof (grid_launch_step_balls delta g) as Hbs.
  remember (Grid.launch_step delta g) as g1 eqn:Hg1. clear Hg1.
  assert (Hb2 : (2 * BALL_RADIUS <= Grid.baseY g1)%Q)
    by (rewrite Mb1, Hbase; unfold BALL_RADIUS; lra).
  assert (Hballs1 : Forall (grid_ball_ok (Grid.baseY g1)
                              (JS.to_number (Grid.turnAngle g))) (Grid.balls g1)).
  { rewrite Mb1. destruct Hbs as [->| ->]; [exact Hballs|].
    apply Forall_app. split; [exact Hballs|]. constructor; [|constructor].
    unfold grid_ball_ok, Grid.Ball.new.
    cbn [Grid.Ball.x Grid.Ball.y Grid.Ball.resting Grid.Ball.vx Grid.Ball.vy].
    split; [|split; apply same_speed_refl].
    split; [|rewrite Hbase; unfold BALL_RADIUS in *; lra].
    destruct (Grid.activeBallChainLanding g) as [| |x] eqn:Hx; cbn [JS.nullish];
      try exact Hpos. apply Hland. reflexivity. }
  assert (Hland1 : forall x, Grid.activeBallChainLanding g1 = JS.Num x ->
                             (BALL_RADIUS <= x <= GAME_WIDTH - BALL_RADIUS)%Q)
    by (rewrite Hl1; exact Hland).
  pose proof (grid_update_balls_ok delta (JS.to_number (Grid.turnAngle g))
                (Grid.balls g1) g1 Hd Hw Hb2 Hballs1 Hland1) as [Hok Hl2].
  destruct (Grid.update_balls delta (Grid.balls g1) g1) as [bs g2].
  cbn [fst snd] in Hok, Hl2.
  cbn [Grid.activeBallChainLanding Grid.balls Grid.set_particles Grid.set_balls].
  split; [exact Hl2|]. rewrite <- Mb1. exact Hok.
Qed.

End GridFlight.

Section GridSessionGeometry.
Context `{Host} `{HostPointer}.

Hypothesis Hwide : (2 * BALL_RADIUS <= GAME_WIDTH)%Q.
Hypothesis Hhigh : (38 <= GAME_HEIGHT)%Q.

Lemma grid_update_geometry fuel delta g g' :
  (0 <= delta)%Q ->
  Grid.update fuel delta g = Some g' -> grid_geometry g -> grid_geometry g'.
Proof.
  intros Hd Hupd Hg.
  destruct (grid_update_cases _ _ _ _ Hupd)
    as [(Hover & ->)|[(Hover & Hdone & ->)|(Hover & Hdone & Hfin)]]; [exact Hg| |].
  - apply grid_simulate_geometry; assumption.
  - pose proof (grid_simulate_geometry delta g Hd Hwide Hhigh Hg)
      as (Hbase & Hpos & Hland & _).
    destruct (grid_finishTurn_step _ _ _ Hfin) as (Hflags & _).
    destruct Hflags as (_ & _ & _ & _ & F5 & _ & _ & _ & F9 & F10 & F11).
    unfold grid_geometry. rewrite F5, F9, F10, F11.
    split; [exact Hbase|]. split; [|split; [exact Hland|constructor]].
    destruct (Grid.activeBallChainLanding (Grid.simulate delta g)) as [| |x] eqn:Hx;
      cbn [JS.nullish]; try exact Hpos. apply Hland. reflexivity.
Qed.

Lemma grid_reset_geometry fuel g g' :
  Grid.reset fuel g = Some g' ->
  (forall x, Grid.activeBallChainLanding g = JS.Num x ->
             (BALL_RADIUS <= x <= GAME_WIDTH - BALL_RADIUS)%Q) ->
  grid_geometry g'.
Proof.
  intros Hrun Hland.
  destruct (grid_reset_fields _ _ _ Hrun) as (Hf & _).
  destruct Hf as (F1 & F2 & F3 & F4 & F5 & F6 & F7 & F8 & F9 & F10 & F11 & F12).
  unfold grid_geometry. rewrite F1, F4, F5, F12.
  split; [reflexivity|]. split; [|split; [exact Hland|constructor]].
  unfold BALL_RADIUS in *.
  assert (GAME_WIDTH / 2 == GAME_WIDTH * (1 # 2))%Q by (field; discriminate).
  lra.
Qed.

Lemma grid_startAim_geometry pos g :
  grid_control g -> grid_geometry g -> grid_geometry (GridEvents.startAim pos g).
Proof.
  intros Hc Hg. unfold GridEvents.startAim.
  destruct (Grid.isLaunching g) eqn:Hl; [exact Hg|].
  destruct (Grid.isGameOver g) eqn:Ho; [exact Hg|]. cbn [orb].
  destruct Hc as (_ & _ & _ & _ & _ & Hidle & _).
  destruct (Hidle Hl) as (Hbs & _).
  destruct Hg as (Hbase & Hpos & Hland & Hballs).
  destruct pos as [[x y]|]; unfold grid_geometry; cbn; rewrite Hbs;
    (split; [exact Hbase|]); (split; [exact Hpos|]); (split; [exact Hland|constructor]).
Qed.

Lemma grid_moveAim_geometry pos g :
  grid_control g -> grid_geometry g -> grid_geometry (GridEvents.moveAim pos g).
Proof.
  intros Hc Hg. unfold GridEvents.moveAim.
  destruct (Grid.isAiming g) eqn:Ha; [|exact Hg].
  destruct (Grid.isLaunching g) eqn:Hl; [exact Hg|]. cbn [negb orb].
  destruct pos as [[x y]|]; [|exact Hg].
  destruct Hc as (_ & _ & _ & _ & _ & Hidle & _).
  destruct (Hidle Hl) as (Hbs & _).
  destruct Hg as (Hbase & Hpos & Hland & Hballs).
  unfold grid_geometry; cbn; rewrite Hbs.
  split; [exact Hbase|]. split; [exact Hpos|]. split; [exact Hland|constructor].
Qed.

Lemma grid_endAim_geometry g :
  grid_control g -> grid_geometry g -> grid_geometry (GridEvents.endAim g).
Proof.
  intros Hc Hg. unfold GridEvents.endAim.
  destruct (Grid.isAiming g) eqn:Ha; [|exact Hg].
  destruct (Grid.isLaunching g) eqn:Hl; [exact Hg|]. cbn [negb orb].
  destruct Hc as (_ & _ & _ & _ & _ & Hidle & _).
  destruct (Hidle Hl) as (Hbs & _).
  destruct Hg as (Hbase & Hpos & Hland & Hballs).
  cbn [Grid.turnAngle Grid.set_isAiming].
  destruct (Grid.turnAngle g) as [angle|] eqn:Hang;
    unfold grid_geometry, Grid.launchTurn; cbn; rewrite Hbs.
  - split; [exact Hbase|]. split; [exact Hpos|].
    split; [intros x Hx; discriminate Hx|constructor].
  - split; [exact Hbase|]. split; [exact Hpos|]. split; [exact Hland|constructor].
Qed.

Lemma grid_session_geometry f :
  GridEvents.session f -> grid_geometry (GridEvents.game f).
Proof.
  intros Hsession.
  induction Hsession as [fuel seed f Hstart|fuel timestamp f f' Hs IH Hmono Hloop
                         |pos f Hs IH|pos f Hs IH|f Hs IH|fuel f g Hs IH Hreset];
    cbn [GridEvents.game].
  - unfold GridEvents.start, Grid.new in Hstart.
    destruct (Grid.reset fuel (Grid.fresh seed)) as [g|] eqn:Hreset;
      [|discriminate Hstart].
    unfold GridEvents.loop in Hstart. cbn [GridEvents.game GridEvents.previousTime] in Hstart.
    destruct (Grid.update fuel _ g) as [g'|] eqn:Hupd; [|discriminate Hstart].
    injection Hstart as <-. cbn [GridEvents.game].
    eapply grid_update_geometry; [|exact Hupd|].
    + apply cappedDelta_range. exact I.
    + eapply grid_reset_geometry; [exact Hreset|]. intros x Hx. discriminate Hx.
  - unfold GridEvents.loop in Hloop.
    destruct (Grid.update fuel _ (GridEvents.game f)) as [g'|] eqn:Hupd;
      [|discriminate Hloop].
    injection Hloop as <-. cbn [GridEvents.game].
    eapply grid_update_geometry; [|exact Hupd|exact IH].
    apply cappedDelta_range. exact Hmono.
  - apply grid_startAim_geometry; [apply grid_session_control, Hs|exact IH].
  - apply grid_moveAim_geometry; [apply grid_session_control, Hs|exact IH].
  - apply grid_endAim_geometry; [apply grid_session_control, Hs|exact IH].
  - eapply grid_reset_geometry; [exact Hreset|]. apply IH.
Qed.

End GridSessionGeometry.

(** ** Sessions of the grid revision *)

Lemma sample_grid_flight_session :
  @GridEvents.session sample_host sample_pointer sample_grid_flight.
Proof.
  assert (H0 : @GridEvents.session sample_host sample_pointer sample_grid_created).
  { apply (GridEvents.session_start 50 1). vm_compute. reflexivity. }
  assert (H1 : @GridEvents.session sample_host sample_pointer sample_grid_released).
  { unfold sample_grid_released. apply GridEvents.session_endAim.
    unfold sample_grid_aimed. apply GridEvents.session_startAim. exact H0. }
  unfold sample_grid_flight. cbv zeta.
  set (f1 := run_frame sample_grid_released _).
  assert (H2 : @GridEvents.session sample_host sample_pointer f1).
  { apply (GridEvents.session_frame 50 16 sample_grid_released); [exact H1| |].
    - vm_compute. discriminate.
    - vm_compute. reflexivity. }
  apply (GridEvents.session_frame 50 32 f1); [exact H2| |].
  - vm_compute. discriminate.
  - vm_compute. reflexivity.
Qed.

(** X13: no two blocks share a cell.  In every state of a session of the
    grid revision the blocks of [blocks] occupy pairwise distinct cells
    (column, row) and are ordered from the lowest row of the screen to the
    top one (rows never increase along the array).  Every block is not
    destroyed and in a row from 0 on; a standard block has strength at
    least 1 (so [draw] reads a colour inside [BLOCK_COLORS]) and a column
    from 0 to [GRID_COLUMNS], a pickup has strength 1 and a column below
    [GRID_COLUMNS] unless its column is [undefined]. *)
Theorem grid_session_cells_distinct
  (host : Host) (pointer : HostPointer) (f : GridEvents.frame) :
  GridEvents.session f ->
  NoDup (List.map cell (Grid.blocks (GridEvents.game f))) /\
  StronglySorted (fun a b => Block.row b <= Block.row a)
                 (Grid.blocks (GridEvents.game f)) /\
  forall b, In b (Grid.blocks (GridEvents.game f)) ->
    Block.destroyed b = false /\ 0 <= Block.row b /\
    ((Block.type b = "block"%string /\ 1 <= Block.strength b /\
      (exists c, Block.col b = Some c /\ 0 <= c <= GRID_COLUMNS) /\
      (exists colour, fillStyle (Block.strength b) = Some colour)) \/
     (Block.type b = "pickup"%string /\ Block.strength b = 1 /\
      forall c, Block.col b = Some c -> 0 <= c < GRID_COLUMNS)).
Proof.
  intros Hs. destruct (grid_session_blocks f Hs) as [(Hall & Hsort & Hnd) _].
  split; [exact Hnd|]. split; [exact Hsort|].
  intros b Hb. rewrite Forall_forall in Hall.
  destruct (Hall b (proj2 (list_elem_of_In _ _) Hb)) as (Hd & Hrow & Hkind).
  split; [exact Hd|]. split; [exact Hrow|].
  destruct Hkind as [(Ht & Hstr & Hc)|Hp]; [left|right; exact Hp].
  split; [exact Ht|]. split; [exact Hstr|]. split; [exact Hc|].
  destruct (fillStyle_defined _ Hstr) as (colour & Hcol & _). exists colour. exact Hcol.
Qed.

Lemma grid_session_cells_distinct_witness :
  NoDup (List.map cell (Grid.blocks (GridEvents.game sample_grid_flight))) /\
  length (Grid.blocks (GridEvents.game sample_grid_flight)) = 3%nat.
Proof.
  split; [|vm_compute; reflexivity].
  apply (grid_session_cells_distinct sample_host sample_pointer sample_grid_flight
           sample_grid_flight_session).
Defined.



(** X15: the phases of a session of the grid revision.  [ballChain] and
    [turn] are at least 1 and [score] is never negative.  While a turn is
    launching the aim is off, the game is not over, [turnAngle] is a number,
    and the balls launched so far together with the pending ones are at
    most [ballChain] (pickups collected during the turn only add to later
    turns).  Between turns [balls] is empty, nothing is pending, and
    [turnAngle] is [null] unless the player is aiming. *)
Theorem grid_session_phases
  (host : Host) (pointer : HostPointer) (f : GridEvents.frame) :
  GridEvents.session f ->
  1 <= Grid.ballChain (GridEvents.game f) /\
  1 <= Grid.turn (GridEvents.game f) /\
  0 <= Grid.score (GridEvents.game f) /\
  (Grid.isLaunching (GridEvents.game f) = true ->
   Grid.isAiming (GridEvents.game f) = false /\
   Grid.isGameOver (GridEvents.game f) = false /\
   (exists a, Grid.turnAngle (GridEvents.game f) = Some a) /\
   0 <= Grid.pendingBalls (GridEvents.game f) /\
   Z.of_nat (length (Grid.balls (GridEvents.game f)))
   + Grid.pendingBalls (GridEvents.game f) <= Grid.ballChain (GridEvents.game f)) /\
  (Grid.isLaunching (GridEvents.game f) = false ->
   Grid.balls (GridEvents.game f) = [] /\
   Grid.pendingBalls (GridEvents.game f) = 0 /\
   (Grid.isAiming (GridEvents.game f) = false ->
    Grid.turnAngle (GridEvents.game f) = None)).
Proof.
  intros Hs. apply grid_session_control in Hs.
  destruct Hs as (Hchain & Hturn & Hscore & _ & Hlaunch & Hidle & Haim & Hend).
  split; [exact Hchain|]. split; [exact Hturn|]. split; [exact Hscore|].
  split; [|exact Hidle].
  intros Hl. destruct (Hlaunch Hl) as (Ha & Hp & Hle).
  split; [|split; [|split; [exact Ha|split; [exact Hp|exact Hle]]]].
  - destruct (Grid.isAiming (GridEvents.game f)); [|reflexivity].
    specialize (Haim eq_refl). congruence.
  - destruct (Grid.isGameOver (GridEvents.game f)); [|reflexivity].
    destruct (Hend eq_refl) as (Hx & _). congruence.
Qed.

Lemma grid_session_phases_witness :
  Grid.isLaunching (GridEvents.game sample_grid_flight) = true /\
  1 <= Grid.ballChain (GridEvents.game sample_grid_flight).
Proof.
  split; [vm_compute; reflexivity|].
  exact (proj1 (grid_session_phases sample_host sample_pointer sample_grid_flight
                  sample_grid_flight_session)).
Defined.

(** X16: the launch angle stays within the aim bounds.  When [Math.PI] is
    at least 0.7 (so that the lower bound [-Math.PI + 0.35] is not above
    the upper bound [-0.35]), in every state of a session of either
    revision [turnAngle], when it is a number, lies between the two bounds:
    no turn is launched level with the base line or downwards. *)
Theorem launch_angle_within_bounds (host : Host) (pointer : HostPointer) :
  (7 # 10 <= Math_PI)%Q ->
  (forall f a,
      GridEvents.session f -> Grid.turnAngle (GridEvents.game f) = Some a ->
      (aim_min <= a <= aim_max)%Q) /\
  (forall f a,
      BarrierEvents.session f -> Barrier.turnAngle (BarrierEvents.game f) = Some a ->
      (aim_min <= a <= aim_max)%Q).
Proof.
  intros Hpi.
  assert (Hle : (aim_min <= aim_max)%Q) by (unfold aim_min, aim_max; lra).
  split; intros f a Hs Ha.
  - apply grid_session_control in Hs.
    destruct Hs as (_ & _ & _ & Hangle & _).
    destruct (Hangle a Ha) as (a0 & ->). apply clamp_in_range, Hle.
  - apply barrier_session_control in Hs.
    destruct Hs as (_ & _ & _ & _ & Hangle & _).
    destruct (Hangle a Ha) as (a0 & ->). apply clamp_in_range, Hle.
Qed.

Lemma launch_angle_within_bounds_witness :
  (@aim_min sample_host <= - (355 # 226) <= aim_max)%Q.
Proof.
  assert (Hpi : (7 # 10 <= @Math_PI sample_host)%Q) by (vm_compute; discriminate).
  apply (proj1 (launch_angle_within_bounds sample_host sample_pointer Hpi)
           sample_grid_flight (- (355 # 226))%Q sample_grid_flight_session).
  vm_compute. reflexivity.
Defined.

(** X17: where the balls of the grid revision are.  On a canvas at least 14
    wide and 38 high, in every state of a session every ball of [balls] has
    its centre at least [BALL_RADIUS] from both side walls and from the top;
    a resting ball lies on the base line with zero velocity, a flying ball
    has the velocity components of its launch up to their signs; the
    launcher position and the recorded landing are within the side walls. *)
Theorem grid_session_balls_in_field
  (host : Host) (pointer : HostPointer) (f : GridEvents.frame) :
  (2 * BALL_RADIUS <= GAME_WIDTH)%Q -> (38 <= GAME_HEIGHT)%Q ->
  GridEvents.session f ->
  Grid.baseY (GridEvents.game f) = (GAME_HEIGHT - 24)%Q /\
  (BALL_RADIUS <= Grid.baseBallPosition (GridEvents.game f)
   <= GAME_WIDTH - BALL_RADIUS)%Q /\
  (forall x, Grid.activeBallChainLanding (GridEvents.game f) = JS.Num x ->
             (BALL_RADIUS <= x <= GAME_WIDTH - BALL_RADIUS)%Q) /\
  forall b, In b (Grid.balls (GridEvents.game f)) ->
    in_field (Grid.Ball.x b) (Grid.Ball.y b) /\
    if Grid.Ball.resting b
    then Grid.Ball.y b = (GAME_HEIGHT - 24 - BALL_RADIUS)%Q /\
         Grid.Ball.vx b = 0%Q /\ Grid.Ball.vy b = 0%Q
    else same_speed
           (Math_cos (JS.to_number (Grid.turnAngle (GridEvents.game f)))
            * Grid.BALL_SPEED) (Grid.Ball.vx b) /\
         same_speed
           (Math_sin (JS.to_number (Grid.turnAngle (GridEvents.game f)))
            * Grid.BALL_SPEED) (Grid.Ball.vy b).
Proof.
  intros Hwide Hhigh Hs.
  destruct (grid_session_geometry Hwide Hhigh f Hs) as (Hbase & Hpos & Hland & Hballs).
  split; [exact Hbase|]. split; [exact Hpos|]. split; [exact Hland|].
  intros b Hb. rewrite Forall_forall in Hballs.
  specialize (Hballs b (proj2 (list_elem_of_In _ _) Hb)).
  destruct Hballs as (Hin & Hrest). split; [exact Hin|].
  rewrite Hbase in Hrest. exact Hrest.
Qed.

Lemma grid_session_balls_in_field_witness :
  exists b,
    In b (Grid.balls (GridEvents.game sample_grid_flight)) /\
    @in_field sample_host (Grid.Ball.x b) (Grid.Ball.y b).
Proof.
  assert (Hb : { b | Grid.balls (GridEvents.game sample_grid_flight) = [b] })
    by (eexists; vm_compute; reflexivity).
  destruct Hb as [b Hb]. exists b.
  assert (Hin : In b (Grid.balls (GridEvents.game sample_grid_flight)))
    by (rewrite Hb; left; reflexivity).
  split; [exact Hin|].
  apply (grid_session_balls_in_field sample_host sample_pointer
           sample_grid_flight); [vm_compute; discriminate | vm_compute; discriminate
                                 | exact sample_grid_flight_session | exact Hin].
Defined.

(** ** Walls, colours, pointer positions and frame times *)

(** X18: [Ball.update] keeps a ball inside the field.  In both revisions,
    for every time step that is not negative and on a canvas at least two
    ball radii wide, a flying ball whose centre is at least [BALL_RADIUS]
    from the side walls and from the top is so again after [update]; each
    velocity component is kept or negated, never rescaled; the ball stays in
    flight, and the barrier revision records the position before the move
    in [prevX], [prevY].  A resting ball is not changed at all. *)
Theorem ball_update_stays_in_field (host : Host) (delta : Q) :
  (0 <= delta)%Q -> (2 * BALL_RADIUS <= GAME_WIDTH)%Q ->
  (forall b : Grid.Ball.t,
      (Grid.Ball.resting b = true -> Grid.Ball.update delta b = b) /\
      (Grid.Ball.resting b = false -> in_field (Grid.Ball.x b) (Grid.Ball.y b) ->
       in_field (Grid.Ball.x (Grid.Ball.update delta b))
                (Grid.Ball.y (Grid.Ball.update delta b)) /\
       same_speed (Grid.Ball.vx b) (Grid.Ball.vx (Grid.Ball.update delta b)) /\
       same_speed (Grid.Ball.vy b) (Grid.Ball.vy (Grid.Ball.update delta b)) /\
       Grid.Ball.resting (Grid.Ball.update delta b) = false)) /\
  (forall b : Barrier.Ball.t,
      (Barrier.Ball.resting b = true -> Barrier.Ball.update delta b = b) /\
      (Barrier.Ball.resting b = false ->
       in_field (Barrier.Ball.x b) (Barrier.Ball.y b) ->
       in_field (Barrier.Ball.x (Barrier.Ball.update delta b))
                (Barrier.Ball.y (Barrier.Ball.update delta b)) /\
       same_speed (Barrier.Ball.vx b) (Barrier.Ball.vx (Barrier.Ball.update delta b)) /\
       same_speed (Barrier.Ball.vy b) (Barrier.Ball.vy (Barrier.Ball.update delta b)) /\
       Barrier.Ball.resting (Barrier.Ball.update delta b) = false /\
       Barrier.Ball.prevX (Barrier.Ball.update delta b) = Barrier.Ball.x b /\
       Barrier.Ball.prevY (Barrier.Ball.update delta b) = Barrier.Ball.y b)).
Proof.
  intros Hd Hw. split; intros b; split.
  - intros Hr. unfold Grid.Ball.update. rewrite Hr. reflexivity.
  - intros Hr Hf. apply (grid_ball_update_field delta b Hd Hw Hr Hf).
  - intros Hr. unfold Barrier.Ball.update. rewrite Hr. reflexivity.
  - intros Hr Hf. apply (barrier_ball_update_field delta b Hd Hw Hr Hf).
Qed.

Lemma ball_update_stays_in_field_witness :
  @in_field sample_host
    (Grid.Ball.x (@Grid.Ball.update sample_host (1 # 100) (Grid.Ball.mk 8 8 (-620) (-620) false)))
    (Grid.Ball.y (@Grid.Ball.update sample_host (1 # 100) (Grid.Ball.mk 8 8 (-620) (-620) false))).
Proof.
  apply (proj1 (ball_update_stays_in_field sample_host (1 # 100)
                  ltac:(vm_compute; discriminate) ltac:(vm_compute; discriminate))
               (Grid.Ball.mk 8 8 (-620) (-620) false)).
  - reflexivity.
  - vm_compute. repeat split; discriminate.
Defined.

(** X19: the fill colour of a block.  [draw] reads
    [BLOCK_COLORS[min(7, floor((strength - 1) / 3))]]: for every strength
    from 1 on this is a colour of the array, the last one from strength 22
    on; for a strength of 0 or less the index is negative and the colour is
    [undefined]. *)
Theorem block_fill_colour (strength : Z) :
  (1 <= strength ->
   colorIndex strength = Z.min 7 ((strength - 1) / 3) /\
   exists c, fillStyle strength = Some c /\ In c BLOCK_COLORS) /\
  (22 <= strength -> fillStyle strength = Some "#fe5f75"%string) /\
  (strength <= 0 -> fillStyle strength = None).
Proof.
  pose proof (colorIndex_value strength) as Hv.
  split; [|split].
  - intros Hs. split; [exact Hv|apply fillStyle_defined, Hs].
  - intros Hs. unfold fillStyle. cbv zeta. rewrite Hv.
    assert (7 <= (strength - 1) / 3) by (apply Z.div_le_lower_bound; lia).
    rewrite Z.min_l by lia. reflexivity.
  - intros Hs. unfold fillStyle. cbv zeta. rewrite Hv.
    assert ((strength - 1) / 3 < 0) by (apply Z.div_lt_upper_bound; lia).
    rewrite Z.min_r by lia.
    destruct ((strength - 1) / 3 <? 0) eqn:Hneg; [reflexivity|lia].
Qed.



(** X21: the time step of a frame.  [loop] never passes more than 0.033 to
    [update].  The step is 0 on the first frame and on every frame that
    follows a frame with timestamp 0 ([!this.previousTime] takes 0 for
    unset); otherwise it is the elapsed time in seconds when that is at
    most 0.033, and 0.033 when more has elapsed.  It is not negative when
    the timestamps do not decrease; a timestamp before the previous one
    gives a negative step, which the cap lets through. *)
Theorem loop_delta_capped (previousTime : option Q) (timestamp : Q) :
  (cappedDelta previousTime timestamp <= 33 # 1000)%Q /\
  (previousTime = None -> cappedDelta previousTime timestamp == 0) /\
  (forall p, previousTime = Some p ->
     (p == 0 -> cappedDelta previousTime timestamp == 0) /\
     (~ p == 0 ->
      (timestamp - p <= 33 ->
       cappedDelta previousTime timestamp == (timestamp - p) / 1000) /\
      (33 <= timestamp - p -> cappedDelta previousTime timestamp == 33 # 1000) /\
      (p <= timestamp -> 0 <= cappedDelta previousTime timestamp) /\
      (timestamp < p -> cappedDelta previousTime timestamp < 0)))%Q.
Proof.
  pose proof (cappedDelta_range previousTime timestamp) as (Hcap & Hfalsy & Hmono).
  split; [exact Hcap|]. split.
  - intros ->. apply Hfalsy. reflexivity.
  - intros p ->. split.
    + intros Hp. apply Hfalsy. cbn [falsy_time]. apply Qeq_bool_iff, Hp.
    + intros Hp.
      assert (Hf : falsy_time (Some p) = false).
      { cbn [falsy_time]. destruct (Qeq_bool p 0) eqn:E; [|reflexivity].
        apply Qeq_bool_iff in E. contradiction. }
      unfold cappedDelta in *. rewrite Hf in *. cbv zeta. unfold JS.Math_min.
      assert (Hdiv : ((timestamp - p) / 1000 == (timestamp - p) * (1 # 1000))%Q)
        by (field).
      split; [|split; [|split]].
      * intros Hle. apply Q.min_l. rewrite Hdiv. lra.
      * intros Hle. apply Q.min_r. rewrite Hdiv. lra.
      * intros Hle. apply Hmono. exact Hle.
      * intros Hlt. eapply Qle_lt_trans; [apply Q.le_min_l|]. rewrite Hdiv. lra.
Qed.

(** ** The candidate of [spawnFloatingBlock] *)

Section BarrierCandidates.
Context `{Host}.

Lemma advance_add a : forall b r, RNG.advance (a + b) r = RNG.advance b (RNG.advance a r).
Proof.
  induction a as [|a IH]; intros b r; [reflexivity|].
  cbn [Nat.add RNG.advance]. apply IH.
Qed.

Lemma createCandidate_rng g :
  Barrier.rng (snd (Barrier.createCandidate g)) = RNG.advance 3 (Barrier.rng g) /\
  Barrier.barrierBlocks (snd (Barrier.createCandidate g)) = Barrier.barrierBlocks g.
Proof.
  unfold Barrier.createCandidate. cbv zeta. cbn [RNG.advance].
  destruct (RNG.next (Barrier.rng g)) as [v1 r1].
  cbn [Barrier.rng Barrier.set_rng snd].
  destruct (RNG.next r1) as [v2 r2]. cbn [snd].
  destruct (RNG.next r2) as [v3 r3]. cbn [snd]. split; reflexivity.
Qed.

Lemma overlapping_blocks c g g' :
  Barrier.barrierBlocks g' = Barrier.barrierBlocks g ->
  Barrier.isBarrierOverlapping c g' = Barrier.isBarrierOverlapping c g.
Proof. unfold Barrier.isBarrierOverlapping. intros ->. reflexivity. Qed.

Lemma retry_selects n :
  forall c g,
    exists k,
      (k <= n)%nat /\
      Barrier.rng (snd (Barrier.retry n c g)) = RNG.advance (3 * k) (Barrier.rng g) /\
      Barrier.barrierBlocks (snd (Barrier.retry n c g)) = Barrier.barrierBlocks g /\
      ((k < n)%nat ->
       Barrier.isBarrierOverlapping (fst (Barrier.retry n c g)) g = false).
Proof.
  induction n as [|n IH]; intros c g; cbn [Barrier.retry].
  - exists O. split; [lia|]. split; [reflexivity|]. split; [reflexivity|]. lia.
  - destruct (Barrier.isBarrierOverlapping c g) eqn:Hov; cbn [negb].
    + destruct (createCandidate_rng g) as [Hr Hb].
      destruct (Barrier.createCandidate g) as [c1 g1]. cbn [snd] in Hr, Hb.
      destruct (IH c1 g1) as (k & Hk & Hrng & Hbb & Hfree).
      exists (S k). split; [lia|]. split; [|split].
      * rewrite Hrng, Hr. replace (3 * S k)%nat with (3 + 3 * k)%nat by lia.
        rewrite advance_add. reflexivity.
      * rewrite Hbb, Hb. reflexivity.
      * intros Hlt. rewrite <- (overlapping_blocks _ g g1 Hb). apply Hfree. lia.
    + exists O. split; [lia|]. split; [reflexivity|]. split; [reflexivity|].
      intros _. exact Hov.
Qed.

Lemma not_overlapping_gap c g :
  Barrier.isBarrierOverlapping c g = false ->
  forall b, In b (Barrier.barrierBlocks g) ->
    ((Barrier.BarrierBlock.size c + 24) * (Barrier.BarrierBlock.size c + 24)
     <= (Barrier.BarrierBlock.x b - Barrier.BarrierBlock.x c)
        * (Barrier.BarrierBlock.x b - Barrier.BarrierBlock.x c)
        + (Barrier.BarrierBlock.y b - Barrier.BarrierBlock.y c)
          * (Barrier.BarrierBlock.y b - Barrier.BarrierBlock.y c))%Q.
Proof.
  unfold Barrier.isBarrierOverlapping. cbv zeta. intros Hov b Hb.
  apply not_true_iff_false in Hov.
  apply Qltb_ge. apply not_true_iff_false. intros Hlt. apply Hov.
  apply existsb_exists. exists b. split; [exact Hb|exact Hlt].
Qed.

End BarrierCandidates.



(** ** Particles and [Math.random()] are cosmetic (grid revision) *)

Ltac core_fields H :=
  let H' := fresh H in
  pose proof H as H'; unfold grid_core in H';
  injection H' as ? ? ? ? ? ? ? ? ? ? ? ? ? ? ? ? ?.

Ltac core_solve := unfold grid_core; cbn; congruence.

Section GridCosmetic.
Context `{Host}.

Lemma grid_hit_cosmetic rect block ball g1 g2 :
  grid_core g1 = grid_core g2 ->
  fst (Grid.hit rect block ball g1) = fst (Grid.hit rect block ball g2) /\
  grid_core (snd (Grid.hit rect block ball g1))
  = grid_core (snd (Grid.hit rect block ball g2)).
Proof.
  intros Hc. core_fields Hc. unfold Grid.hit. cbv zeta.
  destruct (Block.is_pickup block); [|destruct (Block.is_block block)];
    cbn [fst snd]; (split; [reflexivity|]);
    rewrite !spawnHitParticles_core; core_solve.
Qed.

Lemma grid_visit_cosmetic block ball g1 g2 :
  grid_core g1 = grid_core g2 ->
  fst (Grid.visit block ball g1) = fst (Grid.visit block ball g2) /\
  grid_core (snd (Grid.visit block ball g1))
  = grid_core (snd (Grid.visit block ball g2)).
Proof.
  intros Hc. unfold Grid.visit.
  destruct (Block.destroyed block); [split; [reflexivity|exact Hc]|].
  destruct (Block.rect block) as [rect|]; [|split; [reflexivity|exact Hc]].
  destruct (circleRectCollision_at _ _ rect); [|split; [reflexivity|exact Hc]].
  apply grid_hit_cosmetic, Hc.
Qed.

Lemma grid_visit_all_cosmetic bs :
  forall ball g1 g2,
    grid_core g1 = grid_core g2 ->
    fst (Grid.visit_all bs ball g1) = fst (Grid.visit_all bs ball g2) /\
    grid_core (snd (Grid.visit_all bs ball g1))
    = grid_core (snd (Grid.visit_all bs ball g2)).
Proof.
  induction bs as [|block rest IH]; intros ball g1 g2 Hc; cbn [Grid.visit_all].
  - split; [reflexivity|exact Hc].
  - destruct (grid_visit_cosmetic block ball g1 g2 Hc) as [Hf Hs].
    destruct (Grid.visit block ball g1) as [[b1 ball1] g1'].
    destruct (Grid.visit block ball g2) as [[b2 ball2] g2'].
    cbn [fst snd] in Hf, Hs. injection Hf as -> ->.
    destruct (IH ball2 g1' g2' Hs) as [Hf' Hs'].
    destruct (Grid.visit_all rest ball2 g1') as [[r1 ball1'] g1''].
    destruct (Grid.visit_all rest ball2 g2') as [[r2 ball2'] g2''].
    cbn [fst snd] in *. injection Hf' as -> ->. split; [reflexivity|exact Hs'].
Qed.

Lemma grid_handleCollisions_cosmetic ball g1 g2 :
  grid_core g1 = grid_core g2 ->
  fst (Grid.handleCollisions ball g1) = fst (Grid.handleCollisions ball g2) /\
  grid_core (snd (Grid.handleCollisions ball g1))
  = grid_core (snd (Grid.handleCollisions ball g2)).
Proof.
  intros Hc. unfold Grid.handleCollisions.
  assert (Hb : Grid.blocks g1 = Grid.blocks g2) by (core_fields Hc; assumption).
  rewrite Hb.
  destruct (grid_visit_all_cosmetic (Grid.blocks g2) ball g1 g2 Hc) as [Hf Hs].
  destruct (Grid.visit_all (Grid.blocks g2) ball g1) as [[bs1 ball1] g1'].
  destruct (Grid.visit_all (Grid.blocks g2) ball g2) as [[bs2 ball2] g2'].
  cbn [fst snd] in *. injection Hf as -> ->. split; [reflexivity|].
  core_fields Hs. core_solve.
Qed.

Lemma grid_move_ball_cosmetic delta ball g1 g2 :
  grid_core g1 = grid_core g2 ->
  fst (Grid.move_ball delta ball g1) = fst (Grid.move_ball delta ball g2) /\
  grid_core (snd (Grid.move_ball delta ball g1))
  = grid_core (snd (Grid.move_ball delta ball g2)).
Proof.
  intros Hc. unfold Grid.move_ball.
  destruct (grid_handleCollisions_cosmetic (Grid.Ball.update delta ball) g1 g2 Hc)
    as [Hf Hs].
  destruct (Grid.handleCollisions (Grid.Ball.update delta ball) g1) as [ball1 g1'].
  destruct (Grid.handleCollisions (Grid.Ball.update delta ball) g2) as [ball2 g2'].
  cbn [fst snd] in Hf, Hs. subst ball2. core_fields Hs.
  assert (Hy : Grid.baseY g1' = Grid.baseY g2') by assumption.
  assert (Hl : Grid.activeBallChainLanding g1' = Grid.activeBallChainLanding g2')
    by assumption.
  rewrite Hy.
  destruct (JS.Qleb (Grid.baseY g2') (Grid.Ball.y ball1 + BALL_RADIUS)
            && JS.Qltb 0 (Grid.Ball.vy ball1)); [|split; [reflexivity|exact Hs]].
  cbn [Grid.activeBallChainLanding Grid.set_restingBalls]. rewrite Hl.
  destruct (JS.is_null (Grid.activeBallChainLanding g2'));
    cbn [fst snd]; (split; [reflexivity|core_solve]).
Qed.

Lemma grid_update_balls_cosmetic delta bs :
  forall g1 g2,
    grid_core g1 = grid_core g2 ->
    fst (Grid.update_balls delta bs g1) = fst (Grid.update_balls delta bs g2) /\
    grid_core (snd (Grid.update_balls delta bs g1))
    = grid_core (snd (Grid.update_balls delta bs g2)).
Proof.
  induction bs as [|ball rest IH]; intros g1 g2 Hc; cbn [Grid.update_balls].
  - split; [reflexivity|exact Hc].
  - destruct (Grid.Ball.resting ball).
    + destruct (IH g1 g2 Hc) as [Hf Hs].
      destruct (Grid.update_balls delta rest g1) as [r1 g1'].
      destruct (Grid.update_balls delta rest g2) as [r2 g2'].
      cbn [fst snd] in *. subst r2. split; [reflexivity|exact Hs].
    + destruct (grid_move_ball_cosmetic delta ball g1 g2 Hc) as [Hf Hs].
      destruct (Grid.move_ball delta ball g1) as [b1 g1'].
      destruct (Grid.move_ball delta ball g2) as [b2 g2'].
      cbn [fst snd] in Hf, Hs. subst b2.
      destruct (IH g1' g2' Hs) as [Hf' Hs'].
      destruct (Grid.update_balls delta rest g1') as [r1 g1''].
      destruct (Grid.update_balls delta rest g2') as [r2 g2''].
      cbn [fst snd] in *. subst r2. split; [reflexivity|exact Hs'].
Qed.

Lemma grid_launch_step_cosmetic delta g1 g2 :
  grid_core g1 = grid_core g2 ->
  grid_core (Grid.launch_step delta g1) = grid_core (Grid.launch_step delta g2).
Proof.
  intros Hc. core_fields Hc. unfold Grid.launch_step.
  replace (Grid.isLaunching g1) with (Grid.isLaunching g2) by congruence.
  destruct (Grid.isLaunching g2) eqn:Hl; [|exact Hc].
  cbn [Grid.pendingBalls Grid.launchTimer Grid.set_launchTimer].
  replace (Grid.pendingBalls g1) with (Grid.pendingBalls g2) by congruence.
  replace (Grid.launchTimer g1) with (Grid.launchTimer g2) by congruence.
  destruct ((Grid.pendingBalls g2 >? 0) && JS.Qleb (Grid.launchTimer g2 - delta) 0);
    core_solve.
Qed.

Lemma grid_simulate_cosmetic delta g1 g2 :
  grid_core g1 = grid_core g2 ->
  grid_core (Grid.simulate delta g1) = grid_core (Grid.simulate delta g2).
Proof.
  intros Hc. unfold Grid.simulate, Grid.particle_step, Grid.ball_step.
  pose proof (grid_launch_step_cosmetic delta g1 g2 Hc) as Hl.
  remember (Grid.launch_step delta g1) as a1 eqn:E1. clear E1.
  remember (Grid.launch_step delta g2) as a2 eqn:E2. clear E2.
  assert (Hb : Grid.balls a1 = Grid.balls a2) by (core_fields Hl; assumption).
  rewrite Hb.
  destruct (grid_update_balls_cosmetic delta (Grid.balls a2) a1 a2 Hl) as [Hf Hs].
  destruct (Grid.update_balls delta (Grid.balls a2) a1) as [bs1 b1].
  destruct (Grid.update_balls delta (Grid.balls a2) a2) as [bs2 b2].
  cbn [fst snd] in Hf, Hs. subst bs2. core_fields Hs. core_solve.
Qed.

Lemma spawnRow_loop_cosmetic fuel :
  forall blockCount taken g1 g2,
    grid_core g1 = grid_core g2 ->
    option_map (fun r => (fst r, grid_core (snd r)))
               (Grid.spawnRow_loop fuel blockCount taken g1)
    = option_map (fun r => (fst r, grid_core (snd r)))
                 (Grid.spawnRow_loop fuel blockCount taken g2).
Proof.
  induction fuel as [|fuel IH]; intros blockCount taken g1 g2 Hc;
    cbn [Grid.spawnRow_loop]; destruct (blockCount >? 0).
  - reflexivity.
  - cbn [option_map fst snd]. rewrite Hc. reflexivity.
  - core_fields Hc.
    replace (Grid.rng g1) with (Grid.rng g2) by congruence.
    destruct (RNG.next (Grid.rng g2)) as [v r].
    cbn [Grid.rng Grid.set_rng].
    case_bool_decide.
    + apply IH. core_solve.
    + destruct (RNG.next r) as [v2 r2]. apply IH. core_solve.
  - cbn [option_map fst snd]. rewrite Hc. reflexivity.
Qed.

Lemma spawnRow_cosmetic fuel g1 g2 :
  grid_core g1 = grid_core g2 ->
  option_map grid_core (Grid.spawnRow fuel g1)
  = option_map grid_core (Grid.spawnRow fuel g2).
Proof.
  intros Hc. core_fields Hc. unfold Grid.spawnRow.
  replace (Grid.rng g1) with (Grid.rng g2) by congruence.
  destruct (RNG.next (Grid.rng g2)) as [v r].
  match goal with
  | |- context [Grid.spawnRow_loop fuel ?n ∅ (Grid.set_rng r g1)] =>
      pose proof (spawnRow_loop_cosmetic fuel n ∅ (Grid.set_rng r g1)
                    (Grid.set_rng r g2) ltac:(core_solve)) as Hl;
      destruct (Grid.spawnRow_loop fuel n ∅ (Grid.set_rng r g1)) as [[t1 a1]|];
      destruct (Grid.spawnRow_loop fuel n ∅ (Grid.set_rng r g2)) as [[t2 a2]|]
  end; cbn [option_map fst snd] in Hl; try discriminate Hl; [|reflexivity].
  injection Hl as ? ? ? ? ? ? ? ? ? ? ? ? ? ? ? ? ? ?.
  match goal with Ht : t1 = t2 |- _ => subst t2 end.
  replace (Grid.rng a1) with (Grid.rng a2) by congruence.
  destruct (RNG.next (Grid.rng a2)) as [v2 r2].
  destruct (JS.Qltb (65 # 100) v2); [|cbn [option_map]; f_equal; core_solve].
  match goal with
  | |- context [if ?c then _ else _] => destruct c
  end; [|cbn [option_map]; f_equal; core_solve].
  cbn [Grid.rng Grid.set_rng].
  match goal with
  | |- context [randomChoice ?l r2] => destruct (randomChoice l r2) as [c r3]
  end.
  cbn [option_map]. f_equal. core_solve.
Qed.

Lemma grid_finishTurn_cosmetic fuel g1 g2 :
  grid_core g1 = grid_core g2 ->
  option_map grid_core (Grid.finishTurn fuel g1)
  = option_map grid_core (Grid.finishTurn fuel g2).
Proof.
  intros Hc. core_fields Hc. unfold Grid.finishTurn, Grid.stepRowsDown.
  assert (Hs : grid_core (Grid.finishTurn_settle g1)
               = grid_core (Grid.finishTurn_settle g2))
    by (unfold Grid.finishTurn_settle; core_solve).
  remember (Grid.finishTurn_settle g1) as a1 eqn:E1. clear E1.
  remember (Grid.finishTurn_settle g2) as a2 eqn:E2. clear E2.
  core_fields Hs.
  replace (Grid.blocks a1) with (Grid.blocks a2) by congruence.
  destruct (Grid.stepRowsDown_loop (Grid.blocks a2)) as [bs [|]]; cbn [negb].
  - cbn [option_map]. f_equal. unfold Grid.gameOver. core_solve.
  - apply spawnRow_cosmetic. core_solve.
Qed.

Lemma grid_update_cosmetic fuel delta g1 g2 :
  grid_core g1 = grid_core g2 ->
  option_map grid_core (Grid.update fuel delta g1)
  = option_map grid_core (Grid.update fuel delta g2).
Proof.
  intros Hc. unfold Grid.update.
  assert (Ho : Grid.isGameOver g1 = Grid.isGameOver g2) by (core_fields Hc; assumption).
  rewrite Ho. destruct (Grid.isGameOver g2); [cbn [option_map]; f_equal; exact Hc|].
  pose proof (grid_simulate_cosmetic delta g1 g2 Hc) as Hs. cbv zeta.
  remember (Grid.simulate delta g1) as s1 eqn:E1. clear E1.
  remember (Grid.simulate delta g2) as s2 eqn:E2. clear E2.
  assert (Hd : Grid.turn_done s1 = Grid.turn_done s2)
    by (core_fields Hs; unfold Grid.turn_done; congruence).
  rewrite Hd. destruct (Grid.turn_done s2).
  - apply grid_finishTurn_cosmetic, Hs.
  - cbn [option_map]. f_equal. exact Hs.
Qed.

End GridCosmetic.

(** ** Particles and [Math.random()] are cosmetic (barrier revision) *)

Ltac barrier_core_fields H :=
  let H' := fresh H in
  pose proof H as H'; unfold barrier_but_particles, barrier_ctl in H';
  injection H' as ? ? ? ? ? ? ? ? ? ? ? ? ? ? ? ? ? ?.

Ltac barrier_core_solve :=
  unfold barrier_but_particles, barrier_ctl; cbn; congruence.

Section BarrierCosmetic.
Context `{Host}.

Lemma createCandidate_cosmetic g1 g2 :
  barrier_but_particles g1 = barrier_but_particles g2 ->
  fst (Barrier.createCandidate g1) = fst (Barrier.createCandidate g2) /\
  barrier_but_particles (snd (Barrier.createCandidate g1))
  = barrier_but_particles (snd (Barrier.createCandidate g2)).
Proof.
  intros Hc. barrier_core_fields Hc. unfold Barrier.createCandidate. cbv zeta.
  replace (Barrier.rng g1) with (Barrier.rng g2) by congruence.
  replace (Barrier.turn g1) with (Barrier.turn g2) by congruence.
  destruct (RNG.next (Barrier.rng g2)) as [v1 r1].
  cbn [Barrier.rng Barrier.set_rng].
  destruct (RNG.next r1) as [v2 r2].
  destruct (RNG.next r2) as [v3 r3].
  cbn [fst snd]. split; [reflexivity|barrier_core_solve].
Qed.

Lemma overlapping_cosmetic c g1 g2 :
  barrier_but_particles g1 = barrier_but_particles g2 ->
  Barrier.isBarrierOverlapping c g1 = Barrier.isBarrierOverlapping c g2.
Proof.
  intros Hc. barrier_core_fields Hc. apply overlapping_blocks. congruence.
Qed.

Lemma retry_cosmetic n :
  forall c g1 g2,
    barrier_but_particles g1 = barrier_but_particles g2 ->
    fst (Barrier.retry n c g1) = fst (Barrier.retry n c g2) /\
    barrier_but_particles (snd (Barrier.retry n c g1))
    = barrier_but_particles (snd (Barrier.retry n c g2)).
Proof.
  induction n as [|n IH]; intros c g1 g2 Hc; cbn [Barrier.retry].
  - split; [reflexivity|exact Hc].
  - rewrite (overlapping_cosmetic c g1 g2 Hc).
    destruct (negb (Barrier.isBarrierOverlapping c g2));
      [split; [reflexivity|exact Hc]|].
    destruct (createCandidate_cosmetic g1 g2 Hc) as [Hf Hs].
    destruct (Barrier.createCandidate g1) as [c1 a1].
    destruct (Barrier.createCandidate g2) as [c2 a2].
    cbn [fst snd] in Hf, Hs. subst c2. apply IH, Hs.
Qed.

Lemma spawnFloatingBlock_cosmetic force g1 g2 :
  barrier_but_particles g1 = barrier_but_particles g2 ->
  barrier_but_particles (Barrier.spawnFloatingBlock force g1)
  = barrier_but_particles (Barrier.spawnFloatingBlock force g2).
Proof.
  intros Hc. unfold Barrier.spawnFloatingBlock.
  assert (Ho : Barrier.isGameOver g1 = Barrier.isGameOver g2)
    by (barrier_core_fields Hc; assumption).
  rewrite Ho. destruct (Barrier.isGameOver g2); [exact Hc|].
  destruct (createCandidate_cosmetic g1 g2 Hc) as [Hf Hs].
  destruct (Barrier.createCandidate g1) as [c1 a1].
  destruct (Barrier.createCandidate g2) as [c2 a2].
  cbn [fst snd] in Hf, Hs. subst c2.
  destruct (retry_cosmetic Barrier.attempts c1 a1 a2 Hs) as [Hf' Hs'].
  destruct (Barrier.retry Barrier.attempts c1 a1) as [d1 b1].
  destruct (Barrier.retry Barrier.attempts c1 a2) as [d2 b2].
  cbn [fst snd] in Hf', Hs'. subst d2. barrier_core_fields Hs'.
  replace (Barrier.barrierBlocks b1) with (Barrier.barrierBlocks b2) by congruence.
  destruct (negb force && (MAX_FLOATING_BLOCKS <=? length (Barrier.barrierBlocks b2))%nat);
    [exact Hs'|].
  destruct (force && (MAX_FLOATING_BLOCKS <=? length (Barrier.barrierBlocks b2))%nat);
    barrier_core_solve.
Qed.

Lemma barrier_hit_cosmetic i barrier ball g1 g2 :
  barrier_but_particles g1 = barrier_but_particles g2 ->
  fst (Barrier.hit i barrier ball g1) = fst (Barrier.hit i barrier ball g2) /\
  barrier_but_particles (snd (Barrier.hit i barrier ball g1))
  = barrier_but_particles (snd (Barrier.hit i barrier ball g2)).
Proof.
  intros Hc. barrier_core_fields Hc. unfold Barrier.hit. cbv zeta.
  cbn [fst snd]. split; [reflexivity|].
  set (b1 := Barrier.BarrierBlock.set_strength _ barrier).
  assert (Hp : barrier_but_particles
                 (Barrier.spawnHitParticles (Barrier.BarrierBlock.x b1)
                    (Barrier.BarrierBlock.y b1) "#f5f7fb"
                    (Barrier.set_score (Barrier.score
                       (Barrier.set_barrierBlocks
                          (<[i:=b1]> (Barrier.barrierBlocks g1)) g1) + 8)
                       (Barrier.set_barrierBlocks
                          (<[i:=b1]> (Barrier.barrierBlocks g1)) g1)))
               = barrier_but_particles
                   (Barrier.spawnHitParticles (Barrier.BarrierBlock.x b1)
                      (Barrier.BarrierBlock.y b1) "#f5f7fb"
                      (Barrier.set_score (Barrier.score
                         (Barrier.set_barrierBlocks
                            (<[i:=b1]> (Barrier.barrierBlocks g2)) g2) + 8)
                         (Barrier.set_barrierBlocks
                            (<[i:=b1]> (Barrier.barrierBlocks g2)) g2)))).
  { rewrite !barrier_spawnHitParticles_frame. barrier_core_solve. }
  match type of Hp with
  | barrier_but_particles ?a1 = barrier_but_particles ?a2 =>
      remember a1 as p1 eqn:E1; remember a2 as p2 eqn:E2; clear E1 E2
  end.
  destruct (Barrier.BarrierBlock.strength b1 <=? 0); [|exact Hp].
  apply spawnFloatingBlock_cosmetic.
  rewrite !barrier_spawnExplosion_frame.
  barrier_core_fields Hp. barrier_core_solve.
Qed.

Lemma visit_from_cosmetic fuel :
  forall i ball g1 g2,
    barrier_but_particles g1 = barrier_but_particles g2 ->
    option_map (fun r => (fst r, barrier_but_particles (snd r)))
               (Barrier.visit_from fuel i ball g1)
    = option_map (fun r => (fst r, barrier_but_particles (snd r)))
                 (Barrier.visit_from fuel i ball g2).
Proof.
  induction fuel as [|fuel IH]; intros i ball g1 g2 Hc; [reflexivity|].
  cbn [Barrier.visit_from].
  assert (Hb : Barrier.barrierBlocks g1 = Barrier.barrierBlocks g2)
    by (barrier_core_fields Hc; assumption).
  rewrite Hb.
  destruct (Barrier.barrierBlocks g2 !! i) as [barrier|];
    [|cbn [option_map fst snd]; rewrite Hc; reflexivity].
  destruct (Barrier.BarrierBlock.destroyed barrier); [apply IH, Hc|].
  destruct (circleRectCollision_at _ _ _); [|apply IH, Hc].
  destruct (barrier_hit_cosmetic i barrier ball g1 g2 Hc) as [Hf Hs].
  destruct (Barrier.hit i barrier ball g1) as [ball1 a1].
  destruct (Barrier.hit i barrier ball g2) as [ball2 a2].
  cbn [fst snd] in Hf, Hs. subst ball2. apply IH, Hs.
Qed.

Lemma barrier_handleCollisions_cosmetic ball g1 g2 :
  barrier_but_particles g1 = barrier_but_particles g2 ->
  fst (Barrier.handleCollisions ball g1) = fst (Barrier.handleCollisions ball g2) /\
  barrier_but_particles (snd (Barrier.handleCollisions ball g1))
  = barrier_but_particles (snd (Barrier.handleCollisions ball g2)).
Proof.
  intros Hc. unfold Barrier.handleCollisions.
  assert (Hb : Barrier.barrierBlocks g1 = Barrier.barrierBlocks g2)
    by (barrier_core_fields Hc; assumption).
  rewrite Hb.
  pose proof (visit_from_cosmetic
                (Barrier.visit_fuel (length (Barrier.barrierBlocks g2))) 0 ball g1 g2 Hc)
    as Hv.
  destruct (Barrier.visit_from _ 0 ball g1) as [[ball1 a1]|];
    destruct (Barrier.visit_from _ 0 ball g2) as [[ball2 a2]|];
    cbn [option_map fst snd] in Hv; try discriminate Hv.
  - injection Hv as ? ? ? ? ? ? ? ? ? ? ? ? ? ? ? ? ? ? ?.
    subst ball2. cbn [fst snd]. split; [reflexivity|barrier_core_solve].
  - split; [reflexivity|exact Hc].
Qed.

Lemma barrier_move_ball_cosmetic delta ball g1 g2 :
  barrier_but_particles g1 = barrier_but_particles g2 ->
  fst (Barrier.move_ball delta ball g1) = fst (Barrier.move_ball delta ball g2) /\
  barrier_but_particles (snd (Barrier.move_ball delta ball g1))
  = barrier_but_particles (snd (Barrier.move_ball delta ball g2)).
Proof.
  intros Hc. unfold Barrier.move_ball.
  destruct (barrier_handleCollisions_cosmetic (Barrier.Ball.update delta ball) g1 g2 Hc)
    as [Hf Hs].
  destruct (Barrier.handleCollisions (Barrier.Ball.update delta ball) g1) as [ball1 a1].
  destruct (Barrier.handleCollisions (Barrier.Ball.update delta ball) g2) as [ball2 a2].
  cbn [fst snd] in Hf, Hs. subst ball2. barrier_core_fields Hs.
  assert (Hy : Barrier.baseY a1 = Barrier.baseY a2) by assumption.
  assert (Hl : Barrier.activeBallChainLanding a1 = Barrier.activeBallChainLanding a2)
    by assumption.
  rewrite Hy.
  destruct (JS.Qleb (Barrier.baseY a2) (Barrier.Ball.y ball1 + BALL_RADIUS)
            && JS.Qltb 0 (Barrier.Ball.vy ball1)); [|split; [reflexivity|exact Hs]].
  cbn [Barrier.activeBallChainLanding Barrier.set_restingBalls]. rewrite Hl.
  destruct (JS.is_null (Barrier.activeBallChainLanding a2));
    cbn [fst snd]; (split; [reflexivity|barrier_core_solve]).
Qed.

Lemma barrier_update_balls_cosmetic delta bs :
  forall g1 g2,
    barrier_but_particles g1 = barrier_but_particles g2 ->
    fst (Barrier.update_balls delta bs g1) = fst (Barrier.update_balls delta bs g2) /\
    barrier_but_particles (snd (Barrier.update_balls delta bs g1))
    = barrier_but_particles (snd (Barrier.update_balls delta bs g2)).
Proof.
  induction bs as [|ball rest IH]; intros g1 g2 Hc; cbn [Barrier.update_balls].
  - split; [reflexivity|exact Hc].
  - destruct (Barrier.Ball.resting ball).
    + destruct (IH g1 g2 Hc) as [Hf Hs].
      destruct (Barrier.update_balls delta rest g1) as [r1 a1].
      destruct (Barrier.update_balls delta rest g2) as [r2 a2].
      cbn [fst snd] in *. subst r2. split; [reflexivity|exact Hs].
    + destruct (barrier_move_ball_cosmetic delta ball g1 g2 Hc) as [Hf Hs].
      destruct (Barrier.move_ball delta ball g1) as [b1 a1].
      destruct (Barrier.move_ball delta ball g2) as [b2 a2].
      cbn [fst snd] in Hf, Hs. subst b2.
      destruct (IH a1 a2 Hs) as [Hf' Hs'].
      destruct (Barrier.update_balls delta rest a1) as [r1 a1'].
      destruct (Barrier.update_balls delta rest a2) as [r2 a2'].
      cbn [fst snd] in *. subst r2. split; [reflexivity|exact Hs'].
Qed.

Lemma barrier_launch_step_cosmetic delta g1 g2 :
  barrier_but_particles g1 = barrier_but_particles g2 ->
  barrier_but_particles (Barrier.launch_step delta g1)
  = barrier_but_particles (Barrier.launch_step delta g2).
Proof.
  intros Hc. barrier_core_fields Hc. unfold Barrier.launch_step.
  replace (Barrier.isLaunching g1) with (Barrier.isLaunching g2) by congruence.
  destruct (Barrier.isLaunching g2) eqn:Hl; [|exact Hc].
  cbn [Barrier.pendingBalls Barrier.launchTimer Barrier.set_launchTimer].
  replace (Barrier.pendingBalls g1) with (Barrier.pendingBalls g2) by congruence.
  replace (Barrier.launchTimer g1) with (Barrier.launchTimer g2) by congruence.
  destruct ((Barrier.pendingBalls g2 >? 0)
            && JS.Qleb (Barrier.launchTimer g2 - delta) 0);
    [apply spawnFloatingBlock_cosmetic|]; barrier_core_solve.
Qed.

Lemma barrier_simulate_cosmetic delta g1 g2 :
  barrier_but_particles g1 = barrier_but_particles g2 ->
  barrier_but_particles (Barrier.simulate delta g1)
  = barrier_but_particles (Barrier.simulate delta g2).
Proof.
  intros Hc. unfold Barrier.simulate, Barrier.particle_step, Barrier.ball_step.
  pose proof (barrier_launch_step_cosmetic delta g1 g2 Hc) as Hl.
  remember (Barrier.launch_step delta g1) as a1 eqn:E1. clear E1.
  remember (Barrier.launch_step delta g2) as a2 eqn:E2. clear E2.
  assert (Hb : Barrier.balls a1 = Barrier.balls a2)
    by (barrier_core_fields Hl; assumption).
  rewrite Hb.
  destruct (barrier_update_balls_cosmetic delta (Barrier.balls a2) a1 a2 Hl) as [Hf Hs].
  destruct (Barrier.update_balls delta (Barrier.balls a2) a1) as [bs1 b1].
  destruct (Barrier.update_balls delta (Barrier.balls a2) a2) as [bs2 b2].
  cbn [fst snd] in Hf, Hs. subst bs2. barrier_core_fields Hs. barrier_core_solve.
Qed.

Lemma barrier_update_cosmetic delta g1 g2 :
  barrier_but_particles g1 = barrier_but_particles g2 ->
  barrier_but_particles (Barrier.update delta g1)
  = barrier_but_particles (Barrier.update delta g2).
Proof.
  intros Hc. unfold Barrier.update.
  assert (Ho : Barrier.isGameOver g1 = Barrier.isGameOver g2)
    by (barrier_core_fields Hc; assumption).
  rewrite Ho. destruct (Barrier.isGameOver g2); [exact Hc|].
  pose proof (barrier_simulate_cosmetic delta g1 g2 Hc) as Hs. cbv zeta.
  remember (Barrier.simulate delta g1) as s1 eqn:E1. clear E1.
  remember (Barrier.simulate delta g2) as s2 eqn:E2. clear E2.
  assert (Hd : Barrier.turn_done s1 = Barrier.turn_done s2)
    by (barrier_core_fields Hs; unfold Barrier.turn_done; congruence).
  rewrite Hd. destruct (Barrier.turn_done s2); [|exact Hs].
  barrier_core_fields Hs. unfold Barrier.finishTurn. barrier_core_solve.
Qed.

End BarrierCosmetic.

(** X23: particles and [Math.random()] are cosmetic.  In both revisions
    the fields of the session other than [particles] after [update] are
    determined by those fields before it: two sessions that differ only in
    their particles and in the values that [Math.random()] has returned or
    will return stay equal on every other field (generator, blocks or
    barriers, balls, score, chain, flags, timers), and in the grid revision
    [update] returns for the one exactly when it returns for the other. *)
Theorem particles_are_cosmetic (host : Host) :
  (forall fuel delta g1 g2,
      grid_core g1 = grid_core g2 ->
      option_map grid_core (Grid.update fuel delta g1)
      = option_map grid_core (Grid.update fuel delta g2)) /\
  (forall delta g1 g2,
      barrier_but_particles g1 = barrier_but_particles g2 ->
      barrier_but_particles (Barrier.update delta g1)
      = barrier_but_particles (Barrier.update delta g2)).
Proof.
  split.
  - intros fuel delta g1 g2. apply grid_update_cosmetic.
  - intros delta g1 g2. apply barrier_update_cosmetic.
Qed.

(** ** When the aim line is drawn *)

Section BarrierIdle.
Context `{Host} `{HostPointer}.

Lemma barrier_session_idle_angle f :
  BarrierEvents.session f ->
  Barrier.isLaunching (BarrierEvents.game f) = false ->
  Barrier.isAiming (BarrierEvents.game f) = false ->
  Barrier.turnAngle (BarrierEvents.game f) = None.
Proof.
  assert (Hupd : forall delta g,
             (Barrier.isLaunching g = false -> Barrier.isAiming g = false ->
              Barrier.turnAngle g = None) ->
             Barrier.isLaunching (Barrier.update delta g) = false ->
             Barrier.isAiming (Barrier.update delta g) = false ->
             Barrier.turnAngle (Barrier.update delta g) = None).
  { intros delta g Hinv. unfold Barrier.update.
    destruct (Barrier.isGameOver g); [exact Hinv|]. cbv zeta.
    pose proof (simulate_spec delta g) as Hspec. cbv zeta in Hspec.
    destruct Hspec as (Hmode & _).
    set (s := Barrier.simulate delta g) in *.
    unfold barrier_mode in Hmode.
    destruct (Barrier.turn_done s); [reflexivity|].
    assert (Ha : Barrier.turnAngle s = Barrier.turnAngle g) by congruence.
    assert (Hi : Barrier.isAiming s = Barrier.isAiming g) by congruence.
    assert (Hl : Barrier.isLaunching s = Barrier.isLaunching g) by congruence.
    rewrite Ha, Hi, Hl. exact Hinv. }
  assert (Hreset : forall g, Barrier.turnAngle (Barrier.reset g) = None).
  { intros g. destruct (barrier_reset_ctl g) as (_ & _ & _ & _ & _ & _ & Ha & _).
    exact Ha. }
  induction 1 as [seed|timestamp f Hs IH Hmono|pos f Hs IH|pos f Hs IH|f Hs IH|f Hs IH];
    cbn [BarrierEvents.game BarrierEvents.loop BarrierEvents.start].
  - apply Hupd. intros _ _. apply Hreset.
  - apply Hupd, IH.
  - unfold BarrierEvents.startAim.
    destruct (Barrier.isLaunching (BarrierEvents.game f) || Barrier.isGameOver _);
      [exact IH|].
    destruct pos as [[x y]|]; cbn; intros _ Hx; discriminate Hx.
  - unfold BarrierEvents.moveAim.
    destruct (Barrier.isAiming (BarrierEvents.game f)) eqn:Ha; cbn [negb orb];
      [|intros Hl _; exact (IH Hl eq_refl)].
    destruct (Barrier.isLaunching (BarrierEvents.game f)) eqn:Hl;
      [intros Hx; rewrite Hl in Hx; discriminate Hx|].
    destruct pos as [[x y]|]; cbn; intros _ Hx; congruence.
  - unfold BarrierEvents.endAim.
    destruct (Barrier.isAiming (BarrierEvents.game f)) eqn:Ha; cbn [negb orb];
      [|intros Hl _; exact (IH Hl eq_refl)].
    destruct (Barrier.isLaunching (BarrierEvents.game f)) eqn:Hl;
      [intros Hx; rewrite Hl in Hx; discriminate Hx|].
    cbn [Barrier.turnAngle Barrier.set_isAiming].
    destruct (Barrier.turnAngle (BarrierEvents.game f)) eqn:Hang.
    + unfold Barrier.launchTurn; cbn. intros Hx; discriminate Hx.
    + cbn. intros _ _. exact Hang.
  - intros _ _. apply Hreset.
Qed.

End BarrierIdle.

(** X24: the aim line is drawn exactly while the player aims.  In every
    state of a session of either revision, [turnAngle] is [null] whenever
    the session is neither launching nor aiming; so the second alternative
    of the guard of [drawAim()] in [draw] never holds, and the guard is
    true exactly when [isAiming] is. *)
Theorem aim_drawn_only_while_aiming (host : Host) (pointer : HostPointer) :
  (forall f,
      GridEvents.session f ->
      (Grid.isLaunching (GridEvents.game f) = false ->
       Grid.isAiming (GridEvents.game f) = false ->
       Grid.turnAngle (GridEvents.game f) = None) /\
      aim_drawn (Grid.isAiming (GridEvents.game f))
                (Grid.isLaunching (GridEvents.game f))
                (Grid.turnAngle (GridEvents.game f))
      = Grid.isAiming (GridEvents.game f)) /\
  (forall f,
      BarrierEvents.session f ->
      (Barrier.isLaunching (BarrierEvents.game f) = false ->
       Barrier.isAiming (BarrierEvents.game f) = false ->
       Barrier.turnAngle (BarrierEvents.game f) = None) /\
      aim_drawn (Barrier.isAiming (BarrierEvents.game f))
                (Barrier.isLaunching (BarrierEvents.game f))
                (Barrier.turnAngle (BarrierEvents.game f))
      = Barrier.isAiming (BarrierEvents.game f)).
Proof.
  split; intros f Hs.
  - pose proof (grid_session_control f Hs) as (_ & _ & _ & _ & _ & Hidle & _).
    assert (Hnone : Grid.isLaunching (GridEvents.game f) = false ->
                    Grid.isAiming (GridEvents.game f) = false ->
                    Grid.turnAngle (GridEvents.game f) = None)
      by (intros Hl; apply (Hidle Hl)).
    split; [exact Hnone|]. unfold aim_drawn.
    destruct (Grid.isAiming (GridEvents.game f)); [reflexivity|].
    destruct (Grid.isLaunching (GridEvents.game f)); [reflexivity|].
    rewrite (Hnone eq_refl eq_refl). reflexivity.
  - pose proof (barrier_session_idle_angle f Hs) as Hnone.
    split; [exact Hnone|]. unfold aim_drawn.
    destruct (Barrier.isAiming (BarrierEvents.game f)); [reflexivity|].
    destruct (Barrier.isLaunching (BarrierEvents.game f)); [reflexivity|].
    rewrite (Hnone eq_refl eq_refl). reflexivity.
Qed.

(** ** Counters never go back *)

Section BarrierScore.
Context `{Host}.

Lemma spawnFloatingBlock_score force g :
  Barrier.score (Barrier.spawnFloatingBlock force g) = Barrier.score g.
Proof.
  destruct (spawnFloatingBlock_spec force g) as [Hf _].
  apply but_spawn_fields in Hf. apply Hf.
Qed.

Lemma barrier_move_ball_score delta ball g :
  Barrier.score g <= Barrier.score (snd (Barrier.move_ball delta ball g)).
Proof.
  unfold Barrier.move_ball.
  pose proof (barrier_handleCollisions_spec (Barrier.Ball.update delta ball) g) as Hk.
  destruct (Barrier.handleCollisions (Barrier.Ball.update delta ball) g)
    as [ball1 g1]. destruct Hk as (_ & _ & _ & Hk & _).
  destruct (JS.Qleb _ _ && JS.Qltb _ _); [|exact Hk].
  destruct (JS.is_null (Barrier.activeBallChainLanding
                          (Barrier.set_restingBalls _ g1))); exact Hk.
Qed.

Lemma barrier_update_balls_score delta bs :
  forall g, Barrier.score g <= Barrier.score (snd (Barrier.update_balls delta bs g)).
Proof.
  induction bs as [|ball rest IH]; intros g; cbn [Barrier.update_balls]; [cbn; lia|].
  destruct (Barrier.Ball.resting ball).
  - specialize (IH g).
    destruct (Barrier.update_balls delta rest g) as [rest' g']. exact IH.
  - pose proof (barrier_move_ball_score delta ball g) as Hk.
    destruct (Barrier.move_ball delta ball g) as [ball1 g1]. cbn [snd] in Hk.
    specialize (IH g1).
    destruct (Barrier.update_balls delta rest g1) as [rest' g']. cbn [snd] in *. lia.
Qed.

Lemma barrier_update_score delta g :
  Barrier.score g <= Barrier.score (Barrier.update delta g).
Proof.
  unfold Barrier.update. destruct (Barrier.isGameOver g); [lia|]. cbv zeta.
  assert (Hs : Barrier.score g <= Barrier.score (Barrier.simulate delta g)).
  { unfold Barrier.simulate, Barrier.particle_step, Barrier.ball_step.
    assert (Hl : Barrier.score (Barrier.launch_step delta g) = Barrier.score g).
    { unfold Barrier.launch_step.
      destruct (Barrier.isLaunching g); [|reflexivity].
      destruct ((Barrier.pendingBalls _ >? 0) && JS.Qleb _ 0); [|reflexivity].
      rewrite spawnFloatingBlock_score. reflexivity. }
    pose proof (barrier_update_balls_score delta
                  (Barrier.balls (Barrier.launch_step delta g))
                  (Barrier.launch_step delta g)) as Hk.
    destruct (Barrier.update_balls delta _ _) as [bs g2]. cbn [snd] in Hk.
    cbn [Barrier.score Barrier.set_particles Barrier.set_balls]. lia. }
  destruct (Barrier.turn_done (Barrier.simulate delta g)); exact Hs.
Qed.

End BarrierScore.

(** X25: what [update] never takes back.  In both revisions one call of
    [update] never lowers [score] and moves [turn] on by at most one; in
    the grid revision it never lowers [ballChain] (a pickup adds one), in
    the barrier revision [ballChain] stays as it is.  The pointer handlers
    leave all three as they are: only [reset] sets them back. *)
Theorem update_counters_never_go_back (host : Host) (pointer : HostPointer) :
  (forall fuel delta g g',
      Grid.update fuel delta g = Some g' ->
      Grid.score g <= Grid.score g' /\
      Grid.ballChain g <= Grid.ballChain g' /\
      Grid.turn g <= Grid.turn g' <= Grid.turn g + 1) /\
  (forall delta g,
      Barrier.score g <= Barrier.score (Barrier.update delta g) /\
      Barrier.ballChain (Barrier.update delta g) = Barrier.ballChain g /\
      Barrier.turn g <= Barrier.turn (Barrier.update delta g) <= Barrier.turn g + 1) /\
  (forall pos g,
      (Grid.score (GridEvents.startAim pos g), Grid.ballChain (GridEvents.startAim pos g),
       Grid.turn (GridEvents.startAim pos g))
      = (Grid.score g, Grid.ballChain g, Grid.turn g) /\
      (Grid.score (GridEvents.moveAim pos g), Grid.ballChain (GridEvents.moveAim pos g),
       Grid.turn (GridEvents.moveAim pos g))
      = (Grid.score g, Grid.ballChain g, Grid.turn g) /\
      (Grid.score (GridEvents.endAim g), Grid.ballChain (GridEvents.endAim g),
       Grid.turn (GridEvents.endAim g))
      = (Grid.score g, Grid.ballChain g, Grid.turn g)) /\
  (forall pos g,
      (Barrier.score (BarrierEvents.startAim pos g),
       Barrier.ballChain (BarrierEvents.startAim pos g),
       Barrier.turn (BarrierEvents.startAim pos g))
      = (Barrier.score g, Barrier.ballChain g, Barrier.turn g) /\
      (Barrier.score (BarrierEvents.moveAim pos g),
       Barrier.ballChain (BarrierEvents.moveAim pos g),
       Barrier.turn (BarrierEvents.moveAim pos g))
      = (Barrier.score g, Barrier.ballChain g, Barrier.turn g) /\
      (Barrier.score (BarrierEvents.endAim g), Barrier.ballChain (BarrierEvents.endAim g),
       Barrier.turn (BarrierEvents.endAim g))
      = (Barrier.score g, Barrier.ballChain g, Barrier.turn g)).
Proof.
  split; [|split; [|split]].
  - intros fuel delta g g' Hupd.
    destruct (grid_simulate_step delta g) as (Hmode & _ & Hch & Hsc & _).
    apply grid_mode_all in Hmode as (_ & _ & _ & _ & _ & Mt & _).
    destruct (grid_update_cases _ _ _ _ Hupd)
      as [(Hover & ->)|[(Hover & Hdone & ->)|(Hover & Hdone & Hfin)]].
    + lia.
    + lia.
    + destruct (grid_finishTurn_step _ _ _ Hfin) as (Hflags & _).
      destruct Hflags as (_ & _ & _ & F4 & _ & _ & F7 & F8 & _). lia.
  - intros delta g. split; [apply barrier_update_score|].
    destruct (Barrier.isGameOver g) eqn:Hover.
    { rewrite (update_over delta g Hover). split; [reflexivity|lia]. }
    destruct (update_spec delta g Hover)
      as (_ & _ & _ & _ & _ & _ & Hturn & Hchain & _).
    cbv zeta in Hturn, Hchain. split; [exact Hchain|].
    rewrite Hturn. destruct (Barrier.turn_done (Barrier.simulate delta g)); lia.
  - intros pos g. unfold GridEvents.startAim, GridEvents.moveAim, GridEvents.endAim.
    split; [|split].
    + destruct (Grid.isLaunching g || Grid.isGameOver g); [reflexivity|].
      destruct pos as [[x y]|]; reflexivity.
    + destruct (negb (Grid.isAiming g) || Grid.isLaunching g); [reflexivity|].
      destruct pos as [[x y]|]; reflexivity.
    + destruct (negb (Grid.isAiming g) || Grid.isLaunching g); [reflexivity|].
      cbv zeta. destruct (Grid.turnAngle (Grid.set_isAiming false g)); reflexivity.
  - intros pos g.
    unfold BarrierEvents.startAim, BarrierEvents.moveAim, BarrierEvents.endAim.
    split; [|split].
    + destruct (Barrier.isLaunching g || Barrier.isGameOver g); [reflexivity|].
      destruct pos as [[x y]|]; reflexivity.
    + destruct (negb (Barrier.isAiming g) || Barrier.isLaunching g); [reflexivity|].
      destruct pos as [[x y]|]; reflexivity.
    + destruct (negb (Barrier.isAiming g) || Barrier.isLaunching g); [reflexivity|].
      cbv zeta. destruct (Barrier.turnAngle (Barrier.set_isAiming false g)); reflexivity.
Qed.
